(** * The streaming engine of overwitch (src/engine.c), embedded in Rocq

    The development follows engine.c function by function.  Integers of the
    C code are [Z] with their conversions written out, raw buffers are lists
    of bytes, the four host rings sit behind the function pointers of
    [ow_io_buffers], and every call through a NULL pointer is a fault
    ([None]).  What engine.c takes from its headers and from its
    collaborators (libsamplerate, the DLL) is gathered in the class
    [externals]. *)

From Stdlib Require Import ZArith Floats Uint63 Lia.
From stdpp Require Import base option list strings.

Local Open Scope Z_scope.

(** ** Machine integers *)

Abbreviation uint8 := Z (only parsing).

Definition INT_MAX : Z := 2147483647.

(** Conversion to a 32-bit [int] (LP64: wraps modulo 2^32). *)
Definition to_int (z : Z) : Z := (z + 2 ^ 31) mod 2 ^ 32 - 2 ^ 31.

(** Conversion to [size_t] (LP64: 64 bits). *)
Definition to_size_t (z : Z) : Z := z mod 2 ^ 64.

Definition to_uint16 (z : Z) : Z := z mod 2 ^ 16.

Definition to_uint32 (z : Z) : Z := z mod 2 ^ 32.

(** [htobe16 x]: the two bytes that the 16-bit value [x] occupies once it
    is stored in big-endian order, first byte first. *)
Definition htobe16 (x : Z) : list uint8 :=
  [to_uint16 x / 256; to_uint16 x mod 256].

Definition be16toh (bs : list uint8) : Z :=
  match bs with
  | [hi; lo] => hi * 256 + lo
  | _ => 0
  end.

Definition htobe32 (x : Z) : list uint8 :=
  [to_uint32 x / 16777216; to_uint32 x / 65536 mod 256;
   to_uint32 x / 256 mod 256; to_uint32 x mod 256].

(** [be32toh] yields an [int32_t]. *)
Definition be32toh (bs : list uint8) : Z :=
  match bs with
  | [b3; b2; b1; b0] => to_int (b3 * 16777216 + b2 * 65536 + b1 * 256 + b0)
  | _ => 0
  end.

(** [memset (buf, 0, n)] and a copy of [src] over the start of [buf]. *)
Definition memset0 (buf : list uint8) (n : Z) : list uint8 :=
  replicate (Z.to_nat n) 0 ++ drop (Z.to_nat n) buf.

Definition overwrite (buf src : list uint8) : list uint8 :=
  src ++ drop (length src) buf.

(** The [idx]-th 4-byte cell of a buffer of [float] or [int32_t]. *)
Definition cell4 (buf : list uint8) (idx : nat) : list uint8 :=
  take 4 (drop (4 * idx) buf).

(** ** Enumerations *)

(** Modelled from the spec: the enumeration [ow_engine_status_t] is
    declared in engine.h; its order is the one of section 3,
    [ERROR < STOP < READY < BOOT < WAIT < RUN]. *)
Inductive ow_engine_status_t :=
| OW_STATUS_ERROR
| OW_STATUS_STOP
| OW_STATUS_READY
| OW_STATUS_BOOT
| OW_STATUS_WAIT
| OW_STATUS_RUN.

Definition status_rank (s : ow_engine_status_t) : Z :=
  match s with
  | OW_STATUS_ERROR => -1
  | OW_STATUS_STOP => 0
  | OW_STATUS_READY => 1
  | OW_STATUS_BOOT => 2
  | OW_STATUS_WAIT => 3
  | OW_STATUS_RUN => 4
  end.

Definition status_ltb (a b : ow_engine_status_t) : bool :=
  status_rank a <? status_rank b.

Definition status_leb (a b : ow_engine_status_t) : bool :=
  status_rank a <=? status_rank b.

Definition status_eqb (a b : ow_engine_status_t) : bool :=
  status_rank a =? status_rank b.

(** The enumerators of [ow_err_t] that engine.c names, together with
    [OW_USB_ERROR_CANT_OPEN_DEV], which no function returns but whose
    message the string table carries.  Their numeric values are declared
    in engine.h and stay a parameter wherever they matter. *)
Inductive ow_err_t :=
| OW_OK
| OW_GENERIC_ERROR
| OW_USB_ERROR_LIBUSB_INIT_FAILED
| OW_USB_ERROR_CANT_OPEN_DEV
| OW_USB_ERROR_CANT_SET_USB_CONFIG
| OW_USB_ERROR_CANT_CLAIM_IF
| OW_USB_ERROR_CANT_SET_ALT_SETTING
| OW_USB_ERROR_CANT_CLEAR_EP
| OW_USB_ERROR_CANT_PREPARE_TRANSFER
| OW_USB_ERROR_CANT_FIND_DEV
| OW_INIT_ERROR_NO_READ_SPACE
| OW_INIT_ERROR_NO_WRITE_SPACE
| OW_INIT_ERROR_NO_READ
| OW_INIT_ERROR_NO_WRITE
| OW_INIT_ERROR_NO_GET_TIME
| OW_INIT_ERROR_NO_P2O_AUDIO_BUF
| OW_INIT_ERROR_NO_O2P_AUDIO_BUF
| OW_INIT_ERROR_NO_P2O_MIDI_BUF
| OW_INIT_ERROR_NO_O2P_MIDI_BUF.

#[global] Instance ow_err_t_eq_dec : EqDecision ow_err_t.
Proof. solve_decision. Defined.

#[global] Instance ow_engine_status_t_eq_dec : EqDecision ow_engine_status_t.
Proof. solve_decision. Defined.

(** ** The error strings *)

Definition ob_err_strgs : list string :=
  ["ok";
   "libusb init failed";
   "can't open device";
   "can't set usb config";
   "can't claim usb interface";
   "can't set usb alt setting";
   "can't cleat endpoint";
   "can't prepare transfer";
   "can't find a matching device";
   "'buffer_read_space' not set";
   "'buffer_write_space' not set";
   "'buffer_read' not set";
   "'buffer_write' not set";
   "'get_time' not set";
   "'p2o_audio_buf' not set";
   "'o2p_audio_buf' not set";
   "'p2o_midi_buf' not set";
   "'o2p_midi_buf' not set"]%string.

(** [ow_get_err_str errcode] is [ob_err_strgs[errcode]]; [None] stands for
    a read outside the array. *)
Definition ow_get_err_str (errcode : Z) : option string :=
  if errcode <? 0 then None else ob_err_strgs !! Z.to_nat errcode.

(** The message that names each kind, read off the table; the table has
    no entry that names [OW_GENERIC_ERROR]. *)
Definition err_message (k : ow_err_t) : option string :=
  match k with
  | OW_OK => Some "ok"
  | OW_GENERIC_ERROR => None
  | OW_USB_ERROR_LIBUSB_INIT_FAILED => Some "libusb init failed"
  | OW_USB_ERROR_CANT_OPEN_DEV => Some "can't open device"
  | OW_USB_ERROR_CANT_SET_USB_CONFIG => Some "can't set usb config"
  | OW_USB_ERROR_CANT_CLAIM_IF => Some "can't claim usb interface"
  | OW_USB_ERROR_CANT_SET_ALT_SETTING => Some "can't set usb alt setting"
  | OW_USB_ERROR_CANT_CLEAR_EP => Some "can't cleat endpoint"
  | OW_USB_ERROR_CANT_PREPARE_TRANSFER => Some "can't prepare transfer"
  | OW_USB_ERROR_CANT_FIND_DEV => Some "can't find a matching device"
  | OW_INIT_ERROR_NO_READ_SPACE => Some "'buffer_read_space' not set"
  | OW_INIT_ERROR_NO_WRITE_SPACE => Some "'buffer_write_space' not set"
  | OW_INIT_ERROR_NO_READ => Some "'buffer_read' not set"
  | OW_INIT_ERROR_NO_WRITE => Some "'buffer_write' not set"
  | OW_INIT_ERROR_NO_GET_TIME => Some "'get_time' not set"
  | OW_INIT_ERROR_NO_P2O_AUDIO_BUF => Some "'p2o_audio_buf' not set"
  | OW_INIT_ERROR_NO_O2P_AUDIO_BUF => Some "'o2p_audio_buf' not set"
  | OW_INIT_ERROR_NO_P2O_MIDI_BUF => Some "'p2o_midi_buf' not set"
  | OW_INIT_ERROR_NO_O2P_MIDI_BUF => Some "'o2p_midi_buf' not set"
  end%string.

(** The kinds that [ow_engine_init] and [ow_engine_activate_with_dll]
    return. *)
Definition returned_kinds : list ow_err_t :=
  [OW_OK; OW_GENERIC_ERROR; OW_USB_ERROR_LIBUSB_INIT_FAILED;
   OW_USB_ERROR_CANT_SET_USB_CONFIG; OW_USB_ERROR_CANT_CLAIM_IF;
   OW_USB_ERROR_CANT_SET_ALT_SETTING; OW_USB_ERROR_CANT_CLEAR_EP;
   OW_USB_ERROR_CANT_PREPARE_TRANSFER; OW_USB_ERROR_CANT_FIND_DEV;
   OW_INIT_ERROR_NO_READ_SPACE; OW_INIT_ERROR_NO_WRITE_SPACE;
   OW_INIT_ERROR_NO_READ; OW_INIT_ERROR_NO_WRITE; OW_INIT_ERROR_NO_GET_TIME;
   OW_INIT_ERROR_NO_P2O_AUDIO_BUF; OW_INIT_ERROR_NO_O2P_AUDIO_BUF;
   OW_INIT_ERROR_NO_P2O_MIDI_BUF; OW_INIT_ERROR_NO_O2P_MIDI_BUF].

(** The kinds the entries of the table name, in the order of the table. *)
Definition table_kinds : list ow_err_t :=
  [OW_OK; OW_USB_ERROR_LIBUSB_INIT_FAILED; OW_USB_ERROR_CANT_OPEN_DEV;
   OW_USB_ERROR_CANT_SET_USB_CONFIG; OW_USB_ERROR_CANT_CLAIM_IF;
   OW_USB_ERROR_CANT_SET_ALT_SETTING; OW_USB_ERROR_CANT_CLEAR_EP;
   OW_USB_ERROR_CANT_PREPARE_TRANSFER; OW_USB_ERROR_CANT_FIND_DEV;
   OW_INIT_ERROR_NO_READ_SPACE; OW_INIT_ERROR_NO_WRITE_SPACE;
   OW_INIT_ERROR_NO_READ; OW_INIT_ERROR_NO_WRITE; OW_INIT_ERROR_NO_GET_TIME;
   OW_INIT_ERROR_NO_P2O_AUDIO_BUF; OW_INIT_ERROR_NO_O2P_AUDIO_BUF;
   OW_INIT_ERROR_NO_P2O_MIDI_BUF; OW_INIT_ERROR_NO_O2P_MIDI_BUF].

(** [ow_get_err_str] serves kind [k] under the numbering [enum_value] of
    the header: the index is inside the table and the entry is the message
    of [k]; for a kind without a message of its own, an entry that is not
    the message of another kind. *)
Definition table_serves (enum_value : ow_err_t -> Z) (k : ow_err_t) : Prop :=
  match err_message k with
  | Some s => ow_get_err_str (enum_value k) = Some s
  | None =>
    exists s, ow_get_err_str (enum_value k) = Some s /\
              forall k', err_message k' <> Some s
  end.

(** ** Data of the engine *)

(** Modelled from the spec: [OB_BYTES_PER_SAMPLE] and [OB_MIDI_EVENT_SIZE]
    are macros of the missing header; the spec fixes both to 4
    ([p2o_transfer_size = frames_per_transfer * inputs * 4], 4-byte MIDI
    packets). *)
Definition OB_BYTES_PER_SAMPLE : Z := 4.

Definition OB_MIDI_EVENT_SIZE : Z := 4.

Definition USB_BULK_MIDI_SIZE : Z := 512.

Record ow_device_desc := {
  name : string;
  inputs : Z;
  outputs : Z
}.

(** One block of a transfer.  The header and the counter are kept as the
    two bytes that travel on the wire, the samples as 4-byte words. *)
Record ow_engine_usb_blk := {
  blk_header : list uint8;
  blk_frames : list uint8;
  blk_padding : list uint8;
  blk_data : list (list uint8)
}.

(** libsamplerate's [SRC_DATA]; [data_in] and [data_out] point to
    [p2o_resampler_buf] and [p2o_transfer_buf] of the engine. *)
Record SRC_DATA := {
  input_frames : Z;
  output_frames : Z;
  input_frames_used : Z;
  output_frames_gen : Z;
  end_of_input : Z;
  src_ratio : float
}.

Inductive libusb_transfer_status :=
| LIBUSB_TRANSFER_COMPLETED
| LIBUSB_TRANSFER_ERROR
| LIBUSB_TRANSFER_TIMED_OUT
| LIBUSB_TRANSFER_CANCELLED
| LIBUSB_TRANSFER_STALL
| LIBUSB_TRANSFER_NO_DEVICE
| LIBUSB_TRANSFER_OVERFLOW.

#[global] Instance libusb_transfer_status_eq_dec : EqDecision libusb_transfer_status.
Proof. solve_decision. Defined.

(** The destination of a ring read: [NULL] asks the ring to discard. *)
Inductive dst_ptr := DST_NULL | DST_BUF.

(** What engine.c takes from its headers and collaborators. *)
Class externals := {
  (** the state of a host ring, behind its [void *] handle *)
  ring : Type;
  (** [struct ow_dll_overwitch] *)
  dll : Type;
  OB_FRAMES_PER_BLOCK : Z;
  OB_PADDING_SIZE : Z;
  OB_SAMPLE_RATE : float;
  (** [sizeof (struct ow_midi_event)] and the bytes of an event in memory *)
  sizeof_ow_midi_event : Z;
  ow_midi_event_repr : float -> list uint8 -> list uint8;
  (** [(int32_t) ( *f * INT_MAX)] on the four bytes of the float [*f] *)
  sample_to_int32 : list uint8 -> Z;
  (** the four bytes of the float [hv / (float) INT_MAX] *)
  int32_to_sample : Z -> list uint8;
  (** [src_simple (data, SRC_SINC_FASTEST, channels)] on the bytes of
      [data_in]: the result code, the bytes produced and
      [output_frames_gen] *)
  src_simple : list uint8 -> SRC_DATA -> Z -> Z * list uint8 * Z;
  ow_dll_overwitch_inc : dll -> Z -> float -> dll;
  ow_dll_overwitch_init : dll -> float -> Z -> float -> dll
}.

Section Engine.

Context `{!externals}.

(** [struct ow_io_buffers]: function pointers and ring handles, each of
    which may be NULL. *)
Record ow_io_buffers := {
  read_space : option (ring -> Z);
  write_space : option (ring -> Z);
  read : option (ring -> dst_ptr -> Z -> list uint8 * ring);
  write : option (ring -> list uint8 -> Z -> ring);
  get_time : option (unit -> float);
  p2o_audio : option ring;
  o2p_audio : option ring;
  p2o_midi : option ring;
  o2p_midi : option ring
}.

Definition set_p2o_audio (v : option ring) (io : ow_io_buffers) : ow_io_buffers :=
  {| read_space := read_space io; write_space := write_space io; read := read io;
     write := write io; get_time := get_time io; p2o_audio := v; o2p_audio := o2p_audio io;
     p2o_midi := p2o_midi io; o2p_midi := o2p_midi io |}.

Definition set_o2p_audio (v : option ring) (io : ow_io_buffers) : ow_io_buffers :=
  {| read_space := read_space io; write_space := write_space io; read := read io;
     write := write io; get_time := get_time io; p2o_audio := p2o_audio io; o2p_audio := v;
     p2o_midi := p2o_midi io; o2p_midi := o2p_midi io |}.

Definition set_p2o_midi (v : option ring) (io : ow_io_buffers) : ow_io_buffers :=
  {| read_space := read_space io; write_space := write_space io; read := read io;
     write := write io; get_time := get_time io; p2o_audio := p2o_audio io;
     o2p_audio := o2p_audio io; p2o_midi := v; o2p_midi := o2p_midi io |}.

Definition set_o2p_midi (v : option ring) (io : ow_io_buffers) : ow_io_buffers :=
  {| read_space := read_space io; write_space := write_space io; read := read io;
     write := write io; get_time := get_time io; p2o_audio := p2o_audio io;
     o2p_audio := o2p_audio io; p2o_midi := p2o_midi io; o2p_midi := v |}.

(** [struct ow_engine], without the libusb handles and the locks. *)
Record ow_engine := {
  status : ow_engine_status_t;
  blocks_per_transfer : Z;
  frames_per_transfer : Z;
  p2o_latency : Z;
  p2o_max_latency : Z;
  frames : Z;
  usb_data_in : list ow_engine_usb_blk;
  usb_data_out : list ow_engine_usb_blk;
  p2o_frame_size : Z;
  o2p_frame_size : Z;
  p2o_transfer_size : Z;
  o2p_transfer_size : Z;
  p2o_transfer_buf : list uint8;
  o2p_transfer_buf : list uint8;
  p2o_resampler_buf : list uint8;
  p2o_data : SRC_DATA;
  reading_at_p2o_end : bool;
  p2o_audio_enabled : Z;
  midi : bool;
  p2o_midi_ready : bool;
  o2p_midi_data : list uint8;
  device_desc : ow_device_desc;
  io_buffers : option ow_io_buffers;
  dll_ow : option dll
}.

Definition set_status (v : ow_engine_status_t) (engine : ow_engine) : ow_engine :=
  {| status := v; blocks_per_transfer := blocks_per_transfer engine;
     frames_per_transfer := frames_per_transfer engine; p2o_latency := p2o_latency engine;
     p2o_max_latency := p2o_max_latency engine; frames := frames engine;
     usb_data_in := usb_data_in engine; usb_data_out := usb_data_out engine;
     p2o_frame_size := p2o_frame_size engine; o2p_frame_size := o2p_frame_size engine;
     p2o_transfer_size := p2o_transfer_size engine;
     o2p_transfer_size := o2p_transfer_size engine;
     p2o_transfer_buf := p2o_transfer_buf engine;
     o2p_transfer_buf := o2p_transfer_buf engine;
     p2o_resampler_buf := p2o_resampler_buf engine; p2o_data := p2o_data engine;
     reading_at_p2o_end := reading_at_p2o_end engine;
     p2o_audio_enabled := p2o_audio_enabled engine; midi := midi engine;
     p2o_midi_ready := p2o_midi_ready engine; o2p_midi_data := o2p_midi_data engine;
     device_desc := device_desc engine; io_buffers := io_buffers engine;
     dll_ow := dll_ow engine |}.

Definition set_p2o_latency (v : Z) (engine : ow_engine) : ow_engine :=
  {| status := status engine; blocks_per_transfer := blocks_per_transfer engine;
     frames_per_transfer := frames_per_transfer engine; p2o_latency := v;
     p2o_max_latency := p2o_max_latency engine; frames := frames engine;
     usb_data_in := usb_data_in engine; usb_data_out := usb_data_out engine;
     p2o_frame_size := p2o_frame_size engine; o2p_frame_size := o2p_frame_size engine;
     p2o_transfer_size := p2o_transfer_size engine;
     o2p_transfer_size := o2p_transfer_size engine;
     p2o_transfer_buf := p2o_transfer_buf engine;
     o2p_transfer_buf := o2p_transfer_buf engine;
     p2o_resampler_buf := p2o_resampler_buf engine; p2o_data := p2o_data engine;
     reading_at_p2o_end := reading_at_p2o_end engine;
     p2o_audio_enabled := p2o_audio_enabled engine; midi := midi engine;
     p2o_midi_ready := p2o_midi_ready engine; o2p_midi_data := o2p_midi_data engine;
     device_desc := device_desc engine; io_buffers := io_buffers engine;
     dll_ow := dll_ow engine |}.

Definition set_p2o_max_latency (v : Z) (engine : ow_engine) : ow_engine :=
  {| status := status engine; blocks_per_transfer := blocks_per_transfer engine;
     frames_per_transfer := frames_per_transfer engine; p2o_latency := p2o_latency engine;
     p2o_max_latency := v; frames := frames engine; usb_data_in := usb_data_in engine;
     usb_data_out := usb_data_out engine; p2o_frame_size := p2o_frame_size engine;
     o2p_frame_size := o2p_frame_size engine; p2o_transfer_size := p2o_transfer_size engine;
     o2p_transfer_size := o2p_transfer_size engine;
     p2o_transfer_buf := p2o_transfer_buf engine;
     o2p_transfer_buf := o2p_transfer_buf engine;
     p2o_resampler_buf := p2o_resampler_buf engine; p2o_data := p2o_data engine;
     reading_at_p2o_end := reading_at_p2o_end engine;
     p2o_audio_enabled := p2o_audio_enabled engine; midi := midi engine;
     p2o_midi_ready := p2o_midi_ready engine; o2p_midi_data := o2p_midi_data engine;
     device_desc := device_desc engine; io_buffers := io_buffers engine;
     dll_ow := dll_ow engine |}.

Definition set_frames (v : Z) (engine : ow_engine) : ow_engine :=
  {| status := status engine; blocks_per_transfer := blocks_per_transfer engine;
     frames_per_transfer := frames_per_transfer engine; p2o_latency := p2o_latency engine;
     p2o_max_latency := p2o_max_latency engine; frames := v;
     usb_data_in := usb_data_in engine; usb_data_out := usb_data_out engine;
     p2o_frame_size := p2o_frame_size engine; o2p_frame_size := o2p_frame_size engine;
     p2o_transfer_size := p2o_transfer_size engine;
     o2p_transfer_size := o2p_transfer_size engine;
     p2o_transfer_buf := p2o_transfer_buf engine;
     o2p_transfer_buf := o2p_transfer_buf engine;
     p2o_resampler_buf := p2o_resampler_buf engine; p2o_data := p2o_data engine;
     reading_at_p2o_end := reading_at_p2o_end engine;
     p2o_audio_enabled := p2o_audio_enabled engine; midi := midi engine;
     p2o_midi_ready := p2o_midi_ready engine; o2p_midi_data := o2p_midi_data engine;
     device_desc := device_desc engine; io_buffers := io_buffers engine;
     dll_ow := dll_ow engine |}.

Definition set_usb_data_in (v : list ow_engine_usb_blk) (engine : ow_engine) : ow_engine :=
  {| status := status engine; blocks_per_transfer := blocks_per_transfer engine;
     frames_per_transfer := frames_per_transfer engine; p2o_latency := p2o_latency engine;
     p2o_max_latency := p2o_max_latency engine; frames := frames engine; usb_data_in := v;
     usb_data_out := usb_data_out engine; p2o_frame_size := p2o_frame_size engine;
     o2p_frame_size := o2p_frame_size engine; p2o_transfer_size := p2o_transfer_size engine;
     o2p_transfer_size := o2p_transfer_size engine;
     p2o_transfer_buf := p2o_transfer_buf engine;
     o2p_transfer_buf := o2p_transfer_buf engine;
     p2o_resampler_buf := p2o_resampler_buf engine; p2o_data := p2o_data engine;
     reading_at_p2o_end := reading_at_p2o_end engine;
     p2o_audio_enabled := p2o_audio_enabled engine; midi := midi engine;
     p2o_midi_ready := p2o_midi_ready engine; o2p_midi_data := o2p_midi_data engine;
     device_desc := device_desc engine; io_buffers := io_buffers engine;
     dll_ow := dll_ow engine |}.

Definition set_usb_data_out (v : list ow_engine_usb_blk) (engine : ow_engine) : ow_engine :=
  {| status := status engine; blocks_per_transfer := blocks_per_transfer engine;
     frames_per_transfer := frames_per_transfer engine; p2o_latency := p2o_latency engine;
     p2o_max_latency := p2o_max_latency engine; frames := frames engine;
     usb_data_in := usb_data_in engine; usb_data_out := v;
     p2o_frame_size := p2o_frame_size engine; o2p_frame_size := o2p_frame_size engine;
     p2o_transfer_size := p2o_transfer_size engine;
     o2p_transfer_size := o2p_transfer_size engine;
     p2o_transfer_buf := p2o_transfer_buf engine;
     o2p_transfer_buf := o2p_transfer_buf engine;
     p2o_resampler_buf := p2o_resampler_buf engine; p2o_data := p2o_data engine;
     reading_at_p2o_end := reading_at_p2o_end engine;
     p2o_audio_enabled := p2o_audio_enabled engine; midi := midi engine;
     p2o_midi_ready := p2o_midi_ready engine; o2p_midi_data := o2p_midi_data engine;
     device_desc := device_desc engine; io_buffers := io_buffers engine;
     dll_ow := dll_ow engine |}.

Definition set_p2o_transfer_buf (v : list uint8) (engine : ow_engine) : ow_engine :=
  {| status := status engine; blocks_per_transfer := blocks_per_transfer engine;
     frames_per_transfer := frames_per_transfer engine; p2o_latency := p2o_latency engine;
     p2o_max_latency := p2o_max_latency engine; frames := frames engine;
     usb_data_in := usb_data_in engine; usb_data_out := usb_data_out engine;
     p2o_frame_size := p2o_frame_size engine; o2p_frame_size := o2p_frame_size engine;
     p2o_transfer_size := p2o_transfer_size engine;
     o2p_transfer_size := o2p_transfer_size engine; p2o_transfer_buf := v;
     o2p_transfer_buf := o2p_transfer_buf engine;
     p2o_resampler_buf := p2o_resampler_buf engine; p2o_data := p2o_data engine;
     reading_at_p2o_end := reading_at_p2o_end engine;
     p2o_audio_enabled := p2o_audio_enabled engine; midi := midi engine;
     p2o_midi_ready := p2o_midi_ready engine; o2p_midi_data := o2p_midi_data engine;
     device_desc := device_desc engine; io_buffers := io_buffers engine;
     dll_ow := dll_ow engine |}.

Definition set_o2p_transfer_buf (v : list uint8) (engine : ow_engine) : ow_engine :=
  {| status := status engine; blocks_per_transfer := blocks_per_transfer engine;
     frames_per_transfer := frames_per_transfer engine; p2o_latency := p2o_latency engine;
     p2o_max_latency := p2o_max_latency engine; frames := frames engine;
     usb_data_in := usb_data_in engine; usb_data_out := usb_data_out engine;
     p2o_frame_size := p2o_frame_size engine; o2p_frame_size := o2p_frame_size engine;
     p2o_transfer_size := p2o_transfer_size engine;
     o2p_transfer_size := o2p_transfer_size engine;
     p2o_transfer_buf := p2o_transfer_buf engine; o2p_transfer_buf := v;
     p2o_resampler_buf := p2o_resampler_buf engine; p2o_data := p2o_data engine;
     reading_at_p2o_end := reading_at_p2o_end engine;
     p2o_audio_enabled := p2o_audio_enabled engine; midi := midi engine;
     p2o_midi_ready := p2o_midi_ready engine; o2p_midi_data := o2p_midi_data engine;
     device_desc := device_desc engine; io_buffers := io_buffers engine;
     dll_ow := dll_ow engine |}.

Definition set_p2o_resampler_buf (v : list uint8) (engine : ow_engine) : ow_engine :=
  {| status := status engine; blocks_per_transfer := blocks_per_transfer engine;
     frames_per_transfer := frames_per_transfer engine; p2o_latency := p2o_latency engine;
     p2o_max_latency := p2o_max_latency engine; frames := frames engine;
     usb_data_in := usb_data_in engine; usb_data_out := usb_data_out engine;
     p2o_frame_size := p2o_frame_size engine; o2p_frame_size := o2p_frame_size engine;
     p2o_transfer_size := p2o_transfer_size engine;
     o2p_transfer_size := o2p_transfer_size engine;
     p2o_transfer_buf := p2o_transfer_buf engine;
     o2p_transfer_buf := o2p_transfer_buf engine; p2o_resampler_buf := v;
     p2o_data := p2o_data engine; reading_at_p2o_end := reading_at_p2o_end engine;
     p2o_audio_enabled := p2o_audio_enabled engine; midi := midi engine;
     p2o_midi_ready := p2o_midi_ready engine; o2p_midi_data := o2p_midi_data engine;
     device_desc := device_desc engine; io_buffers := io_buffers engine;
     dll_ow := dll_ow engine |}.

Definition set_p2o_data (v : SRC_DATA) (engine : ow_engine) : ow_engine :=
  {| status := status engine; blocks_per_transfer := blocks_per_transfer engine;
     frames_per_transfer := frames_per_transfer engine; p2o_latency := p2o_latency engine;
     p2o_max_latency := p2o_max_latency engine; frames := frames engine;
     usb_data_in := usb_data_in engine; usb_data_out := usb_data_out engine;
     p2o_frame_size := p2o_frame_size engine; o2p_frame_size := o2p_frame_size engine;
     p2o_transfer_size := p2o_transfer_size engine;
     o2p_transfer_size := o2p_transfer_size engine;
     p2o_transfer_buf := p2o_transfer_buf engine;
     o2p_transfer_buf := o2p_transfer_buf engine;
     p2o_resampler_buf := p2o_resampler_buf engine; p2o_data := v;
     reading_at_p2o_end := reading_at_p2o_end engine;
     p2o_audio_enabled := p2o_audio_enabled engine; midi := midi engine;
     p2o_midi_ready := p2o_midi_ready engine; o2p_midi_data := o2p_midi_data engine;
     device_desc := device_desc engine; io_buffers := io_buffers engine;
     dll_ow := dll_ow engine |}.

Definition set_reading_at_p2o_end (v : bool) (engine : ow_engine) : ow_engine :=
  {| status := status engine; blocks_per_transfer := blocks_per_transfer engine;
     frames_per_transfer := frames_per_transfer engine; p2o_latency := p2o_latency engine;
     p2o_max_latency := p2o_max_latency engine; frames := frames engine;
     usb_data_in := usb_data_in engine; usb_data_out := usb_data_out engine;
     p2o_frame_size := p2o_frame_size engine; o2p_frame_size := o2p_frame_size engine;
     p2o_transfer_size := p2o_transfer_size engine;
     o2p_transfer_size := o2p_transfer_size engine;
     p2o_transfer_buf := p2o_transfer_buf engine;
     o2p_transfer_buf := o2p_transfer_buf engine;
     p2o_resampler_buf := p2o_resampler_buf engine; p2o_data := p2o_data engine;
     reading_at_p2o_end := v; p2o_audio_enabled := p2o_audio_enabled engine;
     midi := midi engine; p2o_midi_ready := p2o_midi_ready engine;
     o2p_midi_data := o2p_midi_data engine; device_desc := device_desc engine;
     io_buffers := io_buffers engine; dll_ow := dll_ow engine |}.

Definition set_p2o_audio_enabled (v : Z) (engine : ow_engine) : ow_engine :=
  {| status := status engine; blocks_per_transfer := blocks_per_transfer engine;
     frames_per_transfer := frames_per_transfer engine; p2o_latency := p2o_latency engine;
     p2o_max_latency := p2o_max_latency engine; frames := frames engine;
     usb_data_in := usb_data_in engine; usb_data_out := usb_data_out engine;
     p2o_frame_size := p2o_frame_size engine; o2p_frame_size := o2p_frame_size engine;
     p2o_transfer_size := p2o_transfer_size engine;
     o2p_transfer_size := o2p_transfer_size engine;
     p2o_transfer_buf := p2o_transfer_buf engine;
     o2p_transfer_buf := o2p_transfer_buf engine;
     p2o_resampler_buf := p2o_resampler_buf engine; p2o_data := p2o_data engine;
     reading_at_p2o_end := reading_at_p2o_end engine; p2o_audio_enabled := v;
     midi := midi engine; p2o_midi_ready := p2o_midi_ready engine;
     o2p_midi_data := o2p_midi_data engine; device_desc := device_desc engine;
     io_buffers := io_buffers engine; dll_ow := dll_ow engine |}.

Definition set_midi (v : bool) (engine : ow_engine) : ow_engine :=
  {| status := status engine; blocks_per_transfer := blocks_per_transfer engine;
     frames_per_transfer := frames_per_transfer engine; p2o_latency := p2o_latency engine;
     p2o_max_latency := p2o_max_latency engine; frames := frames engine;
     usb_data_in := usb_data_in engine; usb_data_out := usb_data_out engine;
     p2o_frame_size := p2o_frame_size engine; o2p_frame_size := o2p_frame_size engine;
     p2o_transfer_size := p2o_transfer_size engine;
     o2p_transfer_size := o2p_transfer_size engine;
     p2o_transfer_buf := p2o_transfer_buf engine;
     o2p_transfer_buf := o2p_transfer_buf engine;
     p2o_resampler_buf := p2o_resampler_buf engine; p2o_data := p2o_data engine;
     reading_at_p2o_end := reading_at_p2o_end engine;
     p2o_audio_enabled := p2o_audio_enabled engine; midi := v;
     p2o_midi_ready := p2o_midi_ready engine; o2p_midi_data := o2p_midi_data engine;
     device_desc := device_desc engine; io_buffers := io_buffers engine;
     dll_ow := dll_ow engine |}.

Definition set_p2o_midi_ready (v : bool) (engine : ow_engine) : ow_engine :=
  {| status := status engine; blocks_per_transfer := blocks_per_transfer engine;
     frames_per_transfer := frames_per_transfer engine; p2o_latency := p2o_latency engine;
     p2o_max_latency := p2o_max_latency engine; frames := frames engine;
     usb_data_in := usb_data_in engine; usb_data_out := usb_data_out engine;
     p2o_frame_size := p2o_frame_size engine; o2p_frame_size := o2p_frame_size engine;
     p2o_transfer_size := p2o_transfer_size engine;
     o2p_transfer_size := o2p_transfer_size engine;
     p2o_transfer_buf := p2o_transfer_buf engine;
     o2p_transfer_buf := o2p_transfer_buf engine;
     p2o_resampler_buf := p2o_resampler_buf engine; p2o_data := p2o_data engine;
     reading_at_p2o_end := reading_at_p2o_end engine;
     p2o_audio_enabled := p2o_audio_enabled engine; midi := midi engine;
     p2o_midi_ready := v; o2p_midi_data := o2p_midi_data engine;
     device_desc := device_desc engine; io_buffers := io_buffers engine;
     dll_ow := dll_ow engine |}.

Definition set_o2p_midi_data (v : list uint8) (engine : ow_engine) : ow_engine :=
  {| status := status engine; blocks_per_transfer := blocks_per_transfer engine;
     frames_per_transfer := frames_per_transfer engine; p2o_latency := p2o_latency engine;
     p2o_max_latency := p2o_max_latency engine; frames := frames engine;
     usb_data_in := usb_data_in engine; usb_data_out := usb_data_out engine;
     p2o_frame_size := p2o_frame_size engine; o2p_frame_size := o2p_frame_size engine;
     p2o_transfer_size := p2o_transfer_size engine;
     o2p_transfer_size := o2p_transfer_size engine;
     p2o_transfer_buf := p2o_transfer_buf engine;
     o2p_transfer_buf := o2p_transfer_buf engine;
     p2o_resampler_buf := p2o_resampler_buf engine; p2o_data := p2o_data engine;
     reading_at_p2o_end := reading_at_p2o_end engine;
     p2o_audio_enabled := p2o_audio_enabled engine; midi := midi engine;
     p2o_midi_ready := p2o_midi_ready engine; o2p_midi_data := v;
     device_desc := device_desc engine; io_buffers := io_buffers engine;
     dll_ow := dll_ow engine |}.

Definition set_io_buffers (v : option ow_io_buffers) (engine : ow_engine) : ow_engine :=
  {| status := status engine; blocks_per_transfer := blocks_per_transfer engine;
     frames_per_transfer := frames_per_transfer engine; p2o_latency := p2o_latency engine;
     p2o_max_latency := p2o_max_latency engine; frames := frames engine;
     usb_data_in := usb_data_in engine; usb_data_out := usb_data_out engine;
     p2o_frame_size := p2o_frame_size engine; o2p_frame_size := o2p_frame_size engine;
     p2o_transfer_size := p2o_transfer_size engine;
     o2p_transfer_size := o2p_transfer_size engine;
     p2o_transfer_buf := p2o_transfer_buf engine;
     o2p_transfer_buf := o2p_transfer_buf engine;
     p2o_resampler_buf := p2o_resampler_buf engine; p2o_data := p2o_data engine;
     reading_at_p2o_end := reading_at_p2o_end engine;
     p2o_audio_enabled := p2o_audio_enabled engine; midi := midi engine;
     p2o_midi_ready := p2o_midi_ready engine; o2p_midi_data := o2p_midi_data engine;
     device_desc := device_desc engine; io_buffers := v; dll_ow := dll_ow engine |}.

Definition set_dll_ow (v : option dll) (engine : ow_engine) : ow_engine :=
  {| status := status engine; blocks_per_transfer := blocks_per_transfer engine;
     frames_per_transfer := frames_per_transfer engine; p2o_latency := p2o_latency engine;
     p2o_max_latency := p2o_max_latency engine; frames := frames engine;
     usb_data_in := usb_data_in engine; usb_data_out := usb_data_out engine;
     p2o_frame_size := p2o_frame_size engine; o2p_frame_size := o2p_frame_size engine;
     p2o_transfer_size := p2o_transfer_size engine;
     o2p_transfer_size := o2p_transfer_size engine;
     p2o_transfer_buf := p2o_transfer_buf engine;
     o2p_transfer_buf := o2p_transfer_buf engine;
     p2o_resampler_buf := p2o_resampler_buf engine; p2o_data := p2o_data engine;
     reading_at_p2o_end := reading_at_p2o_end engine;
     p2o_audio_enabled := p2o_audio_enabled engine; midi := midi engine;
     p2o_midi_ready := p2o_midi_ready engine; o2p_midi_data := o2p_midi_data engine;
     device_desc := device_desc engine; io_buffers := io_buffers engine; dll_ow := v |}.

(** ** What a call of the engine does outside of it *)

Inductive ring_id := P2O_AUDIO | O2P_AUDIO | P2O_MIDI | O2P_MIDI.

(** The calls through the [read] and [write] pointers, and the messages
    of [error_print] and [debug_print], in the order they happen. *)
Inductive event :=
| EV_READ (id : ring_id) (dst : dst_ptr) (n : Z)
| EV_WRITE (id : ring_id) (src : list uint8) (n : Z)
| EV_ERROR_PRINT (msg : string)
| EV_DEBUG_PRINT (level : Z) (msg : string).

Definition ring_handle (io : ow_io_buffers) (id : ring_id) : option ring :=
  match id with
  | P2O_AUDIO => p2o_audio io
  | O2P_AUDIO => o2p_audio io
  | P2O_MIDI => p2o_midi io
  | O2P_MIDI => o2p_midi io
  end.

Definition set_ring_handle (id : ring_id) (r : ring) (io : ow_io_buffers)
  : ow_io_buffers :=
  match id with
  | P2O_AUDIO => set_p2o_audio (Some r) io
  | O2P_AUDIO => set_o2p_audio (Some r) io
  | P2O_MIDI => set_p2o_midi (Some r) io
  | O2P_MIDI => set_o2p_midi (Some r) io
  end.

(** The state of a ring of the engine's [io_buffers]. *)
Definition engine_ring (engine : ow_engine) (id : ring_id) : option ring :=
  io ← io_buffers engine; ring_handle io id.

(** [io_buffers->read_space (io_buffers-><id>)], a [size_t]. *)
Definition io_read_space (engine : ow_engine) (id : ring_id) : option Z :=
  io ← io_buffers engine;
  f ← read_space io;
  r ← ring_handle io id;
  Some (to_size_t (f r)).

Definition io_write_space (engine : ow_engine) (id : ring_id) : option Z :=
  io ← io_buffers engine;
  f ← write_space io;
  r ← ring_handle io id;
  Some (to_size_t (f r)).

(** [io_buffers->read (io_buffers-><id>, dst, n)]: the bytes delivered
    and the engine with the ring as the call leaves it. *)
Definition io_read (engine : ow_engine) (id : ring_id) (dst : dst_ptr) (n : Z)
  : option (list uint8 * ow_engine) :=
  io ← io_buffers engine;
  f ← read io;
  r ← ring_handle io id;
  let '(data, r') := f r dst n in
  Some (take (Z.to_nat n) data,
        set_io_buffers (Some (set_ring_handle id r' io)) engine).

Definition io_write (engine : ow_engine) (id : ring_id) (src : list uint8)
  (n : Z) : option ow_engine :=
  io ← io_buffers engine;
  f ← write io;
  r ← ring_handle io id;
  Some (set_io_buffers (Some (set_ring_handle id (f r src n) io)) engine).

Definition io_get_time (engine : ow_engine) : option float :=
  io ← io_buffers engine;
  f ← get_time io;
  Some (f tt).

(** Conversion of a C integer to [double]. *)
Definition to_double (z : Z) : float :=
  if z <? 0 then PrimFloat.opp (PrimFloat.of_uint63 (Uint63.of_Z (- z)))
  else PrimFloat.of_uint63 (Uint63.of_Z z).

(** A [for (int i = 0; i < n; i++)] loop over a state. *)
Definition for_loop {S : Type} (n : Z) (body : nat -> S -> S) (s : S) : S :=
  foldl (fun s i => body i s) s (seq 0 (Z.to_nat n)).

Definition is_null {A : Type} (p : option A) : bool :=
  match p with
  | None => true
  | Some _ => false
  end.

(** ** Status accessors (the spin lock makes each of them atomic) *)

Definition ow_engine_get_status (engine : ow_engine) : ow_engine_status_t :=
  status engine.

Definition ow_engine_set_status (engine : ow_engine) (s : ow_engine_status_t)
  : ow_engine :=
  set_status s engine.

Definition ow_engine_stop (engine : ow_engine) : ow_engine :=
  ow_engine_set_status engine OW_STATUS_STOP.

Definition ow_engine_is_p2o_audio_enable (engine : ow_engine) : Z :=
  p2o_audio_enabled engine.

Definition ow_engine_set_p2o_audio_enable (engine : ow_engine) (enabled : Z)
  : ow_engine :=
  let last := ow_engine_is_p2o_audio_enable engine in
  if negb (last =? enabled) then set_p2o_audio_enabled enabled engine
  else engine.

(** [ow_bytes_to_frame_bytes] works on [int]; the division of C truncates. *)
Definition ow_bytes_to_frame_bytes (bytes bytes_per_frame : Z) : Z :=
  let frames := Z.quot bytes bytes_per_frame in
  to_int (frames * bytes_per_frame).

(** ** Activation *)

(** The outcome of the two [pthread_create] calls. *)
Record pthread_results := {
  p2o_midi_thread_created : bool;
  audio_o2p_midi_thread_created : bool
}.

Inductive thread_id := P2O_MIDI_THREAD | AUDIO_O2P_MIDI_THREAD.

(** [ow_engine_activate_with_dll]: the error kind, the engine as the call
    leaves it, and the threads it has started. *)
Definition ow_engine_activate_with_dll (engine : ow_engine)
  (io : ow_io_buffers) (dll_arg : option dll) (pt : pthread_results)
  : ow_err_t * ow_engine * list thread_id :=
  let engine := set_io_buffers (Some io) engine in
  let engine := set_dll_ow dll_arg engine in
  if is_null (read_space io) then (OW_INIT_ERROR_NO_READ_SPACE, engine, [])
  else if is_null (write_space io) then (OW_INIT_ERROR_NO_WRITE_SPACE, engine, [])
  else if is_null (read io) then (OW_INIT_ERROR_NO_READ, engine, [])
  else if is_null (write io) then (OW_INIT_ERROR_NO_WRITE, engine, [])
  else if is_null (o2p_audio io) then (OW_INIT_ERROR_NO_O2P_AUDIO_BUF, engine, [])
  else if is_null (p2o_audio io) then (OW_INIT_ERROR_NO_P2O_AUDIO_BUF, engine, [])
  else
    let midi_checked :=
      if is_null (get_time io) && is_null (o2p_midi io) && is_null (p2o_midi io)
      then inr (set_midi false engine)
      else if is_null (get_time io) then inl OW_INIT_ERROR_NO_GET_TIME
      else if is_null (o2p_midi io) then inl OW_INIT_ERROR_NO_O2P_MIDI_BUF
      else if is_null (p2o_midi io) then inl OW_INIT_ERROR_NO_P2O_MIDI_BUF
      else inr (set_midi true engine) in
    match midi_checked with
    | inl err => (err, engine, [])
    | inr engine =>
      if negb (is_null dll_arg) && is_null (get_time io)
      then (OW_INIT_ERROR_NO_GET_TIME, engine, [])
      else
        let engine := set_frames 0 engine in
        let engine := set_status OW_STATUS_READY engine in
        let started := if midi engine then [P2O_MIDI_THREAD] else [] in
        if midi engine && negb (p2o_midi_thread_created pt)
        then (OW_GENERIC_ERROR, engine, [])
        else if negb (audio_o2p_midi_thread_created pt)
        then (OW_GENERIC_ERROR, engine, started)
        else (OW_OK, engine, started ++ [AUDIO_O2P_MIDI_THREAD])
    end.

Definition ow_engine_activate (engine : ow_engine) (io : ow_io_buffers)
  (pt : pthread_results) : ow_err_t * ow_engine * list thread_id :=
  ow_engine_activate_with_dll engine io None pt.

(** ** Initialisation *)

Definition set_blk_header (v : list uint8) (blk : ow_engine_usb_blk)
  : ow_engine_usb_blk :=
  {| blk_header := v; blk_frames := blk_frames blk;
     blk_padding := blk_padding blk; blk_data := blk_data blk |}.

Definition set_blk_frames (v : list uint8) (blk : ow_engine_usb_blk)
  : ow_engine_usb_blk :=
  {| blk_header := blk_header blk; blk_frames := v;
     blk_padding := blk_padding blk; blk_data := blk_data blk |}.

Definition set_blk_data (v : list (list uint8)) (blk : ow_engine_usb_blk)
  : ow_engine_usb_blk :=
  {| blk_header := blk_header blk; blk_frames := blk_frames blk;
     blk_padding := blk_padding blk; blk_data := v |}.

(** The number of samples of a block with [channels] channels. *)
Definition blk_samples (channels : Z) : nat :=
  Z.to_nat OB_FRAMES_PER_BLOCK * Z.to_nat channels.

(** A block of a buffer that [memset] has just cleared. *)
Definition zero_blk (channels : Z) : ow_engine_usb_blk :=
  {| blk_header := [0; 0]; blk_frames := [0; 0];
     blk_padding := replicate (Z.to_nat OB_PADDING_SIZE) 0;
     blk_data := replicate (blk_samples channels) [0; 0; 0; 0] |}.

(** [get_nth_usb_out_blk (engine, n)->header = v]. *)
Definition write_out_blk_header (v : list uint8) (i : nat)
  (blks : list ow_engine_usb_blk) : list ow_engine_usb_blk :=
  alter (set_blk_header v) i blks.

(** [ow_engine_init], from the label [end] on.  The libusb part before it
    belongs to the environment: [ret] is the error kind it leaves and
    [desc] the descriptor it has matched; [fresh] is the memory that
    [malloc] returned, whose other fields the function never writes. *)
Definition ow_engine_init (fresh : ow_engine) (ret : ow_err_t)
  (desc : ow_device_desc) (blocks_per_transfer_arg : Z)
  : ow_err_t * option ow_engine :=
  if decide (ret = OW_OK) then
    let fpt := OB_FRAMES_PER_BLOCK * blocks_per_transfer_arg in
    let p2o_fs := OB_BYTES_PER_SAMPLE * inputs desc in
    let o2p_fs := OB_BYTES_PER_SAMPLE * outputs desc in
    let p2o_ts := fpt * p2o_fs in
    let o2p_ts := fpt * o2p_fs in
    (OW_OK,
     Some
       {| status := status fresh;
          blocks_per_transfer := blocks_per_transfer_arg;
          frames_per_transfer := fpt;
          p2o_latency := p2o_latency fresh;
          p2o_max_latency := p2o_max_latency fresh;
          frames := frames fresh;
          usb_data_in :=
            replicate (Z.to_nat blocks_per_transfer_arg) (zero_blk (outputs desc));
          usb_data_out :=
            for_loop blocks_per_transfer_arg
              (write_out_blk_header (htobe16 2047))
              (replicate (Z.to_nat blocks_per_transfer_arg)
                 (zero_blk (inputs desc)));
          p2o_frame_size := p2o_fs;
          o2p_frame_size := o2p_fs;
          p2o_transfer_size := p2o_ts;
          o2p_transfer_size := o2p_ts;
          p2o_transfer_buf := replicate (Z.to_nat p2o_ts) 0;
          o2p_transfer_buf := replicate (Z.to_nat o2p_ts) 0;
          p2o_resampler_buf := replicate (Z.to_nat p2o_ts) 0;
          p2o_data :=
            {| input_frames := fpt; output_frames := fpt;
               input_frames_used := input_frames_used (p2o_data fresh);
               output_frames_gen := output_frames_gen (p2o_data fresh);
               end_of_input := 1;
               src_ratio := src_ratio (p2o_data fresh) |};
          reading_at_p2o_end := reading_at_p2o_end fresh;
          p2o_audio_enabled := 0;
          midi := midi fresh;
          p2o_midi_ready := p2o_midi_ready fresh;
          o2p_midi_data := replicate (Z.to_nat USB_BULK_MIDI_SIZE) 0;
          device_desc := desc;
          io_buffers := io_buffers fresh;
          dll_ow := dll_ow fresh |})
  else (ret, None).

(** ** The host to device path *)

(** The samples of one block: [blk_samples] floats from index [f] of the
    transfer buffer on, each stored as [htobe32 ((int32_t) ( *f * INT_MAX))]
    over the start of [blk->data]. *)
Definition encode_blk_data (buf : list uint8) (f : nat) (channels : Z)
  (old : list (list uint8)) : list (list uint8) :=
  let new :=
    (fun idx => htobe32 (sample_to_int32 (cell4 buf (f + idx)))) <$>
    seq 0 (blk_samples channels) in
  new ++ drop (length new) old.

(** The body of the loop after the label [set_blocks], for block [i]. *)
Definition set_block (i : nat) (engine : ow_engine) : ow_engine :=
  let channels := inputs (device_desc engine) in
  let engine :=
    set_frames (to_uint16 (frames engine + OB_FRAMES_PER_BLOCK)) engine in
  let f := (i * blk_samples channels)%nat in
  set_usb_data_out
    (alter
       (fun blk =>
          set_blk_data
            (encode_blk_data (p2o_transfer_buf engine) f channels (blk_data blk))
            (set_blk_frames (htobe16 (frames engine)) blk))
       i (usb_data_out engine))
    engine.

Definition set_blocks (engine : ow_engine) : ow_engine :=
  for_loop (blocks_per_transfer engine) set_block engine.

Definition set_src_request (frames' : Z) (ratio : float) (d : SRC_DATA)
  : SRC_DATA :=
  {| input_frames := frames'; output_frames := output_frames d;
     input_frames_used := input_frames_used d;
     output_frames_gen := output_frames_gen d;
     end_of_input := end_of_input d; src_ratio := ratio |}.

Definition set_output_frames_gen (gen : Z) (d : SRC_DATA) : SRC_DATA :=
  {| input_frames := input_frames d; output_frames := output_frames d;
     input_frames_used := input_frames_used d; output_frames_gen := gen;
     end_of_input := end_of_input d; src_ratio := src_ratio d |}.

(** The underflow branch (lines 216-242): [rsj2o < p2o_transfer_size]. *)
Definition p2o_resample (engine : ow_engine) (rsj2o : Z)
  : option (ow_engine * list event) :=
  let frames' := rsj2o / p2o_frame_size engine in
  let bytes := to_size_t (frames' * p2o_frame_size engine) in
  '(data, engine) ← io_read engine P2O_AUDIO DST_BUF bytes;
  let engine :=
    set_p2o_resampler_buf (overwrite (p2o_resampler_buf engine) data) engine in
  let ratio :=
    PrimFloat.div (to_double (frames_per_transfer engine)) (to_double frames') in
  let engine :=
    set_p2o_data (set_src_request frames' ratio (p2o_data engine)) engine in
  let channels := inputs (device_desc engine) in
  let '(res, out, gen) :=
    src_simple (p2o_resampler_buf engine) (p2o_data engine) channels in
  let room := output_frames (p2o_data engine) * channels * OB_BYTES_PER_SAMPLE in
  let engine :=
    set_p2o_transfer_buf
      (overwrite (p2o_transfer_buf engine) (take (Z.to_nat room) out)) engine in
  let engine :=
    set_p2o_data (set_output_frames_gen gen (p2o_data engine)) engine in
  let report :=
    if negb (res =? 0) then [EV_DEBUG_PRINT 2 "j2o: Error while resampling"]
    else if negb (gen =? frames_per_transfer engine)
    then [EV_ERROR_PRINT "j2o: Unexpected frames with ratio"]
    else [] in
  Some (engine,
        [EV_DEBUG_PRINT 2 "j2o: Audio ring buffer underflow. Resampling...";
         EV_READ P2O_AUDIO DST_BUF bytes] ++ report).

Definition set_usb_output_data_blks (engine : ow_engine)
  : option (ow_engine * list event) :=
  let enabled := ow_engine_is_p2o_audio_enable engine in
  rsj2o ← io_read_space engine P2O_AUDIO;
  if negb (reading_at_p2o_end engine) then
    if negb (enabled =? 0) && (p2o_transfer_size engine <=? rsj2o) then
      let bytes :=
        to_size_t
          (ow_bytes_to_frame_bytes (to_int rsj2o)
             (to_int (p2o_frame_size engine))) in
      '(_, engine) ← io_read engine P2O_AUDIO DST_NULL bytes;
      let engine := set_reading_at_p2o_end true engine in
      Some (set_blocks engine,
            [EV_DEBUG_PRINT 2 "j2o: Emptying buffer and running...";
             EV_READ P2O_AUDIO DST_NULL bytes])
    else Some (set_blocks engine, [])
  else if enabled =? 0 then
    let engine := set_reading_at_p2o_end false engine in
    let engine :=
      set_p2o_transfer_buf
        (memset0 (p2o_transfer_buf engine) (p2o_transfer_size engine)) engine in
    Some (set_blocks engine,
          [EV_DEBUG_PRINT 2 "j2o: Clearing buffer and stopping..."])
  else
    let engine := set_p2o_latency rsj2o engine in
    let engine :=
      if p2o_max_latency engine <? p2o_latency engine
      then set_p2o_max_latency (p2o_latency engine) engine
      else engine in
    if p2o_transfer_size engine <=? rsj2o then
      '(data, engine) ←
        io_read engine P2O_AUDIO DST_BUF (p2o_transfer_size engine);
      let engine :=
        set_p2o_transfer_buf (overwrite (p2o_transfer_buf engine) data) engine in
      Some (set_blocks engine,
            [EV_READ P2O_AUDIO DST_BUF (p2o_transfer_size engine)])
    else
      '(engine, evs) ← p2o_resample engine rsj2o;
      Some (set_blocks engine, evs).

(** [libusb_submit_transfer] failed with [err]: the three
    [prepare_cycle_*] functions and [prepare_cycle_out_midi] all end
    alike. *)
Definition submit_transfer (what : string) (err : Z) (engine : ow_engine)
  : ow_engine * list event :=
  if negb (err =? 0)
  then (ow_engine_set_status engine OW_STATUS_ERROR, [EV_ERROR_PRINT what])
  else (engine, []).

Definition prepare_cycle_out (err : Z) (engine : ow_engine) :=
  submit_transfer "j2o: Error when submitting USB audio transfer" err engine.

Definition prepare_cycle_in (err : Z) (engine : ow_engine) :=
  submit_transfer "o2j: Error when submitting USB audio in transfer" err engine.

Definition prepare_cycle_in_midi (err : Z) (engine : ow_engine) :=
  submit_transfer "o2j: Error when submitting USB MIDI transfer" err engine.

Definition prepare_cycle_out_midi (err : Z) (engine : ow_engine) :=
  submit_transfer "j2o: Error when submitting USB MIDI transfer" err engine.

(** A completed [struct libusb_transfer], as the callbacks read it. *)
Record libusb_transfer := {
  xfr_status : libusb_transfer_status;
  actual_length : Z
}.

(** [cb_xfr_out]; [err] is the result of the next submission. *)
Definition cb_xfr_out (xfr : libusb_transfer) (err : Z) (engine : ow_engine)
  : option (ow_engine * list event) :=
  let failed :=
    if decide (xfr_status xfr = LIBUSB_TRANSFER_COMPLETED) then []
    else [EV_ERROR_PRINT "j2o: Error on USB audio transfer"] in
  '(engine, evs) ← set_usb_output_data_blks engine;
  let '(engine, evs') := prepare_cycle_out err engine in
  Some (engine, failed ++ evs ++ evs').

(** ** The device to host path *)

(** The floats that the decoding loop stores for block [blk]. *)
Definition decode_blk_data (channels : Z) (blk : ow_engine_usb_blk)
  : list uint8 :=
  mjoin
    ((fun idx => int32_to_sample (be32toh (default [] (blk_data blk !! idx)))) <$>
     seq 0 (blk_samples channels)).

Definition decode_blks (engine : ow_engine) : list uint8 :=
  mjoin
    ((fun i =>
        match usb_data_in engine !! i with
        | Some blk => decode_blk_data (outputs (device_desc engine)) blk
        | None => []
        end) <$>
     seq 0 (Z.to_nat (blocks_per_transfer engine))).

Definition set_usb_input_data_blks (engine : ow_engine)
  : option (ow_engine * list event) :=
  engine ←
    match dll_ow engine with
    | Some d =>
      t ← io_get_time engine;
      Some
        (set_dll_ow
           (Some (ow_dll_overwitch_inc d (frames_per_transfer engine) t))
           engine)
    | None => Some engine
    end;
  let status' := status engine in
  let engine :=
    set_o2p_transfer_buf
      (overwrite (o2p_transfer_buf engine) (decode_blks engine)) engine in
  if status_ltb status' OW_STATUS_RUN then Some (engine, [])
  else
    wso2j ← io_write_space engine O2P_AUDIO;
    if o2p_transfer_size engine <=? wso2j then
      engine' ←
        io_write engine O2P_AUDIO (o2p_transfer_buf engine)
          (o2p_transfer_size engine);
      Some (engine',
            [EV_WRITE O2P_AUDIO (o2p_transfer_buf engine)
               (o2p_transfer_size engine)])
    else
      Some (engine,
            [EV_ERROR_PRINT
               "o2j: Audio ring buffer overflow. Discarding data..."]).

(** [cb_xfr_in]; libusb has stored the blocks received in [usb_data_in]
    before it calls back. *)
Definition cb_xfr_in (xfr : libusb_transfer) (err : Z) (engine : ow_engine)
  : option (ow_engine * list event) :=
  '(engine, evs) ←
    (if decide (xfr_status xfr = LIBUSB_TRANSFER_COMPLETED)
     then set_usb_input_data_blks engine
     else Some (engine, [EV_ERROR_PRINT "o2j: Error on USB audio transfer"]));
  let '(engine, evs') := prepare_cycle_in err engine in
  Some (engine, evs ++ evs').

(** ** MIDI from the device *)

(** [event.bytes[0] >= 0x08 && event.bytes[0] <= 0x0f] *)
Definition midi_event_accepted (bytes : list uint8) : bool :=
  match bytes with
  | b0 :: _ => (8 <=? b0) && (b0 <=? 15)
  | [] => false
  end.

(** The [while (length < xfr->actual_length)] loop of [cb_xfr_in_midi],
    entered with [length = len]; [fuel] bounds the iterations. *)
Fixpoint midi_in_loop (fuel : nat) (time : float) (actual : Z) (len : Z)
  (engine : ow_engine) (evs : list event) : option (ow_engine * list event) :=
  if len <? actual then
    match fuel with
    | O => None
    | S fuel =>
      let bytes :=
        take (Z.to_nat OB_MIDI_EVENT_SIZE)
          (drop (Z.to_nat len) (o2p_midi_data engine)) in
      if midi_event_accepted bytes then
        ws ← io_write_space engine O2P_MIDI;
        if sizeof_ow_midi_event <=? ws then
          let src := ow_midi_event_repr time bytes in
          engine' ← io_write engine O2P_MIDI src sizeof_ow_midi_event;
          midi_in_loop fuel time actual (len + OB_MIDI_EVENT_SIZE) engine'
            (evs ++ [EV_DEBUG_PRINT 2 "o2j MIDI";
                     EV_WRITE O2P_MIDI src sizeof_ow_midi_event])
        else
          midi_in_loop fuel time actual (len + OB_MIDI_EVENT_SIZE) engine
            (evs ++ [EV_DEBUG_PRINT 2 "o2j MIDI";
                     EV_ERROR_PRINT
                       "o2j: MIDI ring buffer overflow. Discarding data..."])
      else midi_in_loop fuel time actual (len + OB_MIDI_EVENT_SIZE) engine evs
    end
  else Some (engine, evs).

(** [cb_xfr_in_midi]; libusb has stored the bytes received in
    [o2p_midi_data] before it calls back. *)
Definition cb_xfr_in_midi (xfr : libusb_transfer) (err : Z)
  (engine : ow_engine) : option (ow_engine * list event) :=
  '(engine, evs) ←
    (if status_ltb (ow_engine_get_status engine) OW_STATUS_RUN
     then Some (engine, [])
     else if decide (xfr_status xfr = LIBUSB_TRANSFER_COMPLETED) then
       time ← io_get_time engine;
       midi_in_loop (Z.to_nat (actual_length xfr)) time (actual_length xfr) 0
         engine []
     else if decide (xfr_status xfr = LIBUSB_TRANSFER_TIMED_OUT)
     then Some (engine, [])
     else Some (engine, [EV_ERROR_PRINT "Error on USB MIDI in transfer"]));
  let '(engine, evs') := prepare_cycle_in_midi err engine in
  Some (engine, evs ++ evs').

(** [cb_xfr_out_midi] *)
Definition cb_xfr_out_midi (xfr : libusb_transfer) (engine : ow_engine)
  : ow_engine * list event :=
  let engine := set_p2o_midi_ready true engine in
  (engine,
   if decide (xfr_status xfr = LIBUSB_TRANSFER_COMPLETED) then []
   else [EV_ERROR_PRINT "Error on USB MIDI out transfer"]).

(** ** The audio thread and the system around the engine *)

(** A transfer that libusb reports as completed, with what libusb has
    stored in the engine's buffer and the result of the next submission. *)
Inductive completion :=
| XFR_IN (xfr : libusb_transfer) (blks : list ow_engine_usb_blk) (err : Z)
| XFR_OUT (xfr : libusb_transfer) (err : Z)
| XFR_IN_MIDI (xfr : libusb_transfer) (bytes : list uint8) (err : Z)
| XFR_OUT_MIDI (xfr : libusb_transfer).

Definition run_completion (c : completion) (engine : ow_engine)
  : option (ow_engine * list event) :=
  match c with
  | XFR_IN xfr blks err => cb_xfr_in xfr err (set_usb_data_in blks engine)
  | XFR_OUT xfr err => cb_xfr_out xfr err engine
  | XFR_IN_MIDI xfr bytes err =>
    cb_xfr_in_midi xfr err (set_o2p_midi_data bytes engine)
  | XFR_OUT_MIDI xfr => Some (cb_xfr_out_midi xfr engine)
  end.

(** [libusb_handle_events_completed]: the callbacks of the transfers that
    have completed run one after the other on the calling thread. *)
Fixpoint libusb_handle_events_completed (cs : list completion)
  (engine : ow_engine) : option (ow_engine * list event) :=
  match cs with
  | [] => Some (engine, [])
  | c :: cs =>
    '(engine, evs) ← run_completion c engine;
    '(engine, evs') ← libusb_handle_events_completed cs engine;
    Some (engine, evs ++ evs')
  end.

(** The places of [run_audio_o2p_midi] between which the other threads
    get to run. *)
Inductive audio_pc :=
| PC_SPIN_READY      (* line 782 *)
| PC_PREPARE         (* lines 786-791 *)
| PC_LOOP_TOP        (* lines 795-811 *)
| PC_EVENT_LOOP      (* line 813 *)
| PC_HANDLE_EVENTS   (* line 815 *)
| PC_STOP_CHECK      (* line 818 *)
| PC_REARM           (* lines 823-828 *)
| PC_RETURN.         (* line 831 *)

(** What the environment decides during one step of the thread. *)
Record thread_env := {
  err_in : Z;
  err_out : Z;
  err_in_midi : Z;
  completed : list completion
}.

Definition run_audio_o2p_midi (env : thread_env) (pc : audio_pc)
  (engine : ow_engine) : option (audio_pc * ow_engine * list event) :=
  match pc with
  | PC_SPIN_READY =>
    if status_eqb (ow_engine_get_status engine) OW_STATUS_READY
    then Some (PC_SPIN_READY, engine, [])
    else Some (PC_PREPARE, engine, [])
  | PC_PREPARE =>
    let '(engine, evs1) := prepare_cycle_in (err_in env) engine in
    let '(engine, evs2) := prepare_cycle_out (err_out env) engine in
    let '(engine, evs3) :=
      if midi engine then prepare_cycle_in_midi (err_in_midi env) engine
      else (engine, []) in
    Some (PC_LOOP_TOP, engine, evs1 ++ evs2 ++ evs3)
  | PC_LOOP_TOP =>
    let engine := set_p2o_latency 0 engine in
    let engine := set_p2o_max_latency 0 engine in
    let engine := set_reading_at_p2o_end false engine in
    engine ←
      match dll_ow engine with
      | Some d =>
        t ← io_get_time engine;
        Some
          (set_dll_ow
             (Some
                (ow_dll_overwitch_init d OB_SAMPLE_RATE
                   (frames_per_transfer engine) t))
             engine)
      | None => Some engine
      end;
    Some (PC_EVENT_LOOP, set_status OW_STATUS_WAIT engine, [])
  | PC_EVENT_LOOP =>
    if status_leb OW_STATUS_WAIT (ow_engine_get_status engine)
    then Some (PC_HANDLE_EVENTS, engine, [])
    else Some (PC_STOP_CHECK, engine, [])
  | PC_HANDLE_EVENTS =>
    '(engine, evs) ← libusb_handle_events_completed (completed env) engine;
    Some (PC_EVENT_LOOP, engine, evs)
  | PC_STOP_CHECK =>
    if status_leb (ow_engine_get_status engine) OW_STATUS_STOP
    then Some (PC_RETURN, engine, [])
    else Some (PC_REARM, engine, [])
  | PC_REARM =>
    let engine := ow_engine_set_status engine OW_STATUS_BOOT in
    rsj2o ← io_read_space engine P2O_AUDIO;
    let bytes :=
      to_size_t
        (ow_bytes_to_frame_bytes (to_int rsj2o)
           (to_int (p2o_frame_size engine))) in
    '(_, engine) ← io_read engine P2O_AUDIO DST_NULL bytes;
    let engine :=
      set_p2o_transfer_buf
        (memset0 (p2o_transfer_buf engine) (p2o_transfer_size engine)) engine in
    Some (PC_LOOP_TOP, engine, [EV_READ P2O_AUDIO DST_NULL bytes])
  | PC_RETURN => Some (PC_RETURN, engine, [])
  end.

(** What the host does between two steps of the engine: the control
    calls of the API, and reads and writes on its side of a ring, which
    leave the ring in a new state. *)
Inductive host_action :=
| HOST_SET_STATUS (s : ow_engine_status_t)
| HOST_STOP
| HOST_SET_P2O_AUDIO_ENABLE (enabled : Z)
| HOST_RING (id : ring_id) (r : ring).

Definition host_step (h : host_action) (engine : ow_engine) : ow_engine :=
  match h with
  | HOST_SET_STATUS s => ow_engine_set_status engine s
  | HOST_STOP => ow_engine_stop engine
  | HOST_SET_P2O_AUDIO_ENABLE enabled =>
    ow_engine_set_p2o_audio_enable engine enabled
  | HOST_RING id r =>
    match io_buffers engine with
    | Some io => set_io_buffers (Some (set_ring_handle id r io)) engine
    | None => engine
    end
  end.

(** Lines 740-741 of [run_p2o_midi]: the only place where the MIDI thread
    writes to the engine's status. *)
Definition p2o_midi_send (err : Z) (engine : ow_engine)
  : ow_engine * list event :=
  prepare_cycle_out_midi err (set_p2o_midi_ready false engine).

Record system := {
  sys_engine : ow_engine;
  sys_pc : audio_pc
}.

Inductive action :=
| ACT_HOST (h : host_action)
| ACT_AUDIO (env : thread_env)
| ACT_P2O_MIDI_SEND (err : Z).

Definition sys_step (a : action) (s : system) : option (system * list event) :=
  match a with
  | ACT_HOST h =>
    Some ({| sys_engine := host_step h (sys_engine s); sys_pc := sys_pc s |}, [])
  | ACT_AUDIO env =>
    '(pc, engine, evs) ← run_audio_o2p_midi env (sys_pc s) (sys_engine s);
    Some ({| sys_engine := engine; sys_pc := pc |}, evs)
  | ACT_P2O_MIDI_SEND err =>
    let '(engine, evs) := p2o_midi_send err (sys_engine s) in
    Some ({| sys_engine := engine; sys_pc := sys_pc s |}, evs)
  end.

Fixpoint sys_run (acts : list action) (s : system)
  : option (system * list event) :=
  match acts with
  | [] => Some (s, [])
  | a :: acts =>
    '(s, evs) ← sys_step a s;
    '(s, evs') ← sys_run acts s;
    Some (s, evs ++ evs')
  end.

(** The system once [ow_engine_init] and [ow_engine_activate_with_dll]
    have both returned [OW_OK]: the audio thread is about to start. *)
Definition sys_activated (fresh : ow_engine) (desc : ow_device_desc)
  (blocks : Z) (io : ow_io_buffers) (dll_arg : option dll)
  (pt : pthread_results) : option system :=
  match ow_engine_init fresh OW_OK desc blocks with
  | (OW_OK, Some engine) =>
    match ow_engine_activate_with_dll engine io dll_arg pt with
    | (OW_OK, engine, _) =>
      Some {| sys_engine := engine; sys_pc := PC_SPIN_READY |}
    | _ => None
    end
  | _ => None
  end.

Inductive reachable (s0 : system) : system -> Prop :=
| reachable_start : reachable s0 s0
| reachable_step s a s' evs :
    reachable s0 s -> sys_step a s = Some (s', evs) -> reachable s0 s'.

#[global] Instance audio_pc_eq_dec : EqDecision audio_pc.
Proof. solve_decision. Defined.

(** ** The out buffer after the encoding loop, in closed form *)

(** Block [j] once the loop of [set_blocks] has passed it; the loop was
    entered with the counter [frames0] and the transfer buffer [buf]. *)
Definition encoded_blk (frames0 : Z) (buf : list uint8) (channels : Z)
  (j : nat) (blk : ow_engine_usb_blk) : ow_engine_usb_blk :=
  set_blk_data
    (encode_blk_data buf (j * blk_samples channels) channels (blk_data blk))
    (set_blk_frames
       (htobe16 (frames0 + (Z.of_nat j + 1) * OB_FRAMES_PER_BLOCK)) blk).

(** The out buffer and the counter after [n] rounds of the loop. *)
Definition out_blks_after (n : nat) (engine : ow_engine)
  : list ow_engine_usb_blk :=
  imap
    (fun j blk =>
       if decide (j < n)%nat
       then encoded_blk (frames engine) (p2o_transfer_buf engine)
              (inputs (device_desc engine)) j blk
       else blk)
    (usb_data_out engine).

Definition frames_after (n : nat) (engine : ow_engine) : Z :=
  match n with
  | O => frames engine
  | S _ => to_uint16 (frames engine + Z.of_nat n * OB_FRAMES_PER_BLOCK)
  end.

(** The decoded [frames] fields of the out buffer, block by block. *)
Definition out_frames_fields (engine : ow_engine) : list Z :=
  (fun blk => be16toh (blk_frames blk)) <$> usb_data_out engine.

(** The parts of the out buffer that no cycle is meant to touch. *)
Definition out_headers (engine : ow_engine) : list (list uint8 * list uint8) :=
  (fun blk => (blk_header blk, blk_padding blk)) <$> usb_data_out engine.

(** ** What the steps other than an out cycle leave alone *)

(** The fields that are set by [ow_engine_init] and read ever after. *)
Definition static_part (engine : ow_engine) :=
  (blocks_per_transfer engine, frames_per_transfer engine,
   p2o_frame_size engine, p2o_transfer_size engine,
   o2p_transfer_size engine, device_desc engine,
   output_frames (p2o_data engine)).

(** The counter and the out buffer. *)
Definition out_part (engine : ow_engine) :=
  (frames engine, usb_data_out engine).

(** The state of the host to device path. *)
Definition p2o_part (engine : ow_engine) :=
  (p2o_transfer_buf engine, reading_at_p2o_end engine).

Definition is_xfr_out (c : completion) : bool :=
  match c with
  | XFR_OUT _ _ => true
  | _ => false
  end.

(** The out cycles that a list of completions holds. *)
Definition count_out (cs : list completion) : nat :=
  length (filter (fun c => is_xfr_out c = true) cs).

(** The out cycles of a run: the [XFR_OUT] completions that the audio
    thread handles at line 815. *)
Fixpoint out_transfers (acts : list action) (s : system) : nat :=
  match acts with
  | [] => 0
  | a :: acts =>
    (match a with
     | ACT_AUDIO env =>
       if decide (sys_pc s = PC_HANDLE_EVENTS) then count_out (completed env)
       else 0
     | _ => 0
     end +
     match sys_step a s with
     | Some (s', _) => out_transfers acts s'
     | None => 0
     end)%nat
  end.

(** An engine state in which a completion callback is entered: the audio
    thread is at line 815 and has run the callbacks of [cs] already. *)
Inductive callback_entry (s0 : system) : ow_engine -> Prop :=
| callback_entry_intro s cs engine evs :
    reachable s0 s -> sys_pc s = PC_HANDLE_EVENTS ->
    libusb_handle_events_completed cs (sys_engine s) = Some (engine, evs) ->
    callback_entry s0 engine.

(** ** Invariants of the engine after [ow_engine_init] *)

(** The engine was initialised for the descriptor [desc] and [blocks]
    blocks per transfer: the sizes are the ones of [ow_engine_init], every
    out block has the header [0x07ff] and its cleared padding, and the
    transfer buffer has its size. *)
Definition engine_inv (desc : ow_device_desc) (blocks : Z)
  (engine : ow_engine) : Prop :=
  static_part engine =
    (blocks, OB_FRAMES_PER_BLOCK * blocks,
     OB_BYTES_PER_SAMPLE * inputs desc,
     OB_FRAMES_PER_BLOCK * blocks * (OB_BYTES_PER_SAMPLE * inputs desc),
     OB_FRAMES_PER_BLOCK * blocks * (OB_BYTES_PER_SAMPLE * outputs desc),
     desc, OB_FRAMES_PER_BLOCK * blocks) /\
  out_headers engine =
    replicate (Z.to_nat blocks)
      (htobe16 2047, replicate (Z.to_nat OB_PADDING_SIZE) 0) /\
  length (p2o_transfer_buf engine) = Z.to_nat (p2o_transfer_size engine).

Definition p2o_buf_clear (engine : ow_engine) : Prop :=
  p2o_transfer_buf engine = replicate (Z.to_nat (p2o_transfer_size engine)) 0.

(** While the engine is catching up, the transfer buffer is clear. *)
Definition catching_up_clear (engine : ow_engine) : Prop :=
  reading_at_p2o_end engine = false -> p2o_buf_clear engine.

Definition sys_inv (desc : ow_device_desc) (blocks : Z) (s : system) : Prop :=
  engine_inv desc blocks (sys_engine s) /\
  match sys_pc s with
  | PC_SPIN_READY | PC_PREPARE | PC_LOOP_TOP => p2o_buf_clear (sys_engine s)
  | PC_EVENT_LOOP | PC_HANDLE_EVENTS | PC_STOP_CHECK =>
    catching_up_clear (sys_engine s)
  | PC_REARM | PC_RETURN => True
  end.

(** [engine'] differs from [engine] in none of the three parts: what a
    step other than an out cycle or the re-arming of the thread does. *)
Definition quiet (engine engine' : ow_engine) : Prop :=
  static_part engine' = static_part engine /\
  out_part engine' = out_part engine /\ p2o_part engine' = p2o_part engine.

(** [engine'] has the static part, the counter and the out buffer of
    [engine]. *)
Definition out_quiet (engine engine' : ow_engine) : Prop :=
  static_part engine' = static_part engine /\
  out_part engine' = out_part engine.

(** The counter and the [frames] fields after [n] out cycles since
    activation, for [blocks] blocks per transfer: the counter has advanced
    by [OB_FRAMES_PER_BLOCK] per block, and block [i] of the out buffer
    carries the value the counter had when the last cycle passed it. *)
Definition frames_inv (blocks : Z) (n : Z) (engine : ow_engine) : Prop :=
  blocks_per_transfer engine = blocks /\
  length (usb_data_out engine) = Z.to_nat blocks /\
  frames engine = to_uint16 (n * blocks * OB_FRAMES_PER_BLOCK) /\
  (1 <= n ->
   forall i, (i < Z.to_nat blocks)%nat ->
     out_frames_fields engine !! i =
     Some (to_uint16
             (((n - 1) * blocks + Z.of_nat i + 1) * OB_FRAMES_PER_BLOCK))).

(** The out cycles that one action brings about in state [s]. *)
Definition action_out_transfers (a : action) (s : system) : nat :=
  match a with
  | ACT_AUDIO env =>
    if decide (sys_pc s = PC_HANDLE_EVENTS) then count_out (completed env)
    else 0%nat
  | _ => 0%nat
  end.

(** ** MIDI from the device, as the spec words it *)

(** The 4-byte events of a transfer: one every four bytes from offset
    [len] on, [count] of them. *)
Fixpoint midi_in_events_from (data : list uint8) (len : Z) (count : nat)
  : list (list uint8) :=
  match count with
  | O => []
  | S count =>
    take (Z.to_nat OB_MIDI_EVENT_SIZE) (drop (Z.to_nat len) data) ::
    midi_in_events_from data (len + OB_MIDI_EVENT_SIZE) count
  end.

(** The events of a transfer of [actual] bytes: the strides that start
    below [actual]. *)
Definition midi_in_events (data : list uint8) (actual : Z)
  : list (list uint8) :=
  midi_in_events_from data 0 (Z.to_nat ((actual + 3) / 4)).

(** An event is written exactly when its first byte is in 0x08..0x0F and
    the ring has room for a whole event when the event is reached;
    [midi_written] gives the events written, in order, and the ring as
    they leave it. *)
Fixpoint midi_written (f_ws : ring -> Z)
  (f_w : ring -> list uint8 -> Z -> ring) (time : float)
  (events : list (list uint8)) (r : ring) : list (list uint8) * ring :=
  match events with
  | [] => ([], r)
  | ev :: events =>
    if midi_event_accepted ev && (sizeof_ow_midi_event <=? to_size_t (f_ws r))
    then
      let '(written, r') :=
        midi_written f_ws f_w time events
          (f_w r (ow_midi_event_repr time ev) sizeof_ow_midi_event) in
      (ev :: written, r')
    else midi_written f_ws f_w time events r
  end.

Definition is_ev_write (e : event) : bool :=
  match e with
  | EV_WRITE _ _ _ => true
  | _ => false
  end.

(** The calls through the [write] pointer among [evs]. *)
Definition ev_writes (evs : list event) : list event :=
  filter (fun e => is_ev_write e = true) evs.

(** ** Stopping *)



(** A step either keeps the status or sets it to [ERROR]. *)
Definition status_kept (engine engine' : ow_engine) : Prop :=
  status engine' = status engine \/ status engine' = OW_STATUS_ERROR.

(** ** The members of [ow_io_buffers] that activation checks *)

Inductive member :=
| M_READ_SPACE | M_WRITE_SPACE | M_READ | M_WRITE | M_GET_TIME
| M_P2O_AUDIO | M_O2P_AUDIO | M_P2O_MIDI | M_O2P_MIDI.

#[global] Instance member_eq_dec : EqDecision member.
Proof. solve_decision. Defined.

Definition members : list member :=
  [M_READ_SPACE; M_WRITE_SPACE; M_READ; M_WRITE; M_GET_TIME;
   M_P2O_AUDIO; M_O2P_AUDIO; M_P2O_MIDI; M_O2P_MIDI].

Definition member_missing (io : ow_io_buffers) (m : member) : bool :=
  match m with
  | M_READ_SPACE => is_null (read_space io)
  | M_WRITE_SPACE => is_null (write_space io)
  | M_READ => is_null (read io)
  | M_WRITE => is_null (write io)
  | M_GET_TIME => is_null (get_time io)
  | M_P2O_AUDIO => is_null (p2o_audio io)
  | M_O2P_AUDIO => is_null (o2p_audio io)
  | M_P2O_MIDI => is_null (p2o_midi io)
  | M_O2P_MIDI => is_null (o2p_midi io)
  end.

Definition missing_kind (m : member) : ow_err_t :=
  match m with
  | M_READ_SPACE => OW_INIT_ERROR_NO_READ_SPACE
  | M_WRITE_SPACE => OW_INIT_ERROR_NO_WRITE_SPACE
  | M_READ => OW_INIT_ERROR_NO_READ
  | M_WRITE => OW_INIT_ERROR_NO_WRITE
  | M_GET_TIME => OW_INIT_ERROR_NO_GET_TIME
  | M_P2O_AUDIO => OW_INIT_ERROR_NO_P2O_AUDIO_BUF
  | M_O2P_AUDIO => OW_INIT_ERROR_NO_O2P_AUDIO_BUF
  | M_P2O_MIDI => OW_INIT_ERROR_NO_P2O_MIDI_BUF
  | M_O2P_MIDI => OW_INIT_ERROR_NO_O2P_MIDI_BUF
  end.

(** The four function pointers and the two audio handles are set. *)
Definition audio_members_set (io : ow_io_buffers) : Prop :=
  forall m, m ∈ [M_READ_SPACE; M_WRITE_SPACE; M_READ; M_WRITE;
                 M_P2O_AUDIO; M_O2P_AUDIO] ->
            member_missing io m = false.

(** [get_time] and the two MIDI handles are all NULL. *)
Definition midi_members_absent (io : ow_io_buffers) : bool :=
  is_null (get_time io) && is_null (o2p_midi io) && is_null (p2o_midi io).

(** The order in which activation checks the members (lines 842 to
    893). *)
Definition check_order : list member :=
  [M_READ_SPACE; M_WRITE_SPACE; M_READ; M_WRITE; M_O2P_AUDIO; M_P2O_AUDIO;
   M_GET_TIME; M_O2P_MIDI; M_P2O_MIDI].

(** The members that activation requires: the four function pointers and
    the two audio handles always, [get_time] and the two MIDI handles as
    soon as one of the three is set, and [get_time] also when a DLL is
    attached. *)
Definition member_required (io : ow_io_buffers) (dll_arg : option dll)
  (m : member) : bool :=
  match m with
  | M_GET_TIME => negb (midi_members_absent io) || negb (is_null dll_arg)
  | M_O2P_MIDI | M_P2O_MIDI => negb (midi_members_absent io)
  | _ => true
  end.

(** The first member, in the order of the checks, that is required and
    missing. *)
Definition first_missing (io : ow_io_buffers) (dll_arg : option dll)
  : option member :=
  List.find (fun m => member_required io dll_arg m && member_missing io m)
    check_order.

(** What the two [pthread_create] calls give once the checks have
    passed: the result of the call and the threads started. *)
Definition threads_outcome (midi_on : bool) (pt : pthread_results)
  : ow_err_t * list thread_id :=
  if midi_on && negb (p2o_midi_thread_created pt) then (OW_GENERIC_ERROR, [])
  else if negb (audio_o2p_midi_thread_created pt)
  then (OW_GENERIC_ERROR, if midi_on then [P2O_MIDI_THREAD] else [])
  else (OW_OK,
        (if midi_on then [P2O_MIDI_THREAD] else []) ++
        [AUDIO_O2P_MIDI_THREAD]).

End Engine.

(** ** In-memory rings and mock collaborators

    The set-up of the end-to-end scenarios: byte FIFOs of a fixed capacity
    for the rings, a resampler that rejects an empty input, a DLL that
    counts frames. *)

Record fifo := {
  fifo_bytes : list uint8;
  fifo_capacity : Z
}.

Definition fifo_read_space (r : fifo) : Z := Z.of_nat (length (fifo_bytes r)).

Definition fifo_write_space (r : fifo) : Z := fifo_capacity r - fifo_read_space r.

Definition fifo_read (r : fifo) (dst : dst_ptr) (n : Z) : list uint8 * fifo :=
  (take (Z.to_nat n) (fifo_bytes r),
   {| fifo_bytes := drop (Z.to_nat n) (fifo_bytes r);
      fifo_capacity := fifo_capacity r |}).

Definition fifo_write (r : fifo) (src : list uint8) (n : Z) : fifo :=
  {| fifo_bytes :=
       fifo_bytes r ++ take (Z.to_nat (Z.min n (fifo_write_space r))) src;
     fifo_capacity := fifo_capacity r |}.

Definition empty_fifo (capacity : Z) : fifo :=
  {| fifo_bytes := []; fifo_capacity := capacity |}.

Definition mock_src_simple (data_in : list uint8) (d : SRC_DATA) (channels : Z)
  : Z * list uint8 * Z :=
  if input_frames d <=? 0 then (6, [], 0)
  else
    (0,
     replicate (Z.to_nat (output_frames d * channels * 4)) 1,
     output_frames d).

Definition mock : externals :=
  {| ring := fifo;
     dll := Z;
     OB_FRAMES_PER_BLOCK := 7;
     OB_PADDING_SIZE := 28;
     OB_SAMPLE_RATE := 48000;
     sizeof_ow_midi_event := 16;
     ow_midi_event_repr := fun _ bytes => replicate 8 0 ++ bytes ++ replicate 4 0;
     sample_to_int32 := be32toh;
     int32_to_sample := htobe32;
     src_simple := mock_src_simple;
     ow_dll_overwitch_inc := fun d n _ => d + n;
     ow_dll_overwitch_init := fun _ _ _ _ => 0 |}.

(** Host buffers with every member set, and with the MIDI members left
    out. *)
Definition mock_io : @ow_io_buffers mock :=
  {| read_space := Some (fifo_read_space : @ring mock -> Z);
     write_space := Some (fifo_write_space : @ring mock -> Z);
     read := Some (fifo_read : @ring mock -> _);
     write := Some (fifo_write : @ring mock -> _);
     get_time := Some (fun _ => 0%float);
     p2o_audio := Some (empty_fifo 4096 : @ring mock);
     o2p_audio := Some (empty_fifo 4096 : @ring mock);
     p2o_midi := Some (empty_fifo 256 : @ring mock);
     o2p_midi := Some (empty_fifo 256 : @ring mock) |}.

Definition mock_io_no_midi : @ow_io_buffers mock :=
  {| read_space := Some (fifo_read_space : @ring mock -> Z);
     write_space := Some (fifo_write_space : @ring mock -> Z);
     read := Some (fifo_read : @ring mock -> _);
     write := Some (fifo_write : @ring mock -> _);
     get_time := None;
     p2o_audio := Some (empty_fifo 4096 : @ring mock);
     o2p_audio := Some (empty_fifo 4096 : @ring mock);
     p2o_midi := None;
     o2p_midi := None |}.

(** The memory of an engine before [ow_engine_init] has written to it. *)
Definition blank_engine : @ow_engine mock :=
  {| status := OW_STATUS_ERROR; blocks_per_transfer := 0;
     frames_per_transfer := 0; p2o_latency := 0; p2o_max_latency := 0;
     frames := 0; usb_data_in := []; usb_data_out := [];
     p2o_frame_size := 0; o2p_frame_size := 0; p2o_transfer_size := 0;
     o2p_transfer_size := 0; p2o_transfer_buf := []; o2p_transfer_buf := [];
     p2o_resampler_buf := [];
     p2o_data :=
       {| input_frames := 0; output_frames := 0; input_frames_used := 0;
          output_frames_gen := 0; end_of_input := 0; src_ratio := 0 |};
     reading_at_p2o_end := true; p2o_audio_enabled := 0; midi := false;
     p2o_midi_ready := false; o2p_midi_data := [];
     device_desc := {| name := ""; inputs := 0; outputs := 0 |};
     io_buffers := None; dll_ow := None |}.

Definition mock_desc : ow_device_desc :=
  {| name := "mock"; inputs := 2; outputs := 4 |}.

Definition threads_ok : pthread_results :=
  {| p2o_midi_thread_created := true; audio_o2p_midi_thread_created := true |}.

(** The engine that [ow_engine_init] returns for [blocks] blocks per
    transfer. *)
Definition mock_engine (blocks : Z) : @ow_engine mock :=
  default blank_engine (@ow_engine_init mock blank_engine OW_OK mock_desc blocks).2.

(** The mock system right after a successful activation, with and
    without MIDI. *)
Definition mock_system (blocks : Z) : @system mock :=
  default {| sys_engine := blank_engine; sys_pc := PC_RETURN |}
    (@sys_activated mock blank_engine mock_desc blocks mock_io None threads_ok).

(** An environment in which every submission succeeds and [cs] have
    completed. *)
Definition env_ok {X : externals} (cs : list completion) : thread_env :=
  {| err_in := 0; err_out := 0; err_in_midi := 0; completed := cs |}.

Definition xfr_ok (n : Z) : libusb_transfer :=
  {| xfr_status := LIBUSB_TRANSFER_COMPLETED; actual_length := n |}.

(** The host boots the engine and the audio thread gets to line 813. *)
Definition boot_actions {X : externals} : list action :=
  [ACT_HOST (HOST_SET_STATUS OW_STATUS_BOOT);
   ACT_AUDIO (env_ok []); ACT_AUDIO (env_ok []); ACT_AUDIO (env_ok [])].

(** The system that a run leaves, from [s0]. *)
Definition after_run {X : externals} (acts : list action) (s0 : system)
  : system :=
  default s0 (fst <$> sys_run acts s0).

(** ** Rings that only count their bytes

    A second set of collaborators, for fill levels that no list of bytes
    can hold: the state of a ring is the number of bytes in it. *)

Definition counting : externals :=
  {| ring := Z;
     dll := Z;
     OB_FRAMES_PER_BLOCK := 7;
     OB_PADDING_SIZE := 28;
     OB_SAMPLE_RATE := 48000;
     sizeof_ow_midi_event := 16;
     ow_midi_event_repr := fun _ bytes => replicate 8 0 ++ bytes ++ replicate 4 0;
     sample_to_int32 := be32toh;
     int32_to_sample := htobe32;
     src_simple := mock_src_simple;
     ow_dll_overwitch_inc := fun d n _ => d + n;
     ow_dll_overwitch_init := fun _ _ _ _ => 0 |}.

Definition counting_io : @ow_io_buffers counting :=
  {| read_space := Some ((fun r => r) : @ring counting -> Z);
     write_space := Some ((fun r => 2 ^ 40 - r) : @ring counting -> Z);
     read := Some ((fun r _ n => ([], r - Z.min n r))
                   : @ring counting -> dst_ptr -> Z -> list uint8 * @ring counting);
     write := Some ((fun r _ n => r + n)
                    : @ring counting -> list uint8 -> Z -> @ring counting);
     get_time := None;
     p2o_audio := Some (0 : @ring counting);
     o2p_audio := Some (0 : @ring counting);
     p2o_midi := None;
     o2p_midi := None |}.

Definition counting_blank : @ow_engine counting :=
  {| status := OW_STATUS_ERROR; blocks_per_transfer := 0;
     frames_per_transfer := 0; p2o_latency := 0; p2o_max_latency := 0;
     frames := 0; usb_data_in := []; usb_data_out := [];
     p2o_frame_size := 0; o2p_frame_size := 0; p2o_transfer_size := 0;
     o2p_transfer_size := 0; p2o_transfer_buf := []; o2p_transfer_buf := [];
     p2o_resampler_buf := [];
     p2o_data :=
       {| input_frames := 0; output_frames := 0; input_frames_used := 0;
          output_frames_gen := 0; end_of_input := 0; src_ratio := 0 |};
     reading_at_p2o_end := true; p2o_audio_enabled := 0; midi := false;
     p2o_midi_ready := false; o2p_midi_data := [];
     device_desc := {| name := ""; inputs := 0; outputs := 0 |};
     io_buffers := None; dll_ow := None |}.

Definition counting_system (blocks : Z) : @system counting :=
  default {| sys_engine := counting_blank; sys_pc := PC_RETURN |}
    (@sys_activated counting counting_blank mock_desc blocks counting_io None
       threads_ok).

(** ** The runs of the examples *)

(** The host has enabled audio and left 120 bytes in the ring, with two
    blocks per transfer: one transfer is 112 bytes, one frame is 8. *)
Definition catch_up_actions : list (@action mock) :=
  @boot_actions mock ++
  [ACT_AUDIO (@env_ok mock []);
   ACT_HOST (HOST_SET_P2O_AUDIO_ENABLE 1);
   ACT_HOST (HOST_RING P2O_AUDIO
               ({| fifo_bytes := replicate 120 9; fifo_capacity := 4096 |}
                : @ring mock))].

Definition catch_up_engine : @ow_engine mock :=
  sys_engine (after_run catch_up_actions (mock_system 2)).

(** The host has enabled audio and the ring holds 2^31 + 8 bytes. *)
Definition huge_fill_actions : list (@action counting) :=
  @boot_actions counting ++
  [ACT_AUDIO (@env_ok counting []);
   ACT_HOST (HOST_SET_P2O_AUDIO_ENABLE 1);
   ACT_HOST (HOST_RING P2O_AUDIO (2147483656 : @ring counting))].


(** After the catch-up cycle has emptied the ring, the host writes
    nothing before the next out cycle. *)
Definition underflow_actions : list (@action mock) :=
  catch_up_actions ++
  [ACT_AUDIO (@env_ok mock [XFR_OUT (xfr_ok 0) 0]);
   ACT_AUDIO (@env_ok mock [])].

Definition underflow_engine : @ow_engine mock :=
  sys_engine (after_run underflow_actions (mock_system 2)).

(** The same, but the host has written two frames in between. *)
Definition short_fill_actions : list (@action mock) :=
  catch_up_actions ++
  [ACT_AUDIO (@env_ok mock [XFR_OUT (xfr_ok 0) 0]);
   ACT_HOST (HOST_RING P2O_AUDIO
               ({| fifo_bytes := replicate 16 9; fifo_capacity := 4096 |}
                : @ring mock));
   ACT_AUDIO (@env_ok mock [])].

Definition short_fill_engine : @ow_engine mock :=
  sys_engine (after_run short_fill_actions (mock_system 2)).

(** [n] out cycles in a row, with two blocks per transfer. *)
Definition cycles_actions (n : nat) : list (@action mock) :=
  @boot_actions mock ++
  [ACT_AUDIO (@env_ok mock []);
   ACT_AUDIO (@env_ok mock (replicate n (XFR_OUT (xfr_ok 0) 0)))].

Definition cycles_engine (n : nat) : @ow_engine mock :=
  sys_engine (after_run (cycles_actions n) (mock_system 2)).


(** One more out cycle, from line 813. *)
Definition one_more_cycle : list (@action mock) :=
  [ACT_AUDIO (@env_ok mock []);
   ACT_AUDIO (@env_ok mock [XFR_OUT (xfr_ok 0) 0])].

(** The system after 4681 out cycles, and after the next one. *)
Definition wrap_before : @system mock :=
  after_run (cycles_actions 4681) (mock_system 2).

Definition wrap_after : @system mock := after_run one_more_cycle wrap_before.

(** The engine once the host has raised the status to [RUN]. *)
Definition run_actions : list (@action mock) :=
  @boot_actions mock ++ [ACT_HOST (HOST_SET_STATUS OW_STATUS_RUN)].

Definition run_engine : @ow_engine mock :=
  sys_engine (after_run run_actions (mock_system 2)).

(** A MIDI-in transfer of four events: a note on, a reserved code, a
    control change and another reserved code. *)
Definition midi_in_bytes : list uint8 :=
  [9; 144; 60; 100; 0; 0; 0; 0; 11; 176; 7; 127; 5; 1; 2; 3] ++
  replicate 496 0.

Definition midi_in_engine : @ow_engine mock :=
  set_o2p_midi_data midi_in_bytes run_engine.

(** The host stops the engine right after activation, then the audio
    thread runs three steps. *)
Definition early_stop_actions : list (@action mock) :=
  [ACT_HOST HOST_STOP;
   ACT_AUDIO (@env_ok mock []); ACT_AUDIO (@env_ok mock []);
   ACT_AUDIO (@env_ok mock [])].


Definition late_stop_actions : list (@action mock) :=
  [ACT_HOST HOST_STOP;
   ACT_AUDIO (@env_ok mock []); ACT_AUDIO (@env_ok mock [])].
(** ** What the engine needs from the host's buffers *)

Section Ready.

Context `{!externals}.

(** Which members of the host's buffers are NULL. *)
Definition io_nulls (io : ow_io_buffers) : list bool :=
  member_missing io <$> members.

(** What decides whether a call through the host's buffers faults:
    whether MIDI is enabled, whether a DLL is attached, and which members
    are NULL. *)
Definition io_shape (engine : ow_engine) : bool * bool * option (list bool) :=
  (midi engine, is_null (dll_ow engine), io_nulls <$> io_buffers engine).

(** The state in which [ow_engine_activate_with_dll] lets the threads
    start: the function pointers and the audio handles are set,
    [get_time] is set when a DLL is attached, and with MIDI enabled
    [get_time] and both MIDI handles are set. *)
Definition io_ready (engine : ow_engine) : Prop :=
  exists io,
    io_buffers engine = Some io /\ audio_members_set io /\
    (is_null (dll_ow engine) = false -> is_null (get_time io) = false) /\
    (midi engine = true ->
     is_null (get_time io) = false /\ is_null (o2p_midi io) = false /\
     is_null (p2o_midi io) = false).

(** The buffers [io'] have the NULL members of the buffers of [engine]. *)
Definition same_nulls (io' : ow_io_buffers) (engine : ow_engine) : Prop :=
  Some (io_nulls io') = io_nulls <$> io_buffers engine.

Definition is_xfr_in_midi (c : completion) : bool :=
  match c with
  | XFR_IN_MIDI _ _ _ => true
  | _ => false
  end.

(** The MIDI-in transfer is submitted at line 790 only when MIDI is
    enabled, and by its own callback afterwards: with MIDI disabled,
    libusb has no such transfer to complete. *)
Definition midi_expected (m : bool) (a : action) : Prop :=
  match a with
  | ACT_AUDIO env =>
    m = false -> Forall (fun c => is_xfr_in_midi c = false) (completed env)
  | _ => True
  end.

End Ready.
(** ** The steps of the audio thread in a run *)

Section Steps.

Context `{!externals}.




(** The result of the submission that ends the callback of a completed
    transfer; [cb_xfr_out_midi] submits nothing. *)
Definition completion_err (c : completion) : Z :=
  match c with
  | XFR_IN _ _ err | XFR_OUT _ err | XFR_IN_MIDI _ _ err => err
  | XFR_OUT_MIDI _ => 0
  end.

End Steps.
(** ** The calls of an out cycle *)

Definition is_ev_read (e : event) : bool :=
  match e with
  | EV_READ _ _ _ => true
  | _ => false
  end.

(** The calls through the [read] pointer among [evs]. *)
Definition ev_reads (evs : list event) : list event :=
  filter (fun e => is_ev_read e = true) evs.

Section Silence.

Context `{!externals}.

(** The word that the encoding loop stores for the sample [0.0f]. *)
Definition silence_word : list uint8 :=
  htobe32 (sample_to_int32 [0; 0; 0; 0]).

End Silence.
(** ** The two directions of the engine *)

Section Sides.

Context `{!externals}.

(** The state of the host to device path: the counter, the out buffer,
    the transfer and resampler buffers, the phase flag, the latencies and
    the two rings that the engine reads. *)
Definition p2o_side (engine : ow_engine) :=
  (frames engine, usb_data_out engine, p2o_transfer_buf engine,
   p2o_resampler_buf engine, p2o_data engine, reading_at_p2o_end engine,
   p2o_latency engine, p2o_max_latency engine,
   engine_ring engine P2O_AUDIO, engine_ring engine P2O_MIDI).

(** The state of the device to host audio path. *)
Definition o2p_audio_side (engine : ow_engine) :=
  (usb_data_in engine, o2p_transfer_buf engine, dll_ow engine,
   engine_ring engine O2P_AUDIO).

(** The state of the device to host MIDI path. *)
Definition o2p_midi_side (engine : ow_engine) :=
  (o2p_midi_data engine, engine_ring engine O2P_MIDI).

(** The function pointers of the host's buffers. *)
Definition io_funs (engine : ow_engine) :=
  (fun io => (read_space io, write_space io, read io, write io, get_time io))
    <$> io_buffers engine.

(** What the host sets and the engine only reads. *)
Definition settings (engine : ow_engine) :=
  (static_part engine, o2p_frame_size engine, p2o_audio_enabled engine,
   midi engine, io_funs engine).

(** The latency fields are those of a running maximum. *)
Definition latency_ok (engine : ow_engine) : Prop :=
  0 <= p2o_latency engine <= p2o_max_latency engine.

End Sides.

Section Latency.

Context `{!externals}.

(** The latency fields are meaningful once the audio thread has passed
    line 796 for the first time. *)
Definition latency_inv (s : system) : Prop :=
  match sys_pc s with
  | PC_SPIN_READY | PC_PREPARE | PC_LOOP_TOP => True
  | _ => latency_ok (sys_engine s)
  end.

End Latency.
(** ** MIDI to the device: [run_p2o_midi] *)

Section MidiOut.

Context `{!externals}.

(** Modelled from the spec: [struct ow_midi_event] is declared in
    engine.h; it holds a [double time] and [OB_MIDI_EVENT_SIZE] bytes.
    How the two members lie in the [sizeof_ow_midi_event] bytes of the
    struct is left to the two readers below. *)
Variable event_time : list uint8 -> float.
Variable event_bytes : list uint8 -> list uint8.

(** The local variables of [run_p2o_midi], with [event] as the bytes of
    the struct, and [engine->p2o_midi_data], which no other function of
    engine.c writes after [ow_engine_init]. *)
Record p2o_midi_locals := {
  pos : Z;
  event_read : bool;
  midi_event : list uint8;
  last_time : float;
  diff : float;
  p2o_midi_data : list uint8
}.

Definition set_pos (v : Z) (l : p2o_midi_locals) : p2o_midi_locals :=
  {| pos := v; event_read := event_read l; midi_event := midi_event l;
     last_time := last_time l; diff := diff l;
     p2o_midi_data := p2o_midi_data l |}.

Definition set_event_read (v : bool) (l : p2o_midi_locals) : p2o_midi_locals :=
  {| pos := pos l; event_read := v; midi_event := midi_event l;
     last_time := last_time l; diff := diff l;
     p2o_midi_data := p2o_midi_data l |}.

Definition set_midi_event (v : list uint8) (l : p2o_midi_locals)
  : p2o_midi_locals :=
  {| pos := pos l; event_read := event_read l; midi_event := v;
     last_time := last_time l; diff := diff l;
     p2o_midi_data := p2o_midi_data l |}.

Definition set_last_time (v : float) (l : p2o_midi_locals) : p2o_midi_locals :=
  {| pos := pos l; event_read := event_read l; midi_event := midi_event l;
     last_time := v; diff := diff l; p2o_midi_data := p2o_midi_data l |}.

Definition set_diff (v : float) (l : p2o_midi_locals) : p2o_midi_locals :=
  {| pos := pos l; event_read := event_read l; midi_event := midi_event l;
     last_time := last_time l; diff := v; p2o_midi_data := p2o_midi_data l |}.

Definition set_p2o_midi_data (v : list uint8) (l : p2o_midi_locals)
  : p2o_midi_locals :=
  {| pos := pos l; event_read := event_read l; midi_event := midi_event l;
     last_time := last_time l; diff := diff l; p2o_midi_data := v |}.

(** [memcpy (&buf[at], src, n)] for a source of [n] bytes. *)
Definition memcpy_at (buf : list uint8) (at_ : Z) (src : list uint8)
  : list uint8 :=
  take (Z.to_nat at_) buf ++ src ++ drop (Z.to_nat at_ + length src) buf.

(** The inner loop, lines 707 to 735; [fuel] bounds the iterations. *)
Fixpoint p2o_midi_fill (fuel : nat) (l : p2o_midi_locals) (engine : ow_engine)
  (evs : list event) : option (p2o_midi_locals * ow_engine * list event) :=
  rs ← io_read_space engine P2O_MIDI;
  if (sizeof_ow_midi_event <=? rs) && (pos l <? USB_BULK_MIDI_SIZE) then
    match fuel with
    | O => None
    | S fuel =>
      let l :=
        if pos l =? 0
        then set_diff 0 (set_p2o_midi_data
                           (memset0 (p2o_midi_data l) USB_BULK_MIDI_SIZE) l)
        else l in
      '(l, engine, evs) ←
        (if event_read l then Some (l, engine, evs)
         else
           '(data, engine) ←
             io_read engine P2O_MIDI DST_BUF sizeof_ow_midi_event;
           Some (set_event_read true
                   (set_midi_event (overwrite (midi_event l) data) l),
                 engine,
                 evs ++ [EV_READ P2O_MIDI DST_BUF sizeof_ow_midi_event]));
      if PrimFloat.ltb (last_time l) (event_time (midi_event l)) then
        Some (set_last_time (event_time (midi_event l))
                (set_diff
                   (PrimFloat.sub (event_time (midi_event l)) (last_time l))
                   l),
              engine, evs)
      else
        let l :=
          set_p2o_midi_data
            (memcpy_at (p2o_midi_data l) (pos l)
               (take (Z.to_nat OB_MIDI_EVENT_SIZE)
                  (event_bytes (midi_event l)))) l in
        let l := set_pos (to_int (pos l + OB_MIDI_EVENT_SIZE)) l in
        let l := set_event_read false l in
        p2o_midi_fill fuel l engine evs
    end
  else Some (l, engine, evs).

(** The argument of a [nanosleep] call of the thread. *)
Inductive nanosleep_arg :=
| SLEEP_TIME (d : float)
| SMALLEST_SLEEP_TIME.

(** What a step of the thread does that another thread or libusb can
    see, and its sleeps, in the order of the code: the writes of
    [engine->p2o_midi_ready], the call of [prepare_cycle_out_midi] and
    the calls of [nanosleep]. *)
Inductive p2o_midi_call :=
| SET_P2O_MIDI_READY (v : bool)
| PREPARE_CYCLE_OUT_MIDI
| NANOSLEEP (t : nanosleep_arg).

(** The places of [run_p2o_midi] between which the other threads get to
    run. *)
Inductive p2o_midi_pc :=
| MPC_START          (* lines 700-703 *)
| MPC_FILL           (* lines 707-754 *)
| MPC_WAIT_READY     (* lines 756-765 *)
| MPC_STOP_CHECK     (* line 767 *)
| MPC_RETURN.        (* line 773 *)

(** One step of [run_p2o_midi]; [err] is the result of the submission of
    line 741, should the step make one.  The last component is what the
    step has done, in order. *)
Definition run_p2o_midi (fuel : nat) (err : Z) (pc : p2o_midi_pc)
  (l : p2o_midi_locals) (engine : ow_engine)
  : option (p2o_midi_pc * p2o_midi_locals * ow_engine * list event *
            list p2o_midi_call) :=
  match pc with
  | MPC_START =>
    t ← io_get_time engine;
    let l :=
      set_last_time t (set_diff 0 (set_pos 0 (set_event_read false l))) in
    Some (MPC_FILL, l, set_p2o_midi_ready true engine, [],
          [SET_P2O_MIDI_READY true])
  | MPC_FILL =>
    '(l, engine, evs) ← p2o_midi_fill fuel l engine [];
    let '(l, engine, evs, calls) :=
      if negb (pos l =? 0) then
        let engine := set_p2o_midi_ready false engine in
        let '(engine, evs') := prepare_cycle_out_midi err engine in
        (set_pos 0 l, engine,
         evs ++ [EV_DEBUG_PRINT 2 "Event frames"] ++ evs',
         [SET_P2O_MIDI_READY false; PREPARE_CYCLE_OUT_MIDI])
      else (l, engine, evs, []) in
    let sleep :=
      if negb (PrimFloat.eqb (diff l) 0) then SLEEP_TIME (diff l)
      else SMALLEST_SLEEP_TIME in
    Some (MPC_WAIT_READY, l, engine, evs, calls ++ [NANOSLEEP sleep])
  | MPC_WAIT_READY =>
    if p2o_midi_ready engine then Some (MPC_STOP_CHECK, l, engine, [], [])
    else Some (MPC_WAIT_READY, l, engine, [],
               [NANOSLEEP SMALLEST_SLEEP_TIME])
  | MPC_STOP_CHECK =>
    if status_leb (ow_engine_get_status engine) OW_STATUS_STOP
    then Some (MPC_RETURN, l, engine, [], [])
    else Some (MPC_FILL, l, engine, [], [])
  | MPC_RETURN => Some (MPC_RETURN, l, engine, [], [])
  end.

End MidiOut.

Section MidiOutSpec.

Context `{!externals}.

(** The bytes of [p2o_midi_data] are a batch of [pos / 4] events
    followed by zeros. *)
Definition batch_inv (l : p2o_midi_locals) : Prop :=
  0 <= pos l <= USB_BULK_MIDI_SIZE /\ pos l mod OB_MIDI_EVENT_SIZE = 0 /\
  length (p2o_midi_data l) = Z.to_nat USB_BULK_MIDI_SIZE /\
  (0 < pos l ->
   drop (Z.to_nat (pos l)) (p2o_midi_data l) =
   replicate (Z.to_nat (USB_BULK_MIDI_SIZE - pos l)) 0).

(** The events that the thread holds: the ones of the batch and the one
    it has read and not copied yet. *)
Definition events_held (l : p2o_midi_locals) : Z :=
  pos l / OB_MIDI_EVENT_SIZE + (if event_read l then 1 else 0).

(** The event that the thread has read and not copied yet. *)
Definition held_event (l : p2o_midi_locals) : list (list uint8) :=
  if event_read l then [midi_event l] else [].

(** [k] events read in a row from the ring in state [r], through the
    host's [read]: the values that [event] takes, [ev] being its value
    before, and the ring that is left. *)
Fixpoint read_events (f_r : ring -> dst_ptr -> Z -> list uint8 * ring)
  (k : nat) (ev : list uint8) (r : ring) : list (list uint8) * ring :=
  match k with
  | O => ([], r)
  | S k =>
    let '(data, r') := f_r r DST_BUF sizeof_ow_midi_event in
    let ev' := overwrite ev (take (Z.to_nat sizeof_ow_midi_event) data) in
    let '(evs, r'') := read_events f_r k ev' r' in
    (ev' :: evs, r'')
  end.

End MidiOutSpec.

(** ** The engine with both of its threads *)

Section Full.

Context `{!externals}.

Variable event_time : list uint8 -> float.
Variable event_bytes : list uint8 -> list uint8.

(** The iterations of the inner loop of [run_p2o_midi] that a batch can
    take: one per event of the buffer, and one more. *)
Definition p2o_midi_fuel : nat :=
  S (Z.to_nat (USB_BULK_MIDI_SIZE / OB_MIDI_EVENT_SIZE)).

Record full_system := {
  fs_sys : system;
  fs_pc : p2o_midi_pc;
  fs_locals : p2o_midi_locals
}.

(** A call of the host, a step of the audio thread, or a step of the
    MIDI thread with the result of its submission. *)
Inductive full_action :=
| FA_HOST (h : host_action)
| FA_AUDIO (env : thread_env)
| FA_MIDI (err : Z).

Definition full_step (a : full_action) (s : full_system)
  : option (full_system * list event) :=
  match a with
  | FA_HOST h =>
    '(sys, evs) ← sys_step (ACT_HOST h) (fs_sys s);
    Some ({| fs_sys := sys; fs_pc := fs_pc s; fs_locals := fs_locals s |}, evs)
  | FA_AUDIO env =>
    '(sys, evs) ← sys_step (ACT_AUDIO env) (fs_sys s);
    Some ({| fs_sys := sys; fs_pc := fs_pc s; fs_locals := fs_locals s |}, evs)
  | FA_MIDI err =>
    '(pc, l, engine, evs, _) ←
      run_p2o_midi event_time event_bytes p2o_midi_fuel err (fs_pc s)
        (fs_locals s) (sys_engine (fs_sys s));
    Some ({| fs_sys :=
               {| sys_engine := engine; sys_pc := sys_pc (fs_sys s) |};
             fs_pc := pc; fs_locals := l |}, evs)
  end.

Fixpoint full_run (acts : list full_action) (s : full_system)
  : option (full_system * list event) :=
  match acts with
  | [] => Some (s, [])
  | a :: acts =>
    '(s, evs) ← full_step a s;
    '(s, evs') ← full_run acts s;
    Some (s, evs ++ evs')
  end.

(** The system once activation has started both threads; [junk] is what
    the stack of the MIDI thread holds. *)
Definition full_activated (s0 : system) (junk : p2o_midi_locals)
  : full_system :=
  {| fs_sys := s0; fs_pc := MPC_START;
     fs_locals :=
       set_p2o_midi_data (replicate (Z.to_nat USB_BULK_MIDI_SIZE) 0) junk |}.

Definition is_xfr_out_midi (c : completion) : bool :=
  match c with
  | XFR_OUT_MIDI _ => true
  | _ => false
  end.

(** No MIDI-out transfer completes during the action. *)
Definition no_out_midi_completion (a : full_action) : Prop :=
  match a with
  | FA_AUDIO env => Forall (fun c => is_xfr_out_midi c = false) (completed env)
  | _ => True
  end.

(** The host leaves the host to device MIDI ring alone. *)
Definition p2o_midi_ring_idle (a : full_action) : Prop :=
  match a with
  | FA_HOST (HOST_RING P2O_MIDI _) => False
  | _ => True
  end.

(** As [midi_expected], for the actions of the full system. *)
Definition full_midi_expected (m : bool) (a : full_action) : Prop :=
  match a with
  | FA_AUDIO env => midi_expected m (ACT_AUDIO env)
  | _ => True
  end.

(** The MIDI thread is between its wait for [p2o_midi_ready] and its
    next submission. *)
Definition filling (pc : p2o_midi_pc) : Prop :=
  pc = MPC_FILL \/ pc = MPC_STOP_CHECK.

End Full.

Section FullInv.

Context `{!externals}.

(** What holds of the full system from activation on: the host's
    buffers are complete, MIDI is enabled, [p2o_midi_data] has its size,
    [pos] is 0 between two batches, and the MIDI thread is past its wait
    only with [p2o_midi_ready] set. *)
Definition full_inv (s : full_system) : Prop :=
  io_ready (sys_engine (fs_sys s)) /\
  midi (sys_engine (fs_sys s)) = true /\
  length (p2o_midi_data (fs_locals s)) = Z.to_nat USB_BULK_MIDI_SIZE /\
  (fs_pc s <> MPC_START -> pos (fs_locals s) = 0) /\
  (filling (fs_pc s) -> p2o_midi_ready (sys_engine (fs_sys s)) = true).

End FullInv.

Section Enable.

Context `{!externals}.

(** The value of the last [ow_engine_set_p2o_audio_enable] of a run;
    [d] when the run has none. *)
Definition last_enable (acts : list action) (d : Z) : Z :=
  foldl
    (fun d a =>
       match a with
       | ACT_HOST (HOST_SET_P2O_AUDIO_ENABLE enabled) => enabled
       | _ => d
       end)
    d acts.

End Enable.

(** ** The libusb set-up of [ow_engine_init] (lines 457 to 590) *)

Definition LIBUSB_SUCCESS : Z := 0.
Definition ENOMEM : Z := 12.
Definition AUDIO_IN_EP : Z := 131.
Definition AUDIO_OUT_EP : Z := 3.
Definition MIDI_IN_EP : Z := 129.
Definition MIDI_OUT_EP : Z := 1.

(** What libusb answers for one device of the list: the result of
    [libusb_get_device_descriptor] and the two ids it fills in, the bus
    number and the address, the result of [libusb_open] and the value of
    [engine->device_handle] after that call. *)
Record libusb_device := {
  descriptor_err : Z;
  idVendor : Z;
  idProduct : Z;
  bus_number : Z;
  device_address : Z;
  open_err : Z;
  open_handle : option Z
}.

(** The calls that [ow_engine_init] makes before the label [end] and in
    its error branch.  The devices are named by their index in the list. *)
Inductive usb_call :=
| LIBUSB_INIT
| LIBUSB_GET_DEVICE_LIST
| LIBUSB_GET_DEVICE_DESCRIPTOR (i : nat)
| OW_IS_VALID_DEVICE (i : nat)
| LIBUSB_GET_BUS_NUMBER (i : nat)
| LIBUSB_GET_DEVICE_ADDRESS (i : nat)
| LIBUSB_OPEN (i : nat)
| LIBUSB_FREE_DEVICE_LIST
| LIBUSB_SET_CONFIGURATION (configuration : Z)
| LIBUSB_CLAIM_INTERFACE (interface : Z)
| LIBUSB_SET_INTERFACE_ALT_SETTING (interface alt : Z)
| LIBUSB_CLEAR_HALT (endpoint : Z)
| LIBUSB_ALLOC_TRANSFER
| LIBUSB_CLOSE (device_handle : option Z)
| LIBUSB_EXIT
| FREE_ENGINE.

#[global] Instance usb_call_eq_dec : EqDecision usb_call.
Proof. solve_decision. Defined.

(** What is outside [engine.c]: the answers of libusb, and
    [ow_is_valid_device] and [OB_DEVICE_DESCS] of the rest of the
    library.  [ow_is_valid_device] gets the ids and the current value of
    [name], and gives its result and the value of [name] it leaves.  A
    negative count of [libusb_get_device_list] is the empty list here:
    the loop of line 468 is not entered either way.  The [n]-th
    [libusb_alloc_transfer] returns a transfer when
    [libusb_alloc_transfer_ok n] holds and NULL otherwise. *)
Record usb_env := {
  libusb_init_err : Z;
  libusb_device_list : list libusb_device;
  ow_is_valid_device : Z -> Z -> option string -> bool * option string;
  OB_DEVICE_DESCS : list ow_device_desc;
  libusb_err : usb_call -> Z;
  libusb_alloc_transfer_ok : nat -> bool
}.

(** The two fields of the engine that the set-up uses.  Both are pointers
    and [None] is NULL. *)
Record usb_fields := {
  device_handle : option Z;
  device_desc_ptr : option ow_device_desc
}.

(** The loop of lines 468 to 490 from device [i] on, with [name] as it
    stands: the value of [engine->device_handle] and of [name] when the
    loop is left, and the calls made.  The handle is NULL when the loop
    is entered (line 466) and is written by [libusb_open] only. *)
Fixpoint find_device (env : usb_env) (bus address : Z) (i : nat)
  (devices : list libusb_device) (name : option string)
  : option Z * option string * list usb_call :=
  match devices with
  | [] => (None, name, [])
  | device :: devices =>
    if negb (descriptor_err device =? 0) then
      let '(h, name, calls) :=
        find_device env bus address (S i) devices name in
      (h, name, LIBUSB_GET_DEVICE_DESCRIPTOR i :: calls)
    else
      let '(valid, name) :=
        ow_is_valid_device env (idVendor device) (idProduct device) name in
      let calls1 := [LIBUSB_GET_DEVICE_DESCRIPTOR i; OW_IS_VALID_DEVICE i] in
      if negb valid then
        let '(h, name, calls) :=
          find_device env bus address (S i) devices name in
        (h, name, calls1 ++ calls)
      else if negb (bus_number device =? bus) then
        let '(h, name, calls) :=
          find_device env bus address (S i) devices name in
        (h, name, calls1 ++ [LIBUSB_GET_BUS_NUMBER i] ++ calls)
      else if negb (device_address device =? address) then
        let '(h, name, calls) :=
          find_device env bus address (S i) devices name in
        (h, name,
         calls1 ++ [LIBUSB_GET_BUS_NUMBER i; LIBUSB_GET_DEVICE_ADDRESS i] ++
         calls)
      else
        (open_handle device, name,
         calls1 ++ [LIBUSB_GET_BUS_NUMBER i; LIBUSB_GET_DEVICE_ADDRESS i;
                    LIBUSB_OPEN i])
  end.

(** The loop of lines 501 to 509: [engine->device_desc] when the loop is
    left, [cur] being its value before.  [strcmp] on a NULL [name] is a
    fault. *)
Fixpoint find_desc (descs : list ow_device_desc) (name_ptr : option string)
  (cur : option ow_device_desc) : option (option ow_device_desc) :=
  match descs with
  | [] => Some cur
  | d :: descs =>
    nm ← name_ptr;
    if bool_decide (name d = nm) then Some (Some d)
    else find_desc descs name_ptr cur
  end.

(** [prepare_transfers]: the result, and the calls made. *)
Definition prepare_transfers (env : usb_env) : Z * list usb_call :=
  if negb (libusb_alloc_transfer_ok env 0) then
    (- ENOMEM, [LIBUSB_ALLOC_TRANSFER])
  else if negb (libusb_alloc_transfer_ok env 1) then
    (- ENOMEM, [LIBUSB_ALLOC_TRANSFER; LIBUSB_ALLOC_TRANSFER])
  else if negb (libusb_alloc_transfer_ok env 2) then
    (- ENOMEM,
     [LIBUSB_ALLOC_TRANSFER; LIBUSB_ALLOC_TRANSFER; LIBUSB_ALLOC_TRANSFER])
  else if negb (libusb_alloc_transfer_ok env 3) then
    (- ENOMEM,
     [LIBUSB_ALLOC_TRANSFER; LIBUSB_ALLOC_TRANSFER; LIBUSB_ALLOC_TRANSFER;
      LIBUSB_ALLOC_TRANSFER])
  else
    (LIBUSB_SUCCESS,
     [LIBUSB_ALLOC_TRANSFER; LIBUSB_ALLOC_TRANSFER; LIBUSB_ALLOC_TRANSFER;
      LIBUSB_ALLOC_TRANSFER]).

(** [err = c; if (LIBUSB_SUCCESS != err) { ret = kind; goto end; }]
    followed by [rest]. *)
Definition try_call (env : usb_env) (c : usb_call) (kind : ow_err_t)
  (rest : ow_err_t * list usb_call) : ow_err_t * list usb_call :=
  if negb (libusb_err env c =? LIBUSB_SUCCESS) then (kind, [c])
  else (rest.1, c :: rest.2).

(** Lines 520 to 590: the value of [ret] at the label [end], and the
    calls made. *)
Definition configure (env : usb_env) : ow_err_t * list usb_call :=
  try_call env (LIBUSB_SET_CONFIGURATION 1) OW_USB_ERROR_CANT_SET_USB_CONFIG
  (try_call env (LIBUSB_CLAIM_INTERFACE 1) OW_USB_ERROR_CANT_CLAIM_IF
  (try_call env (LIBUSB_SET_INTERFACE_ALT_SETTING 1 3)
     OW_USB_ERROR_CANT_SET_ALT_SETTING
  (try_call env (LIBUSB_CLAIM_INTERFACE 2) OW_USB_ERROR_CANT_CLAIM_IF
  (try_call env (LIBUSB_SET_INTERFACE_ALT_SETTING 2 2)
     OW_USB_ERROR_CANT_SET_ALT_SETTING
  (try_call env (LIBUSB_CLAIM_INTERFACE 3) OW_USB_ERROR_CANT_CLAIM_IF
  (try_call env (LIBUSB_SET_INTERFACE_ALT_SETTING 3 0)
     OW_USB_ERROR_CANT_SET_ALT_SETTING
  (try_call env (LIBUSB_CLEAR_HALT AUDIO_IN_EP) OW_USB_ERROR_CANT_CLEAR_EP
  (try_call env (LIBUSB_CLEAR_HALT AUDIO_OUT_EP) OW_USB_ERROR_CANT_CLEAR_EP
  (try_call env (LIBUSB_CLEAR_HALT MIDI_IN_EP) OW_USB_ERROR_CANT_CLEAR_EP
  (try_call env (LIBUSB_CLEAR_HALT MIDI_OUT_EP) OW_USB_ERROR_CANT_CLEAR_EP
  (let '(err, calls) := prepare_transfers env in
   (if negb (LIBUSB_SUCCESS =? err) then OW_USB_ERROR_CANT_PREPARE_TRANSFER
    else OW_OK,
    calls)))))))))))).

(** Lines 457 to 590: [ret] and the two fields at the label [end], and
    the calls made.  [fresh] is what [malloc] left in the two fields. *)
Definition usb_setup (env : usb_env) (fresh : usb_fields) (bus address : Z)
  : option (ow_err_t * usb_fields * list usb_call) :=
  if negb (libusb_init_err env =? LIBUSB_SUCCESS) then
    Some (OW_USB_ERROR_LIBUSB_INIT_FAILED, fresh, [LIBUSB_INIT])
  else
    let '(h, name, calls) :=
      find_device env bus address 0 (libusb_device_list env) None in
    let calls :=
      [LIBUSB_INIT; LIBUSB_GET_DEVICE_LIST] ++ calls ++
      [LIBUSB_FREE_DEVICE_LIST] in
    let fields :=
      {| device_handle := h; device_desc_ptr := device_desc_ptr fresh |} in
    if is_null h then Some (OW_USB_ERROR_CANT_FIND_DEV, fields, calls)
    else
      d ← find_desc (OB_DEVICE_DESCS env) name (device_desc_ptr fresh);
      let fields := {| device_handle := h; device_desc_ptr := d |} in
      if is_null d then Some (OW_USB_ERROR_CANT_FIND_DEV, fields, calls)
      else
        let '(ret, calls') := configure env in
        Some (ret, fields, calls ++ calls').

(** The calls of [usb_shutdown]. *)
Definition usb_shutdown (fields : usb_fields) : list usb_call :=
  [LIBUSB_CLOSE (device_handle fields); LIBUSB_EXIT].

(** The calls that [ow_engine_init] makes when nothing fails. *)
Definition configure_calls : list usb_call :=
  [LIBUSB_SET_CONFIGURATION 1; LIBUSB_CLAIM_INTERFACE 1;
   LIBUSB_SET_INTERFACE_ALT_SETTING 1 3; LIBUSB_CLAIM_INTERFACE 2;
   LIBUSB_SET_INTERFACE_ALT_SETTING 2 2; LIBUSB_CLAIM_INTERFACE 3;
   LIBUSB_SET_INTERFACE_ALT_SETTING 3 0; LIBUSB_CLEAR_HALT AUDIO_IN_EP;
   LIBUSB_CLEAR_HALT AUDIO_OUT_EP; LIBUSB_CLEAR_HALT MIDI_IN_EP;
   LIBUSB_CLEAR_HALT MIDI_OUT_EP; LIBUSB_ALLOC_TRANSFER;
   LIBUSB_ALLOC_TRANSFER; LIBUSB_ALLOC_TRANSFER; LIBUSB_ALLOC_TRANSFER].

(** Whether call [k] of [configure_calls] succeeds. *)
Definition call_ok (env : usb_env) (k : nat) : bool :=
  match configure_calls !! k with
  | Some LIBUSB_ALLOC_TRANSFER => libusb_alloc_transfer_ok env (k - 11)
  | Some c => libusb_err env c =? LIBUSB_SUCCESS
  | None => true
  end.

(** The error kind that the code gives to a failure of a call. *)
Definition call_kind (c : usb_call) : ow_err_t :=
  match c with
  | LIBUSB_INIT => OW_USB_ERROR_LIBUSB_INIT_FAILED
  | LIBUSB_SET_CONFIGURATION _ => OW_USB_ERROR_CANT_SET_USB_CONFIG
  | LIBUSB_CLAIM_INTERFACE _ => OW_USB_ERROR_CANT_CLAIM_IF
  | LIBUSB_SET_INTERFACE_ALT_SETTING _ _ => OW_USB_ERROR_CANT_SET_ALT_SETTING
  | LIBUSB_CLEAR_HALT _ => OW_USB_ERROR_CANT_CLEAR_EP
  | LIBUSB_ALLOC_TRANSFER => OW_USB_ERROR_CANT_PREPARE_TRANSFER
  | _ => OW_USB_ERROR_CANT_FIND_DEV
  end.

(** The device that a call of the loop of line 468 is about. *)
Definition call_device (c : usb_call) : option nat :=
  match c with
  | LIBUSB_GET_DEVICE_DESCRIPTOR i | OW_IS_VALID_DEVICE i
  | LIBUSB_GET_BUS_NUMBER i | LIBUSB_GET_DEVICE_ADDRESS i | LIBUSB_OPEN i =>
    Some i
  | _ => None
  end.

Definition is_shutdown_call (c : usb_call) : bool :=
  match c with
  | LIBUSB_CLOSE _ | LIBUSB_EXIT | FREE_ENGINE => true
  | _ => false
  end.

(** Whether device [device] passes the test of lines 479 to 481 when
    [name] has the value [name]. *)
Definition device_matches (env : usb_env) (bus address : Z)
  (device : libusb_device) (name : option string) : bool :=
  (descriptor_err device =? 0) &&
  (ow_is_valid_device env (idVendor device) (idProduct device) name).1 &&
  (bus_number device =? bus) && (device_address device =? address).


Section InitWhole.

Context `{!externals}.

(** [ow_engine_init] as a whole: the set-up, then the part from the label
    [end] on.  [fresh] and [fresh_usb] are the memory that [malloc]
    returned.  The messages are left out. *)
Definition ow_engine_init_whole (env : usb_env) (fresh_usb : usb_fields)
  (fresh : ow_engine) (bus address blocks_per_transfer_arg : Z)
  : option (ow_err_t * option ow_engine * list usb_call) :=
  '(ret, fields, calls) ← usb_setup env fresh_usb bus address;
  if decide (ret = OW_OK) then
    d ← device_desc_ptr fields;
    Some (ow_engine_init fresh ret d blocks_per_transfer_arg, calls)
  else
    Some (ret, None, calls ++ usb_shutdown fields ++ [FREE_ENGINE]).

End InitWhole.

(** What the calls from call [k0] of [configure_calls] on give: the
    calls made are those up to the first that fails, and the kind of
    that call is the value of [ret]. *)
Definition first_failure (env : usb_env) (k0 : nat)
  (r : ow_err_t * list usb_call) : Prop :=
  let n := length r.2 in
  (0 < n)%nat /\ (k0 + n <= 15)%nat /\
  r.2 = take n (drop k0 configure_calls) /\
  (forall k, (S k < n)%nat -> call_ok env (k0 + k) = true) /\
  (r.1 = OW_OK -> (k0 + n = 15)%nat /\ call_ok env 14 = true) /\
  (r.1 <> OW_OK ->
   exists c, configure_calls !! (k0 + n - 1)%nat = Some c /\
             call_ok env (k0 + n - 1) = false /\ r.1 = call_kind c).

(** The calls up to line 493, when [libusb_init] has succeeded. *)
Definition search_calls (env : usb_env) (bus address : Z) : list usb_call :=
  [LIBUSB_INIT; LIBUSB_GET_DEVICE_LIST] ++
  (find_device env bus address 0 (libusb_device_list env) None).2 ++
  [LIBUSB_FREE_DEVICE_LIST].

(** The handle that the loop of line 468 leaves. *)
Definition found_handle (env : usb_env) (bus address : Z) : option Z :=
  (find_device env bus address 0 (libusb_device_list env) None).1.1.

(** The value of [name] that the loop of line 468 leaves. *)
Definition found_name (env : usb_env) (bus address : Z) : option string :=
  (find_device env bus address 0 (libusb_device_list env) None).1.2.

(** The handle that [usb_shutdown] closes. *)
Definition shutdown_handle (env : usb_env) (fresh_usb : usb_fields)
  (bus address : Z) : option Z :=
  if libusb_init_err env =? LIBUSB_SUCCESS then found_handle env bus address
  else device_handle fresh_usb.

(** ** Further runs of the mock system *)

(** A running engine on which transfers of the four kinds complete, and
    the MIDI thread submits one. *)
Definition busy_actions : list (@action mock) :=
  run_actions ++
  [ACT_AUDIO (@env_ok mock []);
   ACT_AUDIO
     (@env_ok mock
        [XFR_IN (xfr_ok 0) (replicate 2 (@zero_blk mock 4)) 0;
         XFR_OUT (xfr_ok 0) 0;
         XFR_IN_MIDI (xfr_ok 16) midi_in_bytes 0;
         XFR_OUT_MIDI (xfr_ok 0)]);
   ACT_P2O_MIDI_SEND 0].

(** ** The MIDI thread of the mock system *)

(** The layout of [struct ow_midi_event] in the examples: the time is
    the number in the first of its eight bytes, the four MIDI bytes
    follow. *)
Definition mock_event_time (mem : list uint8) : float :=
  to_double (default 0 (mem !! 0%nat)).

Definition mock_event_bytes (mem : list uint8) : list uint8 :=
  take 4 (drop 8 mem ++ replicate 4 0).

Definition mock_midi_event (time : Z) (bytes : list uint8) : list uint8 :=
  [time; 0; 0; 0; 0; 0; 0; 0] ++ bytes ++ [0; 0; 0; 0].

(** What the stack of the MIDI thread holds before line 700. *)
Definition mock_junk : p2o_midi_locals :=
  {| pos := 77; event_read := true; midi_event := []; last_time := 3;
     diff := 9; p2o_midi_data := [] |}.

(** The system that a run of the full mock system leaves. *)
Definition full_after (acts : list (@full_action mock))
  (s : @full_system mock) : @full_system mock :=
  default s
    (fst <$> @full_run mock mock_event_time mock_event_bytes acts s).

(** The MIDI thread starts; the host writes two events that are due and
    one that is due at time 5; the thread makes a batch of the first two
    and submits it, with the result [err]. *)
Definition midi_batch_actions (err : Z) : list (@full_action mock) :=
  [FA_MIDI 0;
   FA_HOST
     (HOST_RING P2O_MIDI
        ({| fifo_bytes :=
              mock_midi_event 0 [9; 144; 60; 100] ++
              mock_midi_event 0 [9; 144; 62; 100] ++
              mock_midi_event 5 [8; 128; 60; 0];
            fifo_capacity := 256 |} : @ring mock));
   FA_MIDI err].

Definition midi_batch_system (err : Z) : @full_system mock :=
  full_after (midi_batch_actions err)
    (full_activated (mock_system 2) mock_junk).

(** The state in which the thread is about to make that batch. *)
Definition midi_fill_system : @full_system mock :=
  full_after (take 2 (midi_batch_actions 0))
    (full_activated (mock_system 2) mock_junk).

(** The host stops the engine, and the two threads go on. *)
Definition midi_wait_actions : list (@full_action mock) :=
  [FA_HOST HOST_STOP; FA_MIDI 0; FA_AUDIO (@env_ok mock []); FA_MIDI 0;
   FA_AUDIO (@env_ok mock [XFR_OUT (xfr_ok 0) 0]); FA_MIDI 0].

(** The transfer of the batch completes, and the thread goes round its
    loop twice. *)
Definition midi_idle_actions : list (@full_action mock) :=
  [FA_HOST (HOST_SET_STATUS OW_STATUS_BOOT);
   FA_AUDIO (@env_ok mock []); FA_AUDIO (@env_ok mock []);
   FA_AUDIO (@env_ok mock []); FA_AUDIO (@env_ok mock []);
   FA_AUDIO (@env_ok mock [XFR_OUT_MIDI (xfr_ok 0)]);
   FA_MIDI 0; FA_MIDI 0; FA_MIDI 0; FA_MIDI 0; FA_MIDI 0; FA_MIDI 0].

(** After the catch-up cycle the host leaves 120 bytes in the ring: the
    engine is in the steady state with more than a transfer to read. *)
Definition steady_actions : list (@action mock) :=
  catch_up_actions ++
  [ACT_AUDIO (@env_ok mock [XFR_OUT (xfr_ok 0) 0]);
   ACT_HOST (HOST_RING P2O_AUDIO
               ({| fifo_bytes := replicate 120 64; fifo_capacity := 4096 |}
                : @ring mock));
   ACT_AUDIO (@env_ok mock [])].

Definition steady_engine : @ow_engine mock :=
  sys_engine (after_run steady_actions (mock_system 2)).

(** After the catch-up cycle the host disables audio. *)
Definition disable_actions : list (@action mock) :=
  catch_up_actions ++
  [ACT_AUDIO (@env_ok mock [XFR_OUT (xfr_ok 0) 0]);
   ACT_HOST (HOST_SET_P2O_AUDIO_ENABLE 0);
   ACT_AUDIO (@env_ok mock [])].

Definition disabled_engine : @ow_engine mock :=
  sys_engine (after_run disable_actions (mock_system 2)).

(** The engine after the steady-state cycle that has read one transfer. *)
Definition streaming_engine : @ow_engine mock :=
  sys_engine
    (after_run
       (steady_actions ++
        [ACT_AUDIO (@env_ok mock [XFR_OUT (xfr_ok 0) 0]);
         ACT_AUDIO (@env_ok mock [])])
       (mock_system 2)).

(** *** Concrete set-ups *)

Definition mock_usb_device (handle : option Z) : libusb_device :=
  {| descriptor_err := 0; idVendor := 6477; idProduct := 12;
     bus_number := 1; device_address := 5; open_err := 0;
     open_handle := handle |}.

(** A device of another vendor on the same bus. *)
Definition other_usb_device : libusb_device :=
  {| descriptor_err := 0; idVendor := 1133; idProduct := 7; bus_number := 1;
     device_address := 2; open_err := 0; open_handle := Some 7 |}.

(** A set-up in which every call succeeds but those for which [fails]
    holds, with the devices [devices] and the descriptors [descs]. *)
Definition mock_usb_env (devices : list libusb_device)
  (descs : list ow_device_desc) (fails : usb_call -> bool) : usb_env :=
  {| libusb_init_err := if fails LIBUSB_INIT then -99 else 0;
     libusb_device_list := devices;
     ow_is_valid_device :=
       fun vendor product name =>
         if (vendor =? 6477) && (product =? 12) then (true, Some "mock")
         else (false, name);
     OB_DEVICE_DESCS := descs;
     libusb_err := fun c => if fails c then -6 else 0;
     libusb_alloc_transfer_ok := fun n => negb (fails LIBUSB_ALLOC_TRANSFER) |}.

Definition no_failure (c : usb_call) : bool := false.

Definition mock_fresh_usb : usb_fields :=
  {| device_handle := Some 99; device_desc_ptr := None |}.



(** Two devices, the second of which is the one asked for. *)
Definition two_devices (handle : option Z) : list libusb_device :=
  [other_usb_device; mock_usb_device handle; mock_usb_device (Some 3)].

Definition only_fails (c0 : usb_call) (c : usb_call) : bool :=
  bool_decide (c = c0).



(** The engine that the host has stopped right after activation. *)
Definition early_stopped_engine : @ow_engine mock :=
  sys_engine (after_run [ACT_HOST HOST_STOP] (mock_system 2)).

(** * Properties *)

(** ** The error strings *)

Lemma table_kinds_messages : err_message <$> table_kinds = Some <$> ob_err_strgs.
Proof. reflexivity. Qed.

(** Every entry of the table is the message of one of the kinds it names. *)
Lemma table_entry_names_a_kind (errcode : Z) (s : string) :
  ow_get_err_str errcode = Some s ->
  exists k, k ∈ table_kinds /\ err_message k = Some s.
Proof.
  unfold ow_get_err_str. destruct (errcode <? 0); [discriminate|].
  intros Hs.
  assert (Hf : (Some <$> ob_err_strgs) !! Z.to_nat errcode = Some (Some s))
    by (rewrite list_lookup_fmap, Hs; reflexivity).
  rewrite <- table_kinds_messages, list_lookup_fmap in Hf.
  destruct (table_kinds !! Z.to_nat errcode) as [k|] eqn:Hk; [|discriminate].
  exists k. split; [eapply list_elem_of_lookup_2; eassumption|].
  simpl in Hf. congruence.
Qed.

(** C8, refuted on the code: the table has eighteen entries, each the
    message of another kind, and none for [OW_GENERIC_ERROR].  Whatever
    values engine.h gives the enumerators, [ow_get_err_str] fails one of
    the kinds that init and activate return: for [OW_GENERIC_ERROR] it
    reads outside the table or returns the message of another kind. *)
Theorem ow_get_err_str_generic_error (enum_value : ow_err_t -> Z) :
  exists k, k ∈ returned_kinds /\ ~ table_serves enum_value k.
Proof.
  exists OW_GENERIC_ERROR. split.
  - unfold returned_kinds. repeat constructor.
  - unfold table_serves. simpl. intros (s & Hs & Hnone).
    destruct (table_entry_names_a_kind _ _ Hs) as (k & _ & Hk).
    exact (Hnone k Hk).
Qed.

(** The kinds with a message of their own are served by the numbering
    that follows the table. *)
Lemma ow_get_err_str_table_order (n : nat) (k : ow_err_t) (s : string) :
  table_kinds !! n = Some k -> err_message k = Some s ->
  ow_get_err_str (Z.of_nat n) = Some s.
Proof.
  intros Hk Hs. unfold ow_get_err_str.
  destruct (Z.of_nat n <? 0) eqn:Hneg; [apply Z.ltb_lt in Hneg; lia|].
  rewrite Nat2Z.id.
  assert (Hf : (err_message <$> table_kinds) !! n = Some (Some s))
    by (rewrite list_lookup_fmap, Hk; simpl; congruence).
  rewrite table_kinds_messages, list_lookup_fmap in Hf.
  destruct (ob_err_strgs !! n); simpl in Hf; congruence.
Qed.

(** ** Activation *)

Section Activation.

Context `{!externals}.

Implicit Types (engine : ow_engine) (io : ow_io_buffers).

Lemma audio_members_set_spec io :
  audio_members_set io <->
  is_null (read_space io) = false /\ is_null (write_space io) = false /\
  is_null (read io) = false /\ is_null (write io) = false /\
  is_null (p2o_audio io) = false /\ is_null (o2p_audio io) = false.
Proof.
  unfold audio_members_set. split.
  - intros Hall. repeat split.
    + apply (Hall M_READ_SPACE). repeat constructor.
    + apply (Hall M_WRITE_SPACE). repeat constructor.
    + apply (Hall M_READ). repeat constructor.
    + apply (Hall M_WRITE). repeat constructor.
    + apply (Hall M_P2O_AUDIO). repeat constructor.
    + apply (Hall M_O2P_AUDIO). repeat constructor.
  - intros (? & ? & ? & ? & ? & ?) m Hm.
    repeat (apply elem_of_cons in Hm as [->|Hm]; [assumption|]).
    by apply elem_of_nil in Hm.
Qed.

(** C10: [io_buffers] and [dll_ow] are stored before any check, so a call
    that returns an error kind has already replaced both fields by its
    arguments. *)
Theorem activate_stores_arguments_first engine io (dll_arg : option dll)
  (pt : pthread_results) :
  (ow_engine_activate_with_dll engine io dll_arg pt).1.1 <> OW_OK ->
  io_buffers (ow_engine_activate_with_dll engine io dll_arg pt).1.2 = Some io /\
  dll_ow (ow_engine_activate_with_dll engine io dll_arg pt).1.2 = dll_arg.
Proof.
  intros _. unfold ow_engine_activate_with_dll.
  repeat (case_match; simpl in *; simplify_eq; try done).
Qed.

Lemma find_first_decides {A : Type} (P : A -> bool) (pre : list A) (x : A)
  (post : list A) :
  (forall y, y ∈ pre -> P y = false) -> P x = true ->
  List.find P (pre ++ x :: post) = Some x.
Proof.
  intros Hpre Hx. induction pre as [|y pre IH]; simpl.
  - by rewrite Hx.
  - rewrite (Hpre y) by constructor. apply IH.
    intros y' Hy'. apply Hpre. by constructor.
Qed.

Lemma find_nothing {A : Type} (P : A -> bool) (l : list A) :
  (forall y, y ∈ l -> P y = false) -> List.find P l = None.
Proof.
  intros Hl. induction l as [|y l IH]; simpl; [done|].
  rewrite (Hl y) by constructor. apply IH.
  intros y' Hy'. apply Hl. by constructor.
Qed.

(** The result of activation: the kind of the first required member that
    is missing, with the engine untouched but for the two arguments
    stored; otherwise what the thread creation gives, with the counter
    at 0, the status [READY] and [midi] set as the members say. *)
Lemma activate_first_missing engine io (dll_arg : option dll)
  (pt : pthread_results) :
  let r := ow_engine_activate_with_dll engine io dll_arg pt in
  match first_missing io dll_arg with
  | Some m =>
    r.1.1 = missing_kind m /\ r.2 = [] /\
    status r.1.2 = status engine /\ frames r.1.2 = frames engine
  | None =>
    (r.1.1, r.2) = threads_outcome (negb (midi_members_absent io)) pt /\
    midi r.1.2 = negb (midi_members_absent io) /\
    status r.1.2 = OW_STATUS_READY /\ frames r.1.2 = 0
  end.
Proof.
  unfold ow_engine_activate_with_dll, first_missing, midi_members_absent,
    threads_outcome. simpl.
  unfold midi_members_absent.
  destruct (is_null (read_space io)); [done|].
  destruct (is_null (write_space io)); [done|].
  destruct (is_null (read io)); [done|].
  destruct (is_null (write io)); [done|].
  destruct (is_null (o2p_audio io)); [done|].
  destruct (is_null (p2o_audio io)); [done|].
  destruct (is_null (get_time io)), (is_null (o2p_midi io)),
    (is_null (p2o_midi io)), dll_arg as [d|]; simpl; try done.
  all: destruct (p2o_midi_thread_created pt),
         (audio_o2p_midi_thread_created pt); done.
Qed.

Lemma first_missing_some io (dll_arg : option dll) m :
  first_missing io dll_arg = Some m ->
  member_required io dll_arg m = true /\ member_missing io m = true.
Proof.
  intros Hm. apply List.find_some in Hm as [_ Hm].
  by apply andb_true_iff in Hm.
Qed.

Lemma first_missing_none io (dll_arg : option dll) m :
  first_missing io dll_arg = None ->
  member_required io dll_arg m = true -> member_missing io m = false.
Proof.
  intros Hnone Hreq.
  pose proof (List.find_none _ _ Hnone m) as Hm. simpl in Hm.
  rewrite Hreq in Hm. apply Hm. destruct m; simpl; tauto.
Qed.

(** C7, as the code has it.  The four function pointers and the two
    audio handles are always required, [get_time] and the two MIDI
    handles as soon as one of the three is set, and [get_time] also when
    a DLL is attached.  Whenever a required member is missing, however
    many are, the call returns the kind of the first one missing in the
    order of the checks and has started no thread; the nine kinds
    differ.  When none is missing the call returns [OW_OK] or, if a
    thread could not be created, [OW_GENERIC_ERROR].  With the function
    pointers and the audio handles set, the call succeeds with MIDI
    disabled exactly when [get_time] and both MIDI handles are NULL, no
    DLL is attached and the audio thread could be created; with a DLL
    attached it fails with [NO_GET_TIME]. *)
Theorem activate_members engine io (dll_arg : option dll)
  (pt : pthread_results) :
  let r := ow_engine_activate_with_dll engine io dll_arg pt in
  (forall pre m post,
     check_order = pre ++ m :: post ->
     (forall m', m' ∈ pre -> member_required io dll_arg m' = true ->
                 member_missing io m' = false) ->
     member_required io dll_arg m = true -> member_missing io m = true ->
     r.1.1 = missing_kind m /\ r.2 = []) /\
  (forall m, member_required io dll_arg m = true ->
             member_missing io m = true ->
             exists m', r.1.1 = missing_kind m' /\
                        member_required io dll_arg m' = true /\
                        member_missing io m' = true /\ r.2 = []) /\
  ((forall m, member_required io dll_arg m = true ->
              member_missing io m = false) ->
   (r.1.1 = OW_OK \/ r.1.1 = OW_GENERIC_ERROR) /\
   (r.1.1 = OW_OK <->
    (midi_members_absent io = false -> p2o_midi_thread_created pt = true) /\
    audio_o2p_midi_thread_created pt = true)) /\
  (forall m, member_missing io m = true ->
             (forall m', m' <> m -> member_missing io m' = false) ->
             r.1.1 = missing_kind m /\ r.2 = []) /\
  NoDup (missing_kind <$> members) /\
  (audio_members_set io ->
   (r.1.1 = OW_OK /\ midi r.1.2 = false <->
    midi_members_absent io = true /\ dll_arg = None /\
    audio_o2p_midi_thread_created pt = true) /\
   (midi_members_absent io = true -> is_Some dll_arg ->
    r.1.1 = OW_INIT_ERROR_NO_GET_TIME /\ r.2 = []) /\
   (midi_members_absent io = false ->
    (is_null (get_time io) = true ->
     r.1.1 = OW_INIT_ERROR_NO_GET_TIME /\ r.2 = []) /\
    (is_null (get_time io) = false -> is_null (o2p_midi io) = true ->
     r.1.1 = OW_INIT_ERROR_NO_O2P_MIDI_BUF /\ r.2 = []) /\
    (is_null (get_time io) = false -> is_null (o2p_midi io) = false ->
     is_null (p2o_midi io) = true ->
     r.1.1 = OW_INIT_ERROR_NO_P2O_MIDI_BUF /\ r.2 = []))).
Proof.
  intros r.
  pose proof (activate_first_missing engine io dll_arg pt) as Hfirst.
  cbv zeta in Hfirst. fold r in Hfirst.
  assert (Hdecides : forall pre m post,
            check_order = pre ++ m :: post ->
            (forall m', m' ∈ pre -> member_required io dll_arg m' = true ->
                        member_missing io m' = false) ->
            member_required io dll_arg m = true ->
            member_missing io m = true ->
            r.1.1 = missing_kind m /\ r.2 = []).
  { intros pre m post Horder Hpre Hreq Hmiss.
    assert (Hm : first_missing io dll_arg = Some m).
    { unfold first_missing. rewrite Horder. apply find_first_decides.
      - intros m' Hm'. destruct (member_required io dll_arg m') eqn:Hr; [|done].
        simpl. by apply Hpre.
      - by rewrite Hreq, Hmiss. }
    rewrite Hm in Hfirst. by destruct Hfirst as (? & ? & _). }
  split; [exact Hdecides|]. split.
  { intros m Hreq Hmiss.
    destruct (first_missing io dll_arg) as [m'|] eqn:Hm'.
    - destruct (first_missing_some _ _ _ Hm') as [Hreq' Hmiss'].
      destruct Hfirst as (Hk & Hth & _). by exists m'.
    - rewrite (first_missing_none _ _ m Hm' Hreq) in Hmiss. done. }
  split.
  { intros Hall.
    assert (Hnone : first_missing io dll_arg = None).
    { apply find_nothing. intros m _.
      destruct (member_required io dll_arg m) eqn:Hr; [|done].
      simpl. by apply Hall. }
    rewrite Hnone in Hfirst. destruct Hfirst as (Hout & _).
    unfold threads_outcome in Hout.
    destruct (midi_members_absent io), (p2o_midi_thread_created pt),
      (audio_o2p_midi_thread_created pt); simpl in Hout;
      injection Hout as Hk _; rewrite Hk;
      (split; [auto|]); split; try done; intros [Hm ?]; try done;
      try (by specialize (Hm eq_refl)); auto. }
  split; [|split].
  - intros m Hm Hothers.
    assert (Hall : forall m', member_missing io m' = bool_decide (m' = m)).
    { intros m'. destruct (decide (m' = m)) as [->|Hne].
      - by rewrite bool_decide_eq_true_2.
      - rewrite bool_decide_eq_false_2 by done. by apply Hothers. }
    pose proof (Hall M_READ_SPACE) as H1. pose proof (Hall M_WRITE_SPACE) as H2.
    pose proof (Hall M_READ) as H3. pose proof (Hall M_WRITE) as H4.
    pose proof (Hall M_GET_TIME) as H5. pose proof (Hall M_P2O_AUDIO) as H6.
    pose proof (Hall M_O2P_AUDIO) as H7. pose proof (Hall M_P2O_MIDI) as H8.
    pose proof (Hall M_O2P_MIDI) as H9.
    subst r. unfold ow_engine_activate_with_dll. simpl in *.
    rewrite H1, H2, H3, H4, H5, H6, H7, H8, H9.
    destruct m; simpl; done.
  - apply NoDup_ListNoDup. simpl.
    repeat constructor; simpl; intuition congruence.
  - intros Hset. apply audio_members_set_spec in Hset
      as (H1 & H2 & H3 & H4 & H5 & H6).
    subst r. unfold ow_engine_activate_with_dll, midi_members_absent.
    rewrite H1, H2, H3, H4, H5, H6.
    destruct (is_null (get_time io)), (is_null (o2p_midi io)),
      (is_null (p2o_midi io)), dll_arg as [d|],
      (p2o_midi_thread_created pt), (audio_o2p_midi_thread_created pt);
      simpl; repeat split; intros; destruct_and?;
        try done; try (by exfalso; eapply is_Some_None).
Qed.

End Activation.

(** The witness of C10: a DLL without [get_time] is rejected, and both
    fields hold the rejected arguments. *)
Lemma activate_stores_arguments_first_witness :
  (@ow_engine_activate_with_dll mock (mock_engine 8) mock_io_no_midi
     (Some 0) threads_ok).1.1 <> OW_OK /\
  io_buffers (@ow_engine_activate_with_dll mock (mock_engine 8) mock_io_no_midi
                (Some 0) threads_ok).1.2 = Some mock_io_no_midi /\
  dll_ow (@ow_engine_activate_with_dll mock (mock_engine 8) mock_io_no_midi
            (Some 0) threads_ok).1.2 = Some 0.
Proof.
  split; [discriminate|].
  apply (@activate_stores_arguments_first mock). discriminate.
Defined.

(** C7 as stated fails: all three optional members are NULL and the six
    others are set, yet activation with a DLL attached does not succeed. *)
Lemma activate_with_dll_needs_get_time :
  let r := @ow_engine_activate_with_dll mock (mock_engine 8) mock_io_no_midi
             (Some 0) threads_ok in
  @audio_members_set mock mock_io_no_midi /\
  @midi_members_absent mock mock_io_no_midi = true /\
  r.1.1 = OW_INIT_ERROR_NO_GET_TIME /\
  ~ (r.1.1 = OW_OK /\ midi r.1.2 = false).
Proof.
  split; [|split; [reflexivity|split; [reflexivity|]]].
  - apply audio_members_set_spec. repeat split.
  - intros [H _]. discriminate H.
Qed.

(** The witness of C7: without MIDI members and without a DLL the call
    succeeds and MIDI is off. *)
Lemma activate_members_witness :
  @audio_members_set mock mock_io_no_midi /\
  (@ow_engine_activate_with_dll mock (mock_engine 8) mock_io_no_midi None
     threads_ok).1.1 = OW_OK /\
  midi (@ow_engine_activate_with_dll mock (mock_engine 8) mock_io_no_midi None
          threads_ok).1.2 = false.
Proof.
  assert (Hset : @audio_members_set mock mock_io_no_midi)
    by (apply audio_members_set_spec; repeat split).
  split; [exact Hset|].
  apply (proj1 (proj2 (proj2 (proj2 (proj2 (proj2
           (@activate_members mock (mock_engine 8) mock_io_no_midi None
              threads_ok))))) Hset)).
  repeat split.
Defined.

(** ** Loops, bytes and buffers *)

Lemma for_loop_nonpos {S : Type} (n : Z) (body : nat -> S -> S) (s : S) :
  n <= 0 -> for_loop n body s = s.
Proof.
  intros Hn. unfold for_loop.
  replace (Z.to_nat n) with 0%nat by lia. reflexivity.
Qed.

(** A loop invariant for [for_loop]. *)
Lemma for_loop_ind {S : Type} (P : nat -> S -> Prop) (n : Z)
  (body : nat -> S -> S) (s : S) :
  P 0%nat s ->
  (forall i s', (i < Z.to_nat n)%nat -> P i s' -> P (Datatypes.S i) (body i s')) ->
  P (Z.to_nat n) (for_loop n body s).
Proof.
  unfold for_loop. generalize (Z.to_nat n) as k. intros k H0 Hstep.
  induction k as [|k IH].
  - exact H0.
  - rewrite seq_S, foldl_app. simpl. apply Hstep; [lia|].
    apply IH. intros i s' Hi. apply Hstep. lia.
Qed.

Lemma to_uint16_range (z : Z) : 0 <= to_uint16 z < 65536.
Proof. unfold to_uint16. apply Z.mod_pos_bound. lia. Qed.

Lemma to_uint16_add_l (a b : Z) : to_uint16 (to_uint16 a + b) = to_uint16 (a + b).
Proof. unfold to_uint16. apply Zplus_mod_idemp_l. Qed.

Lemma to_uint16_small (z : Z) : 0 <= z < 65536 -> to_uint16 z = z.
Proof. intros Hz. unfold to_uint16. apply Z.mod_small. lia. Qed.

(** Storing a counter big-endian and reading it back gives the counter
    modulo 2^16. *)
Lemma be16toh_htobe16 (x : Z) : be16toh (htobe16 x) = to_uint16 x.
Proof.
  unfold be16toh, htobe16.
  pose proof (Z.div_mod (to_uint16 x) 256 ltac:(lia)) as Hdm. lia.
Qed.

Lemma length_overwrite (buf src : list Z) :
  (length src <= length buf)%nat -> length (overwrite buf src) = length buf.
Proof.
  intros Hle. unfold overwrite. rewrite length_app, length_drop. lia.
Qed.

Lemma memset0_all (buf : list Z) (n : Z) :
  length buf = Z.to_nat n -> memset0 buf n = replicate (Z.to_nat n) 0.
Proof.
  intros Hlen. unfold memset0.
  rewrite drop_ge by lia. apply app_nil_r.
Qed.

(** ** The encoding loop *)

Section OutPath.

Context `{!externals}.

Implicit Types (engine : ow_engine).

Lemma htobe16_to_uint16 (x : Z) : htobe16 (to_uint16 x) = htobe16 x.
Proof.
  unfold htobe16. replace (to_uint16 (to_uint16 x)) with (to_uint16 x); [done|].
  unfold to_uint16. by rewrite Z.mod_mod.
Qed.

Lemma frames_after_S (n : nat) engine :
  to_uint16 (frames_after n engine + OB_FRAMES_PER_BLOCK) =
  frames_after (S n) engine.
Proof.
  destruct n as [|n]; unfold frames_after.
  - f_equal. lia.
  - rewrite to_uint16_add_l. f_equal. lia.
Qed.

(** The loop after [set_blocks] writes the counter and the out buffer and
    nothing else. *)
Lemma set_blocks_eq engine :
  set_blocks engine =
  set_usb_data_out
    (out_blks_after (Z.to_nat (blocks_per_transfer engine)) engine)
    (set_frames
       (frames_after (Z.to_nat (blocks_per_transfer engine)) engine) engine).
Proof.
  unfold set_blocks.
  apply (for_loop_ind
           (fun n s =>
              s = set_usb_data_out (out_blks_after n engine)
                    (set_frames (frames_after n engine) engine))).
  - unfold out_blks_after, frames_after. simpl.
    replace (imap _ (usb_data_out engine)) with (usb_data_out engine).
    + by destruct engine.
    + apply list_eq. intros j. rewrite list_lookup_imap.
      by destruct (usb_data_out engine !! j).
  - intros i s' _ ->. unfold set_block. simpl.
    rewrite frames_after_S.
    replace (alter _ i (out_blks_after i engine))
      with (out_blks_after (S i) engine).
    + by destruct engine.
    + apply list_eq. intros j. unfold out_blks_after.
      destruct (decide (j = i)) as [->|Hne].
      * rewrite list_lookup_alter_eq, !list_lookup_imap.
        destruct (usb_data_out engine !! i) as [blk|]; [|done]. simpl.
        rewrite decide_True by lia. rewrite decide_False by lia.
        unfold encoded_blk. rewrite htobe16_to_uint16.
        repeat f_equal; lia.
      * rewrite list_lookup_alter_ne by done. rewrite !list_lookup_imap.
        destruct (usb_data_out engine !! j) as [blk|]; [|done]. simpl.
        destruct (decide (j < i)%nat), (decide (j < S i)%nat); try done; lia.
Qed.

End OutPath.

(** ** What each step leaves alone *)

Section IoCalls.

Context `{!externals}.

Implicit Types (engine : ow_engine).

Lemma io_read_inv engine id dst n data engine' :
  io_read engine id dst n = Some (data, engine') ->
  exists io', engine' = set_io_buffers (Some io') engine /\
              (length data <= Z.to_nat n)%nat.
Proof.
  unfold io_read. intros Hr. simplify_option_eq.
  case_match. simplify_eq. eexists. split; [reflexivity|].
  rewrite length_take. lia.
Qed.

Lemma io_write_inv engine id src n engine' :
  io_write engine id src n = Some engine' ->
  exists io', engine' = set_io_buffers (Some io') engine.
Proof.
  unfold io_write. intros Hr. simplify_option_eq. eexists. reflexivity.
Qed.

End IoCalls.

Ltac io_inv :=
  repeat match goal with
  | H : io_read _ _ _ _ = Some _ |- _ =>
    apply io_read_inv in H as (? & -> & ?)
  | H : io_write _ _ _ _ = Some _ |- _ =>
    apply io_write_inv in H as (? & ->)
  end.

Ltac step_cases :=
  repeat (simplify_option_eq; io_inv; try case_match).

Section Frames.

Context `{!externals}.

Implicit Types (engine : ow_engine).

Lemma quiet_refl engine : quiet engine engine.
Proof. done. Qed.

Lemma quiet_trans e1 e2 e3 : quiet e1 e2 -> quiet e2 e3 -> quiet e1 e3.
Proof. unfold quiet. intros (-> & -> & ->) (-> & -> & ->). done. Qed.

Lemma submit_transfer_quiet what err engine :
  quiet engine (submit_transfer what err engine).1.
Proof. unfold submit_transfer. by case_match. Qed.

Lemma set_usb_input_data_blks_quiet engine engine' evs :
  set_usb_input_data_blks engine = Some (engine', evs) -> quiet engine engine'.
Proof. unfold set_usb_input_data_blks. intros Hr. step_cases; done. Qed.

Lemma prepare_cycle_quiet (prepare : Z -> ow_engine -> ow_engine * list event)
  err engine engine' evs :
  (exists what, prepare = submit_transfer what) ->
  prepare err engine = (engine', evs) -> quiet engine engine'.
Proof.
  intros [what ->] Hp.
  pose proof (submit_transfer_quiet what err engine) as Hq.
  by rewrite Hp in Hq.
Qed.

Lemma cb_xfr_in_quiet xfr err blks engine engine' evs :
  cb_xfr_in xfr err (set_usb_data_in blks engine) = Some (engine', evs) ->
  quiet engine engine'.
Proof.
  unfold cb_xfr_in. intros Hr.
  match type of Hr with
  | mbind _ ?m = _ => destruct m as [[e1 evs1]|] eqn:Hb; simpl in Hr; [|done]
  end.
  destruct (prepare_cycle_in err e1) as [e2 evs2] eqn:Hp. simplify_eq.
  apply prepare_cycle_quiet in Hp; [|by eexists].
  eapply quiet_trans; [|exact Hp].
  destruct (decide _); simplify_eq.
  - apply set_usb_input_data_blks_quiet in Hb.
    eapply quiet_trans; [|exact Hb]. done.
  - done.
Qed.

Lemma midi_in_loop_quiet fuel time actual len engine evs engine' evs' :
  midi_in_loop fuel time actual len engine evs = Some (engine', evs') ->
  quiet engine engine'.
Proof.
  revert len engine evs. induction fuel as [|fuel IH]; intros len engine evs; simpl.
  - case_match; [done|]. intros; simplify_eq. done.
  - intros Hr. repeat (case_match; simplify_option_eq; io_inv); try done.
    + apply IH in Hr. eapply quiet_trans; [|exact Hr]. done.
    + by apply IH in Hr.
    + by apply IH in Hr.
Qed.

Lemma cb_xfr_in_midi_quiet xfr err bytes engine engine' evs :
  cb_xfr_in_midi xfr err (set_o2p_midi_data bytes engine) = Some (engine', evs) ->
  quiet engine engine'.
Proof.
  unfold cb_xfr_in_midi. intros Hr.
  match type of Hr with
  | mbind _ ?m = _ => destruct m as [[e1 evs1]|] eqn:Hb; simpl in Hr; [|done]
  end.
  destruct (prepare_cycle_in_midi err e1) as [e2 evs2] eqn:Hp. simplify_eq.
  apply prepare_cycle_quiet in Hp; [|by eexists].
  eapply quiet_trans; [|exact Hp].
  repeat (case_match; simplify_option_eq); try done.
  apply midi_in_loop_quiet in Hb. eapply quiet_trans; [|exact Hb]. done.
Qed.

Lemma cb_xfr_out_midi_quiet xfr engine :
  quiet engine (cb_xfr_out_midi xfr engine).1.
Proof. done. Qed.

Lemma host_step_quiet h engine : quiet engine (host_step h engine).
Proof.
  destruct h; simpl; try done.
  - unfold ow_engine_set_p2o_audio_enable. by case_match.
  - by case_match.
Qed.

Lemma p2o_midi_send_quiet err engine : quiet engine (p2o_midi_send err engine).1.
Proof.
  unfold p2o_midi_send, prepare_cycle_out_midi.
  eapply quiet_trans; [|apply submit_transfer_quiet]. done.
Qed.

(** *** The out cycle *)

Lemma set_blocks_parts engine :
  static_part (set_blocks engine) = static_part engine /\
  p2o_part (set_blocks engine) = p2o_part engine /\
  frames (set_blocks engine) =
    frames_after (Z.to_nat (blocks_per_transfer engine)) engine /\
  usb_data_out (set_blocks engine) =
    out_blks_after (Z.to_nat (blocks_per_transfer engine)) engine.
Proof. rewrite set_blocks_eq. done. Qed.

Lemma out_blks_after_headers n engine :
  (fun blk => (blk_header blk, blk_padding blk)) <$> out_blks_after n engine =
  out_headers engine.
Proof.
  apply list_eq. intros j. unfold out_blks_after, out_headers.
  rewrite !list_lookup_fmap, list_lookup_imap.
  destruct (usb_data_out engine !! j); [|done]. simpl. by case_decide.
Qed.

Lemma set_blocks_headers engine :
  out_headers (set_blocks engine) = out_headers engine.
Proof.
  unfold out_headers at 1.
  destruct (set_blocks_parts engine) as (_ & _ & _ & ->).
  apply out_blks_after_headers.
Qed.

(** An out cycle is some preparation of the transfer buffer, which
    touches neither the counter nor the out buffer, and the encoding
    loop. *)
Lemma out_cycle_shape engine engine' evs :
  set_usb_output_data_blks engine = Some (engine', evs) ->
  exists e1, engine' = set_blocks e1 /\
             static_part e1 = static_part engine /\
             out_part e1 = out_part engine.
Proof.
  unfold set_usb_output_data_blks, p2o_resample. intros Hr.
  step_cases; eexists; (split; [reflexivity|done]).
Qed.

Lemma out_cycle_headers engine engine' evs :
  set_usb_output_data_blks engine = Some (engine', evs) ->
  static_part engine' = static_part engine /\
  out_headers engine' = out_headers engine.
Proof.
  intros (e1 & -> & Hs & Ho)%out_cycle_shape.
  destruct (set_blocks_parts e1) as (-> & _). split; [done|].
  rewrite set_blocks_headers. unfold out_headers.
  injection Ho as _ Hu. by rewrite Hu.
Qed.
End Frames.

(** ** The invariants of an initialised engine *)

Ltac parts_inj :=
  repeat match goal with
  | H : static_part _ = _ |- _ =>
    unfold static_part in H; injection H as ? ? ? ? ? ? ?
  | H : out_part _ = _ |- _ => unfold out_part in H; injection H as ? ?
  | H : p2o_part _ = _ |- _ => unfold p2o_part in H; injection H as ? ?
  end.

Section Invariants.

Context `{!externals}.

Implicit Types (engine : ow_engine) (desc : ow_device_desc).

Lemma quiet_engine_inv desc blocks engine engine' :
  quiet engine engine' -> engine_inv desc blocks engine ->
  engine_inv desc blocks engine'.
Proof.
  unfold quiet, engine_inv, out_headers.
  intros (Hs & Ho & Hp) (Hst & Hh & Hl).
  split; [by rewrite Hs|]. parts_inj. split; congruence.
Qed.

Lemma quiet_p2o_buf_clear engine engine' :
  quiet engine engine' -> p2o_buf_clear engine -> p2o_buf_clear engine'.
Proof.
  unfold quiet, p2o_buf_clear. intros (Hs & _ & Hp) Hc. parts_inj. congruence.
Qed.

Lemma quiet_catching_up_clear engine engine' :
  quiet engine engine' -> catching_up_clear engine -> catching_up_clear engine'.
Proof.
  unfold catching_up_clear. intros Hq Hc Hr.
  apply (quiet_p2o_buf_clear _ _ Hq). apply Hc.
  destruct Hq as (_ & _ & Hp). parts_inj. congruence.
Qed.

Lemma set_blocks_quiet_but_out engine :
  static_part (set_blocks engine) = static_part engine /\
  p2o_part (set_blocks engine) = p2o_part engine /\
  out_headers (set_blocks engine) = out_headers engine.
Proof.
  destruct (set_blocks_parts engine) as (Hs & Hp & _).
  by rewrite set_blocks_headers.
Qed.

Lemma set_blocks_engine_inv desc blocks engine :
  engine_inv desc blocks engine -> engine_inv desc blocks (set_blocks engine).
Proof.
  unfold engine_inv. intros (Hst & Hh & Hl).
  destruct (set_blocks_quiet_but_out engine) as (Hs & Hp & Hhd).
  split; [by rewrite Hs|]. parts_inj. split; congruence.
Qed.

Lemma set_blocks_catching_up_clear engine :
  catching_up_clear engine -> catching_up_clear (set_blocks engine).
Proof.
  unfold catching_up_clear, p2o_buf_clear.
  destruct (set_blocks_quiet_but_out engine) as (Hs & Hp & _).
  parts_inj. intros Hc Hr.
  replace (p2o_transfer_buf (set_blocks engine)) with (p2o_transfer_buf engine).
  replace (p2o_transfer_size (set_blocks engine)) with (p2o_transfer_size engine).
  apply Hc. congruence.
Qed.

(** An out cycle keeps the invariants: the buffer is cleared when the
    engine falls back to catching up, and is otherwise written only while
    [reading_at_p2o_end] is set. *)
Lemma out_cycle_inv desc blocks engine engine' evs :
  engine_inv desc blocks engine -> catching_up_clear engine ->
  set_usb_output_data_blks engine = Some (engine', evs) ->
  engine_inv desc blocks engine' /\ catching_up_clear engine'.
Proof.
  intros Hinv Hclear Hr.
  unfold set_usb_output_data_blks, p2o_resample in Hr.
  step_cases.
  all: split; [apply set_blocks_engine_inv|apply set_blocks_catching_up_clear].
  all: revert Hinv Hclear;
    unfold engine_inv, catching_up_clear, p2o_buf_clear, out_headers; simpl;
    intros (Hst & Hh & Hl) Hclear.
  all: try (intros Hf; destruct (reading_at_p2o_end engine) eqn:Hre;
            simpl in *; try discriminate;
            first [by apply Hclear | by apply memset0_all]).
  all: split; [exact Hst|split; [exact Hh|]]; try exact Hl.
  - rewrite memset0_all by done. apply length_replicate.
  - rewrite length_overwrite; [done|]. rewrite Hl. done.
  - rewrite length_overwrite; [done|]. rewrite Hl. done.
  - rewrite length_overwrite; [done|]. rewrite Hl, length_take.
    parts_inj. subst.
    replace (p2o_transfer_size engine)
      with (output_frames (p2o_data engine) * inputs (device_desc engine) *
            OB_BYTES_PER_SAMPLE) by (unfold OB_BYTES_PER_SAMPLE in *; lia).
    lia.
  - rewrite length_overwrite; [done|]. rewrite Hl, length_take.
    parts_inj. subst.
    replace (p2o_transfer_size engine)
      with (output_frames (p2o_data engine) * inputs (device_desc engine) *
            OB_BYTES_PER_SAMPLE) by (unfold OB_BYTES_PER_SAMPLE in *; lia).
    lia.
Qed.

Lemma cb_xfr_out_inv desc blocks xfr err engine engine' evs :
  engine_inv desc blocks engine -> catching_up_clear engine ->
  cb_xfr_out xfr err engine = Some (engine', evs) ->
  engine_inv desc blocks engine' /\ catching_up_clear engine'.
Proof.
  intros Hinv Hclear. unfold cb_xfr_out. intros Hr.
  destruct (set_usb_output_data_blks engine) as [[e1 evs1]|] eqn:Hb;
    simpl in Hr; [|done].
  destruct (prepare_cycle_out err e1) as [e2 evs2] eqn:Hp. simplify_eq.
  apply prepare_cycle_quiet in Hp; [|by eexists].
  destruct (out_cycle_inv _ _ _ _ _ Hinv Hclear Hb) as [Hinv1 Hclear1].
  split.
  - by apply (quiet_engine_inv _ _ _ _ Hp).
  - by apply (quiet_catching_up_clear _ _ Hp).
Qed.

Lemma run_completion_inv desc blocks c engine engine' evs :
  engine_inv desc blocks engine -> catching_up_clear engine ->
  run_completion c engine = Some (engine', evs) ->
  engine_inv desc blocks engine' /\ catching_up_clear engine'.
Proof.
  intros Hinv Hclear Hr. destruct c; simpl in Hr.
  - apply cb_xfr_in_quiet in Hr.
    split; [by apply (quiet_engine_inv _ _ _ _ Hr)
           |by apply (quiet_catching_up_clear _ _ Hr)].
  - by eapply cb_xfr_out_inv.
  - apply cb_xfr_in_midi_quiet in Hr.
    split; [by apply (quiet_engine_inv _ _ _ _ Hr)
           |by apply (quiet_catching_up_clear _ _ Hr)].
  - simplify_eq. pose proof (cb_xfr_out_midi_quiet xfr engine) as Hq.
    rewrite Hr in Hq. simpl in Hq.
    split; [by apply (quiet_engine_inv _ _ _ _ Hq)
           |by apply (quiet_catching_up_clear _ _ Hq)].
Qed.

Lemma handle_events_inv desc blocks cs engine engine' evs :
  engine_inv desc blocks engine -> catching_up_clear engine ->
  libusb_handle_events_completed cs engine = Some (engine', evs) ->
  engine_inv desc blocks engine' /\ catching_up_clear engine'.
Proof.
  revert engine evs. induction cs as [|c cs IH]; intros engine evs Hinv Hclear;
    simpl; intros Hr.
  - by simplify_eq.
  - destruct (run_completion c engine) as [[e1 evs1]|] eqn:Hc;
      simpl in Hr; [|done].
    destruct (libusb_handle_events_completed cs e1) as [[e2 evs2]|] eqn:Hcs;
      simpl in Hr; [|done].
    simplify_eq.
    destruct (run_completion_inv _ _ _ _ _ _ Hinv Hclear Hc) as [Hinv1 Hclear1].
    by eapply IH.
Qed.

(** *** Initialisation and activation *)

(** The loop of [ow_engine_init] over the out blocks: every block gets
    the header and keeps the padding that [memset] has cleared. *)
Lemma init_out_blks (blocks : Z) (channels : Z) :
  let l := for_loop blocks (write_out_blk_header (htobe16 2047))
             (replicate (Z.to_nat blocks) (zero_blk channels)) in
  length l = Z.to_nat blocks /\
  forall j blk, l !! j = Some blk ->
    blk_padding blk = replicate (Z.to_nat OB_PADDING_SIZE) 0 /\
    ((j < Z.to_nat blocks)%nat -> blk_header blk = htobe16 2047).
Proof.
  apply (for_loop_ind
    (fun i l =>
       length l = Z.to_nat blocks /\
       forall j blk, l !! j = Some blk ->
         blk_padding blk = replicate (Z.to_nat OB_PADDING_SIZE) 0 /\
         ((j < i)%nat -> blk_header blk = htobe16 2047))).
  - split; [apply length_replicate|].
    intros j blk [-> _]%lookup_replicate. split; [done|lia].
  - intros i l _ [Hlen Hblk]. unfold write_out_blk_header.
    split; [by rewrite length_alter|].
    intros j blk. destruct (decide (j = i)) as [->|Hne].
    + rewrite list_lookup_alter_eq.
      destruct (l !! i) as [blk0|] eqn:Hl; [|done]. simpl. intros ?; simplify_eq.
      split; [|done]. simpl. by apply (Hblk i).
    + rewrite list_lookup_alter_ne by done. intros Hl.
      destruct (Hblk _ _ Hl) as [Hp Hh]. split; [done|]. intros ?. apply Hh. lia.
Qed.

Lemma init_out_headers (blocks : Z) (channels : Z) :
  (fun blk => (blk_header blk, blk_padding blk)) <$>
    for_loop blocks (write_out_blk_header (htobe16 2047))
      (replicate (Z.to_nat blocks) (zero_blk channels)) =
  replicate (Z.to_nat blocks)
    (htobe16 2047, replicate (Z.to_nat OB_PADDING_SIZE) 0).
Proof.
  destruct (init_out_blks blocks channels) as [Hlen Hblk].
  apply list_eq. intros j. rewrite list_lookup_fmap.
  destruct (decide (j < Z.to_nat blocks)%nat) as [Hlt|Hge].
  - rewrite lookup_replicate_2 by done.
    destruct (lookup_lt_is_Some_2 _ j ltac:(rewrite Hlen; exact Hlt))
      as [blk Hl].
    rewrite Hl. simpl. destruct (Hblk _ _ Hl) as [-> Hh].
    rewrite Hh by done. done.
  - rewrite (proj1 (lookup_replicate_None _ _ _)) by lia.
    rewrite lookup_ge_None_2 by lia. done.
Qed.

Lemma init_inv fresh desc blocks engine :
  ow_engine_init fresh OW_OK desc blocks = (OW_OK, Some engine) ->
  engine_inv desc blocks engine /\ p2o_buf_clear engine.
Proof.
  unfold ow_engine_init. rewrite decide_True by done. intros Hr. simplify_eq.
  unfold engine_inv, p2o_buf_clear, out_headers, static_part. simpl.
  repeat split; try done.
  - apply init_out_headers.
  - apply length_replicate.
Qed.

Lemma activate_inv desc blocks engine io (dll_arg : option dll) pt :
  let r := ow_engine_activate_with_dll engine io dll_arg pt in
  (engine_inv desc blocks engine -> engine_inv desc blocks r.1.2) /\
  (p2o_buf_clear engine -> p2o_buf_clear r.1.2) /\
  (r.1.1 = OW_OK -> frames r.1.2 = 0 /\ status r.1.2 = OW_STATUS_READY /\
                    io_buffers r.1.2 = Some io).
Proof.
  unfold ow_engine_activate_with_dll.
  repeat (case_match; simpl in *; simplify_eq); done.
Qed.

Lemma sys_activated_inv fresh desc blocks io (dll_arg : option dll) pt s0 :
  sys_activated fresh desc blocks io dll_arg pt = Some s0 ->
  sys_inv desc blocks s0 /\ frames (sys_engine s0) = 0 /\
  sys_pc s0 = PC_SPIN_READY.
Proof.
  unfold sys_activated. intros Hr.
  destruct (ow_engine_init fresh OW_OK desc blocks) as [[] [e0|]] eqn:Hi;
    try done.
  apply init_inv in Hi as [Hinv Hclear].
  pose proof (activate_inv desc blocks e0 io dll_arg pt) as (Ha & Hb & Hc).
  destruct (ow_engine_activate_with_dll e0 io dll_arg pt) as [[[] e1] ths];
    simplify_eq.
  simpl in *. unfold sys_inv. simpl. destruct Hc as (? & ? & ?); auto.
Qed.

(** *** The steps of the system *)

Lemma thread_step_inv desc blocks env s pc engine evs :
  sys_inv desc blocks s ->
  run_audio_o2p_midi env (sys_pc s) (sys_engine s) = Some (pc, engine, evs) ->
  sys_inv desc blocks {| sys_engine := engine; sys_pc := pc |}.
Proof.
  destruct s as [e0 pc0]. unfold sys_inv. simpl. intros [Hinv Hpc] Hr.
  destruct pc0; simpl in Hr.
  - (* line 782 *) case_match; simplify_eq; done.
  - (* lines 786-791 *)
    destruct (prepare_cycle_in (err_in env) e0) as [e1 evs1] eqn:H1.
    destruct (prepare_cycle_out (err_out env) e1) as [e2 evs2] eqn:H2.
    apply prepare_cycle_quiet in H1; [|by eexists].
    apply prepare_cycle_quiet in H2; [|by eexists].
    pose proof (quiet_trans _ _ _ H1 H2) as H12.
    destruct (midi e2).
    + destruct (prepare_cycle_in_midi (err_in_midi env) e2) as [e3 evs3] eqn:H3.
      apply prepare_cycle_quiet in H3; [|by eexists]. simplify_eq.
      pose proof (quiet_trans _ _ _ H12 H3) as Hq.
      split; [by apply (quiet_engine_inv _ _ _ _ Hq)
             |by apply (quiet_p2o_buf_clear _ _ Hq)].
    + simplify_eq.
      split; [by apply (quiet_engine_inv _ _ _ _ H12)
             |by apply (quiet_p2o_buf_clear _ _ H12)].
  - (* lines 795-811 *)
    step_cases; (split; [exact Hinv|intros _; exact Hpc]).
  - (* line 813 *) case_match; simplify_eq; done.
  - (* line 815 *)
    destruct (libusb_handle_events_completed (completed env) e0)
      as [[e1 evs1]|] eqn:Hh; simpl in Hr; [|done].
    simplify_eq. by eapply handle_events_inv.
  - (* line 818 *) case_match; simplify_eq; done.
  - (* lines 823-828 *)
    step_cases. destruct Hinv as (Hst & Hh & Hl).
    unfold engine_inv, p2o_buf_clear, out_headers. simpl.
    rewrite memset0_all by done. rewrite length_replicate. done.
  - (* line 831 *) simplify_eq. done.
Qed.

Lemma quiet_sys_inv desc blocks s engine :
  quiet (sys_engine s) engine -> sys_inv desc blocks s ->
  sys_inv desc blocks {| sys_engine := engine; sys_pc := sys_pc s |}.
Proof.
  unfold sys_inv. simpl. intros Hq [Hinv Hpc].
  split; [by apply (quiet_engine_inv _ _ _ _ Hq)|].
  destruct (sys_pc s); try done;
    first [by apply (quiet_p2o_buf_clear _ _ Hq)
          |by apply (quiet_catching_up_clear _ _ Hq)].
Qed.

Lemma sys_step_inv desc blocks a s s' evs :
  sys_inv desc blocks s -> sys_step a s = Some (s', evs) ->
  sys_inv desc blocks s'.
Proof.
  intros Hinv Hr. destruct a as [h|env|err]; simpl in Hr.
  - simplify_eq. apply quiet_sys_inv; [apply host_step_quiet|done].
  - destruct (run_audio_o2p_midi env (sys_pc s) (sys_engine s))
      as [[[pc e1] evs1]|] eqn:Ht; simpl in Hr; [|done].
    simplify_eq. by eapply thread_step_inv.
  - pose proof (p2o_midi_send_quiet err (sys_engine s)) as Hq.
    destruct (p2o_midi_send err (sys_engine s)) as [e1 evs1]. simplify_eq.
    by apply quiet_sys_inv.
Qed.

(** Every state that the system reaches after activation satisfies the
    invariants. *)
Lemma reachable_inv fresh desc blocks io (dll_arg : option dll) pt s0 s :
  sys_activated fresh desc blocks io dll_arg pt = Some s0 ->
  reachable s0 s -> sys_inv desc blocks s.
Proof.
  intros Hact Hreach. induction Hreach as [|s a s' evs _ IH Hstep].
  - by apply sys_activated_inv in Hact as (? & _).
  - by eapply sys_step_inv.
Qed.

Lemma callback_entry_inv fresh desc blocks io (dll_arg : option dll) pt s0
  engine :
  sys_activated fresh desc blocks io dll_arg pt = Some s0 ->
  callback_entry s0 engine ->
  engine_inv desc blocks engine /\ catching_up_clear engine.
Proof.
  intros Hact [s cs e evs Hreach Hpc Hrun].
  pose proof (reachable_inv _ _ _ _ _ _ _ _ Hact Hreach) as [Hinv Hc].
  rewrite Hpc in Hc. by eapply handle_events_inv.
Qed.

Lemma sys_run_reachable s0 acts s s' evs :
  reachable s0 s -> sys_run acts s = Some (s', evs) -> reachable s0 s'.
Proof.
  revert s evs. induction acts as [|a acts IH]; intros s evs Hreach; simpl.
  - intros; simplify_eq. done.
  - intros Hr.
    destruct (sys_step a s) as [[s1 evs1]|] eqn:Hs; simpl in Hr; [|done].
    destruct (sys_run acts s1) as [[s2 evs2]|] eqn:Hrun; simpl in Hr; [|done].
    simplify_eq. eapply IH; [|exact Hrun]. by eapply reachable_step.
Qed.

End Invariants.

(** ** The out buffer: headers and padding *)

Section Headers.

Context `{!externals}.

Implicit Types (engine : ow_engine) (desc : ow_device_desc).

(** C9: [ow_engine_init] writes the header [0x07ff] into each out block,
    one write per block, and nothing writes it again: every out cycle
    leaves the headers and the padding of all blocks as they are, and so
    does every state the system reaches and every state in which a
    callback is entered. *)
Theorem out_headers_never_mutated fresh desc blocks io (dll_arg : option dll)
  pt s0 :
  sys_activated fresh desc blocks io dll_arg pt = Some s0 ->
  (exists e0, ow_engine_init fresh OW_OK desc blocks = (OW_OK, Some e0) /\
     usb_data_out e0 =
       foldl (fun blks i => write_out_blk_header (htobe16 2047) i blks)
         (replicate (Z.to_nat blocks) (zero_blk (inputs desc)))
         (seq 0 (Z.to_nat blocks)) /\
     NoDup (seq 0 (Z.to_nat blocks))) /\
  htobe16 2047 = [7; 255] /\
  out_headers (sys_engine s0) =
    replicate (Z.to_nat blocks)
      ([7; 255], replicate (Z.to_nat OB_PADDING_SIZE) 0) /\
  (forall engine engine' evs,
     set_usb_output_data_blks engine = Some (engine', evs) ->
     out_headers engine' = out_headers engine) /\
  (forall s, reachable s0 s ->
     out_headers (sys_engine s) = out_headers (sys_engine s0)) /\
  (forall engine, callback_entry s0 engine ->
     out_headers engine = out_headers (sys_engine s0)).
Proof.
  intros Hact.
  pose proof (sys_activated_inv _ _ _ _ _ _ _ Hact) as ((Hinv0 & _) & _).
  destruct Hinv0 as (_ & Hh0 & _).
  split; [|split; [done|split; [exact Hh0|split; [|split]]]].
  - unfold sys_activated in Hact.
    destruct (ow_engine_init fresh OW_OK desc blocks) as [[] [e0|]] eqn:Hi;
      try done.
    exists e0. split; [done|]. split; [|apply NoDup_seq].
    unfold ow_engine_init in Hi. rewrite decide_True in Hi by done.
    by simplify_eq.
  - intros engine engine' evs Hr. by apply out_cycle_headers in Hr as [_ ?].
  - intros s Hreach.
    pose proof (reachable_inv _ _ _ _ _ _ _ _ Hact Hreach) as ((_ & Hh & _) & _).
    by rewrite Hh, Hh0.
  - intros engine Hentry.
    pose proof (callback_entry_inv _ _ _ _ _ _ _ _ Hact Hentry) as ((_ & Hh & _) & _).
    by rewrite Hh, Hh0.
Qed.

End Headers.

Lemma mock_system_activated (blocks : Z) :
  0 <= blocks ->
  @sys_activated mock blank_engine mock_desc blocks mock_io None threads_ok =
  Some (mock_system blocks).
Proof. intros _. reflexivity. Qed.

(** The witness of C9, for eight blocks per transfer. *)
Lemma out_headers_never_mutated_witness :
  @out_headers mock (sys_engine (mock_system 8)) =
  replicate 8 ([7; 255], replicate 28 0).
Proof.
  exact (proj1 (proj2 (proj2
    (@out_headers_never_mutated mock blank_engine mock_desc 8 mock_io None
       threads_ok (mock_system 8) eq_refl)))).
Defined.

(** ** The host to device path: catching up *)

Lemma to_int_small (z : Z) : - 2 ^ 31 <= z < 2 ^ 31 -> to_int z = z.
Proof. intros Hz. unfold to_int. rewrite Z.mod_small; lia. Qed.

Lemma to_size_t_small (z : Z) : 0 <= z < 2 ^ 64 -> to_size_t z = z.
Proof. intros Hz. unfold to_size_t. apply Z.mod_small. lia. Qed.

(** Within the range of [int], [ow_bytes_to_frame_bytes] rounds a
    byte count down to whole frames. *)
Lemma ow_bytes_to_frame_bytes_floor (bytes bytes_per_frame : Z) :
  0 <= bytes <= INT_MAX -> 0 < bytes_per_frame <= INT_MAX ->
  to_size_t
    (ow_bytes_to_frame_bytes (to_int bytes) (to_int bytes_per_frame)) =
  bytes / bytes_per_frame * bytes_per_frame.
Proof.
  unfold INT_MAX. intros Hb Hf. unfold ow_bytes_to_frame_bytes.
  rewrite (to_int_small bytes), (to_int_small bytes_per_frame) by lia.
  rewrite Z.quot_div_nonneg by lia.
  pose proof (Z.mul_div_le bytes bytes_per_frame ltac:(lia)) as Hle.
  pose proof (Z.div_pos bytes bytes_per_frame ltac:(lia) ltac:(lia)) as Hpos.
  rewrite to_int_small, to_size_t_small; nia.
Qed.

Section CatchUp.

Context `{!externals}.

Implicit Types (engine : ow_engine) (desc : ow_device_desc).

Lemma io_read_space_range engine id rs :
  io_read_space engine id = Some rs -> 0 <= rs < 2 ^ 64.
Proof.
  unfold io_read_space. intros Hr. simplify_option_eq.
  unfold to_size_t. apply Z.mod_pos_bound. lia.
Qed.

(** C6, as the code has it.  An out cycle entered with
    [reading_at_p2o_end] clear encodes the transfer buffer as it stands,
    and the buffer is clear.  With audio enabled and a full transfer in
    the ring it makes one read with a NULL destination, of
    [ow_bytes_to_frame_bytes] of the fill level, and sets the flag;
    otherwise it makes no call on the ring and leaves the flag clear.
    The count is the fill level rounded down to whole frames whenever the
    fill level fits the [int] parameter of [ow_bytes_to_frame_bytes]. *)
Theorem p2o_catch_up_cycle fresh desc blocks io (dll_arg : option dll) pt s0
  engine engine' evs rs :
  sys_activated fresh desc blocks io dll_arg pt = Some s0 ->
  callback_entry s0 engine ->
  reading_at_p2o_end engine = false ->
  io_read_space engine P2O_AUDIO = Some rs ->
  set_usb_output_data_blks engine = Some (engine', evs) ->
  let fs := p2o_frame_size engine in
  let bytes := to_size_t (ow_bytes_to_frame_bytes (to_int rs) (to_int fs)) in
  p2o_buf_clear engine /\
  p2o_transfer_buf engine' = p2o_transfer_buf engine /\
  usb_data_out engine' =
    out_blks_after (Z.to_nat (blocks_per_transfer engine)) engine /\
  if negb (p2o_audio_enabled engine =? 0) && (p2o_transfer_size engine <=? rs)
  then
    evs = [EV_DEBUG_PRINT 2 "j2o: Emptying buffer and running...";
           EV_READ P2O_AUDIO DST_NULL bytes] /\
    reading_at_p2o_end engine' = true /\
    (exists io0 f r,
       io_buffers engine = Some io0 /\ read io0 = Some f /\
       p2o_audio io0 = Some r /\
       engine_ring engine' P2O_AUDIO = Some (f r DST_NULL bytes).2) /\
    (0 < fs <= INT_MAX -> rs <= INT_MAX ->
     bytes = rs / fs * fs /\ bytes mod fs = 0)
  else
    evs = [] /\ reading_at_p2o_end engine' = false /\
    io_buffers engine' = io_buffers engine.
Proof.
  intros Hact Hentry Hreading Hrs Hr fs bytes.
  pose proof (callback_entry_inv _ _ _ _ _ _ _ _ Hact Hentry) as [_ Hclear].
  split; [by apply Hclear|].
  unfold set_usb_output_data_blks in Hr. rewrite Hrs in Hr. simpl in Hr.
  rewrite Hreading in Hr. simpl in Hr.
  unfold ow_engine_is_p2o_audio_enable in Hr.
  destruct (negb (p2o_audio_enabled engine =? 0) &&
            (p2o_transfer_size engine <=? rs)) eqn:Hcond.
  - unfold io_read in Hr.
    destruct (io_buffers engine) as [io0|] eqn:Hio; simpl in Hr; [|done].
    destruct (read io0) as [f|] eqn:Hf; simpl in Hr; [|done].
    destruct (p2o_audio io0) as [r|] eqn:Hring; simpl in Hr; [|done].
    fold fs in Hr. fold bytes in Hr.
    destruct (f r DST_NULL bytes) as [data r'] eqn:Hcall. simpl in Hr.
    simplify_eq.
    rewrite set_blocks_eq. unfold engine_ring. simpl.
    split; [done|]. split; [reflexivity|]. split; [done|]. split; [done|]. split.
    + exists io0, f, r. rewrite Hcall. done.
    + intros Hfs Hmax.
      pose proof (io_read_space_range _ _ _ Hrs) as Hrange.
      subst bytes. rewrite ow_bytes_to_frame_bytes_floor by lia.
      split; [done|]. apply Z.mod_mul. lia.
  - simplify_eq. rewrite set_blocks_eq. simpl. done.
Qed.

End CatchUp.

(** Whether the run goes through or not, [after_run] yields a state
    that can be reached. *)
Lemma after_run_reachable {X : externals} (acts : list action) (s0 s : system) :
  reachable s0 s -> reachable s0 (after_run acts s).
Proof.
  unfold after_run. intros Hreach.
  destruct (sys_run acts s) as [[s' evs]|] eqn:Hr; simpl; [|done].
  by eapply sys_run_reachable.
Qed.

(** A state at line 815 is a state in which the first callback is
    entered. *)
Lemma callback_entry_at_handle_events {X : externals} (s0 s : system) :
  reachable s0 s -> sys_pc s = PC_HANDLE_EVENTS ->
  callback_entry s0 (sys_engine s).
Proof. intros Hreach Hpc. by eapply (callback_entry_intro s0 s []). Qed.

(** The witness of C6: the cycle discards 120 bytes, fifteen frames. *)
Lemma p2o_catch_up_cycle_witness :
  @p2o_buf_clear mock catch_up_engine /\
  snd <$> @set_usb_output_data_blks mock catch_up_engine =
  Some [EV_DEBUG_PRINT 2 "j2o: Emptying buffer and running...";
        EV_READ P2O_AUDIO DST_NULL 120].
Proof.
  assert (Hentry : @callback_entry mock (mock_system 2) catch_up_engine).
  { apply callback_entry_at_handle_events; [|vm_compute; reflexivity].
    apply after_run_reachable, reachable_start. }
  assert (Hreading : reading_at_p2o_end catch_up_engine = false)
    by (vm_compute; reflexivity).
  assert (Hrs : @io_read_space mock catch_up_engine P2O_AUDIO = Some 120)
    by (vm_compute; reflexivity).
  assert (Hcond :
    negb (p2o_audio_enabled catch_up_engine =? 0) &&
    (p2o_transfer_size catch_up_engine <=? 120) = true)
    by (vm_compute; reflexivity).
  assert (Hbytes :
    to_size_t (ow_bytes_to_frame_bytes (to_int 120)
                 (to_int (p2o_frame_size catch_up_engine))) = 120)
    by (vm_compute; reflexivity).
  assert (Hsome : is_Some (@set_usb_output_data_blks mock catch_up_engine))
    by (apply (bool_decide_eq_true_1 _); vm_compute; reflexivity).
  destruct Hsome as [[engine' evs] Hr]. rewrite Hr.
  pose proof (@p2o_catch_up_cycle mock blank_engine mock_desc 2 mock_io None
                threads_ok (mock_system 2) catch_up_engine engine' evs 120
                eq_refl Hentry Hreading Hrs Hr) as Hthm.
  cbv zeta in Hthm. destruct Hthm as (Hclear & _ & _ & Hif).
  rewrite Hcond, Hbytes in Hif. destruct Hif as (-> & _).
  split; [exact Hclear|reflexivity].
Defined.

(** C6 as stated fails once the fill level leaves the range of [int]: with
    2^31 + 8 bytes in the ring and frames of 8 bytes, the read asks the
    ring to discard 2^64 - 2^31 + 8 bytes, not the 2^31 + 8 bytes that
    rounding down to whole frames gives. *)
Lemma catch_up_beyond_int_max :
  let engine := sys_engine (after_run huge_fill_actions (counting_system 2)) in
  @callback_entry counting (counting_system 2) engine /\
  reading_at_p2o_end engine = false /\
  p2o_audio_enabled engine = 1 /\
  p2o_frame_size engine = 8 /\
  p2o_transfer_size engine = 112 /\
  @io_read_space counting engine P2O_AUDIO = Some 2147483656 /\
  snd <$> @set_usb_output_data_blks counting engine =
  Some [EV_DEBUG_PRINT 2 "j2o: Emptying buffer and running...";
        EV_READ P2O_AUDIO DST_NULL 18446744071562067976] /\
  2147483656 / 8 * 8 = 2147483656.
Proof.
  intros engine. split.
  { apply callback_entry_at_handle_events; [|vm_compute; reflexivity].
    apply after_run_reachable, reachable_start. }
  split; [vm_compute; reflexivity|]. split; [vm_compute; reflexivity|].
  split; [vm_compute; reflexivity|]. split; [vm_compute; reflexivity|].
  split; [vm_compute; reflexivity|]. split; [|reflexivity].
  lazy. reflexivity.
Qed.

(** ** The host to device path: underflow *)

Section Underflow.

Context `{!externals}.

Implicit Types (engine : ow_engine).

(** C1, as the code has it.  In the steady state with less than a
    transfer in the ring, the cycle reads [rs / p2o_frame_size] whole
    frames into the resampler scratch buffer, and sets [input_frames] to
    that count and [src_ratio] to [frames_per_transfer] divided by it.
    The count is at least 1 exactly when the ring holds a whole frame;
    nothing keeps it from being 0. *)
Theorem p2o_underflow_frames engine engine' evs rs :
  reading_at_p2o_end engine = true ->
  p2o_audio_enabled engine <> 0 ->
  io_read_space engine P2O_AUDIO = Some rs ->
  rs < p2o_transfer_size engine ->
  0 < p2o_frame_size engine ->
  set_usb_output_data_blks engine = Some (engine', evs) ->
  let available_frames := rs / p2o_frame_size engine in
  let bytes := available_frames * p2o_frame_size engine in
  (exists io0 f r,
     io_buffers engine = Some io0 /\ read io0 = Some f /\
     p2o_audio io0 = Some r /\
     p2o_resampler_buf engine' =
       overwrite (p2o_resampler_buf engine)
         (take (Z.to_nat bytes) (f r DST_BUF bytes).1) /\
     engine_ring engine' P2O_AUDIO = Some (f r DST_BUF bytes).2) /\
  EV_READ P2O_AUDIO DST_BUF bytes ∈ evs /\
  input_frames (p2o_data engine') = available_frames /\
  src_ratio (p2o_data engine') =
    PrimFloat.div (to_double (frames_per_transfer engine))
      (to_double available_frames) /\
  0 <= available_frames /\ bytes <= rs /\
  (1 <= available_frames <-> p2o_frame_size engine <= rs).
Proof.
  intros Hreading Henabled Hrs Hunder Hfs Hr available_frames bytes.
  pose proof (io_read_space_range _ _ _ Hrs) as Hrange.
  assert (Hpos : 0 <= available_frames) by (apply Z.div_pos; lia).
  assert (Hle : bytes <= rs).
  { subst bytes available_frames. rewrite Z.mul_comm.
    apply Z.mul_div_le. lia. }
  assert (Hone : 1 <= available_frames <-> p2o_frame_size engine <= rs).
  { subst available_frames. split; intros Hx.
    - pose proof (Z.mul_div_le rs (p2o_frame_size engine) ltac:(lia)). nia.
    - apply Z.div_le_lower_bound; lia. }
  assert (Hbytes : to_size_t bytes = bytes).
  { apply to_size_t_small. subst bytes. split; [nia|lia]. }
  split; [|split; [|split; [|split; [|done]]]].
  all: revert Hr; unfold set_usb_output_data_blks; rewrite Hrs; simpl;
    rewrite Hreading; simpl; unfold ow_engine_is_p2o_audio_enable;
    rewrite (proj2 (Z.eqb_neq _ _) Henabled);
    destruct (p2o_max_latency engine <? rs); simpl;
    rewrite (proj2 (Z.leb_gt _ _) Hunder);
    unfold p2o_resample, io_read; simpl;
    fold available_frames; fold bytes; rewrite Hbytes;
    (destruct (io_buffers engine) as [io0|] eqn:Hio; simpl; [|done]);
    (destruct (read io0) as [f|] eqn:Hf; simpl; [|done]);
    (destruct (p2o_audio io0) as [r|] eqn:Hring; simpl; [|done]);
    destruct (f r DST_BUF bytes) as [data r'] eqn:Hcall; simpl;
    case_match; case_match; simpl; intros ?; simplify_eq;
    rewrite ?set_blocks_eq; simpl; try done.
  - exists io0, f, r. rewrite Hcall. done.
  - exists io0, f, r. rewrite Hcall. done.
  - apply elem_of_cons. right. apply elem_of_cons. by left.
  - apply elem_of_cons. right. apply elem_of_cons. by left.
Qed.

End Underflow.

(** C1 as stated fails: after the catch-up cycle has emptied the ring and
    before the host writes again, the engine is in the steady state with
    an empty ring; the next cycle takes the underflow branch with no
    frame at all, and the ratio it sets is not a number to resample by. *)
Lemma underflow_with_no_frame :
  @callback_entry mock (mock_system 2) underflow_engine /\
  reading_at_p2o_end underflow_engine = true /\
  p2o_audio_enabled underflow_engine = 1 /\
  @io_read_space mock underflow_engine P2O_AUDIO = Some 0 /\
  p2o_transfer_size underflow_engine = 112 /\
  p2o_frame_size underflow_engine = 8 /\
  (fun r => (input_frames (p2o_data r.1), src_ratio (p2o_data r.1))) <$>
    @set_usb_output_data_blks mock underflow_engine =
  Some (0, infinity) /\
  ~ 1 <= 0 / 8.
Proof.
  split.
  { apply callback_entry_at_handle_events; [|vm_compute; reflexivity].
    apply after_run_reachable, reachable_start. }
  repeat (split; [vm_compute; reflexivity|]).
  intros Hle. vm_compute in Hle. by apply Hle.
Qed.

(** The witness of C1: with two frames in the ring the cycle resamples
    them at the ratio 14 / 2. *)
Lemma p2o_underflow_frames_witness :
  (fun r => (input_frames (p2o_data r.1), src_ratio (p2o_data r.1))) <$>
    @set_usb_output_data_blks mock short_fill_engine =
  Some (2, 7%float).
Proof.
  assert (Hsome : is_Some (@set_usb_output_data_blks mock short_fill_engine))
    by (apply (bool_decide_eq_true_1 _); vm_compute; reflexivity).
  destruct Hsome as [[engine' evs] Hr]. rewrite Hr. simpl.
  assert (Hrs : @io_read_space mock short_fill_engine P2O_AUDIO = Some 16)
    by (vm_compute; reflexivity).
  assert (Hfs : p2o_frame_size short_fill_engine = 8)
    by (vm_compute; reflexivity).
  assert (Hfpt : frames_per_transfer short_fill_engine = 14)
    by (vm_compute; reflexivity).
  assert (Hreading : reading_at_p2o_end short_fill_engine = true)
    by (vm_compute; reflexivity).
  assert (Henabled : p2o_audio_enabled short_fill_engine <> 0)
    by (vm_compute; discriminate).
  assert (Hunder : 16 < p2o_transfer_size short_fill_engine)
    by (vm_compute; reflexivity).
  pose proof (@p2o_underflow_frames mock short_fill_engine engine' evs 16
                Hreading Henabled Hrs Hunder ltac:(rewrite Hfs; lia) Hr)
    as Hthm.
  cbv zeta in Hthm. destruct Hthm as (_ & _ & Hin & Hratio & _).
  rewrite Hin, Hratio, Hfs, Hfpt. reflexivity.
Defined.

(** ** The block counter *)

Section Counter.

Context `{!externals}.

Implicit Types (engine : ow_engine) (desc : ow_device_desc).

Lemma quiet_out_quiet engine engine' : quiet engine engine' -> out_quiet engine engine'.
Proof. intros (? & ? & _). by split. Qed.

Lemma out_quiet_trans e1 e2 e3 :
  out_quiet e1 e2 -> out_quiet e2 e3 -> out_quiet e1 e3.
Proof. unfold out_quiet. intros (-> & ->) (-> & ->). done. Qed.

Lemma out_quiet_frames_inv blocks n engine engine' :
  out_quiet engine engine' -> frames_inv blocks n engine ->
  frames_inv blocks n engine'.
Proof.
  unfold out_quiet, frames_inv, out_frames_fields.
  intros (Hs & Ho) (Hb & Hl & Hf & Hfields). parts_inj.
  repeat split; try congruence.
  intros Hn i Hi. replace (usb_data_out engine') with (usb_data_out engine).
  by apply Hfields.
Qed.

(** What one out cycle does to the counter and to the [frames] fields:
    the counter advances by [OB_FRAMES_PER_BLOCK] per block, and block [i]
    gets the value the counter has after [i + 1] blocks, stored
    big-endian. *)
Lemma out_cycle_frames engine engine' evs :
  set_usb_output_data_blks engine = Some (engine', evs) ->
  blocks_per_transfer engine' = blocks_per_transfer engine /\
  length (usb_data_out engine') = length (usb_data_out engine) /\
  frames engine' =
    frames_after (Z.to_nat (blocks_per_transfer engine)) engine /\
  forall i blk,
    (i < Z.to_nat (blocks_per_transfer engine))%nat ->
    usb_data_out engine' !! i = Some blk ->
    blk_frames blk =
    htobe16 (frames engine + (Z.of_nat i + 1) * OB_FRAMES_PER_BLOCK).
Proof.
  intros (e1 & -> & Hs & Ho)%out_cycle_shape.
  destruct (set_blocks_parts e1) as (Hs1 & _ & Hf & Hu).
  rewrite Hf, Hu. parts_inj.
  replace (blocks_per_transfer (set_blocks e1)) with (blocks_per_transfer e1)
    by congruence.
  replace (blocks_per_transfer e1) with (blocks_per_transfer engine).
  split; [done|]. split; [|split].
  - unfold out_blks_after. rewrite length_imap. congruence.
  - unfold frames_after. by replace (frames e1) with (frames engine).
  - intros i blk Hi. unfold out_blks_after. rewrite list_lookup_imap.
    destruct (usb_data_out e1 !! i) as [blk0|]; [|done]. simpl.
    rewrite decide_True by done. intros ?; simplify_eq. simpl. congruence.
Qed.

Lemma out_cycle_frames_inv blocks n engine engine' evs :
  0 < blocks -> 0 <= n -> frames_inv blocks n engine ->
  set_usb_output_data_blks engine = Some (engine', evs) ->
  frames_inv blocks (n + 1) engine'.
Proof.
  intros Hblocks Hn (Hb & Hl & Hf & _) Hr.
  destruct (out_cycle_frames _ _ _ Hr) as (Hb' & Hl' & Hf' & Hfields).
  unfold frames_inv. rewrite Hb in *.
  split; [congruence|]. split; [congruence|]. split.
  - rewrite Hf'. unfold frames_after.
    destruct (Z.to_nat blocks) as [|k] eqn:Hk; [lia|].
    rewrite Hf, to_uint16_add_l. f_equal. lia.
  - intros _ i Hi. unfold out_frames_fields. rewrite list_lookup_fmap.
    destruct (lookup_lt_is_Some_2 (usb_data_out engine') i
                ltac:(lia)) as [blk Hblk].
    rewrite Hblk. simpl. rewrite (Hfields _ _ Hi Hblk), be16toh_htobe16.
    rewrite Hf, to_uint16_add_l. do 2 f_equal. lia.
Qed.

Lemma cb_xfr_out_frames_inv blocks n xfr err engine engine' evs :
  0 < blocks -> 0 <= n -> frames_inv blocks n engine ->
  cb_xfr_out xfr err engine = Some (engine', evs) ->
  frames_inv blocks (n + 1) engine'.
Proof.
  intros Hblocks Hn Hinv. unfold cb_xfr_out. intros Hr.
  destruct (set_usb_output_data_blks engine) as [[e1 evs1]|] eqn:Hb;
    simpl in Hr; [|done].
  destruct (prepare_cycle_out err e1) as [e2 evs2] eqn:Hp. simplify_eq.
  apply prepare_cycle_quiet in Hp; [|by eexists].
  apply (out_quiet_frames_inv _ _ _ _ (quiet_out_quiet _ _ Hp)).
  by eapply out_cycle_frames_inv.
Qed.

Lemma run_completion_frames_inv blocks n c engine engine' evs :
  0 < blocks -> 0 <= n -> frames_inv blocks n engine ->
  run_completion c engine = Some (engine', evs) ->
  frames_inv blocks (n + Z.of_nat (count_out [c])) engine'.
Proof.
  intros Hblocks Hn Hinv Hr. destruct c; simpl in Hr.
  - apply cb_xfr_in_quiet, quiet_out_quiet in Hr.
    replace (n + _) with n by (unfold count_out; simpl; lia).
    by apply (out_quiet_frames_inv _ _ _ _ Hr).
  - replace (n + _) with (n + 1) by (unfold count_out; simpl; lia).
    by eapply cb_xfr_out_frames_inv.
  - apply cb_xfr_in_midi_quiet, quiet_out_quiet in Hr.
    replace (n + _) with n by (unfold count_out; simpl; lia).
    by apply (out_quiet_frames_inv _ _ _ _ Hr).
  - simplify_eq.
    replace (n + _) with n by (unfold count_out; simpl; lia).
    pose proof (cb_xfr_out_midi_quiet xfr engine) as Hq.
    rewrite Hr in Hq. simpl in Hq.
    by apply (out_quiet_frames_inv _ _ _ _ (quiet_out_quiet _ _ Hq)).
Qed.

Lemma count_out_cons c cs :
  count_out (c :: cs) = (count_out [c] + count_out cs)%nat.
Proof.
  unfold count_out. rewrite !filter_cons, filter_nil.
  by destruct (decide (is_xfr_out c = true)).
Qed.

Lemma handle_events_frames_inv blocks n cs engine engine' evs :
  0 < blocks -> 0 <= n -> frames_inv blocks n engine ->
  libusb_handle_events_completed cs engine = Some (engine', evs) ->
  frames_inv blocks (n + Z.of_nat (count_out cs)) engine'.
Proof.
  intros Hblocks. revert n engine evs.
  induction cs as [|c cs IH]; intros n engine evs Hn Hinv; simpl; intros Hr.
  - simplify_eq. replace (n + _) with n by (unfold count_out; simpl; lia). done.
  - destruct (run_completion c engine) as [[e1 evs1]|] eqn:Hc;
      simpl in Hr; [|done].
    destruct (libusb_handle_events_completed cs e1) as [[e2 evs2]|] eqn:Hcs;
      simpl in Hr; [|done].
    simplify_eq. rewrite count_out_cons, Nat2Z.inj_add, Z.add_assoc.
    eapply IH; [|by eapply run_completion_frames_inv|exact Hcs]. lia.
Qed.

(** The steps of the audio thread other than line 815 touch neither the
    counter nor the out buffer. *)
Lemma thread_step_out_quiet env pc engine pc' engine' evs :
  pc <> PC_HANDLE_EVENTS ->
  run_audio_o2p_midi env pc engine = Some (pc', engine', evs) ->
  out_quiet engine engine'.
Proof.
  intros Hpc Hr. destruct pc; simpl in Hr; try done.
  - case_match; simplify_eq; done.
  - destruct (prepare_cycle_in (err_in env) engine) as [e1 evs1] eqn:H1.
    destruct (prepare_cycle_out (err_out env) e1) as [e2 evs2] eqn:H2.
    apply prepare_cycle_quiet in H1; [|by eexists].
    apply prepare_cycle_quiet in H2; [|by eexists].
    pose proof (quiet_trans _ _ _ H1 H2) as H12.
    destruct (midi e2).
    + destruct (prepare_cycle_in_midi (err_in_midi env) e2) as [e3 evs3] eqn:H3.
      apply prepare_cycle_quiet in H3; [|by eexists]. simplify_eq.
      apply quiet_out_quiet. by eapply quiet_trans.
    + simplify_eq. by apply quiet_out_quiet.
  - step_cases; done.
  - case_match; simplify_eq; done.
  - case_match; simplify_eq; done.
  - step_cases; done.
  - simplify_eq. done.
Qed.

Lemma sys_step_frames_inv blocks n a s s' evs :
  0 < blocks -> 0 <= n -> frames_inv blocks n (sys_engine s) ->
  sys_step a s = Some (s', evs) ->
  frames_inv blocks (n + Z.of_nat (action_out_transfers a s)) (sys_engine s').
Proof.
  intros Hblocks Hn Hinv Hr. destruct a as [h|env|err]; simpl in *.
  - simplify_eq. simpl. rewrite Z.add_0_r.
    apply (out_quiet_frames_inv _ _ _ _
             (quiet_out_quiet _ _ (host_step_quiet h (sys_engine s)))).
    done.
  - destruct (run_audio_o2p_midi env (sys_pc s) (sys_engine s))
      as [[[pc e1] evs1]|] eqn:Ht; simpl in Hr; [|done].
    simplify_eq. simpl. destruct (decide (sys_pc s = PC_HANDLE_EVENTS)) as [Hpc|Hpc].
    + rewrite Hpc in Ht. simpl in Ht.
      destruct (libusb_handle_events_completed (completed env) (sys_engine s))
        as [[e2 evs2]|] eqn:Hh; simpl in Ht; [|done].
      simplify_eq. by eapply handle_events_frames_inv.
    + rewrite Z.add_0_r.
      by apply (out_quiet_frames_inv _ _ _ _
                  (thread_step_out_quiet _ _ _ _ _ _ Hpc Ht)).
  - pose proof (p2o_midi_send_quiet err (sys_engine s)) as Hq.
    destruct (p2o_midi_send err (sys_engine s)) as [e1 evs1]. simplify_eq.
    simpl. rewrite Z.add_0_r.
    by apply (out_quiet_frames_inv _ _ _ _ (quiet_out_quiet _ _ Hq)).
Qed.

Lemma out_transfers_cons a acts s :
  out_transfers (a :: acts) s =
  (action_out_transfers a s +
   match sys_step a s with
   | Some (s', _) => out_transfers acts s'
   | None => 0
   end)%nat.
Proof. reflexivity. Qed.

Lemma sys_run_frames_inv blocks n acts s s' evs :
  0 < blocks -> 0 <= n -> frames_inv blocks n (sys_engine s) ->
  sys_run acts s = Some (s', evs) ->
  frames_inv blocks (n + Z.of_nat (out_transfers acts s)) (sys_engine s').
Proof.
  intros Hblocks. revert n s evs.
  induction acts as [|a acts IH]; intros n s evs Hn Hinv Hr.
  - simpl in *. simplify_eq. by rewrite Z.add_0_r.
  - rewrite out_transfers_cons. simpl in Hr.
    destruct (sys_step a s) as [[s1 evs1]|] eqn:Hs; simpl in Hr; [|done].
    destruct (sys_run acts s1) as [[s2 evs2]|] eqn:Hrun; simpl in Hr; [|done].
    simplify_eq. rewrite Nat2Z.inj_add, Z.add_assoc.
    eapply IH; [|by eapply sys_step_frames_inv|exact Hrun]. lia.
Qed.

Lemma sys_activated_frames_inv fresh desc blocks io (dll_arg : option dll)
  pt s0 :
  sys_activated fresh desc blocks io dll_arg pt = Some s0 ->
  frames_inv blocks 0 (sys_engine s0).
Proof.
  intros Hact.
  apply sys_activated_inv in Hact as (((Hst & Hh & _) & _) & Hf & _).
  unfold frames_inv. parts_inj. split; [done|]. split; [|split].
  - apply (f_equal length) in Hh. unfold out_headers in Hh.
    by rewrite length_fmap, length_replicate in Hh.
  - by rewrite Hf.
  - lia.
Qed.

(** C2, as the code has it.  After [n] out cycles since activation the
    counter is [n * blocks * OB_FRAMES_PER_BLOCK] modulo 2^16, and block
    [i] of the last transfer decodes to the number of blocks encoded so
    far, [(n - 1) * blocks + i + 1], times [OB_FRAMES_PER_BLOCK], modulo
    2^16: an arithmetic progression modulo 2^16 that starts at
    [OB_FRAMES_PER_BLOCK].  Each cycle adds [OB_FRAMES_PER_BLOCK] to the
    counter per block and stores it big-endian in the block. *)
Theorem frames_counter_progression fresh desc blocks io (dll_arg : option dll)
  pt s0 acts s evs :
  0 < blocks ->
  sys_activated fresh desc blocks io dll_arg pt = Some s0 ->
  sys_run acts s0 = Some (s, evs) ->
  let n := Z.of_nat (out_transfers acts s0) in
  frames (sys_engine s) = to_uint16 (n * blocks * OB_FRAMES_PER_BLOCK) /\
  (1 <= n ->
   forall i, (i < Z.to_nat blocks)%nat ->
     out_frames_fields (sys_engine s) !! i =
     Some (to_uint16
             (((n - 1) * blocks + Z.of_nat i + 1) * OB_FRAMES_PER_BLOCK))) /\
  (forall engine engine' evs',
     set_usb_output_data_blks engine = Some (engine', evs') ->
     frames engine' =
       frames_after (Z.to_nat (blocks_per_transfer engine)) engine /\
     forall i blk,
       (i < Z.to_nat (blocks_per_transfer engine))%nat ->
       usb_data_out engine' !! i = Some blk ->
       blk_frames blk =
       htobe16 (frames engine + (Z.of_nat i + 1) * OB_FRAMES_PER_BLOCK)).
Proof.
  intros Hblocks Hact Hrun n.
  pose proof (sys_activated_frames_inv _ _ _ _ _ _ _ Hact) as Hinv0.
  pose proof (sys_run_frames_inv blocks 0 _ _ _ _ Hblocks ltac:(lia) Hinv0 Hrun)
    as (_ & _ & Hf & Hfields).
  rewrite Z.add_0_l in Hf, Hfields.
  split; [exact Hf|]. split; [exact Hfields|].
  intros engine engine' evs' Hr.
  by destruct (out_cycle_frames _ _ _ Hr) as (_ & _ & ? & ?).
Qed.

End Counter.

Lemma after_run_spec {X : externals} (acts : list action) (s0 : system) :
  is_Some (sys_run acts s0) ->
  sys_run acts s0 =
  Some (after_run acts s0, default [] (snd <$> sys_run acts s0)).
Proof. unfold after_run. intros [[s evs] ->]. reflexivity. Qed.

(** The witness of C2: after three out cycles of two blocks each the
    counter is 42, and the second block of the last transfer carries 42. *)
Lemma frames_counter_progression_witness :
  frames (cycles_engine 3) = 42 /\
  out_frames_fields (cycles_engine 3) !! 1%nat = Some 42.
Proof.
  assert (Hrun : is_Some (sys_run (cycles_actions 3) (mock_system 2)))
    by (apply (bool_decide_eq_true_1 _); vm_compute; reflexivity).
  apply after_run_spec in Hrun.
  assert (Hn : out_transfers (cycles_actions 3) (mock_system 2) = 3%nat)
    by (vm_compute; reflexivity).
  pose proof (@frames_counter_progression mock blank_engine mock_desc 2 mock_io
                None threads_ok (mock_system 2) (cycles_actions 3) _ _
                ltac:(lia) eq_refl Hrun) as Hthm.
  cbv zeta in Hthm. rewrite Hn in Hthm. destruct Hthm as (Hf & Hfields & _).
  split; [exact Hf|]. exact (Hfields ltac:(lia) 1%nat ltac:(simpl; lia)).
Defined.

Lemma pair_eq_inv {A B : Type} (a a' : A) (b b' : B) :
  (a, b) = (a', b') -> a = a' /\ b = b'.
Proof. intros Heq. by injection Heq. Qed.

(** The run of 4682 out cycles, evaluated once. *)
Lemma wrap_run_values :
  let s1 := wrap_before in
  (out_frames_fields (sys_engine s1),
   out_frames_fields (sys_engine (after_run one_more_cycle s1))) =
  ([65527; 65534], [5; 12]).
Proof. vm_compute. reflexivity. Qed.

(** C2 as stated fails: the [frames] field has 16 bits.  With two blocks
    per transfer, the transfer of the 4681st out cycle since activation
    carries 65527 and 65534 in its blocks, the 9361st and 9362nd, and
    the next transfer carries 5 and 12, not 65541 and 65548. *)
Lemma frames_fields_wrap :
  @reachable mock (mock_system 2) wrap_after /\
  count_out (replicate 4681 (XFR_OUT (xfr_ok 0) 0)) = 4681%nat /\
  out_frames_fields (sys_engine wrap_before) = [65527; 65534] /\
  out_frames_fields (sys_engine wrap_after) = [5; 12] /\
  5 <> 65534 + @OB_FRAMES_PER_BLOCK mock.
Proof.
  pose proof wrap_run_values as Hv. cbv zeta in Hv.
  destruct (pair_eq_inv _ _ _ _ Hv) as [Hf1 Hf2].
  split; [|split; [vm_compute; reflexivity
                  |split; [exact Hf1|split; [exact Hf2|]]]].
  - apply after_run_reachable, after_run_reachable, reachable_start.
  - vm_compute. discriminate.
Qed.

(** ** The device to host path *)

Section InPath.

Context `{!externals}.

Implicit Types (engine : ow_engine) (io : ow_io_buffers).

(** C4: once the blocks are decoded into [o2p_transfer_buf], the ring is
    left alone while the status is below [RUN]; from [RUN] on, the whole
    buffer is written in one call of [o2p_transfer_size] bytes if the ring
    has that much room, and otherwise nothing is written and the overflow
    is reported. *)
Theorem o2p_audio_write engine io f_ws f_w r :
  io_buffers engine = Some io ->
  write_space io = Some f_ws -> write io = Some f_w ->
  o2p_audio io = Some r ->
  (is_Some (dll_ow engine) -> is_Some (get_time io)) ->
  exists engine' evs,
    set_usb_input_data_blks engine = Some (engine', evs) /\
    let buf := overwrite (o2p_transfer_buf engine) (decode_blks engine) in
    let size := o2p_transfer_size engine in
    o2p_transfer_buf engine' = buf /\
    if status_ltb (status engine) OW_STATUS_RUN
    then evs = [] /\ io_buffers engine' = Some io
    else if size <=? to_size_t (f_ws r)
    then evs = [EV_WRITE O2P_AUDIO buf size] /\
         io_buffers engine' = Some (set_o2p_audio (Some (f_w r buf size)) io)
    else evs = [EV_ERROR_PRINT
                  "o2j: Audio ring buffer overflow. Discarding data..."] /\
         io_buffers engine' = Some io.
Proof.
  intros Hio Hws Hw Hr Hdll. unfold set_usb_input_data_blks.
  destruct (dll_ow engine) as [d|] eqn:Hd.
  - destruct (Hdll ltac:(eauto)) as [g Hg].
    unfold io_get_time. rewrite Hio. simpl. rewrite Hg. simpl.
    unfold io_write_space, io_write. simpl. rewrite Hio. simpl.
    rewrite Hws, Hw. simpl. rewrite Hr. simpl.
    destruct (status_ltb (status engine) OW_STATUS_RUN);
      [|destruct (o2p_transfer_size engine <=? to_size_t (f_ws r))];
      (do 2 eexists; split; [reflexivity|]; simpl;
       split; [reflexivity|split; [reflexivity|done]]).
  - simpl. unfold io_write_space, io_write. simpl. rewrite Hio. simpl.
    rewrite Hws, Hw. simpl. rewrite Hr. simpl.
    destruct (status_ltb (status engine) OW_STATUS_RUN);
      [|destruct (o2p_transfer_size engine <=? to_size_t (f_ws r))];
      (do 2 eexists; split; [reflexivity|]; simpl;
       split; [reflexivity|split; [reflexivity|done]]).
Qed.

(** ** MIDI from the device *)

Lemma set_o2p_midi_same io (r : ring) :
  o2p_midi io = Some r -> set_o2p_midi (Some r) io = io.
Proof. destruct io. simpl. by intros ->. Qed.

Lemma ev_writes_app (evs evs' : list event) :
  ev_writes (evs ++ evs') = ev_writes evs ++ ev_writes evs'.
Proof. unfold ev_writes. apply filter_app. Qed.

Lemma midi_strides_step (actual len : Z) :
  len < actual ->
  Z.to_nat ((actual - len + 3) / 4) =
  S (Z.to_nat ((actual - (len + OB_MIDI_EVENT_SIZE) + 3) / 4)).
Proof.
  intros Hlt. unfold OB_MIDI_EVENT_SIZE.
  replace (actual - len + 3) with ((actual - (len + 4) + 3) + 1 * 4) by lia.
  rewrite Z.div_add by lia.
  assert (0 <= (actual - (len + 4) + 3) / 4) by (apply Z.div_pos; lia).
  lia.
Qed.

Lemma midi_strides_done (actual len : Z) :
  actual <= len -> Z.to_nat ((actual - len + 3) / 4) = 0%nat.
Proof.
  intros Hle.
  assert ((actual - len + 3) / 4 <= 0); [|lia].
  apply Z.lt_succ_r. apply Z.div_lt_upper_bound; lia.
Qed.

(** The loop of [cb_xfr_in_midi] against the wording of the spec: with
    enough fuel it ends, and it has written the events that
    [midi_written] names, in that order, and nothing else. *)
Lemma midi_in_loop_spec io f_ws f_w time actual count :
  write_space io = Some f_ws -> write io = Some f_w ->
  forall fuel len engine evs (r : ring),
    count = Z.to_nat ((actual - len + 3) / 4) -> (count <= fuel)%nat ->
    io_buffers engine = Some (set_o2p_midi (Some r) io) ->
    exists engine' evs',
      midi_in_loop fuel time actual len engine evs = Some (engine', evs') /\
      let out :=
        midi_written f_ws f_w time
          (midi_in_events_from (o2p_midi_data engine) len count) r in
      ev_writes evs' =
        ev_writes evs ++
        ((fun ev => EV_WRITE O2P_MIDI (ow_midi_event_repr time ev)
                      sizeof_ow_midi_event) <$> out.1) /\
      io_buffers engine' = Some (set_o2p_midi (Some out.2) io).
Proof.
  intros Hws Hw. induction count as [|count IH];
    intros fuel len engine evs r Hcount Hfuel Hio.
  - assert (Hdone : (len <? actual) = false).
    { apply Z.ltb_ge. destruct (decide (len < actual)) as [Hlt|]; [|lia].
      rewrite (midi_strides_step _ _ Hlt) in Hcount. lia. }
    exists engine, evs. destruct fuel; simpl; rewrite Hdone.
    + rewrite app_nil_r. done.
    + rewrite app_nil_r. done.
  - assert (Hlt : len < actual).
    { destruct (decide (len < actual)) as [|Hge]; [done|].
      rewrite midi_strides_done in Hcount by lia. lia. }
    destruct fuel as [|fuel]; [lia|].
    rewrite (midi_strides_step _ _ Hlt) in Hcount.
    injection Hcount as Hcount.
    simpl midi_in_loop. rewrite (proj2 (Z.ltb_lt _ _) Hlt).
    simpl midi_in_events_from. simpl midi_written.
    set (ev := take (Z.to_nat OB_MIDI_EVENT_SIZE)
                 (drop (Z.to_nat len) (o2p_midi_data engine))).
    destruct (midi_event_accepted ev) eqn:Hacc; simpl.
    + unfold io_write_space, io_write. rewrite Hio. simpl.
      rewrite Hws, Hw. simpl.
      destruct (sizeof_ow_midi_event <=? to_size_t (f_ws r)) eqn:Hroom.
      * edestruct (IH fuel (len + OB_MIDI_EVENT_SIZE)
          (set_io_buffers
             (Some (set_o2p_midi
                      (Some (f_w r (ow_midi_event_repr time ev)
                               sizeof_ow_midi_event))
                      (set_o2p_midi (Some r) io)))
             engine)) as (engine' & evs' & Hrun & Hwr & Hio');
          [exact Hcount|lia|reflexivity|].
        exists engine', evs'. split; [exact Hrun|].
        simpl in Hwr, Hio'. revert Hwr Hio'.
        destruct (midi_written _ _ _ _ _) as [written r'].
        simpl. intros Hwr Hio'. split; [|exact Hio'].
        rewrite Hwr, ev_writes_app. simpl.
        rewrite <- app_assoc. done.
      * edestruct (IH fuel (len + OB_MIDI_EVENT_SIZE) engine)
          as (engine' & evs' & Hrun & Hwr & Hio');
          [exact Hcount|lia|exact Hio|].
        exists engine', evs'. split; [exact Hrun|].
        simpl in Hwr. rewrite Hwr, ev_writes_app. simpl.
        rewrite app_nil_r. done.
    + edestruct (IH fuel (len + OB_MIDI_EVENT_SIZE) engine)
        as (engine' & evs' & Hrun & Hwr & Hio');
        [exact Hcount|lia|exact Hio|].
      exists engine', evs'. done.
Qed.

(** The events that [midi_written] names are accepted ones, in the order
    of the transfer. *)
Lemma midi_written_accepted f_ws f_w time events (r : ring) :
  Forall (fun ev => midi_event_accepted ev = true)
    (midi_written f_ws f_w time events r).1 /\
  sublist (midi_written f_ws f_w time events r).1 events.
Proof.
  revert r. induction events as [|ev events IH]; intros r; simpl.
  - split; [constructor|done].
  - destruct (midi_event_accepted ev) eqn:Hacc; simpl.
    + destruct (sizeof_ow_midi_event <=? to_size_t (f_ws r)).
      * destruct (IH (f_w r (ow_midi_event_repr time ev) sizeof_ow_midi_event))
          as [Hall Hsub].
        destruct (midi_written _ _ _ _ _) as [written r']. simpl in *.
        split; [by constructor|by constructor].
      * destruct (IH r) as [Hall Hsub]. split; [done|by constructor].
    + destruct (IH r) as [Hall Hsub]. split; [done|by constructor].
Qed.

Lemma midi_event_accepted_spec (ev : list Z) :
  midi_event_accepted ev = true <->
  exists b0 rest, ev = b0 :: rest /\ 8 <= b0 <= 15.
Proof.
  destruct ev as [|b0 rest]; simpl.
  - split; [done|]. by intros (? & ? & ? & _).
  - rewrite andb_true_iff, Z.leb_le, Z.leb_le. split.
    + intros ?. by exists b0, rest.
    + intros (? & ? & ? & ?). by simplify_eq.
Qed.
Lemma submit_transfer_io what err engine :
  io_buffers (submit_transfer what err engine).1 = io_buffers engine /\
  ev_writes (submit_transfer what err engine).2 = [].
Proof. unfold submit_transfer. by case_match. Qed.

(** C5: a completed MIDI-in transfer is walked in strides of four bytes
    that start below [actual_length].  Below [RUN] nothing is written.
    From [RUN] on, the calls of [write] are the events that the spec
    names, each stamped with the time read at the start: an event is
    written exactly when its first byte is in 0x08..0x0F and the ring has
    room for a whole event when the event is reached.  So every event
    written is one of the transfer, in order, with its first byte in
    that range. *)
Theorem midi_in_filter xfr err engine io f_ws f_w g r :
  io_buffers engine = Some io ->
  write_space io = Some f_ws -> write io = Some f_w ->
  get_time io = Some g -> o2p_midi io = Some r ->
  xfr_status xfr = LIBUSB_TRANSFER_COMPLETED ->
  exists engine' evs,
    cb_xfr_in_midi xfr err engine = Some (engine', evs) /\
    let events := midi_in_events (o2p_midi_data engine) (actual_length xfr) in
    let out := midi_written f_ws f_w (g tt) events r in
    (if status_ltb (status engine) OW_STATUS_RUN
     then ev_writes evs = [] /\ io_buffers engine' = Some io
     else
       ev_writes evs =
         ((fun ev => EV_WRITE O2P_MIDI (ow_midi_event_repr (g tt) ev)
                       sizeof_ow_midi_event) <$> out.1) /\
       io_buffers engine' = Some (set_o2p_midi (Some out.2) io)) /\
    sublist out.1 events /\
    Forall (fun ev => exists b0 rest, ev = b0 :: rest /\ 8 <= b0 <= 15) out.1.
Proof.
  intros Hio Hws Hw Hg Hr Hdone.
  set (events := midi_in_events (o2p_midi_data engine) (actual_length xfr)).
  destruct (midi_written_accepted f_ws f_w (g tt) events r) as [Hall Hsub].
  assert (Hrange :
    Forall (fun ev => exists b0 rest, ev = b0 :: rest /\ 8 <= b0 <= 15)
      (midi_written f_ws f_w (g tt) events r).1).
  { eapply Forall_impl; [exact Hall|].
    intros ev. apply midi_event_accepted_spec. }
  unfold cb_xfr_in_midi, ow_engine_get_status, prepare_cycle_in_midi.
  destruct (status_ltb (status engine) OW_STATUS_RUN).
  - simpl.
    pose proof (submit_transfer_io
      "o2j: Error when submitting USB MIDI transfer" err engine) as [Hsio Hsev].
    destruct (submit_transfer _ err engine) as [e2 evs2]. simpl in *.
    exists e2, evs2. split; [done|]. split; [|done].
    split; [done|congruence].
  - rewrite decide_True by done.
    unfold io_get_time. rewrite Hio. simpl. rewrite Hg. simpl.
    destruct (midi_in_loop_spec io f_ws f_w (g tt) (actual_length xfr)
                (Z.to_nat ((actual_length xfr - 0 + 3) / 4)) Hws Hw
                (Z.to_nat (actual_length xfr)) 0 engine [] r)
      as (e1 & evs1 & Hrun & Hwr & Hio1).
    + done.
    + destruct (decide (0 <= actual_length xfr)) as [Hpos|Hneg].
      * assert ((actual_length xfr - 0 + 3) / 4 < actual_length xfr + 1)
          by (apply Z.div_lt_upper_bound; lia).
        lia.
      * rewrite midi_strides_done by lia. lia.
    + by rewrite (set_o2p_midi_same _ _ Hr).
    + rewrite Hrun. simpl.
      pose proof (submit_transfer_io
        "o2j: Error when submitting USB MIDI transfer" err e1) as [Hsio Hsev].
      destruct (submit_transfer _ err e1) as [e2 evs2]. simpl in *.
      exists e2, (evs1 ++ evs2). split; [done|].
      rewrite Z.sub_0_r in Hwr, Hio1. fold (midi_in_events (o2p_midi_data engine)
        (actual_length xfr)) in Hwr, Hio1. fold events in Hwr, Hio1.
      split; [|done]. split.
      * rewrite ev_writes_app, Hsev, app_nil_r. exact Hwr.
      * congruence.
Qed.

End InPath.

(** The rings of the mock engine are the ones the host passed to
    activation as long as nobody has used them. *)
Lemma run_engine_io : io_buffers run_engine = Some mock_io.
Proof. reflexivity. Qed.

(** The witness of C4: in [RUN], with room in the ring, the 224 bytes of
    the transfer buffer are written in one call. *)
Lemma o2p_audio_write_witness :
  snd <$> @set_usb_input_data_blks mock run_engine =
  Some [EV_WRITE O2P_AUDIO (replicate 224 0) 224].
Proof.
  destruct (@o2p_audio_write mock run_engine mock_io fifo_write_space
              fifo_write (empty_fifo 4096) run_engine_io eq_refl eq_refl
              eq_refl) as (engine' & evs & Hrun & Hthm).
  { intros [d Hd]. discriminate Hd. }
  rewrite Hrun. simpl. cbv zeta in Hthm. destruct Hthm as (_ & Hif).
  assert (Hst : status_ltb (status run_engine) OW_STATUS_RUN = false)
    by (vm_compute; reflexivity).
  assert (Hroom :
    (o2p_transfer_size run_engine <=?
     to_size_t (fifo_write_space (empty_fifo 4096))) = true)
    by (vm_compute; reflexivity).
  rewrite Hst, Hroom in Hif. destruct Hif as (-> & _).
  assert (Hbuf :
    overwrite (o2p_transfer_buf run_engine) (@decode_blks mock run_engine) =
    replicate 224 0) by (vm_compute; reflexivity).
  assert (Hsize : o2p_transfer_size run_engine = 224)
    by (vm_compute; reflexivity).
  rewrite Hbuf, Hsize. reflexivity.
Defined.

(** The witness of C5: of the four events, the note on and the control
    change reach the ring. *)
Lemma midi_in_filter_witness :
  ev_writes <$> (snd <$> @cb_xfr_in_midi mock (xfr_ok 16) 0 midi_in_engine) =
  Some [EV_WRITE O2P_MIDI
          ([0; 0; 0; 0; 0; 0; 0; 0; 9; 144; 60; 100; 0; 0; 0; 0]) 16;
        EV_WRITE O2P_MIDI
          ([0; 0; 0; 0; 0; 0; 0; 0; 11; 176; 7; 127; 0; 0; 0; 0]) 16].
Proof.
  destruct (@midi_in_filter mock (xfr_ok 16) 0 midi_in_engine mock_io
              fifo_write_space fifo_write (fun _ => 0%float) (empty_fifo 256)
              run_engine_io eq_refl eq_refl eq_refl eq_refl eq_refl)
    as (engine' & evs & Hrun & Hthm).
  rewrite Hrun. simpl. cbv zeta in Hthm. destruct Hthm as (Hif & _).
  assert (Hst : status_ltb (status midi_in_engine) OW_STATUS_RUN = false)
    by (vm_compute; reflexivity).
  rewrite Hst in Hif. destruct Hif as (-> & _).
  vm_compute. reflexivity.
Defined.
(** ** No call through a NULL pointer *)

Section Safety.

Context `{!externals}.

Implicit Types (engine : ow_engine) (io : ow_io_buffers).

Lemma io_ready_shape engine engine' :
  io_shape engine' = io_shape engine -> io_ready engine -> io_ready engine'.
Proof.
  unfold io_shape, io_ready, io_nulls.
  intros Hs (io & Hio & Ha & Hd & Hm).
  injection Hs as Hm' Hd' Hn. rewrite Hio in Hn. simpl in Hn.
  destruct (io_buffers engine') as [io'|]; [|done]. simpl in Hn.
  injection Hn as H1 H2 H3 H4 H5 H6 H7 H8 H9.
  apply audio_members_set_spec in Ha as (?&?&?&?&?&?).
  exists io'. split; [done|]. split.
  - apply audio_members_set_spec. repeat split; congruence.
  - rewrite Hm', Hd', H5, H8, H9. done.
Qed.

Lemma io_nulls_set_ring_handle io id (r r' : ring) :
  ring_handle io id = Some r ->
  io_nulls (set_ring_handle id r' io) = io_nulls io.
Proof.
  unfold io_nulls. destruct id; simpl; intros ->; done.
Qed.

Lemma io_read_shape engine id dst n data engine' :
  io_read engine id dst n = Some (data, engine') ->
  exists io', engine' = set_io_buffers (Some io') engine /\
              same_nulls io' engine.
Proof.
  unfold io_read, same_nulls. intros Hr. simplify_option_eq.
  case_match. simplify_eq. eexists. split; [reflexivity|].
  f_equal. by eapply io_nulls_set_ring_handle.
Qed.

Lemma io_write_shape engine id src n engine' :
  io_write engine id src n = Some engine' ->
  exists io', engine' = set_io_buffers (Some io') engine /\
              same_nulls io' engine.
Proof.
  unfold io_write, same_nulls. intros Hr. simplify_option_eq.
  eexists. split; [reflexivity|].
  f_equal. by eapply io_nulls_set_ring_handle.
Qed.

End Safety.

Ltac io_shape_inv :=
  repeat match goal with
  | H : io_read _ _ _ _ = Some _ |- _ =>
    apply io_read_shape in H as (? & -> & ?)
  | H : io_write _ _ _ _ = Some _ |- _ =>
    apply io_write_shape in H as (? & -> & ?)
  end.

Ltac shape_done :=
  unfold io_shape, same_nulls in *; simpl in *;
  repeat match goal with
  | H : dll_ow _ = _ |- _ => rewrite H; clear H
  end;
  simpl; congruence.

Ltac shape_cases :=
  repeat (simplify_option_eq; io_shape_inv; try case_match).

Section SafetySteps.

Context `{!externals}.

Implicit Types (engine : ow_engine) (io : ow_io_buffers).

Lemma submit_transfer_shape what err engine :
  io_shape (submit_transfer what err engine).1 = io_shape engine.
Proof. unfold submit_transfer. by case_match. Qed.

Lemma out_cycle_io_shape engine engine' evs :
  set_usb_output_data_blks engine = Some (engine', evs) ->
  io_shape engine' = io_shape engine.
Proof.
  unfold set_usb_output_data_blks, p2o_resample. intros Hr.
  shape_cases; rewrite set_blocks_eq; shape_done.
Qed.

Lemma in_cycle_io_shape engine engine' evs :
  set_usb_input_data_blks engine = Some (engine', evs) ->
  io_shape engine' = io_shape engine.
Proof.
  unfold set_usb_input_data_blks. intros Hr.
  shape_cases; shape_done.
Qed.

Lemma midi_in_loop_io_shape fuel time actual len engine evs engine' evs' :
  midi_in_loop fuel time actual len engine evs = Some (engine', evs') ->
  io_shape engine' = io_shape engine.
Proof.
  revert len engine evs. induction fuel as [|fuel IH]; intros len engine evs;
    simpl.
  - case_match; [done|]. intros; by simplify_eq.
  - intros Hr. repeat (case_match; simplify_option_eq; io_shape_inv); try done.
    + apply IH in Hr. rewrite Hr. shape_done.
    + by apply IH in Hr.
    + by apply IH in Hr.
Qed.

End SafetySteps.
Section SafetyCalls.

Context `{!externals}.

Implicit Types (engine : ow_engine) (io : ow_io_buffers).

Lemma is_null_false {A : Type} (p : option A) :
  is_null p = false -> exists x, p = Some x.
Proof. destruct p; [eauto|done]. Qed.

Lemma io_ready_open engine :
  io_ready engine ->
  exists io f_rs f_ws f_r f_w pa oa,
    io_buffers engine = Some io /\
    read_space io = Some f_rs /\ write_space io = Some f_ws /\
    read io = Some f_r /\ write io = Some f_w /\
    p2o_audio io = Some pa /\ o2p_audio io = Some oa /\
    (is_null (dll_ow engine) = false -> exists g, get_time io = Some g) /\
    (midi engine = true ->
     exists g om, get_time io = Some g /\ o2p_midi io = Some om).
Proof.
  intros (io & Hio & Ha & Hd & Hm).
  apply audio_members_set_spec in Ha as (H1 & H2 & H3 & H4 & H5 & H6).
  apply is_null_false in H1 as [f_rs ?]. apply is_null_false in H2 as [f_ws ?].
  apply is_null_false in H3 as [f_r ?]. apply is_null_false in H4 as [f_w ?].
  apply is_null_false in H5 as [pa ?]. apply is_null_false in H6 as [oa ?].
  exists io, f_rs, f_ws, f_r, f_w, pa, oa. repeat (split; [done|]). split.
  - intros Hdll. by apply is_null_false, Hd.
  - intros Hmidi. destruct (Hm Hmidi) as (Hg & Ho & _).
    apply is_null_false in Hg as [g ?]. apply is_null_false in Ho as [om ?].
    eauto.
Qed.

Lemma out_cycle_defined engine :
  io_ready engine -> is_Some (set_usb_output_data_blks engine).
Proof.
  intros (io & f_rs & f_ws & f_r & f_w & pa & oa & Hio & Hrs & Hws & Hr & Hw &
          Hpa & Hoa & _)%io_ready_open.
  unfold set_usb_output_data_blks, p2o_resample, io_read_space, io_read.
  simpl. rewrite Hio. simpl. rewrite Hrs, Hr. simpl. rewrite Hpa. simpl.
  repeat (case_match; simpl; rewrite ?Hio; simpl; rewrite ?Hr; simpl;
          rewrite ?Hpa; simpl; try done).
Qed.

Lemma in_cycle_defined engine :
  io_ready engine -> is_Some (set_usb_input_data_blks engine).
Proof.
  intros (io & f_rs & f_ws & f_r & f_w & pa & oa & Hio & Hrs & Hws & Hr & Hw &
          Hpa & Hoa & Hd & _)%io_ready_open.
  unfold set_usb_input_data_blks, io_get_time, io_write_space, io_write.
  destruct (dll_ow engine) as [d|] eqn:Hdll.
  - destruct (Hd eq_refl) as [g Hg]. simpl. rewrite Hio. simpl.
    rewrite Hg. simpl.
    repeat (case_match; simpl; rewrite ?Hio; simpl; rewrite ?Hws, ?Hw; simpl;
            rewrite ?Hoa; simpl; try done).
  - simpl.
    repeat (case_match; simpl; rewrite ?Hio; simpl; rewrite ?Hws, ?Hw; simpl;
            rewrite ?Hoa; simpl; try done).
Qed.

Lemma midi_in_defined xfr err engine :
  io_ready engine -> midi engine = true ->
  is_Some (cb_xfr_in_midi xfr err engine).
Proof.
  intros (io & f_rs & f_ws & f_r & f_w & pa & oa & Hio & Hrs & Hws & Hr & Hw &
          Hpa & Hoa & _ & Hm)%io_ready_open Hmidi.
  destruct (Hm Hmidi) as (g & om & Hg & Hom).
  unfold cb_xfr_in_midi, prepare_cycle_in_midi, io_get_time.
  rewrite Hio. simpl. rewrite Hg. simpl.
  destruct (status_ltb _ _); simpl.
  { by destruct (submit_transfer _ _ _). }
  destruct (decide _); simpl.
  - destruct (midi_in_loop_spec io f_ws f_w (g tt) (actual_length xfr)
                (Z.to_nat ((actual_length xfr - 0 + 3) / 4)) Hws Hw
                (Z.to_nat (actual_length xfr)) 0 engine [] om)
      as (e1 & evs1 & Hrun & _).
    + done.
    + destruct (decide (0 <= actual_length xfr)) as [Hpos|Hneg].
      * assert ((actual_length xfr - 0 + 3) / 4 < actual_length xfr + 1)
          by (apply Z.div_lt_upper_bound; lia).
        lia.
      * rewrite midi_strides_done by lia. lia.
    + by rewrite (set_o2p_midi_same _ _ Hom).
    + rewrite Hrun. simpl. by destruct (submit_transfer _ _ _).
  - destruct (decide _); simpl; by destruct (submit_transfer _ _ _).
Qed.

End SafetyCalls.
Section SafetySystem.

Context `{!externals}.

Implicit Types (engine : ow_engine) (io : ow_io_buffers).

Lemma io_shape_midi engine engine' :
  io_shape engine' = io_shape engine -> midi engine' = midi engine.
Proof. unfold io_shape. intros Hs. by injection Hs. Qed.

Lemma submit_transfer_shape_eq what err engine engine' evs :
  submit_transfer what err engine = (engine', evs) ->
  io_shape engine' = io_shape engine.
Proof.
  intros Hs. pose proof (submit_transfer_shape what err engine) as Hq.
  by rewrite Hs in Hq.
Qed.

Lemma run_completion_io_shape c engine engine' evs :
  run_completion c engine = Some (engine', evs) ->
  io_shape engine' = io_shape engine.
Proof.
  destruct c; simpl; intros Hr.
  - unfold cb_xfr_in, prepare_cycle_in in Hr.
    match type of Hr with
    | mbind _ ?m = _ => destruct m as [[e1 evs1]|] eqn:Hb; simpl in Hr; [|done]
    end.
    destruct (submit_transfer _ err e1) as [e2 evs2] eqn:Hp. simplify_eq.
    apply submit_transfer_shape_eq in Hp. rewrite Hp.
    destruct (decide _); simplify_eq; [|done].
    by apply in_cycle_io_shape in Hb.
  - unfold cb_xfr_out, prepare_cycle_out in Hr.
    destruct (set_usb_output_data_blks engine) as [[e1 evs1]|] eqn:Hb;
      simpl in Hr; [|done].
    destruct (submit_transfer _ err e1) as [e2 evs2] eqn:Hp. simplify_eq.
    apply submit_transfer_shape_eq in Hp. rewrite Hp.
    by apply out_cycle_io_shape in Hb.
  - unfold cb_xfr_in_midi, prepare_cycle_in_midi in Hr.
    match type of Hr with
    | mbind _ ?m = _ => destruct m as [[e1 evs1]|] eqn:Hb; simpl in Hr; [|done]
    end.
    destruct (submit_transfer _ err e1) as [e2 evs2] eqn:Hp. simplify_eq.
    apply submit_transfer_shape_eq in Hp. rewrite Hp.
    repeat (case_match; simplify_option_eq); try done.
    by apply midi_in_loop_io_shape in Hb.
  - unfold cb_xfr_out_midi in Hr. by simplify_eq.
Qed.

Lemma run_completion_defined c engine :
  io_ready engine -> (midi engine = false -> is_xfr_in_midi c = false) ->
  is_Some (run_completion c engine).
Proof.
  intros Hready Hc. destruct c; simpl.
  - unfold cb_xfr_in, prepare_cycle_in. destruct (decide _); simpl.
    + destruct (in_cycle_defined (set_usb_data_in blks engine))
        as [[e1 evs1] ->]; [by eapply io_ready_shape|].
      simpl. by destruct (submit_transfer _ _ _).
    + by destruct (submit_transfer _ _ _).
  - unfold cb_xfr_out, prepare_cycle_out.
    destruct (out_cycle_defined engine Hready) as [[e1 evs1] ->].
    simpl. by destruct (submit_transfer _ _ _).
  - apply midi_in_defined; [by eapply io_ready_shape|].
    simpl. destruct (midi engine); [done|]. by specialize (Hc eq_refl).
  - done.
Qed.

Lemma handle_events_io_shape cs engine engine' evs :
  libusb_handle_events_completed cs engine = Some (engine', evs) ->
  io_shape engine' = io_shape engine.
Proof.
  revert engine evs. induction cs as [|c cs IH]; intros engine evs; simpl;
    intros Hr.
  - by simplify_eq.
  - destruct (run_completion c engine) as [[e1 evs1]|] eqn:Hc;
      simpl in Hr; [|done].
    destruct (libusb_handle_events_completed cs e1) as [[e2 evs2]|] eqn:Hcs;
      simpl in Hr; [|done].
    simplify_eq. apply run_completion_io_shape in Hc. apply IH in Hcs.
    congruence.
Qed.

Lemma handle_events_defined cs engine :
  io_ready engine ->
  (midi engine = false -> Forall (fun c => is_xfr_in_midi c = false) cs) ->
  is_Some (libusb_handle_events_completed cs engine).
Proof.
  revert engine. induction cs as [|c cs IH]; intros engine Hready Hcs; simpl.
  - done.
  - destruct (run_completion_defined c engine Hready) as [[e1 evs1] Hc].
    { intros Hm. specialize (Hcs Hm). by apply Forall_cons in Hcs as [? _]. }
    rewrite Hc. simpl. pose proof (run_completion_io_shape _ _ _ _ Hc) as Hs.
    destruct (IH e1) as [[e2 evs2] ->].
    + by eapply io_ready_shape.
    + rewrite (io_shape_midi _ _ Hs). intros Hm. specialize (Hcs Hm).
      by apply Forall_cons in Hcs as [_ ?].
    + done.
Qed.

Lemma thread_step_io_shape env pc engine pc' engine' evs :
  run_audio_o2p_midi env pc engine = Some (pc', engine', evs) ->
  io_shape engine' = io_shape engine.
Proof.
  destruct pc; simpl; intros Hr.
  - case_match; by simplify_eq.
  - unfold prepare_cycle_in, prepare_cycle_out, prepare_cycle_in_midi in Hr.
    destruct (submit_transfer _ (err_in env) engine) as [e1 evs1] eqn:Hp1.
    destruct (submit_transfer _ (err_out env) e1) as [e2 evs2] eqn:Hp2.
    destruct (midi e2).
    + destruct (submit_transfer _ (err_in_midi env) e2) as [e3 evs3] eqn:Hp3.
      simplify_eq. apply submit_transfer_shape_eq in Hp1, Hp2, Hp3.
      congruence.
    + simplify_eq. apply submit_transfer_shape_eq in Hp1, Hp2. congruence.
  - shape_cases; shape_done.
  - case_match; by simplify_eq.
  - destruct (libusb_handle_events_completed (completed env) engine)
      as [[e1 evs1]|] eqn:Hh; simpl in Hr; [|done].
    simplify_eq. by eapply handle_events_io_shape.
  - case_match; by simplify_eq.
  - unfold ow_engine_set_status in Hr. shape_cases; shape_done.
  - by simplify_eq.
Qed.

Lemma thread_step_defined env pc engine :
  io_ready engine ->
  (midi engine = false ->
   Forall (fun c => is_xfr_in_midi c = false) (completed env)) ->
  is_Some (run_audio_o2p_midi env pc engine).
Proof.
  intros Hready Hcs. destruct pc; simpl.
  - by case_match.
  - destruct (prepare_cycle_in _ _) as [e1 evs1].
    destruct (prepare_cycle_out _ _) as [e2 evs2].
    by destruct (if midi e2 then _ else _).
  - destruct (io_ready_open _ Hready)
      as (io & f_rs & f_ws & f_r & f_w & pa & oa & Hio & Hrs & Hws & Hr & Hw &
          Hpa & Hoa & Hd & _).
    destruct (dll_ow engine) as [d|] eqn:Hdll; simpl; [|done].
    destruct (Hd eq_refl) as [g Hg].
    unfold io_get_time. simpl. rewrite Hio. simpl. rewrite Hg. done.
  - by case_match.
  - destruct (handle_events_defined (completed env) engine Hready Hcs)
      as [[e1 evs1] ->].
    done.
  - by case_match.
  - destruct (io_ready_open _ Hready)
      as (io & f_rs & f_ws & f_r & f_w & pa & oa & Hio & Hrs & Hws & Hr & Hw &
          Hpa & Hoa & _).
    unfold io_read_space, io_read, ow_engine_set_status. simpl.
    rewrite Hio. simpl. rewrite Hrs, Hr. simpl. rewrite Hpa. simpl.
    by case_match.
  - done.
Qed.

Lemma host_step_ready h engine :
  io_ready engine ->
  io_ready (host_step h engine) /\ midi (host_step h engine) = midi engine.
Proof.
  intros Hready. destruct h; simpl; try done.
  - unfold ow_engine_set_p2o_audio_enable. by case_match.
  - destruct Hready as (io & Hio & Ha & Hd & Hm). rewrite Hio. simpl.
    split; [|done]. exists (set_ring_handle id r io). split; [done|].
    apply audio_members_set_spec in Ha as (?&?&?&?&?&?).
    split; [|split].
    + apply audio_members_set_spec. destruct id; simpl; done.
    + intros Hdll. specialize (Hd Hdll). by destruct id.
    + intros Hmidi. destruct (Hm Hmidi) as (?&?&?). by destruct id.
Qed.

Lemma p2o_midi_send_io_shape err engine :
  io_shape (p2o_midi_send err engine).1 = io_shape engine.
Proof.
  unfold p2o_midi_send, prepare_cycle_out_midi.
  by rewrite submit_transfer_shape.
Qed.

(** A step of the system goes through and keeps the buffers ready. *)
Lemma sys_step_ready a s :
  io_ready (sys_engine s) -> midi_expected (midi (sys_engine s)) a ->
  exists s' evs,
    sys_step a s = Some (s', evs) /\ io_ready (sys_engine s') /\
    midi (sys_engine s') = midi (sys_engine s).
Proof.
  intros Hready Ha. destruct a as [h|env|err]; simpl.
  - do 2 eexists. split; [done|]. simpl. by apply host_step_ready.
  - destruct (thread_step_defined env (sys_pc s) (sys_engine s) Hready Ha)
      as [[[pc e1] evs1] Ht].
    rewrite Ht. simpl. do 2 eexists. split; [done|]. simpl.
    apply thread_step_io_shape in Ht.
    split; [by eapply io_ready_shape|by eapply io_shape_midi].
  - pose proof (p2o_midi_send_io_shape err (sys_engine s)) as Hs.
    destruct (p2o_midi_send err (sys_engine s)) as [e1 evs1].
    do 2 eexists. split; [done|]. simpl in *.
    split; [by eapply io_ready_shape|by eapply io_shape_midi].
Qed.

Lemma sys_run_ready acts s :
  io_ready (sys_engine s) ->
  Forall (midi_expected (midi (sys_engine s))) acts ->
  exists s' evs,
    sys_run acts s = Some (s', evs) /\ io_ready (sys_engine s') /\
    midi (sys_engine s') = midi (sys_engine s).
Proof.
  revert s. induction acts as [|a acts IH]; intros s Hready Hacts; simpl.
  - eauto.
  - apply Forall_cons in Hacts as [Ha Hacts].
    destruct (sys_step_ready a s Hready Ha) as (s1 & evs1 & -> & Hr1 & Hm1).
    simpl. destruct (IH s1 Hr1) as (s2 & evs2 & -> & Hr2 & Hm2).
    { by rewrite Hm1. }
    simpl. do 2 eexists. split; [done|]. split; [done|congruence].
Qed.

Lemma activate_ready engine io (dll_arg : option dll) pt :
  (ow_engine_activate_with_dll engine io dll_arg pt).1.1 = OW_OK ->
  io_ready (ow_engine_activate_with_dll engine io dll_arg pt).1.2.
Proof.
  unfold ow_engine_activate_with_dll, io_ready.
  repeat (case_match; simpl in *; simplify_eq; try done).
  all: intros _; exists io; split; [done|].
  all: (split; [apply audio_members_set_spec; done|]).
  all: destruct (is_null dll_arg), (is_null (get_time io)),
         (is_null (o2p_midi io)), (is_null (p2o_midi io)); simpl in *;
       try done.
Qed.

Lemma sys_activated_ready fresh desc blocks io (dll_arg : option dll) pt s0 :
  sys_activated fresh desc blocks io dll_arg pt = Some s0 ->
  io_ready (sys_engine s0).
Proof.
  unfold sys_activated. intros Hs.
  destruct (ow_engine_init fresh OW_OK desc blocks) as [[] [e0|]]; try done.
  pose proof (activate_ready e0 io dll_arg pt) as Hr.
  destruct (ow_engine_activate_with_dll e0 io dll_arg pt) as [[[] e1] ths];
    try done.
  simplify_eq. by apply Hr.
Qed.

Lemma sys_step_keeps_ready a s s' evs :
  io_ready (sys_engine s) -> sys_step a s = Some (s', evs) ->
  io_ready (sys_engine s') /\ midi (sys_engine s') = midi (sys_engine s).
Proof.
  intros Hready Hs. destruct a as [h|env|err]; simpl in Hs.
  - simplify_eq. simpl. by apply host_step_ready.
  - destruct (run_audio_o2p_midi env (sys_pc s) (sys_engine s))
      as [[[pc e1] evs1]|] eqn:Ht; simpl in Hs; [|done].
    simplify_eq. simpl. apply thread_step_io_shape in Ht.
    split; [by eapply io_ready_shape|by eapply io_shape_midi].
  - destruct (p2o_midi_send err (sys_engine s)) as [e1 evs1] eqn:Hp.
    simplify_eq. simpl.
    pose proof (p2o_midi_send_io_shape err (sys_engine s)) as Hq.
    rewrite Hp in Hq. simpl in Hq.
    split; [by eapply io_ready_shape|by eapply io_shape_midi].
Qed.

Lemma reachable_ready s0 s :
  io_ready (sys_engine s0) -> reachable s0 s ->
  io_ready (sys_engine s) /\ midi (sys_engine s) = midi (sys_engine s0).
Proof.
  intros Hready. induction 1 as [|s a s' evs _ [IH1 IH2] Hs]; [done|].
  destruct (sys_step_keeps_ready _ _ _ _ IH1 Hs). split; [done|congruence].
Qed.

(** A call of [ow_engine_activate_with_dll] with buffers that have no
    [read_space] is rejected, but the buffers are stored, and the next
    out cycle calls the NULL pointer at line 179. *)
Lemma rejected_activation_faults engine io (dll_arg : option dll) pt xfr err :
  is_null (read_space io) = true ->
  let r := ow_engine_activate_with_dll engine io dll_arg pt in
  r.1.1 = OW_INIT_ERROR_NO_READ_SPACE /\ r.2 = [] /\
  io_buffers r.1.2 = Some io /\
  set_usb_output_data_blks r.1.2 = None /\ cb_xfr_out xfr err r.1.2 = None.
Proof.
  intros Hnull r. subst r. unfold ow_engine_activate_with_dll.
  rewrite Hnull. cbn [fst snd]. split; [done|]. split; [done|].
  split; [done|].
  assert (Hout : set_usb_output_data_blks
                   (set_dll_ow dll_arg (set_io_buffers (Some io) engine)) =
                 None).
  { unfold set_usb_output_data_blks, io_read_space. simpl.
    destruct (read_space io); done. }
  split; [exact Hout|]. unfold cb_xfr_out. by rewrite Hout.
Qed.

End SafetySystem.
(** ** Stopping *)

Section Stopping.

Context `{!externals}.

Implicit Types (engine : ow_engine).

Lemma status_kept_refl engine : status_kept engine engine.
Proof. by left. Qed.




Lemma out_cycle_status engine engine' evs :
  set_usb_output_data_blks engine = Some (engine', evs) ->
  status engine' = status engine.
Proof.
  unfold set_usb_output_data_blks, p2o_resample. intros Hr.
  step_cases; rewrite set_blocks_eq; done.
Qed.

Lemma in_cycle_status engine engine' evs :
  set_usb_input_data_blks engine = Some (engine', evs) ->
  status engine' = status engine.
Proof. unfold set_usb_input_data_blks. intros Hr. step_cases; done. Qed.

Lemma midi_in_loop_status fuel time actual len engine evs engine' evs' :
  midi_in_loop fuel time actual len engine evs = Some (engine', evs') ->
  status engine' = status engine.
Proof.
  revert len engine evs. induction fuel as [|fuel IH]; intros len engine evs;
    simpl.
  - case_match; [done|]. intros; by simplify_eq.
  - intros Hr. repeat (case_match; simplify_option_eq; io_inv); try done.
    + by apply IH in Hr.
    + by apply IH in Hr.
    + by apply IH in Hr.
Qed.







End Stopping.


(** ** What sets the status *)

Section StatusWrites.

Context `{!externals}.

Implicit Types (engine : ow_engine).

(** X3: the audio thread enters its event loop with the status [WAIT]
    whatever the status was when it left the wait of line 782 and
    whether or not its first submissions failed: line 810 writes the
    status without reading it, so a [STOP] of the host or an [ERROR] of
    [prepare_cycle_in] set before is overwritten. *)
Theorem wait_set_whatever_status env1 env2 env3 engine :
  io_ready engine ->
  status engine <> OW_STATUS_READY ->
  exists engine' evs,
    sys_run [ACT_AUDIO env1; ACT_AUDIO env2; ACT_AUDIO env3]
      {| sys_engine := engine; sys_pc := PC_SPIN_READY |} =
    Some ({| sys_engine := engine'; sys_pc := PC_EVENT_LOOP |}, evs) /\
    status engine' = OW_STATUS_WAIT /\
    reading_at_p2o_end engine' = false /\
    p2o_latency engine' = 0 /\ p2o_max_latency engine' = 0.
Proof.
  intros Hready Hst. simpl.
  unfold ow_engine_get_status.
  assert (Hne : status_eqb (status engine) OW_STATUS_READY = false)
    by (destruct (status engine); done).
  rewrite Hne. simpl.
  unfold prepare_cycle_in, prepare_cycle_out, prepare_cycle_in_midi.
  destruct (submit_transfer _ (err_in env2) engine) as [e1 evs1] eqn:Hp1.
  destruct (submit_transfer _ (err_out env2) e1) as [e2 evs2] eqn:Hp2.
  assert (Hthird : exists e3 evs3,
    (if midi e2
     then submit_transfer "o2j: Error when submitting USB MIDI transfer"
            (err_in_midi env2) e2
     else (e2, [])) = (e3, evs3) /\ io_shape e3 = io_shape e2).
  { destruct (midi e2).
    - destruct (submit_transfer _ (err_in_midi env2) e2) as [e3 evs3] eqn:Hp3.
      apply submit_transfer_shape_eq in Hp3. eauto.
    - eauto. }
  destruct Hthird as (e3 & evs3 & -> & Hs3). simpl.
  apply submit_transfer_shape_eq in Hp1, Hp2.
  assert (Hready3 : io_ready e3).
  { eapply io_ready_shape; [|exact Hready]. congruence. }
  destruct (io_ready_open _ Hready3)
    as (io & f_rs & f_ws & f_r & f_w & pa & oa & Hio & _ & _ & _ & _ & _ & _ &
        Hd & _).
  destruct (dll_ow e3) as [d|] eqn:Hdll; simpl.
  - destruct (Hd eq_refl) as [g Hg]. unfold io_get_time. simpl.
    rewrite Hio. simpl. rewrite Hg. simpl. eauto 10.
  - eauto 10.
Qed.

(** X4: a completion callback changes the status in one way only: it
    sets [ERROR] when the submission of the next transfer fails, and
    then reports it; otherwise it leaves the status as it found it. *)
Theorem callback_status c engine :
  io_ready engine ->
  (midi engine = false -> is_xfr_in_midi c = false) ->
  exists engine' evs,
    run_completion c engine = Some (engine', evs) /\
    status engine' =
      (if completion_err c =? 0 then status engine else OW_STATUS_ERROR) /\
    (completion_err c <> 0 -> exists msg, last evs = Some (EV_ERROR_PRINT msg)).
Proof.
  intros Hready Hc.
  destruct (run_completion_defined c engine Hready Hc) as [[e' evs] Hr].
  exists e', evs. split; [done|].
  destruct c; simpl in Hr; simpl.
  - unfold cb_xfr_in, prepare_cycle_in in Hr.
    match type of Hr with
    | mbind _ ?m = _ => destruct m as [[e1 evs1]|] eqn:Hb; simpl in Hr; [|done]
    end.
    assert (Hst : status e1 = status engine).
    { destruct (decide _); simplify_eq; [|done].
      by apply in_cycle_status in Hb. }
    unfold submit_transfer in Hr. rewrite <- Hst.
    destruct (err =? 0) eqn:He; simpl in Hr; simplify_eq.
    + split; [done|]. intros Hne. apply Z.eqb_eq in He. done.
    + split; [done|]. intros _. rewrite last_snoc. eauto.
  - unfold cb_xfr_out, prepare_cycle_out in Hr.
    destruct (set_usb_output_data_blks engine) as [[e1 evs1]|] eqn:Hb;
      simpl in Hr; [|done].
    apply out_cycle_status in Hb. unfold submit_transfer in Hr.
    rewrite <- Hb.
    destruct (err =? 0) eqn:He; simpl in Hr; simplify_eq.
    + split; [done|]. intros Hne. apply Z.eqb_eq in He. done.
    + split; [done|]. intros _.
      rewrite !app_assoc, last_snoc. eauto.
  - unfold cb_xfr_in_midi, prepare_cycle_in_midi in Hr.
    match type of Hr with
    | mbind _ ?m = _ => destruct m as [[e1 evs1]|] eqn:Hb; simpl in Hr; [|done]
    end.
    assert (Hst : status e1 = status engine).
    { repeat (case_match; simplify_option_eq); try done.
      by apply midi_in_loop_status in Hb. }
    unfold submit_transfer in Hr. rewrite <- Hst.
    destruct (err =? 0) eqn:He; simpl in Hr; simplify_eq.
    + split; [done|]. intros Hne. apply Z.eqb_eq in He. done.
    + split; [done|]. intros _. rewrite last_snoc. eauto.
  - unfold cb_xfr_out_midi in Hr. simplify_eq. done.
Qed.

End StatusWrites.

Lemma early_stopped_engine_ready : @io_ready mock early_stopped_engine.
Proof.
  apply (reachable_ready (mock_system 2)).
  - eapply sys_activated_ready. apply (mock_system_activated 2). lia.
  - apply after_run_reachable, reachable_start.
Qed.

Lemma wait_set_whatever_status_witness :
  status early_stopped_engine = OW_STATUS_STOP /\
  exists engine' evs,
    @sys_run mock
      [ACT_AUDIO (@env_ok mock []); ACT_AUDIO (@env_ok mock []);
       ACT_AUDIO (@env_ok mock [])]
      {| sys_engine := early_stopped_engine; sys_pc := PC_SPIN_READY |} =
    Some ({| sys_engine := engine'; sys_pc := PC_EVENT_LOOP |}, evs) /\
    status engine' = OW_STATUS_WAIT.
Proof.
  assert (Hst : status early_stopped_engine = OW_STATUS_STOP)
    by (vm_compute; reflexivity).
  split; [exact Hst|].
  destruct (@wait_set_whatever_status mock (@env_ok mock []) (@env_ok mock [])
              (@env_ok mock [])
              early_stopped_engine early_stopped_engine_ready)
    as (engine' & evs & Hrun & Hwait & _).
  - rewrite Hst. discriminate.
  - exists engine', evs. split; [exact Hrun|exact Hwait].
Defined.

Lemma run_engine_ready : @io_ready mock run_engine.
Proof.
  apply (reachable_ready (mock_system 2)).
  - eapply sys_activated_ready. apply (mock_system_activated 2). lia.
  - apply after_run_reachable, reachable_start.
Qed.

Lemma callback_status_witness :
  exists engine' evs,
    @run_completion mock (XFR_OUT (xfr_ok 0) 5) run_engine =
      Some (engine', evs) /\
    status engine' = OW_STATUS_ERROR.
Proof.
  destruct (@callback_status mock (XFR_OUT (xfr_ok 0) 5) run_engine
              run_engine_ready)
    as (engine' & evs & Hrun & Hst & _).
  - reflexivity.
  - exists engine', evs. split; [exact Hrun|exact Hst].
Defined.
(** ** The host to device path: what a cycle asks of the ring *)

Section OutCalls.

Context `{!externals}.

Implicit Types (engine : ow_engine) (desc : ow_device_desc).

(** X5: an out cycle of an activated engine never writes to a ring and
    reads at most once, from the host to device audio ring; as long as
    the fill level and the frame size fit an [int], the read asks for
    whole frames and for no more than the ring holds. *)
Theorem p2o_reads_whole_frames fresh desc blocks io (dll_arg : option dll) pt
  s0 engine engine' evs rs :
  sys_activated fresh desc blocks io dll_arg pt = Some s0 ->
  callback_entry s0 engine ->
  0 < inputs desc -> OB_BYTES_PER_SAMPLE * inputs desc <= INT_MAX ->
  0 <= OB_FRAMES_PER_BLOCK * blocks ->
  io_read_space engine P2O_AUDIO = Some rs -> rs <= INT_MAX ->
  set_usb_output_data_blks engine = Some (engine', evs) ->
  ev_writes evs = [] /\ (length (ev_reads evs) <= 1)%nat /\
  forall id dst n,
    EV_READ id dst n ∈ evs ->
    id = P2O_AUDIO /\ 0 <= n <= rs /\ n mod p2o_frame_size engine = 0.
Proof.
  intros Hact Hentry Hin Hfs Hfpt Hrs Hmax Hr.
  pose proof (callback_entry_inv _ _ _ _ _ _ _ _ Hact Hentry) as [Hinv _].
  destruct Hinv as (Hst & _ & _). parts_inj.
  pose proof (io_read_space_range _ _ _ Hrs) as Hrange.
  unfold set_usb_output_data_blks, p2o_resample in Hr.
  rewrite Hrs in Hr. simpl in Hr.
  assert (Hfloor :
    to_size_t (ow_bytes_to_frame_bytes (to_int rs)
                 (to_int (p2o_frame_size engine))) =
    rs / p2o_frame_size engine * p2o_frame_size engine).
  { apply ow_bytes_to_frame_bytes_floor; unfold OB_BYTES_PER_SAMPLE in *; lia. }
  assert (Hle : rs / p2o_frame_size engine * p2o_frame_size engine <= rs).
  { rewrite Z.mul_comm. apply Z.mul_div_le.
    unfold OB_BYTES_PER_SAMPLE in *; lia. }
  assert (Hpos : 0 <= rs / p2o_frame_size engine * p2o_frame_size engine).
  { apply Z.mul_nonneg_nonneg; [apply Z.div_pos|];
      unfold OB_BYTES_PER_SAMPLE in *; lia. }
  assert (Hsmall :
    to_size_t (rs / p2o_frame_size engine * p2o_frame_size engine) =
    rs / p2o_frame_size engine * p2o_frame_size engine).
  { apply to_size_t_small. lia. }
  assert (Hmod :
    (rs / p2o_frame_size engine * p2o_frame_size engine)
      mod p2o_frame_size engine = 0).
  { apply Z.mod_mul. unfold OB_BYTES_PER_SAMPLE in *; lia. }
  assert (Hts : p2o_transfer_size engine mod p2o_frame_size engine = 0).
  { replace (p2o_transfer_size engine)
      with (OB_FRAMES_PER_BLOCK * blocks * p2o_frame_size engine) by congruence.
    apply Z.mod_mul. unfold OB_BYTES_PER_SAMPLE in *; lia. }
  assert (Htpos : 0 <= p2o_transfer_size engine).
  { replace (p2o_transfer_size engine)
      with (OB_FRAMES_PER_BLOCK * blocks * p2o_frame_size engine) by congruence.
    apply Z.mul_nonneg_nonneg; unfold OB_BYTES_PER_SAMPLE in *; lia. }
  rewrite Hfloor in Hr.
  destruct (p2o_max_latency engine <? rs); simpl in Hr; rewrite Hsmall in Hr.
  all: clear Hrs; step_cases.
  all: split; [done|]; split; [simpl; lia|].
  all: intros id dst n Hin'.
  all: repeat (apply elem_of_cons in Hin' as [Hin'|Hin']; simplify_eq);
       try (by apply elem_of_nil in Hin').
  all: try (split; [done|]; split; [lia|done]).
Qed.

End OutCalls.

Lemma catch_up_engine_entry :
  @callback_entry mock (mock_system 2) catch_up_engine.
Proof.
  apply callback_entry_at_handle_events; [|vm_compute; reflexivity].
  apply after_run_reachable, reachable_start.
Qed.

Lemma p2o_reads_whole_frames_witness :
  exists engine' evs,
    @set_usb_output_data_blks mock catch_up_engine = Some (engine', evs) /\
    ev_writes evs = [] /\
    forall id dst n,
      EV_READ id dst n ∈ evs ->
      id = P2O_AUDIO /\ 0 <= n <= 120 /\
      n mod p2o_frame_size catch_up_engine = 0.
Proof.
  assert (Hrs : @io_read_space mock catch_up_engine P2O_AUDIO = Some 120)
    by (vm_compute; reflexivity).
  assert (Hsome : is_Some (@set_usb_output_data_blks mock catch_up_engine))
    by (apply (bool_decide_eq_true_1 _); vm_compute; reflexivity).
  destruct Hsome as [[engine' evs] Hr]. exists engine', evs.
  split; [exact Hr|].
  destruct (@p2o_reads_whole_frames mock blank_engine mock_desc 2 mock_io None
              threads_ok (mock_system 2) catch_up_engine engine' evs 120)
    as (Hw & _ & Hreads).
  - apply mock_system_activated. lia.
  - exact catch_up_engine_entry.
  - simpl. lia.
  - unfold OB_BYTES_PER_SAMPLE, INT_MAX. simpl. lia.
  - simpl. lia.
  - exact Hrs.
  - unfold INT_MAX. lia.
  - exact Hr.
  - split; [exact Hw|exact Hreads].
Defined.

(** ** The host to device path: the steady state and silence *)

Section OutBranches.

Context `{!externals}.

Implicit Types (engine : ow_engine) (desc : ow_device_desc).

(** X6: in the steady state with audio enabled and at least a transfer
    in the ring, the cycle makes one read of exactly [p2o_transfer_size]
    bytes into the transfer buffer, records the fill level it found as
    [p2o_latency] and raises [p2o_max_latency] to it, leaves the resampler
    alone and encodes the buffer it has just read. *)
Theorem p2o_steady_read engine engine' evs rs :
  reading_at_p2o_end engine = true ->
  p2o_audio_enabled engine <> 0 ->
  io_read_space engine P2O_AUDIO = Some rs ->
  p2o_transfer_size engine <= rs ->
  set_usb_output_data_blks engine = Some (engine', evs) ->
  let size := p2o_transfer_size engine in
  evs = [EV_READ P2O_AUDIO DST_BUF size] /\
  (exists io0 f r,
     io_buffers engine = Some io0 /\ read io0 = Some f /\
     p2o_audio io0 = Some r /\
     p2o_transfer_buf engine' =
       overwrite (p2o_transfer_buf engine)
         (take (Z.to_nat size) (f r DST_BUF size).1) /\
     engine_ring engine' P2O_AUDIO = Some (f r DST_BUF size).2) /\
  reading_at_p2o_end engine' = true /\
  p2o_latency engine' = rs /\
  p2o_max_latency engine' = Z.max (p2o_max_latency engine) rs /\
  p2o_resampler_buf engine' = p2o_resampler_buf engine /\
  p2o_data engine' = p2o_data engine /\
  usb_data_out engine' =
    out_blks_after (Z.to_nat (blocks_per_transfer engine))
      (set_p2o_transfer_buf (p2o_transfer_buf engine') engine).
Proof.
  intros Hreading Henabled Hrs Hfull Hr size.
  revert Hr. unfold set_usb_output_data_blks. rewrite Hrs. simpl.
  rewrite Hreading. simpl. unfold ow_engine_is_p2o_audio_enable.
  rewrite (proj2 (Z.eqb_neq _ _) Henabled).
  assert (Hmax :
    p2o_max_latency
      (if p2o_max_latency engine <? rs
       then set_p2o_max_latency rs (set_p2o_latency rs engine)
       else set_p2o_latency rs engine) = Z.max (p2o_max_latency engine) rs).
  { destruct (p2o_max_latency engine <? rs) eqn:Hlt; simpl.
    - apply Z.ltb_lt in Hlt. lia.
    - apply Z.ltb_ge in Hlt. lia. }
  destruct (p2o_max_latency engine <? rs); simpl in *;
    rewrite (proj2 (Z.leb_le _ _) Hfull);
    unfold io_read; simpl; fold size;
    (destruct (io_buffers engine) as [io0|] eqn:Hio; simpl; [|done]);
    (destruct (read io0) as [f|] eqn:Hf; simpl; [|done]);
    (destruct (p2o_audio io0) as [r|] eqn:Hring; simpl; [|done]);
    destruct (f r DST_BUF size) as [data r'] eqn:Hcall; simpl;
    intros ?; simplify_eq; rewrite set_blocks_eq; simpl;
    (split; [done|]); (split; [exists io0, f, r; rewrite Hcall; done|]);
    done.
Qed.

Lemma cell4_zeros (N k : nat) :
  (4 * k + 4 <= N)%nat -> cell4 (replicate N 0) k = [0; 0; 0; 0].
Proof.
  intros Hk. unfold cell4. rewrite drop_replicate, take_replicate.
  replace (4 `min` (N - 4 * k))%nat with 4%nat by lia. done.
Qed.

(** The encoding loop turns a clear transfer buffer into silence. *)
Lemma out_blks_after_silence desc blocks engine j idx :
  engine_inv desc blocks engine -> p2o_buf_clear engine ->
  (j < Z.to_nat blocks)%nat -> (idx < blk_samples (inputs desc))%nat ->
  exists blk,
    out_blks_after (Z.to_nat blocks) engine !! j = Some blk /\
    blk_data blk !! idx = Some silence_word.
Proof.
  intros (Hst & Hh & Hl) Hclear Hj Hidx. parts_inj.
  assert (Hlen : length (usb_data_out engine) = Z.to_nat blocks).
  { unfold out_headers in Hh.
    apply (f_equal length) in Hh.
    by rewrite length_fmap, length_replicate in Hh. }
  destruct (lookup_lt_is_Some_2 (usb_data_out engine) j) as [blk0 Hblk0];
    [lia|].
  unfold out_blks_after. rewrite list_lookup_imap, Hblk0. simpl.
  rewrite decide_True by done. eexists. split; [reflexivity|].
  unfold encoded_blk, encode_blk_data. simpl.
  replace (inputs (device_desc engine)) with (inputs desc) by congruence.
  rewrite lookup_app_l by (by rewrite length_fmap, length_seq).
  rewrite list_lookup_fmap, lookup_seq_lt by done. simpl.
  unfold silence_word. do 3 f_equal.
  rewrite Hclear. apply cell4_zeros.
  unfold blk_samples in *.
  replace (p2o_transfer_size engine)
    with (OB_FRAMES_PER_BLOCK * blocks * (OB_BYTES_PER_SAMPLE * inputs desc))
    by congruence.
  unfold OB_BYTES_PER_SAMPLE.
  assert (0 < OB_FRAMES_PER_BLOCK) by nia.
  assert (0 < inputs desc) by nia.
  assert (0 < blocks) by lia.
  rewrite !Z2Nat.inj_mul by lia.
  change (Z.to_nat 4) with 4%nat. nia.
Qed.

(** X7: while the engine is catching up, and in the cycle in which it
    finds audio disabled, the device is sent silence: the transfer buffer
    is clear when the encoding loop runs, so every sample word of every
    block is the word of [0.0f].  The cycle that finds audio disabled
    also clears [reading_at_p2o_end] and calls no ring. *)
Theorem p2o_silence_when_not_streaming fresh desc blocks io
  (dll_arg : option dll) pt s0 engine engine' evs :
  sys_activated fresh desc blocks io dll_arg pt = Some s0 ->
  callback_entry s0 engine ->
  reading_at_p2o_end engine = false \/ p2o_audio_enabled engine = 0 ->
  set_usb_output_data_blks engine = Some (engine', evs) ->
  p2o_buf_clear engine' /\
  (p2o_audio_enabled engine = 0 ->
   reading_at_p2o_end engine' = false /\ ev_reads evs = [] /\
   io_buffers engine' = io_buffers engine) /\
  forall j idx,
    (j < Z.to_nat blocks)%nat -> (idx < blk_samples (inputs desc))%nat ->
    exists blk,
      usb_data_out engine' !! j = Some blk /\
      blk_data blk !! idx = Some silence_word.
Proof.
  intros Hact Hentry Hcase Hr.
  pose proof (callback_entry_inv _ _ _ _ _ _ _ _ Hact Hentry) as [Hinv Hclear].
  assert (Hshape : exists e1,
    engine' = set_blocks e1 /\ engine_inv desc blocks e1 /\ p2o_buf_clear e1 /\
    (p2o_audio_enabled engine = 0 ->
     reading_at_p2o_end e1 = false /\ ev_reads evs = [] /\
     io_buffers e1 = io_buffers engine)).
  { unfold set_usb_output_data_blks in Hr.
    destruct (io_read_space engine P2O_AUDIO) as [rs|]; simpl in Hr; [|done].
    unfold ow_engine_is_p2o_audio_enable in Hr.
    destruct (reading_at_p2o_end engine) eqn:Hre; simpl in Hr.
    - destruct Hcase as [?|Hoff]; [done|]. rewrite Hoff in Hr. simpl in Hr.
      simplify_eq. eexists. split; [reflexivity|].
      destruct Hinv as (Hst & Hh & Hl).
      split; [|split].
      + split; [exact Hst|]. split; [exact Hh|]. simpl.
        rewrite memset0_all by done. apply length_replicate.
      + unfold p2o_buf_clear. simpl. by apply memset0_all.
      + done.
    - specialize (Hclear Hre).
      destruct (negb (p2o_audio_enabled engine =? 0) &&
                (p2o_transfer_size engine <=? rs)) eqn:Hcond.
      + destruct (io_read engine P2O_AUDIO DST_NULL _) as [[data e0]|] eqn:Hio;
          simpl in Hr; [|done].
        apply io_read_inv in Hio as (io' & -> & _). simplify_eq.
        eexists. split; [reflexivity|]. split; [exact Hinv|].
        split; [exact Hclear|]. intros Hoff. rewrite Hoff in Hcond. done.
      + simplify_eq. eexists. split; [reflexivity|]. split; [exact Hinv|].
        split; [exact Hclear|]. done. }
  destruct Hshape as (e1 & -> & Hinv1 & Hclear1 & Hoff).
  destruct (set_blocks_parts e1) as (Hs & Hp & _ & Hout).
  split; [|split].
  - unfold p2o_buf_clear in *. parts_inj. congruence.
  - intros Hz. destruct (Hoff Hz) as (Hre & Hev & Hio).
    rewrite set_blocks_eq. simpl. parts_inj. done.
  - intros j idx Hj Hidx. rewrite Hout.
    replace (blocks_per_transfer e1) with blocks
      by (destruct Hinv1 as (Hst & _); parts_inj; congruence).
    by eapply out_blks_after_silence.
Qed.

End OutBranches.

Lemma p2o_steady_read_witness :
  exists engine',
    @set_usb_output_data_blks mock steady_engine =
      Some (engine', [EV_READ P2O_AUDIO DST_BUF 112]) /\
    p2o_latency engine' = 120.
Proof.
  assert (Hre : reading_at_p2o_end steady_engine = true)
    by (vm_compute; reflexivity).
  assert (Hen : p2o_audio_enabled steady_engine = 1)
    by (vm_compute; reflexivity).
  assert (Hrs : @io_read_space mock steady_engine P2O_AUDIO = Some 120)
    by (vm_compute; reflexivity).
  assert (Hts : p2o_transfer_size steady_engine = 112)
    by (vm_compute; reflexivity).
  assert (Hsome : is_Some (@set_usb_output_data_blks mock steady_engine))
    by (apply (bool_decide_eq_true_1 _); vm_compute; reflexivity).
  destruct Hsome as [[engine' evs] Hr]. exists engine'.
  destruct (@p2o_steady_read mock steady_engine engine' evs 120 Hre)
    as (Hevs & _ & _ & Hlat & _).
  - rewrite Hen. discriminate.
  - exact Hrs.
  - rewrite Hts. lia.
  - exact Hr.
  - rewrite Hts in Hevs. rewrite <- Hevs. split; [exact Hr|exact Hlat].
Defined.

Lemma p2o_silence_when_not_streaming_witness :
  exists engine' evs blk,
    @set_usb_output_data_blks mock disabled_engine = Some (engine', evs) /\
    reading_at_p2o_end engine' = false /\
    usb_data_out engine' !! 1%nat = Some blk /\
    blk_data blk !! 13%nat = Some [0; 0; 0; 0].
Proof.
  assert (Hentry : @callback_entry mock (mock_system 2) disabled_engine).
  { apply callback_entry_at_handle_events; [|vm_compute; reflexivity].
    apply after_run_reachable, reachable_start. }
  assert (Hoff : p2o_audio_enabled disabled_engine = 0)
    by (vm_compute; reflexivity).
  assert (Hsome : is_Some (@set_usb_output_data_blks mock disabled_engine))
    by (apply (bool_decide_eq_true_1 _); vm_compute; reflexivity).
  destruct Hsome as [[engine' evs] Hr].
  destruct (@p2o_silence_when_not_streaming mock blank_engine mock_desc 2
              mock_io None threads_ok (mock_system 2) disabled_engine engine'
              evs)
    as (_ & Hflag & Hwords).
  - apply mock_system_activated. lia.
  - exact Hentry.
  - right. exact Hoff.
  - exact Hr.
  - destruct (Hwords 1%nat 13%nat) as (blk & Hblk & Hword).
    + simpl. lia.
    + vm_compute. lia.
    + exists engine', evs, blk. split; [exact Hr|].
      split; [exact (proj1 (Hflag Hoff))|]. split; [exact Hblk|exact Hword].
Defined.
(** ** The two directions do not interfere *)

Section Sides.

Context `{!externals}.

Implicit Types (engine : ow_engine) (io : ow_io_buffers).

Lemma ring_handle_set_other io id id' (r : ring) :
  id' <> id -> ring_handle (set_ring_handle id r io) id' = ring_handle io id'.
Proof. by destruct id, id'. Qed.

Lemma io_read_ring engine id dst n data engine' :
  io_read engine id dst n = Some (data, engine') ->
  exists io r',
    io_buffers engine = Some io /\
    engine' = set_io_buffers (Some (set_ring_handle id r' io)) engine.
Proof.
  unfold io_read. intros Hr. simplify_option_eq. case_match. simplify_eq.
  eauto.
Qed.

Lemma io_write_ring engine id src n engine' :
  io_write engine id src n = Some engine' ->
  exists io r',
    io_buffers engine = Some io /\
    engine' = set_io_buffers (Some (set_ring_handle id r' io)) engine.
Proof. unfold io_write. intros Hr. simplify_option_eq. eauto. Qed.

End Sides.

Ltac io_ring_inv :=
  repeat match goal with
  | H : io_read _ _ _ _ = Some _ |- _ =>
    apply io_read_ring in H as (? & ? & ? & ->)
  | H : io_write _ _ _ _ = Some _ |- _ =>
    apply io_write_ring in H as (? & ? & ? & ->)
  end.

Ltac ring_cases :=
  repeat (simplify_option_eq; io_ring_inv; try case_match).

Ltac sides_done :=
  unfold p2o_side, o2p_audio_side, o2p_midi_side, settings, static_part,
    io_funs, engine_ring in *;
  simpl in *;
  repeat match goal with
  | H : io_buffers _ = Some _ |- _ => rewrite H; clear H
  end;
  simpl; try done.

Section SidesSteps.

Context `{!externals}.

Implicit Types (engine : ow_engine) (io : ow_io_buffers).

Lemma submit_transfer_sides what err engine :
  p2o_side (submit_transfer what err engine).1 = p2o_side engine /\
  o2p_audio_side (submit_transfer what err engine).1 = o2p_audio_side engine /\
  o2p_midi_side (submit_transfer what err engine).1 = o2p_midi_side engine /\
  settings (submit_transfer what err engine).1 = settings engine /\
  p2o_midi_ready (submit_transfer what err engine).1 = p2o_midi_ready engine.
Proof. unfold submit_transfer. by case_match. Qed.

Lemma in_cycle_sides engine engine' evs :
  set_usb_input_data_blks engine = Some (engine', evs) ->
  p2o_side engine' = p2o_side engine /\
  o2p_midi_side engine' = o2p_midi_side engine /\
  settings engine' = settings engine /\
  p2o_midi_ready engine' = p2o_midi_ready engine /\
  usb_data_in engine' = usb_data_in engine.
Proof.
  unfold set_usb_input_data_blks. intros Hr. ring_cases; sides_done.
Qed.

Lemma out_cycle_sides engine engine' evs :
  set_usb_output_data_blks engine = Some (engine', evs) ->
  o2p_audio_side engine' = o2p_audio_side engine /\
  o2p_midi_side engine' = o2p_midi_side engine /\
  settings engine' = settings engine /\
  p2o_midi_ready engine' = p2o_midi_ready engine /\
  engine_ring engine' P2O_MIDI = engine_ring engine P2O_MIDI.
Proof.
  unfold set_usb_output_data_blks, p2o_resample. intros Hr.
  ring_cases; rewrite set_blocks_eq; sides_done.
Qed.

Lemma midi_in_loop_sides fuel time actual len engine evs engine' evs' :
  midi_in_loop fuel time actual len engine evs = Some (engine', evs') ->
  p2o_side engine' = p2o_side engine /\
  o2p_audio_side engine' = o2p_audio_side engine /\
  settings engine' = settings engine /\
  p2o_midi_ready engine' = p2o_midi_ready engine /\
  o2p_midi_data engine' = o2p_midi_data engine.
Proof.
  revert len engine evs. induction fuel as [|fuel IH]; intros len engine evs;
    simpl.
  - case_match; [done|]. intros; by simplify_eq.
  - intros Hr. repeat (case_match; simplify_option_eq; io_ring_inv); try done.
    + apply IH in Hr as (-> & -> & -> & -> & ->). sides_done.
    + by apply IH in Hr.
    + by apply IH in Hr.
Qed.

End SidesSteps.

Section SidesCallbacks.

Context `{!externals}.

Implicit Types (engine : ow_engine) (io : ow_io_buffers).

Lemma submit_transfer_sides_eq what err engine engine' evs :
  submit_transfer what err engine = (engine', evs) ->
  p2o_side engine' = p2o_side engine /\
  o2p_audio_side engine' = o2p_audio_side engine /\
  o2p_midi_side engine' = o2p_midi_side engine /\
  settings engine' = settings engine /\
  p2o_midi_ready engine' = p2o_midi_ready engine.
Proof.
  intros Hs. pose proof (submit_transfer_sides what err engine) as Hq.
  by rewrite Hs in Hq.
Qed.

Lemma run_completion_sides c engine engine' evs :
  run_completion c engine = Some (engine', evs) ->
  settings engine' = settings engine /\
  match c with
  | XFR_IN _ blks _ =>
    p2o_side engine' = p2o_side engine /\
    o2p_midi_side engine' = o2p_midi_side engine /\
    p2o_midi_ready engine' = p2o_midi_ready engine /\
    usb_data_in engine' = blks
  | XFR_OUT _ _ =>
    o2p_audio_side engine' = o2p_audio_side engine /\
    o2p_midi_side engine' = o2p_midi_side engine /\
    p2o_midi_ready engine' = p2o_midi_ready engine /\
    engine_ring engine' P2O_MIDI = engine_ring engine P2O_MIDI
  | XFR_IN_MIDI _ bytes _ =>
    p2o_side engine' = p2o_side engine /\
    o2p_audio_side engine' = o2p_audio_side engine /\
    p2o_midi_ready engine' = p2o_midi_ready engine /\
    o2p_midi_data engine' = bytes
  | XFR_OUT_MIDI _ =>
    p2o_side engine' = p2o_side engine /\
    o2p_audio_side engine' = o2p_audio_side engine /\
    o2p_midi_side engine' = o2p_midi_side engine /\
    p2o_midi_ready engine' = true
  end.
Proof.
  destruct c; simpl; intros Hr.
  - unfold cb_xfr_in, prepare_cycle_in in Hr.
    match type of Hr with
    | mbind _ ?m = _ => destruct m as [[e1 evs1]|] eqn:Hb; simpl in Hr; [|done]
    end.
    destruct (submit_transfer _ err e1) as [e2 evs2] eqn:Hp. simplify_eq.
    apply submit_transfer_sides_eq in Hp as (Hp1 & Hp2 & Hp3 & Hp4 & Hp5).
    rewrite Hp1, Hp3, Hp4, Hp5.
    replace (usb_data_in engine') with (usb_data_in e1)
      by (unfold o2p_audio_side in Hp2; congruence).
    destruct (decide _); simplify_eq; [|done].
    apply in_cycle_sides in Hb as (-> & -> & -> & -> & ->). done.
  - unfold cb_xfr_out, prepare_cycle_out in Hr.
    destruct (set_usb_output_data_blks engine) as [[e1 evs1]|] eqn:Hb;
      simpl in Hr; [|done].
    destruct (submit_transfer _ err e1) as [e2 evs2] eqn:Hp. simplify_eq.
    apply submit_transfer_sides_eq in Hp as (Hp1 & Hp2 & Hp3 & Hp4 & Hp5).
    rewrite Hp2, Hp3, Hp4, Hp5.
    replace (engine_ring engine' P2O_MIDI) with (engine_ring e1 P2O_MIDI)
      by (unfold p2o_side in Hp1; congruence).
    apply out_cycle_sides in Hb as (-> & -> & -> & -> & ->). done.
  - unfold cb_xfr_in_midi, prepare_cycle_in_midi in Hr.
    match type of Hr with
    | mbind _ ?m = _ => destruct m as [[e1 evs1]|] eqn:Hb; simpl in Hr; [|done]
    end.
    destruct (submit_transfer _ err e1) as [e2 evs2] eqn:Hp. simplify_eq.
    apply submit_transfer_sides_eq in Hp as (Hp1 & Hp2 & Hp3 & Hp4 & Hp5).
    rewrite Hp1, Hp2, Hp4, Hp5.
    replace (o2p_midi_data engine') with (o2p_midi_data e1)
      by (unfold o2p_midi_side in Hp3; congruence).
    repeat (case_match; simplify_option_eq); try done.
    apply midi_in_loop_sides in Hb as (-> & -> & -> & -> & ->). done.
  - unfold cb_xfr_out_midi in Hr. by simplify_eq.
Qed.

(** X8: each completion callback keeps to its own direction.  The
    callbacks of the device to host audio and MIDI transfers touch no
    field of the host to device path (the block counter, the out buffer,
    the transfer and resampler buffers, the phase flag, the latencies, the
    two host to device rings); [cb_xfr_out] touches nothing of the device
    to host paths (the in buffer, [o2p_transfer_buf], the DLL, the MIDI-in
    buffer, the two device to host rings); only [cb_xfr_out_midi] writes
    [p2o_midi_ready], and it writes nothing else; and none of them changes
    the sizes, the descriptor, the MIDI flag or [p2o_audio_enabled]. *)
Theorem callbacks_keep_to_their_path c engine :
  io_ready engine ->
  (midi engine = false -> is_xfr_in_midi c = false) ->
  exists engine' evs,
    run_completion c engine = Some (engine', evs) /\
    settings engine' = settings engine /\
    match c with
    | XFR_IN _ blks _ =>
      p2o_side engine' = p2o_side engine /\
      o2p_midi_side engine' = o2p_midi_side engine /\
      p2o_midi_ready engine' = p2o_midi_ready engine /\
      usb_data_in engine' = blks
    | XFR_OUT _ _ =>
      o2p_audio_side engine' = o2p_audio_side engine /\
      o2p_midi_side engine' = o2p_midi_side engine /\
      p2o_midi_ready engine' = p2o_midi_ready engine /\
      engine_ring engine' P2O_MIDI = engine_ring engine P2O_MIDI
    | XFR_IN_MIDI _ bytes _ =>
      p2o_side engine' = p2o_side engine /\
      o2p_audio_side engine' = o2p_audio_side engine /\
      p2o_midi_ready engine' = p2o_midi_ready engine /\
      o2p_midi_data engine' = bytes
    | XFR_OUT_MIDI _ =>
      p2o_side engine' = p2o_side engine /\
      o2p_audio_side engine' = o2p_audio_side engine /\
      o2p_midi_side engine' = o2p_midi_side engine /\
      p2o_midi_ready engine' = true
    end.
Proof.
  intros Hready Hc.
  destruct (run_completion_defined c engine Hready Hc) as [[e' evs] Hr].
  exists e', evs. split; [done|]. by eapply run_completion_sides.
Qed.

End SidesCallbacks.

Lemma callbacks_keep_to_their_path_witness :
  exists engine' evs,
    @run_completion mock
      (XFR_IN (xfr_ok 0) (replicate 2 (@zero_blk mock 4)) 0) run_engine =
      Some (engine', evs) /\
    p2o_side engine' = p2o_side run_engine.
Proof.
  destruct (@callbacks_keep_to_their_path mock
              (XFR_IN (xfr_ok 0) (replicate 2 (@zero_blk mock 4)) 0) run_engine
              run_engine_ready)
    as (engine' & evs & Hrun & _ & Hside & _).
  - reflexivity.
  - exists engine', evs. split; [exact Hrun|exact Hside].
Defined.

(** ** The latency fields *)

Section Latency.

Context `{!externals}.

Implicit Types (engine : ow_engine) (io : ow_io_buffers).

Lemma p2o_side_latency engine engine' :
  p2o_side engine' = p2o_side engine -> latency_ok engine ->
  latency_ok engine'.
Proof.
  unfold p2o_side, latency_ok. intros Hs. injection Hs as _ _ _ _ _ _ -> -> _ _.
  done.
Qed.

Lemma out_cycle_latency engine engine' evs :
  latency_ok engine -> set_usb_output_data_blks engine = Some (engine', evs) ->
  latency_ok engine'.
Proof.
  unfold latency_ok. intros Hok Hr.
  unfold set_usb_output_data_blks, p2o_resample in Hr.
  destruct (io_read_space engine P2O_AUDIO) as [rs|] eqn:Hrs; simpl in Hr;
    [|done].
  pose proof (io_read_space_range _ _ _ Hrs) as Hrange. clear Hrs.
  destruct (p2o_max_latency engine <? rs) eqn:Hlt;
    [apply Z.ltb_lt in Hlt|apply Z.ltb_ge in Hlt].
  all: step_cases; rewrite set_blocks_eq; simpl; lia.
Qed.

Lemma run_completion_latency c engine engine' evs :
  latency_ok engine -> run_completion c engine = Some (engine', evs) ->
  latency_ok engine'.
Proof.
  intros Hok Hr. destruct c.
  - apply run_completion_sides in Hr as (_ & Hs & _).
    by eapply p2o_side_latency.
  - simpl in Hr. unfold cb_xfr_out, prepare_cycle_out in Hr.
    destruct (set_usb_output_data_blks engine) as [[e1 evs1]|] eqn:Hb;
      simpl in Hr; [|done].
    destruct (submit_transfer _ err e1) as [e2 evs2] eqn:Hp. simplify_eq.
    apply submit_transfer_sides_eq in Hp as (Hp1 & _).
    eapply p2o_side_latency; [exact Hp1|]. by eapply out_cycle_latency.
  - apply run_completion_sides in Hr as (_ & Hs & _).
    by eapply p2o_side_latency.
  - apply run_completion_sides in Hr as (_ & Hs & _).
    by eapply p2o_side_latency.
Qed.

Lemma handle_events_latency cs engine engine' evs :
  latency_ok engine ->
  libusb_handle_events_completed cs engine = Some (engine', evs) ->
  latency_ok engine'.
Proof.
  revert engine evs. induction cs as [|c cs IH]; intros engine evs Hok; simpl;
    intros Hr.
  - by simplify_eq.
  - destruct (run_completion c engine) as [[e1 evs1]|] eqn:Hc;
      simpl in Hr; [|done].
    destruct (libusb_handle_events_completed cs e1) as [[e2 evs2]|] eqn:Hcs;
      simpl in Hr; [|done].
    simplify_eq. eapply IH; [|exact Hcs]. by eapply run_completion_latency.
Qed.

Lemma sys_step_latency a s s' evs :
  latency_inv s -> sys_step a s = Some (s', evs) -> latency_inv s'.
Proof.
  unfold latency_inv. intros Hinv Hs.
  destruct a as [h|env|err]; simpl in Hs.
  - simplify_eq. simpl.
    assert (Hl : p2o_latency (host_step h (sys_engine s)) =
                 p2o_latency (sys_engine s) /\
                 p2o_max_latency (host_step h (sys_engine s)) =
                 p2o_max_latency (sys_engine s)).
    { clear Hinv. destruct h; simpl; try done.
      - unfold ow_engine_set_p2o_audio_enable. by case_match.
      - by case_match. }
    unfold latency_ok in *. destruct Hl as [-> ->]. done.
  - destruct (run_audio_o2p_midi env (sys_pc s) (sys_engine s))
      as [[[pc e1] evs1]|] eqn:Ht; simpl in Hs; [|done].
    simplify_eq. simpl.
    destruct (sys_pc s); simpl in Ht.
    + case_match; by simplify_eq.
    + destruct (prepare_cycle_in _ _) as [e2 evs2].
      destruct (prepare_cycle_out _ _) as [e3 evs3].
      destruct (if midi e3 then _ else _) as [e4 evs4]. by simplify_eq.
    + step_cases; unfold latency_ok; simpl; lia.
    + case_match; by simplify_eq.
    + destruct (libusb_handle_events_completed (completed env) (sys_engine s))
        as [[e2 evs2]|] eqn:Hh; simpl in Ht; [|done].
      simplify_eq. by eapply handle_events_latency.
    + case_match; by simplify_eq.
    + unfold ow_engine_set_status in Ht. step_cases; done.
    + by simplify_eq.
  - unfold p2o_midi_send, prepare_cycle_out_midi in Hs.
    destruct (submit_transfer _ err _) as [e1 evs1] eqn:Hp. simplify_eq.
    simpl. apply submit_transfer_sides_eq in Hp as (Hp1 & _).
    destruct (sys_pc s); try done; by eapply p2o_side_latency.
Qed.

(** X9: [p2o_max_latency] is a running maximum.  From the first pass of
    the audio thread through line 796 on, in every state of an activated
    engine and at the entry of every callback, [p2o_latency] is between
    0 and [p2o_max_latency]; and a steady-state out cycle with audio
    enabled, whether it finds a full transfer or not, sets [p2o_latency]
    to the fill level it found and [p2o_max_latency] to the larger of the
    two. *)
Theorem latency_running_maximum fresh desc blocks io (dll_arg : option dll) pt
  s0 :
  sys_activated fresh desc blocks io dll_arg pt = Some s0 ->
  (forall s, reachable s0 s -> latency_inv s) /\
  (forall engine, callback_entry s0 engine -> latency_ok engine) /\
  (forall engine engine' evs rs,
     reading_at_p2o_end engine = true -> p2o_audio_enabled engine <> 0 ->
     io_read_space engine P2O_AUDIO = Some rs ->
     set_usb_output_data_blks engine = Some (engine', evs) ->
     p2o_latency engine' = rs /\
     p2o_max_latency engine' = Z.max (p2o_max_latency engine) rs).
Proof.
  intros Hact.
  assert (Hall : forall s, reachable s0 s -> latency_inv s).
  { induction 1 as [|s a s' evs _ IH Hs].
    - apply sys_activated_inv in Hact as (_ & _ & Hpc).
      unfold latency_inv. by rewrite Hpc.
    - by eapply sys_step_latency. }
  split; [exact Hall|]. split.
  - intros engine [s cs e evs Hreach Hpc Hh].
    eapply handle_events_latency; [|exact Hh].
    specialize (Hall s Hreach). unfold latency_inv in Hall.
    by rewrite Hpc in Hall.
  - intros engine engine' evs rs Hre Hen Hrs Hr.
    unfold set_usb_output_data_blks, p2o_resample in Hr.
    rewrite Hrs in Hr. simpl in Hr. rewrite Hre in Hr. simpl in Hr.
    unfold ow_engine_is_p2o_audio_enable in Hr.
    rewrite (proj2 (Z.eqb_neq _ _) Hen) in Hr. clear Hrs.
    destruct (p2o_max_latency engine <? rs) eqn:Hlt;
      [apply Z.ltb_lt in Hlt|apply Z.ltb_ge in Hlt].
    all: step_cases; rewrite set_blocks_eq; simpl; lia.
Qed.

End Latency.

Lemma latency_running_maximum_witness : @latency_ok mock steady_engine.
Proof.
  refine (proj1 (proj2 (@latency_running_maximum mock blank_engine mock_desc 2
                          mock_io None threads_ok (mock_system 2) _)) _ _).
  - apply mock_system_activated. lia.
  - apply callback_entry_at_handle_events; [|vm_compute; reflexivity].
    apply after_run_reachable, reachable_start.
Defined.
(** ** Byte order on the wire *)

Lemma to_int_to_uint32 (x : Z) : to_int (to_uint32 x) = to_int x.
Proof.
  unfold to_int, to_uint32.
  rewrite Zplus_mod_idemp_l. reflexivity.
Qed.

Lemma to_uint32_to_int (x : Z) : to_uint32 (to_int x) = to_uint32 x.
Proof.
  unfold to_int, to_uint32.
  rewrite Zminus_mod_idemp_l.
  replace (x + 2 ^ 31 - 2 ^ 31) with x by lia. reflexivity.
Qed.

Lemma be32toh_htobe32 (x : Z) : be32toh (htobe32 x) = to_int x.
Proof.
  unfold be32toh, htobe32. rewrite <- (to_int_to_uint32 x).
  assert (Hr : 0 <= to_uint32 x < 2 ^ 32)
    by (unfold to_uint32; apply Z.mod_pos_bound; lia).
  f_equal. generalize dependent (to_uint32 x). intros u Hu.
  Z.div_mod_to_equations. lia.
Qed.

Lemma htobe32_be32toh (b3 b2 b1 b0 : Z) :
  0 <= b3 < 256 -> 0 <= b2 < 256 -> 0 <= b1 < 256 -> 0 <= b0 < 256 ->
  htobe32 (be32toh [b3; b2; b1; b0]) = [b3; b2; b1; b0].
Proof.
  intros H3 H2 H1 H0. unfold be32toh, htobe32. rewrite to_uint32_to_int.
  assert (Hu : to_uint32 (b3 * 16777216 + b2 * 65536 + b1 * 256 + b0) =
               b3 * 16777216 + b2 * 65536 + b1 * 256 + b0).
  { unfold to_uint32. apply Z.mod_small. lia. }
  rewrite Hu. repeat f_equal; Z.div_mod_to_equations; lia.
Qed.

Section Codec.

Context `{!externals}.

Implicit Types (engine : ow_engine).

(** X10: samples cross the wire in big-endian order and the two loops
    agree on it.  [htobe32] and [be32toh] are inverse to each other
    between the 32-bit integers and the words of four bytes, and a block
    that the encoding loop of [set_usb_output_data_blks] has filled
    decodes, by the loop of [set_usb_input_data_blks], to the integer
    samples that were encoded into it, in order. *)
Theorem wire_round_trip engine j blk :
  (j < Z.to_nat (blocks_per_transfer engine))%nat ->
  usb_data_out (set_blocks engine) !! j = Some blk ->
  (forall x, be32toh (htobe32 x) = to_int x) /\
  (forall b3 b2 b1 b0,
     0 <= b3 < 256 -> 0 <= b2 < 256 -> 0 <= b1 < 256 -> 0 <= b0 < 256 ->
     htobe32 (be32toh [b3; b2; b1; b0]) = [b3; b2; b1; b0]) /\
  decode_blk_data (inputs (device_desc engine)) blk =
    mjoin
      ((fun idx =>
          int32_to_sample
            (to_int
               (sample_to_int32
                  (cell4 (p2o_transfer_buf engine)
                     (j * blk_samples (inputs (device_desc engine)) + idx)))))
       <$> seq 0 (blk_samples (inputs (device_desc engine)))).
Proof.
  intros Hj Hblk.
  split; [exact be32toh_htobe32|]. split; [exact htobe32_be32toh|].
  destruct (set_blocks_parts engine) as (_ & _ & _ & Hout).
  rewrite Hout in Hblk. unfold out_blks_after in Hblk.
  rewrite list_lookup_imap in Hblk.
  destruct (usb_data_out engine !! j) as [blk0|]; [|done]. simpl in Hblk.
  rewrite decide_True in Hblk by done. simplify_eq.
  unfold decode_blk_data, encoded_blk, encode_blk_data. simpl. f_equal.
  apply list_fmap_ext. intros i idx Hidx.
  apply lookup_seq in Hidx as [-> Hlt]. simpl.
  rewrite lookup_app_l by (by rewrite length_fmap, length_seq).
  rewrite list_lookup_fmap, lookup_seq_lt by done.
  rewrite <- be32toh_htobe32. reflexivity.
Qed.

End Codec.

Lemma wire_round_trip_witness :
  exists blk,
    usb_data_out (@set_blocks mock streaming_engine) !! 1%nat = Some blk /\
    @decode_blk_data mock 2 blk = replicate 56 64.
Proof.
  assert (Hsome : is_Some (usb_data_out (@set_blocks mock streaming_engine)
                           !! 1%nat))
    by (apply (bool_decide_eq_true_1 _); vm_compute; reflexivity).
  destruct Hsome as [blk Hblk]. exists blk. split; [exact Hblk|].
  destruct (@wire_round_trip mock streaming_engine 1 blk) as (_ & _ & Hdec).
  - vm_compute. lia.
  - exact Hblk.
  - etrans; [exact Hdec|]. vm_compute. reflexivity.
Defined.
(** ** MIDI to the device *)

Lemma take_take_small {A : Type} (l : list A) (n m : nat) :
  (n <= m)%nat -> take n (take m l) = take n l.
Proof. intros Hle. rewrite take_take. f_equal. lia. Qed.

Ltac locals_simpl :=
  cbn [pos event_read midi_event last_time diff p2o_midi_data set_pos
       set_event_read set_midi_event set_last_time set_diff set_p2o_midi_data]
    in *.

Section MidiOut.

Context `{!externals}.

Variable event_time : list uint8 -> float.
Variable event_bytes : list uint8 -> list uint8.

Hypothesis event_bytes_size :
  forall mem, (Z.to_nat OB_MIDI_EVENT_SIZE <= length (event_bytes mem))%nat.

Implicit Types (engine : ow_engine) (io : ow_io_buffers) (l : p2o_midi_locals).

Lemma set_p2o_midi_same io (r : ring) :
  p2o_midi io = Some r -> set_p2o_midi (Some r) io = io.
Proof. destruct io. simpl. by intros ->. Qed.

Lemma length_memcpy_at (buf src : list Z) (at_ : Z) :
  0 <= at_ -> (Z.to_nat at_ + length src <= length buf)%nat ->
  length (memcpy_at buf at_ src) = length buf.
Proof.
  intros Hat Hlen. unfold memcpy_at.
  rewrite !length_app, length_take, length_drop. lia.
Qed.

Lemma drop_memcpy_at (buf src : list Z) (at_ : Z) :
  0 <= at_ -> (Z.to_nat at_ + length src <= length buf)%nat ->
  drop (Z.to_nat at_ + length src) (memcpy_at buf at_ src) =
  drop (Z.to_nat at_ + length src) buf.
Proof.
  intros Hat Hlen. unfold memcpy_at.
  rewrite drop_app_ge by (rewrite length_take; lia).
  rewrite length_take.
  replace (Z.to_nat at_ + length src - Z.to_nat at_ `min` length buf)%nat
    with (length src) by lia.
  by rewrite drop_app_length.
Qed.

(** The inner loop terminates, keeps the layout of the batch, and
    neither drops nor invents an event: each read adds one to the events
    the thread holds. *)
Lemma p2o_midi_fill_spec io f_rs f_r :
  read_space io = Some f_rs -> read io = Some f_r ->
  forall fuel l engine evs (r : ring),
    batch_inv l ->
    (Z.to_nat ((USB_BULK_MIDI_SIZE - pos l) / OB_MIDI_EVENT_SIZE) < fuel)%nat ->
    io_buffers engine = Some (set_p2o_midi (Some r) io) ->
    exists l' r' reads,
      p2o_midi_fill event_time event_bytes fuel l engine evs =
        Some (l',
              set_io_buffers (Some (set_p2o_midi (Some r') io)) engine,
              evs ++
              replicate reads
                (EV_READ P2O_MIDI DST_BUF sizeof_ow_midi_event)) /\
      batch_inv l' /\ pos l <= pos l' /\
      events_held l' = events_held l + Z.of_nat reads /\
      (0 < pos l -> take (Z.to_nat (pos l)) (p2o_midi_data l') =
                    take (Z.to_nat (pos l)) (p2o_midi_data l)) /\
      (pos l' = pos l -> event_read l = true -> midi_event l' = midi_event l).
Proof.
  intros Hrs Hr. unfold USB_BULK_MIDI_SIZE, OB_MIDI_EVENT_SIZE.
  induction fuel as [|fuel IH]; intros l engine evs r Hinv Hfuel Hio; [lia|].
  simpl. unfold USB_BULK_MIDI_SIZE, OB_MIDI_EVENT_SIZE.
  unfold io_read_space. rewrite Hio. simpl. rewrite Hrs. simpl.
  destruct ((sizeof_ow_midi_event <=? to_size_t (f_rs r)) && (pos l <? 512))
    eqn:Hcond.
  2: { exists l, r, 0%nat. simpl. rewrite app_nil_r, <- Hio.
       split; [by destruct engine|]. split; [done|]. split; [lia|].
       split; [lia|]. done. }
  apply andb_true_iff in Hcond as [_ Hpos]. apply Z.ltb_lt in Hpos.
  destruct Hinv as (Hrange & Hmod & Hlen & Htail).
  unfold USB_BULK_MIDI_SIZE, OB_MIDI_EVENT_SIZE in *.
  (* the buffer once line 712 has been passed *)
  set (l1 := if pos l =? 0
             then set_diff 0 (set_p2o_midi_data
                                (memset0 (p2o_midi_data l) 512) l)
             else l).
  assert (Hl1 : pos l1 = pos l /\ event_read l1 = event_read l /\
                midi_event l1 = midi_event l /\
                length (p2o_midi_data l1) = Z.to_nat 512 /\
                drop (Z.to_nat (pos l)) (p2o_midi_data l1) =
                  replicate (Z.to_nat (512 - pos l)) 0 /\
                (0 < pos l -> p2o_midi_data l1 = p2o_midi_data l)).
  { subst l1. destruct (pos l =? 0) eqn:Hz; locals_simpl.
    - apply Z.eqb_eq in Hz. rewrite Hz.
      rewrite memset0_all by done.
      split; [done|]. split; [done|]. split; [done|].
      split; [apply length_replicate|]. split; [|lia].
      change (Z.to_nat 0) with 0%nat. rewrite drop_0. f_equal.
    - apply Z.eqb_neq in Hz. repeat split; try done. apply Htail. lia. }
  destruct Hl1 as (Hp1 & He1 & Hm1 & Hlen1 & Hz1 & Hsame1).
  (* the event once line 722 has been passed *)
  assert (Hread : exists l2 r2 k,
    (if event_read l1 then Some (l1, engine, evs)
     else
       io_read engine P2O_MIDI DST_BUF sizeof_ow_midi_event
       ≫= λ '(data, engine0),
            Some (set_event_read true
                    (set_midi_event (overwrite (midi_event l1) data) l1),
                  engine0,
                  evs ++ [EV_READ P2O_MIDI DST_BUF sizeof_ow_midi_event])) =
    Some (l2, set_io_buffers (Some (set_p2o_midi (Some r2) io)) engine,
          evs ++ replicate k (EV_READ P2O_MIDI DST_BUF sizeof_ow_midi_event)) /\
    pos l2 = pos l /\ event_read l2 = true /\
    p2o_midi_data l2 = p2o_midi_data l1 /\
    Z.of_nat k = (if event_read l then 0 else 1) /\
    (event_read l = true -> midi_event l2 = midi_event l)).
  { destruct (event_read l1) eqn:Her.
    - exists l1, r, 0%nat. simpl. rewrite app_nil_r, <- Hio.
      split; [by destruct engine|]. rewrite <- He1. done.
    - unfold io_read. rewrite Hio. simpl. rewrite Hr. simpl.
      destruct (f_r r DST_BUF sizeof_ow_midi_event) as [data r2] eqn:Hcall.
      simpl. exists
        (set_event_read true
           (set_midi_event
              (overwrite (midi_event l1)
                 (take (Z.to_nat sizeof_ow_midi_event) data)) l1)), r2, 1%nat.
      simpl. split.
      + do 3 f_equal.
      + rewrite <- He1. done. }
  destruct Hread as (l2 & r2 & k & -> & Hp2 & He2 & Hd2 & Hk & Hm2). simpl.
  destruct (PrimFloat.ltb (last_time l2) (event_time (midi_event l2))).
  - (* line 728: the event stays in [event] *)
    eexists _, r2, k. split; [reflexivity|]. simpl.
    unfold batch_inv, events_held. simpl.
    unfold USB_BULK_MIDI_SIZE, OB_MIDI_EVENT_SIZE.
    rewrite Hp2, He2, Hd2, Hlen1.
    split; [split; [done|]; split; [done|]; split; [done|]; by intros _|].
    split; [lia|]. split; [destruct (event_read l); lia|].
    split; [intros Hp; by rewrite Hsame1|]. done.
  - (* lines 731 to 734: the event joins the batch *)
    set (l3 := set_event_read false
                 (set_pos (to_int (pos l2 + 4))
                    (set_p2o_midi_data
                       (memcpy_at (p2o_midi_data l2) (pos l2)
                          (take 4 (event_bytes (midi_event l2)))) l2))).
    assert (Hsrc : length (take 4 (event_bytes (midi_event l2))) = 4%nat).
    { rewrite length_take. pose proof (event_bytes_size (midi_event l2)).
      unfold OB_MIDI_EVENT_SIZE in *. lia. }
    assert (Hstep : pos l mod 4 = 0 -> pos l + 4 <= 512).
    { intros Hm. Z.div_mod_to_equations. lia. }
    specialize (Hstep Hmod).
    assert (Hp3 : pos l3 = pos l + 4).
    { subst l3. simpl. rewrite Hp2. apply to_int_small. lia. }
    assert (Hinv3 : batch_inv l3).
    { unfold batch_inv, USB_BULK_MIDI_SIZE, OB_MIDI_EVENT_SIZE. rewrite Hp3.
      split; [lia|]. split.
      { replace (pos l + 4) with (pos l + 1 * 4) by lia.
        rewrite Z.mod_add by lia. exact Hmod. }
      subst l3. simpl. rewrite Hp2, Hd2. split.
      - rewrite length_memcpy_at; [done|lia|]. rewrite Hsrc, Hlen1. lia.
      - intros _.
        replace (Z.to_nat (pos l + 4))
          with (Z.to_nat (pos l) +
                length (take 4 (event_bytes (midi_event l2))))%nat
          by (rewrite Hsrc; lia).
        rewrite drop_memcpy_at; [|lia|rewrite Hsrc, Hlen1; lia].
        rewrite Hsrc, <- drop_drop, Hz1, drop_replicate. f_equal. lia. }
    destruct (IH l3 (set_io_buffers (Some (set_p2o_midi (Some r2) io)) engine)
                (evs ++ replicate k
                   (EV_READ P2O_MIDI DST_BUF sizeof_ow_midi_event)) r2 Hinv3)
      as (l' & r' & reads & Hrun & Hinv' & Hle & Hheld & Htake & _).
    { rewrite Hp3.
      assert (Z.to_nat ((512 - pos l) / 4) =
              S (Z.to_nat ((512 - (pos l + 4)) / 4))) as Hs.
      { replace (512 - pos l) with (512 - (pos l + 4) + 1 * 4) by lia.
        rewrite Z.div_add by lia. rewrite Z2Nat.inj_add; [lia| |lia].
        apply Z.div_pos; lia. }
      lia. }
    { done. }
    exists l', r', (k + reads)%nat. split.
    { etrans; [exact Hrun|]. rewrite replicate_add, app_assoc. reflexivity. }
    split; [done|]. rewrite Hp3 in Hle. split; [lia|]. split.
    { rewrite Hheld. unfold events_held, OB_MIDI_EVENT_SIZE. rewrite Hp3.
      subst l3. simpl.
      replace (pos l + 4) with (pos l + 1 * 4) by lia.
      rewrite Z.div_add by lia. destruct (event_read l); lia. }
    split.
    { intros Hp. rewrite Hp3 in Htake.
      assert (Ht : take (Z.to_nat (pos l)) (p2o_midi_data l') =
                   take (Z.to_nat (pos l)) (p2o_midi_data l3)).
      { rewrite <- (take_take_small (p2o_midi_data l') (Z.to_nat (pos l))
                     (Z.to_nat (pos l + 4))) by lia.
        rewrite Htake by lia.
        rewrite take_take_small by lia. done. }
      rewrite Ht. subst l3. simpl. rewrite Hp2, Hd2. unfold memcpy_at.
      rewrite take_app_le by (rewrite length_take; lia).
      rewrite take_take_small by lia. by rewrite Hsame1. }
    intros Heq. lia.
Qed.

Lemma read_events_one f_r (k : nat) ev (r : ring) data r' :
  f_r r DST_BUF sizeof_ow_midi_event = (data, r') ->
  read_events f_r (S k) ev r =
    (overwrite ev (take (Z.to_nat sizeof_ow_midi_event) data) ::
       (read_events f_r k
          (overwrite ev (take (Z.to_nat sizeof_ow_midi_event) data)) r').1,
     (read_events f_r k
        (overwrite ev (take (Z.to_nat sizeof_ow_midi_event) data)) r').2).
Proof.
  intros Hcall. simpl. rewrite Hcall.
  by destruct (read_events f_r k _ r') as [evs r''].
Qed.

Lemma take_memcpy_at (buf src : list Z) (at_ : Z) :
  0 <= at_ -> (Z.to_nat at_ + length src <= length buf)%nat ->
  take (Z.to_nat at_ + length src) (memcpy_at buf at_ src) =
  take (Z.to_nat at_) buf ++ src.
Proof.
  intros Hat Hlen. unfold memcpy_at.
  rewrite take_app_ge by (rewrite length_take; lia).
  rewrite length_take.
  replace (Z.to_nat at_ + length src - Z.to_nat at_ `min` length buf)%nat
    with (length src) by lia.
  f_equal. rewrite take_app_le by lia. by rewrite take_ge.
Qed.

(** What the inner loop leaves: the events held before the loop or read
    by it are, in order, the events copied to the buffer and the one
    held after it; the copied ones are not later than [last_time]; and
    the loop stops only when its condition fails or at line 726, on an
    event that is later than [last_time]. *)
Lemma p2o_midi_fill_content io f_rs f_r :
  read_space io = Some f_rs -> read io = Some f_r ->
  forall fuel l engine evs (r : ring) l' engine' evs',
    batch_inv l ->
    io_buffers engine = Some (set_p2o_midi (Some r) io) ->
    p2o_midi_fill event_time event_bytes fuel l engine evs =
      Some (l', engine', evs') ->
    exists reads sent,
      engine' =
        set_io_buffers
          (Some (set_p2o_midi
                   (Some (read_events f_r reads (midi_event l) r).2) io))
          engine /\
      evs' =
        evs ++
        replicate reads (EV_READ P2O_MIDI DST_BUF sizeof_ow_midi_event) /\
      held_event l ++ (read_events f_r reads (midi_event l) r).1 =
        sent ++ held_event l' /\
      pos l' = pos l + OB_MIDI_EVENT_SIZE * Z.of_nat (length sent) /\
      take (Z.to_nat (pos l')) (p2o_midi_data l') =
        take (Z.to_nat (pos l)) (p2o_midi_data l) ++
        concat ((fun s => take (Z.to_nat OB_MIDI_EVENT_SIZE) (event_bytes s))
                  <$> sent) /\
      Forall (fun s => PrimFloat.ltb (last_time l) (event_time s) = false)
        sent /\
      (((sizeof_ow_midi_event <=?
           to_size_t (f_rs (read_events f_r reads (midi_event l) r).2)) &&
          (pos l' <? USB_BULK_MIDI_SIZE) = false /\
        last_time l' = last_time l /\
        diff l' =
          (if (pos l =? 0) && negb (pos l' =? 0) then 0%float else diff l) /\
        (sent = [] -> l' = l)) \/
       (event_read l' = true /\
        PrimFloat.ltb (last_time l) (event_time (midi_event l')) = true /\
        last_time l' = event_time (midi_event l') /\
        diff l' =
          PrimFloat.sub (event_time (midi_event l')) (last_time l))).
Proof.
  intros Hrs Hr. unfold USB_BULK_MIDI_SIZE, OB_MIDI_EVENT_SIZE.
  induction fuel as [|fuel IH]; intros l engine evs r l' engine' evs' Hinv Hio;
    simpl; unfold USB_BULK_MIDI_SIZE, OB_MIDI_EVENT_SIZE;
    unfold io_read_space; rewrite Hio; simpl; rewrite Hrs; simpl.
  - destruct ((sizeof_ow_midi_event <=? to_size_t (f_rs r)) && (pos l <? 512))
      eqn:Hcond; [done|].
    intros [= <- <- <-]. exists 0%nat, []. simpl.
    rewrite !app_nil_r, <- Hio. split; [by destruct engine|].
    split; [done|]. split; [done|]. split; [lia|]. split; [done|].
    split; [done|]. left. split; [done|]. split; [done|]. split; [|done].
    destruct (pos l =? 0); done.
  - destruct ((sizeof_ow_midi_event <=? to_size_t (f_rs r)) && (pos l <? 512))
      eqn:Hcond.
    2: { intros [= <- <- <-]. exists 0%nat, []. simpl.
         rewrite !app_nil_r, <- Hio. split; [by destruct engine|].
         split; [done|]. split; [done|]. split; [lia|]. split; [done|].
         split; [done|]. left. split; [done|]. split; [done|].
         split; [|done]. destruct (pos l =? 0); done. }
    apply andb_true_iff in Hcond as [_ Hpos]. apply Z.ltb_lt in Hpos.
    destruct Hinv as (Hrange & Hmod & Hlen & Htail).
    unfold USB_BULK_MIDI_SIZE, OB_MIDI_EVENT_SIZE in *.
    set (l1 := if pos l =? 0
               then set_diff 0 (set_p2o_midi_data
                                  (memset0 (p2o_midi_data l) 512) l)
               else l).
    assert (Hl1 : pos l1 = pos l /\ event_read l1 = event_read l /\
                  midi_event l1 = midi_event l /\
                  last_time l1 = last_time l /\
                  diff l1 = (if pos l =? 0 then 0%float else diff l) /\
                  length (p2o_midi_data l1) = Z.to_nat 512 /\
                  drop (Z.to_nat (pos l)) (p2o_midi_data l1) =
                    replicate (Z.to_nat (512 - pos l)) 0 /\
                  take (Z.to_nat (pos l)) (p2o_midi_data l1) =
                    take (Z.to_nat (pos l)) (p2o_midi_data l)).
    { subst l1. destruct (pos l =? 0) eqn:Hz; locals_simpl.
      - apply Z.eqb_eq in Hz. rewrite Hz.
        rewrite memset0_all by done.
        repeat split; try done; try apply length_replicate.
      - apply Z.eqb_neq in Hz. repeat split; try done. apply Htail. lia. }
    destruct Hl1 as (Hp1 & He1 & Hm1 & Hlt1 & Hdf1 & Hlen1 & Hz1 & Htk1).
    clearbody l1.
    assert (Hread : exists l2 k,
      (if event_read l1 then Some (l1, engine, evs)
       else
         io_read engine P2O_MIDI DST_BUF sizeof_ow_midi_event
         ≫= λ '(data, engine0),
              Some (set_event_read true
                      (set_midi_event (overwrite (midi_event l1) data) l1),
                    engine0,
                    evs ++ [EV_READ P2O_MIDI DST_BUF sizeof_ow_midi_event])) =
      Some (l2,
            set_io_buffers
              (Some (set_p2o_midi
                       (Some (read_events f_r k (midi_event l) r).2) io))
              engine,
            evs ++
            replicate k (EV_READ P2O_MIDI DST_BUF sizeof_ow_midi_event)) /\
      pos l2 = pos l /\ event_read l2 = true /\
      p2o_midi_data l2 = p2o_midi_data l1 /\
      last_time l2 = last_time l /\ diff l2 = diff l1 /\
      held_event l ++ (read_events f_r k (midi_event l) r).1 =
        [midi_event l2] /\
      (forall n,
         held_event l ++ (read_events f_r (k + n) (midi_event l) r).1 =
           midi_event l2 ::
             (read_events f_r n (midi_event l2)
                (read_events f_r k (midi_event l) r).2).1 /\
         (read_events f_r (k + n) (midi_event l) r).2 =
           (read_events f_r n (midi_event l2)
              (read_events f_r k (midi_event l) r).2).2)).
    { unfold held_event. destruct (event_read l1) eqn:Her.
      - exists l1, 0%nat. simpl. rewrite app_nil_r, <- Hio.
        split; [by destruct engine|]. rewrite <- He1, Her, Hm1. done.
      - unfold io_read. rewrite Hio. simpl. rewrite Hr. simpl.
        destruct (f_r r DST_BUF sizeof_ow_midi_event) as [data r2] eqn:Hcall.
        simpl. exists
          (set_event_read true
             (set_midi_event
                (overwrite (midi_event l1)
                   (take (Z.to_nat sizeof_ow_midi_event) data)) l1)), 1%nat.
        rewrite (read_events_one _ 0 _ _ _ _ Hcall). locals_simpl.
        rewrite <- He1, Hm1. cbn [fst snd read_events app].
        split; [by destruct io|].
        repeat (split; [done|]).
        intros n. change (1 + n)%nat with (S n).
        rewrite (read_events_one _ n _ _ _ _ Hcall). done. }
    destruct Hread as (l2 & k & -> & Hp2 & He2 & Hd2 & Hlt2 & Hdf2 & Hk & Hkn).
    cbn [mbind option_bind].
    destruct (PrimFloat.ltb (last_time l2) (event_time (midi_event l2)))
      eqn:Hlate.
    + (* line 728: the event stays in [event] *)
      intros [= <- <- <-]. exists k, []. locals_simpl.
      split; [done|]. split; [done|]. split.
      { rewrite Hk. unfold held_event. locals_simpl. by rewrite He2. }
      split; [rewrite Hp2; simpl; lia|].
      rewrite Hp2, Hd2. cbn [fmap list_fmap concat]. rewrite app_nil_r.
      split; [exact Htk1|]. split; [done|]. right.
      rewrite Hlt2 in *. done.
    + (* lines 731 to 734: the event joins the batch *)
      set (l3 := set_event_read false
                   (set_pos (to_int (pos l2 + 4))
                      (set_p2o_midi_data
                         (memcpy_at (p2o_midi_data l2) (pos l2)
                            (take 4 (event_bytes (midi_event l2)))) l2))).
      assert (Hsrc : length (take 4 (event_bytes (midi_event l2))) = 4%nat).
      { rewrite length_take. pose proof (event_bytes_size (midi_event l2)).
        unfold OB_MIDI_EVENT_SIZE in *. lia. }
      assert (Hstep : pos l + 4 <= 512).
      { Z.div_mod_to_equations. lia. }
      assert (Hp3 : pos l3 = pos l + 4).
      { subst l3. simpl. rewrite Hp2. apply to_int_small. lia. }
      assert (Hinv3 : batch_inv l3).
      { unfold batch_inv, USB_BULK_MIDI_SIZE, OB_MIDI_EVENT_SIZE. rewrite Hp3.
        split; [lia|]. split.
        { replace (pos l + 4) with (pos l + 1 * 4) by lia.
          rewrite Z.mod_add by lia. exact Hmod. }
        subst l3. simpl. rewrite Hp2, Hd2. split.
        - rewrite length_memcpy_at; [done|lia|]. rewrite Hsrc, Hlen1. lia.
        - intros _.
          replace (Z.to_nat (pos l + 4))
            with (Z.to_nat (pos l) +
                  length (take 4 (event_bytes (midi_event l2))))%nat
            by (rewrite Hsrc; lia).
          rewrite drop_memcpy_at; [|lia|rewrite Hsrc, Hlen1; lia].
          rewrite Hsrc, <- drop_drop, Hz1, drop_replicate. f_equal. lia. }
      intros Hfill.
      pose proof (fun Hio' =>
                    IH l3 _ _ (read_events f_r k (midi_event l) r).2 l'
                      engine' evs' Hinv3 Hio' Hfill) as IH'.
      destruct IH'
        as (reads & sent & -> & -> & Hall & Hpos' & Hdata & Hsent & Hstop);
        [reflexivity|].
      assert (Hm3 : midi_event l3 = midi_event l2) by done.
      assert (Hlt3 : last_time l3 = last_time l) by (subst l3; done).
      assert (Hdf3 : diff l3 = diff l1) by (subst l3; done).
      assert (Hh3 : held_event l3 = []) by done.
      rewrite Hm3, Hlt3, Hh3 in *. simpl in Hall.
      destruct (Hkn reads) as [Hcat Hring].
      exists (k + reads)%nat, (midi_event l2 :: sent).
      split.
      { rewrite Hring. by destruct engine. }
      split; [by rewrite replicate_add, app_assoc|].
      split; [by rewrite Hcat, Hall|].
      split.
      { rewrite Hpos', Hp3. cbn [length]. lia. }
      split.
      { rewrite Hdata, Hp3. cbn [fmap list_fmap concat].
        rewrite app_assoc. f_equal.
        replace (Z.to_nat (pos l + 4))
          with (Z.to_nat (pos l) +
                length (take 4 (event_bytes (midi_event l2))))%nat
          by (rewrite Hsrc; lia).
        subst l3. locals_simpl. rewrite Hp2, Hd2.
        rewrite take_memcpy_at; [|lia|rewrite Hsrc, Hlen1; lia].
        by rewrite Htk1. }
      split.
      { constructor; [by rewrite <- Hlt2|done]. }
      rewrite Hring.
      destruct Hstop as [(Hcond & Hlast & Hdiff & _)|Hbreak]; [left|by right].
      split; [done|]. split; [done|]. split; [|done].
      rewrite Hdiff, Hp3, Hdf3, Hdf1.
      assert (Hne3 : (pos l + 4 =? 0) = false) by (apply Z.eqb_neq; lia).
      assert (Hne' : (pos l' =? 0) = false) by (apply Z.eqb_neq; lia).
      rewrite Hne3, Hne'. simpl. by destruct (pos l =? 0).
Qed.

End MidiOut.

Section MidiThread.

Context `{!externals}.

Variable event_time : list uint8 -> float.
Variable event_bytes : list uint8 -> list uint8.

Hypothesis event_bytes_size :
  forall mem, (Z.to_nat OB_MIDI_EVENT_SIZE <= length (event_bytes mem))%nat.

Implicit Types (engine : ow_engine) (io : ow_io_buffers) (l : p2o_midi_locals).

Lemma io_ready_open_midi engine :
  io_ready engine -> midi engine = true ->
  exists io f_rs f_r g r,
    io_buffers engine = Some io /\ read_space io = Some f_rs /\
    read io = Some f_r /\ get_time io = Some g /\ p2o_midi io = Some r.
Proof.
  intros (io & Hio & Ha & _ & Hm) Hmidi.
  apply audio_members_set_spec in Ha as (H1 & _ & H3 & _).
  destruct (Hm Hmidi) as (Hg & _ & Hp).
  apply is_null_false in H1 as [f_rs ?]. apply is_null_false in H3 as [f_r ?].
  apply is_null_false in Hg as [g ?]. apply is_null_false in Hp as [r ?].
  exists io, f_rs, f_r, g, r. done.
Qed.

(** The step of the thread at line 707 goes through. *)
Lemma p2o_midi_fill_step err l engine :
  io_ready engine -> midi engine = true ->
  pos l = 0 ->
  length (p2o_midi_data l) = Z.to_nat USB_BULK_MIDI_SIZE ->
  exists l' engine' evs sleeps,
    run_p2o_midi event_time event_bytes p2o_midi_fuel err MPC_FILL l engine =
      Some (MPC_WAIT_READY, l', engine', evs, sleeps) /\
    pos l' = 0 /\
    length (p2o_midi_data l') = Z.to_nat USB_BULK_MIDI_SIZE /\
    io_shape engine' = io_shape engine.
Proof.
  intros Hready Hmidi Hpos Hlen.
  destruct (io_ready_open_midi _ Hready Hmidi)
    as (io & f_rs & f_r & g & r & Hio & Hrs & Hr & _ & Hring).
  assert (Hinv : batch_inv l).
  { unfold batch_inv. rewrite Hpos. unfold USB_BULK_MIDI_SIZE. split; [lia|].
    split; [done|]. split; [done|lia]. }
  destruct (p2o_midi_fill_spec event_time event_bytes event_bytes_size io f_rs
              f_r Hrs Hr p2o_midi_fuel l engine [] r Hinv)
    as (l1 & r1 & reads & Hfill & (_ & _ & Hlen1 & _) & _).
  { rewrite Hpos. unfold p2o_midi_fuel. rewrite Z.sub_0_r. lia. }
  { by rewrite (set_p2o_midi_same _ _ Hring). }
  unfold run_p2o_midi. rewrite Hfill. simpl.
  destruct (pos l1 =? 0) eqn:Hz; simpl.
  - apply Z.eqb_eq in Hz. do 4 eexists. split; [reflexivity|].
    split; [done|]. split; [done|].
    unfold io_shape, io_nulls in *. simpl. rewrite Hio. simpl.
    unfold is_null. by rewrite Hring.
  - unfold p2o_midi_send, prepare_cycle_out_midi, submit_transfer.
    destruct (negb (err =? 0)); simpl; do 4 eexists;
      (split; [reflexivity|]); (split; [done|]); (split; [done|]).
    + unfold io_shape, io_nulls in *. simpl. rewrite Hio. simpl.
      unfold is_null. by rewrite Hring.
    + unfold io_shape, io_nulls in *. simpl. rewrite Hio. simpl.
      unfold is_null. by rewrite Hring.
Qed.

(** X11: one batch of [run_p2o_midi], lines 707 to 754.  With the MIDI
    members of the host's buffers set, the inner loop terminates and the
    step ends at the wait for [p2o_midi_ready] with [pos] back at 0.
    The events that the thread held before or has read from the ring in
    this step, each read asking for one whole event, are, in order, the
    events of the batch followed by the one it holds afterwards, if any.
    The batch has at most 128 events, none of them later than
    [last_time]; when it is not empty, [p2o_midi_data] is the four bytes
    of each of its events, in order, followed by zeros.  The loop stops
    only when the ring has no whole event left or the buffer is full,
    with [last_time] unchanged, or on an event that is later than
    [last_time], which it keeps: then [last_time] is the time of that
    event and [diff] the difference.  For a batch that is not empty the
    thread clears [p2o_midi_ready], then calls [prepare_cycle_out_midi],
    once, and a failed submission sets [ERROR]; for an empty one it does
    neither and leaves the flag and the status alone.  It then sleeps
    for [diff] when that is not zero and for the smallest time
    otherwise, once. *)
Theorem p2o_midi_batch err l engine :
  io_ready engine -> midi engine = true ->
  pos l = 0 ->
  length (p2o_midi_data l) = Z.to_nat USB_BULK_MIDI_SIZE ->
  exists io f_rs f_r (r : ring) (reads : nat) sent l' engine' evs,
    io_buffers engine = Some io /\ read_space io = Some f_rs /\
    read io = Some f_r /\ p2o_midi io = Some r /\
    let rd := read_events f_r reads (midi_event l) r in
    let engine1 :=
      set_io_buffers (Some (set_p2o_midi (Some rd.2) io)) engine in
    let submitted :=
      prepare_cycle_out_midi err (set_p2o_midi_ready false engine1) in
    let n := Z.of_nat (length sent) in
    run_p2o_midi event_time event_bytes p2o_midi_fuel err MPC_FILL l engine =
      Some (MPC_WAIT_READY, l', engine', evs,
            (if n =? 0 then []
             else [SET_P2O_MIDI_READY false; PREPARE_CYCLE_OUT_MIDI]) ++
            [NANOSLEEP
               (if negb (PrimFloat.eqb (diff l') 0) then SLEEP_TIME (diff l')
                else SMALLEST_SLEEP_TIME)]) /\
    held_event l ++ rd.1 = sent ++ held_event l' /\
    length rd.1 = reads /\ n <= 128 /\
    Forall (fun s => PrimFloat.ltb (last_time l) (event_time s) = false)
      sent /\
    pos l' = 0 /\
    length (p2o_midi_data l') = Z.to_nat USB_BULK_MIDI_SIZE /\
    (0 < n ->
     p2o_midi_data l' =
       concat ((fun s => take (Z.to_nat OB_MIDI_EVENT_SIZE) (event_bytes s))
                 <$> sent) ++
       replicate (Z.to_nat (USB_BULK_MIDI_SIZE - n * OB_MIDI_EVENT_SIZE)) 0) /\
    (((sizeof_ow_midi_event <=? to_size_t (f_rs rd.2)) && (n <? 128) = false /\
      last_time l' = last_time l /\
      diff l' = (if n =? 0 then diff l else 0%float)) \/
     (event_read l' = true /\
      PrimFloat.ltb (last_time l) (event_time (midi_event l')) = true /\
      last_time l' = event_time (midi_event l') /\
      diff l' = PrimFloat.sub (event_time (midi_event l')) (last_time l))) /\
    engine' = (if n =? 0 then engine1 else submitted.1) /\
    evs =
      replicate reads (EV_READ P2O_MIDI DST_BUF sizeof_ow_midi_event) ++
      (if n =? 0 then []
       else [EV_DEBUG_PRINT 2 "Event frames"] ++ submitted.2) /\
    io_shape engine' = io_shape engine /\
    (if n =? 0
     then p2o_midi_ready engine' = p2o_midi_ready engine /\
          status engine' = status engine
     else p2o_midi_ready engine' = false /\
          status engine' =
            (if err =? 0 then status engine else OW_STATUS_ERROR)).
Proof.
  intros Hready Hmidi Hpos Hlen.
  destruct (io_ready_open_midi _ Hready Hmidi)
    as (io & f_rs & f_r & g & r & Hio & Hrs & Hr & _ & Hring).
  assert (Hinv : batch_inv l).
  { unfold batch_inv. rewrite Hpos. unfold USB_BULK_MIDI_SIZE. split; [lia|].
    split; [done|]. split; [done|lia]. }
  assert (Hio' : io_buffers engine = Some (set_p2o_midi (Some r) io))
    by (by rewrite (set_p2o_midi_same _ _ Hring)).
  destruct (p2o_midi_fill_spec event_time event_bytes event_bytes_size io f_rs
              f_r Hrs Hr p2o_midi_fuel l engine [] r Hinv)
    as (l1 & r1 & reads0 & Hfill & Hinv1 & _); [|done|].
  { rewrite Hpos. unfold p2o_midi_fuel. rewrite Z.sub_0_r. lia. }
  destruct (p2o_midi_fill_content event_time event_bytes event_bytes_size io
              f_rs f_r Hrs Hr _ _ _ _ _ _ _ _ Hinv Hio' Hfill)
    as (reads & sent & He1 & Hevs & Hall & Hpos1 & Hdata & Hsent & Hstop).
  destruct Hinv1 as (Hrange1 & Hmod1 & Hlen1 & Htail1).
  unfold USB_BULK_MIDI_SIZE, OB_MIDI_EVENT_SIZE in *.
  rewrite Hpos in Hpos1, Hdata, Hstop. simpl in Hevs, Hdata.
  exists io, f_rs, f_r, r, reads, sent.
  set (rd := read_events f_r reads (midi_event l) r) in *.
  set (n := Z.of_nat (length sent)) in *.
  assert (Hlenrd : forall k ev (r0 : ring),
            length (read_events f_r k ev r0).1 = k).
  { induction k as [|k IHk]; intros ev r0; simpl; [done|].
    destruct (f_r r0 DST_BUF sizeof_ow_midi_event) as [data r0'].
    specialize (IHk (overwrite ev (take (Z.to_nat sizeof_ow_midi_event) data))
                  r0').
    destruct (read_events f_r k _ r0') as [evs0 r0'']. simpl in *.
    by rewrite IHk. }
  assert (Hn : 0 <= n <= 128) by lia.
  assert (Hstop' :
    ((sizeof_ow_midi_event <=? to_size_t (f_rs rd.2)) && (n <? 128) = false /\
     last_time l1 = last_time l /\
     diff l1 = (if n =? 0 then diff l else 0%float)) \/
    (event_read l1 = true /\
     PrimFloat.ltb (last_time l) (event_time (midi_event l1)) = true /\
     last_time l1 = event_time (midi_event l1) /\
     diff l1 = PrimFloat.sub (event_time (midi_event l1)) (last_time l))).
  { destruct Hstop as [(Hcond & Hlast & Hdiff & _)|Hbreak]; [left|by right].
    split.
    { rewrite <- Hcond. f_equal.
      destruct (pos l1 <? 512) eqn:H1, (n <? 128) eqn:H2; try done.
      - apply Z.ltb_lt in H1. apply Z.ltb_ge in H2. lia.
      - apply Z.ltb_ge in H1. apply Z.ltb_lt in H2. lia. }
    split; [done|]. rewrite Hdiff. simpl.
    destruct (pos l1 =? 0) eqn:H1, (n =? 0) eqn:H2; try done.
    - apply Z.eqb_eq in H1. apply Z.eqb_neq in H2. lia.
    - apply Z.eqb_neq in H1. apply Z.eqb_eq in H2. lia. }
  assert (Hshape : forall e,
            io_shape e = io_shape engine ->
            io_shape (prepare_cycle_out_midi err
                        (set_p2o_midi_ready false e)).1 = io_shape engine).
  { intros e He. unfold prepare_cycle_out_midi.
    by rewrite submit_transfer_shape. }
  assert (Hshape1 :
    io_shape (set_io_buffers (Some (set_p2o_midi (Some rd.2) io)) engine) =
    io_shape engine).
  { unfold io_shape, io_nulls. simpl. rewrite Hio. simpl.
    unfold is_null. by rewrite Hring. }
  unfold run_p2o_midi. rewrite Hfill. cbn [mbind option_bind].
  rewrite He1, Hevs.
  destruct (pos l1 =? 0) eqn:Hz; cbn [negb].
  - apply Z.eqb_eq in Hz.
    assert (Hn0 : (n =? 0) = true) by (apply Z.eqb_eq; lia).
    exists l1, (set_io_buffers (Some (set_p2o_midi (Some rd.2) io)) engine),
      (replicate reads (EV_READ P2O_MIDI DST_BUF sizeof_ow_midi_event)).
    repeat (split; [done|]). cbv zeta. rewrite Hn0 in Hstop' |- *.
    split; [done|]. split; [done|]. split; [apply Hlenrd|]. split; [lia|].
    split; [done|]. split; [done|]. split; [done|]. split; [lia|].
    split; [exact Hstop'|]. split; [done|]. split; [by rewrite app_nil_r|].
    split; [done|]. done.
  - apply Z.eqb_neq in Hz.
    assert (Hn0 : (n =? 0) = false) by (apply Z.eqb_neq; lia).
    destruct (prepare_cycle_out_midi err
                (set_p2o_midi_ready false
                   (set_io_buffers (Some (set_p2o_midi (Some rd.2) io))
                      engine))) as [e2 evs2] eqn:Hsub.
    exists (set_pos 0 l1), e2,
      (replicate reads (EV_READ P2O_MIDI DST_BUF sizeof_ow_midi_event) ++
       [EV_DEBUG_PRINT 2 "Event frames"] ++ evs2).
    repeat (split; [done|]). cbv zeta. rewrite Hn0 in Hstop' |- *.
    locals_simpl. cbn [fst snd].
    split; [done|]. split; [done|]. split; [apply Hlenrd|]. split; [lia|].
    split; [done|]. split; [done|]. split; [done|]. split.
    { intros _. rewrite <- (take_drop (Z.to_nat (pos l1)) (p2o_midi_data l1)).
      rewrite Hdata, Htail1 by lia. do 2 f_equal. lia. }
    split; [exact Hstop'|]. split; [done|]. split; [done|].
    split.
    { specialize (Hshape _ Hshape1). by rewrite Hsub in Hshape. }
    unfold prepare_cycle_out_midi, submit_transfer in Hsub.
    destruct (err =? 0); simpl in Hsub; by simplify_eq.
Qed.


End MidiThread.

Section FullSystem.

Context `{!externals}.

Variable event_time : list uint8 -> float.
Variable event_bytes : list uint8 -> list uint8.

Hypothesis event_bytes_size :
  forall mem, (Z.to_nat OB_MIDI_EVENT_SIZE <= length (event_bytes mem))%nat.

Implicit Types (engine : ow_engine) (io : ow_io_buffers) (l : p2o_midi_locals).
Implicit Types (s : full_system).

Lemma handle_events_ready_flag cs engine engine' evs :
  libusb_handle_events_completed cs engine = Some (engine', evs) ->
  (p2o_midi_ready engine = true -> p2o_midi_ready engine' = true) /\
  (Forall (fun c => is_xfr_out_midi c = false) cs ->
   p2o_midi_ready engine' = p2o_midi_ready engine) /\
  engine_ring engine' P2O_MIDI = engine_ring engine P2O_MIDI /\
  io_funs engine' = io_funs engine.
Proof.
  revert engine evs. induction cs as [|c cs IH]; intros engine evs; simpl;
    intros Hr.
  - by simplify_eq.
  - destruct (run_completion c engine) as [[e1 evs1]|] eqn:Hc;
      simpl in Hr; [|done].
    destruct (libusb_handle_events_completed cs e1) as [[e2 evs2]|] eqn:Hcs;
      simpl in Hr; [|done].
    simplify_eq. apply IH in Hcs as (IH1 & IH2 & IH3 & IH4).
    apply run_completion_sides in Hc as (Hset & Hc).
    assert (Hfun : io_funs e1 = io_funs engine)
      by (unfold settings in Hset; congruence).
    clear Hset.
    assert (Hflag : (is_xfr_out_midi c = false ->
                     p2o_midi_ready e1 = p2o_midi_ready engine) /\
                    (is_xfr_out_midi c = true -> p2o_midi_ready e1 = true) /\
                    engine_ring e1 P2O_MIDI = engine_ring engine P2O_MIDI).
    { destruct c; simpl.
      - destruct Hc as (Hs & _ & ? & _). unfold p2o_side in Hs.
        split; [done|]. split; [done|]. congruence.
      - destruct Hc as (_ & _ & ? & ?). done.
      - destruct Hc as (Hs & _ & ? & _). unfold p2o_side in Hs.
        split; [done|]. split; [done|]. congruence.
      - destruct Hc as (Hs & _ & _ & ?). unfold p2o_side in Hs.
        split; [done|]. split; [done|]. congruence. }
    destruct Hflag as (Hf1 & Hf2 & Hf3). split; [|split; [|split]].
    + intros Hon. apply IH1.
      destruct (is_xfr_out_midi c) eqn:Hk; [by apply Hf2|].
      by rewrite Hf1.
    + intros Hall. apply Forall_cons in Hall as [Hk Hall].
      rewrite IH2 by done. by apply Hf1.
    + congruence.
    + congruence.
Qed.

Lemma thread_step_ready_flag env pc engine pc' engine' evs :
  run_audio_o2p_midi env pc engine = Some (pc', engine', evs) ->
  (p2o_midi_ready engine = true -> p2o_midi_ready engine' = true) /\
  (Forall (fun c => is_xfr_out_midi c = false) (completed env) ->
   p2o_midi_ready engine' = p2o_midi_ready engine) /\
  engine_ring engine' P2O_MIDI = engine_ring engine P2O_MIDI /\
  io_funs engine' = io_funs engine.
Proof.
  destruct pc; simpl; intros Hr.
  - case_match; by simplify_eq.
  - unfold prepare_cycle_in, prepare_cycle_out, prepare_cycle_in_midi in Hr.
    destruct (submit_transfer _ (err_in env) engine) as [e1 evs1] eqn:Hp1.
    destruct (submit_transfer _ (err_out env) e1) as [e2 evs2] eqn:Hp2.
    apply submit_transfer_sides_eq in Hp1 as (Hs1 & _ & _ & Hg1 & Hf1).
    apply submit_transfer_sides_eq in Hp2 as (Hs2 & _ & _ & Hg2 & Hf2).
    assert (Hring : engine_ring e2 P2O_MIDI = engine_ring engine P2O_MIDI)
      by (unfold p2o_side in *; congruence).
    assert (Hfun : io_funs e2 = io_funs engine)
      by (unfold settings in *; congruence).
    clear Hs1 Hs2 Hg1 Hg2.
    destruct (midi e2).
    + destruct (submit_transfer _ (err_in_midi env) e2) as [e3 evs3] eqn:Hp3.
      apply submit_transfer_sides_eq in Hp3 as (Hs3 & _ & _ & Hg3 & Hf3).
      assert (engine_ring e3 P2O_MIDI = engine_ring e2 P2O_MIDI)
        by (unfold p2o_side in *; congruence).
      assert (io_funs e3 = io_funs e2)
        by (unfold settings in *; congruence).
      clear Hs3 Hg3. simplify_eq. rewrite Hf3, Hf2, Hf1. split; [done|].
      split; [done|]. split; congruence.
    + simplify_eq. rewrite Hf2, Hf1. done.
  - ring_cases; sides_done.
  - case_match; by simplify_eq.
  - destruct (libusb_handle_events_completed (completed env) engine)
      as [[e1 evs1]|] eqn:Hh; simpl in Hr; [|done].
    simplify_eq. by eapply handle_events_ready_flag.
  - case_match; by simplify_eq.
  - unfold ow_engine_set_status in Hr. ring_cases. sides_done.
  - by simplify_eq.
Qed.

Lemma host_step_ready_flag h engine :
  p2o_midi_ready (host_step h engine) = p2o_midi_ready engine /\
  (match h with HOST_RING P2O_MIDI _ => False | _ => True end ->
   engine_ring (host_step h engine) P2O_MIDI = engine_ring engine P2O_MIDI) /\
  io_funs (host_step h engine) = io_funs engine.
Proof.
  destruct h; simpl; try done.
  - unfold ow_engine_set_p2o_audio_enable. by case_match.
  - unfold engine_ring, io_funs.
    destruct (io_buffers engine) as [io|] eqn:Hio; simpl; [|by rewrite Hio].
    split; [done|]. split; [|by destruct id]. intros Hid. by destruct id.
Qed.

Lemma io_read_space_kept engine engine' id :
  io_funs engine' = io_funs engine ->
  engine_ring engine' id = engine_ring engine id ->
  io_read_space engine' id = io_read_space engine id.
Proof.
  unfold io_funs, engine_ring, io_read_space. intros Hf Hr.
  destruct (io_buffers engine') as [io'|], (io_buffers engine) as [io|];
    simpl in *; try done.
  injection Hf as -> _ _ _ _. destruct (read_space io); simpl; [|done].
  by rewrite Hr.
Qed.

End FullSystem.

Section FullRuns.

Context `{!externals}.

Variable event_time : list uint8 -> float.
Variable event_bytes : list uint8 -> list uint8.

Hypothesis event_bytes_size :
  forall mem, (Z.to_nat OB_MIDI_EVENT_SIZE <= length (event_bytes mem))%nat.

Implicit Types (engine : ow_engine) (io : ow_io_buffers) (l : p2o_midi_locals).
Implicit Types (s : full_system).

Local Abbreviation full_step := (full_step event_time event_bytes).
Local Abbreviation full_run := (full_run event_time event_bytes).

(** Every step of the full system goes through and keeps [full_inv]. *)
Lemma full_step_inv a s :
  full_inv s ->
  exists s' evs, full_step a s = Some (s', evs) /\ full_inv s'.
Proof.
  intros (Hready & Hmidi & Hlen & Hpos & Hflag).
  destruct a as [h|env|err]; simpl.
  - do 2 eexists. split; [reflexivity|].
    destruct (host_step_ready h _ Hready) as [Hr Hm].
    destruct (host_step_ready_flag h (sys_engine (fs_sys s))) as (Hf & _).
    unfold full_inv. simpl. rewrite Hf, Hm. done.
  - destruct (thread_step_defined env (sys_pc (fs_sys s))
                (sys_engine (fs_sys s)) Hready) as [[[pc e1] evs1] Ht].
    { intros Hm. by rewrite Hmidi in Hm. }
    rewrite Ht. simpl. do 2 eexists. split; [reflexivity|].
    pose proof (thread_step_io_shape _ _ _ _ _ _ Ht) as Hsh.
    apply thread_step_ready_flag in Ht as (Hon & _).
    unfold full_inv. simpl.
    split; [by eapply io_ready_shape|].
    split; [by rewrite (io_shape_midi _ _ Hsh)|]. auto.
  - destruct (fs_pc s) eqn:Hpc; simpl.
    + destruct (io_ready_open_midi _ Hready Hmidi)
        as (io & f_rs & f_r & g & r & Hio & _ & _ & Hg & _).
      unfold io_get_time. rewrite Hio. simpl. rewrite Hg. simpl.
      do 2 eexists. split; [reflexivity|]. unfold full_inv. simpl.
      split; [eapply io_ready_shape; [|exact Hready]; done|]. done.
    + destruct (p2o_midi_fill_step event_time event_bytes event_bytes_size err
                  (fs_locals s) (sys_engine (fs_sys s)) Hready Hmidi)
        as (l' & e' & evs & sleeps & Hrun & Hp' & Hl' & Hsh).
      { apply Hpos. done. }
      { done. }
      simpl in Hrun. rewrite Hrun. simpl.
      do 2 eexists. split; [reflexivity|]. unfold full_inv. simpl.
      split; [by eapply io_ready_shape|].
      split; [by rewrite (io_shape_midi _ _ Hsh)|]. split; [done|].
      split; [done|]. unfold filling; intros [?|?]; done.
    + destruct (p2o_midi_ready (sys_engine (fs_sys s))) eqn:Hon; simpl.
      * do 2 eexists. split; [reflexivity|]. unfold full_inv. simpl.
        split; [done|]. split; [done|]. split; [done|].
        split; [intros _; by apply Hpos|done].
      * do 2 eexists. split; [reflexivity|]. unfold full_inv. simpl.
        split; [done|]. split; [done|]. split; [done|].
        split; [intros _; by apply Hpos|].
        unfold filling; intros [?|?]; done.
    + assert (Hon : p2o_midi_ready (sys_engine (fs_sys s)) = true)
        by (apply Hflag; by right).
      destruct (status_leb _ _); simpl.
      * do 2 eexists. split; [reflexivity|]. unfold full_inv. simpl.
        split; [done|]. split; [done|]. split; [done|].
        split; [intros _; by apply Hpos|done].
      * do 2 eexists. split; [reflexivity|]. unfold full_inv. simpl.
        split; [done|]. split; [done|]. split; [done|].
        split; [intros _; by apply Hpos|done].
    + do 2 eexists. split; [reflexivity|]. unfold full_inv. simpl.
      split; [done|]. split; [done|]. split; [done|].
        split; [intros _; by apply Hpos|].
      unfold filling; intros [?|?]; done.
Qed.

Lemma full_run_inv acts s :
  full_inv s ->
  exists s' evs, full_run acts s = Some (s', evs) /\ full_inv s'.
Proof.
  revert s. induction acts as [|a acts IH]; intros s Hinv; simpl.
  - eauto.
  - destruct (full_step_inv a s Hinv) as (s1 & evs1 & -> & Hinv1). simpl.
    destruct (IH s1 Hinv1) as (s2 & evs2 & -> & Hinv2). simpl. eauto.
Qed.

Lemma full_activated_inv fresh desc blocks io (dll_arg : option dll) pt
  (s0 : system) junk :
  sys_activated fresh desc blocks io dll_arg pt = Some s0 ->
  midi (sys_engine s0) = true ->
  full_inv (full_activated s0 junk).
Proof.
  intros Hact Hmidi. unfold full_inv, full_activated.
  cbn [fs_sys fs_pc fs_locals p2o_midi_data set_p2o_midi_data].
  split; [by eapply sys_activated_ready|]. split; [done|].
  split; [apply length_replicate|]. split; [done|].
  unfold filling; intros [?|?]; done.
Qed.

(** The inner loop of the MIDI thread calls [read_space] first: on
    buffers without it the step faults. *)
Lemma p2o_midi_fill_faults fuel err l engine io :
  io_buffers engine = Some io -> is_null (read_space io) = true ->
  run_p2o_midi event_time event_bytes fuel err MPC_FILL l engine = None.
Proof.
  intros Hio Hnull. unfold run_p2o_midi.
  assert (Hfill : p2o_midi_fill event_time event_bytes fuel l engine [] =
                  None).
  { destruct fuel; simpl; unfold io_read_space; rewrite Hio; simpl;
      destruct (read_space io); done. }
  by rewrite Hfill.
Qed.

(** X12: the hand-over of [p2o_midi_data].  In an activated engine with
    MIDI, every run goes through that is made of the host's calls of
    [ow_engine_set_status], [ow_engine_stop] and
    [ow_engine_set_p2o_audio_enable], of its operations on the rings, of
    steps of the audio thread with their callbacks and of steps of the
    MIDI thread, a batch (lines 707 to 754) being one step: the MIDI
    thread calls no NULL pointer and its inner loop always terminates.
    [p2o_midi_data] keeps its 512 bytes, [pos] is 0 between two batches,
    and the thread is at its filling loop or its stop check only while
    [p2o_midi_ready] is set.  A second call of
    [ow_engine_activate_with_dll] is not one of these calls: made on the
    engine that the run has reached with buffers without [read_space],
    it is rejected and starts no thread, but has stored the buffers, and
    the next batch of the MIDI thread calls the NULL pointer at line
    707. *)
Theorem p2o_midi_hand_over fresh desc blocks io (dll_arg : option dll) pt
  (s0 : system) junk acts :
  sys_activated fresh desc blocks io dll_arg pt = Some s0 ->
  midi (sys_engine s0) = true ->
  exists s evs,
    full_run acts (full_activated s0 junk) = Some (s, evs) /\
    length (p2o_midi_data (fs_locals s)) = Z.to_nat USB_BULK_MIDI_SIZE /\
    (filling (fs_pc s) -> p2o_midi_ready (sys_engine (fs_sys s)) = true) /\
    (fs_pc s <> MPC_START -> pos (fs_locals s) = 0) /\
    io_ready (sys_engine (fs_sys s)) /\
    midi (sys_engine (fs_sys s)) = true /\
    (forall io' (dll' : option dll) pt' fuel err l,
       is_null (read_space io') = true ->
       let r :=
         ow_engine_activate_with_dll (sys_engine (fs_sys s)) io' dll' pt' in
       r.1.1 = OW_INIT_ERROR_NO_READ_SPACE /\ r.2 = [] /\
       run_p2o_midi event_time event_bytes fuel err MPC_FILL l r.1.2 = None).
Proof.
  intros Hact Hmidi.
  destruct (full_run_inv acts (full_activated s0 junk))
    as (s & evs & Hrun & Hready & Hm & Hlen & Hpos & Hflag).
  { by eapply full_activated_inv. }
  exists s, evs. repeat (split; [done|]).
  intros io' dll' pt' fuel err l Hnull r.
  destruct (rejected_activation_faults (sys_engine (fs_sys s)) io' dll' pt'
              {| xfr_status := LIBUSB_TRANSFER_COMPLETED;
                 actual_length := 0 |} 0 Hnull)
    as (Hk & Hth & Hio' & _).
  fold r in Hk, Hth, Hio'. split; [done|]. split; [done|].
  by eapply p2o_midi_fill_faults.
Qed.

(** While no MIDI-out transfer completes, a thread that waits for
    [p2o_midi_ready] goes on waiting. *)
Lemma full_step_waiting a s s' evs :
  fs_pc s = MPC_WAIT_READY ->
  p2o_midi_ready (sys_engine (fs_sys s)) = false ->
  no_out_midi_completion a -> full_step a s = Some (s', evs) ->
  fs_pc s' = MPC_WAIT_READY /\
  p2o_midi_ready (sys_engine (fs_sys s')) = false /\
  fs_locals s' = fs_locals s.
Proof.
  intros Hpc Hoff Ha Hs. destruct a as [h|env|err]; simpl in Hs.
  - simplify_eq. simpl.
    destruct (host_step_ready_flag h (sys_engine (fs_sys s))) as (-> & _).
    done.
  - destruct (run_audio_o2p_midi env _ _) as [[[pc e1] evs2]|] eqn:Ht;
      simpl in Hs; [|done].
    simplify_eq. simpl.
    apply thread_step_ready_flag in Ht as (_ & Hkeep & _).
    rewrite Hkeep by done. done.
  - rewrite Hpc in Hs. simpl in Hs. rewrite Hoff in Hs. simpl in Hs.
    simplify_eq. done.
Qed.

(** X13: the MIDI thread leaves its wait for [p2o_midi_ready] only
    through [cb_xfr_out_midi].  From a state in which it waits with the
    flag clear, whatever the host and the audio thread do and whatever
    the status becomes, it is still waiting with its variables unchanged
    as long as no MIDI-out transfer completes: the wait of lines 759 to
    765 does not look at the status, so after a submission that failed,
    which sets [ERROR] and completes no transfer, the thread does not
    return. *)
Theorem p2o_midi_waits_for_callback fresh desc blocks io (dll_arg : option dll)
  pt (s0 : system) junk acts0 s evs0 acts :
  sys_activated fresh desc blocks io dll_arg pt = Some s0 ->
  midi (sys_engine s0) = true ->
  full_run acts0 (full_activated s0 junk) = Some (s, evs0) ->
  fs_pc s = MPC_WAIT_READY ->
  p2o_midi_ready (sys_engine (fs_sys s)) = false ->
  Forall no_out_midi_completion acts ->
  exists s' evs,
    full_run acts s = Some (s', evs) /\
    fs_pc s' = MPC_WAIT_READY /\
    p2o_midi_ready (sys_engine (fs_sys s')) = false /\
    fs_locals s' = fs_locals s.
Proof.
  intros Hact Hmidi Hrun0 Hpc Hoff Hacts.
  assert (Hinv : full_inv s).
  { destruct (full_run_inv acts0 (full_activated s0 junk))
      as (s1 & evs1 & Hrun1 & Hinv1); [by eapply full_activated_inv|].
    congruence. }
  clear Hrun0. revert s Hinv Hpc Hoff.
  induction Hacts as [|a acts Ha Hacts IH]; intros s Hinv Hpc Hoff; simpl.
  - exists s, []. done.
  - destruct (full_step_inv a s Hinv) as (s1 & evs1 & Hs & Hinv1).
    rewrite Hs. simpl.
    destruct (full_step_waiting _ _ _ _ Hpc Hoff Ha Hs) as (Hpc1 & Hoff1 & Hl1).
    destruct (IH s1 Hinv1 Hpc1 Hoff1) as (s2 & evs2 & -> & Hpc2 & Hoff2 & Hl2).
    simpl. do 2 eexists. split; [reflexivity|]. split; [done|].
    split; [done|congruence].
Qed.

End FullRuns.

Section HeldBack.

Context `{!externals}.

Variable event_time : list uint8 -> float.
Variable event_bytes : list uint8 -> list uint8.

Hypothesis event_bytes_size :
  forall mem, (Z.to_nat OB_MIDI_EVENT_SIZE <= length (event_bytes mem))%nat.

Implicit Types (engine : ow_engine) (io : ow_io_buffers) (l : p2o_midi_locals).
Implicit Types (s : full_system).

Lemma p2o_midi_fill_idle fuel l engine evs rs :
  io_read_space engine P2O_MIDI = Some rs -> rs < sizeof_ow_midi_event ->
  p2o_midi_fill event_time event_bytes fuel l engine evs =
  Some (l, engine, evs).
Proof.
  intros Hrs Hlt.
  assert (Hc : (sizeof_ow_midi_event <=? rs) = false) by (apply Z.leb_gt; lia).
  destruct fuel; simpl; rewrite Hrs; simpl; rewrite Hc; done.
Qed.

Lemma full_step_held a s s' evs rs :
  fs_pc s <> MPC_START -> pos (fs_locals s) = 0 ->
  io_read_space (sys_engine (fs_sys s)) P2O_MIDI = Some rs ->
  rs < sizeof_ow_midi_event ->
  p2o_midi_ring_idle a ->
  full_step event_time event_bytes a s = Some (s', evs) ->
  fs_pc s' <> MPC_START /\ fs_locals s' = fs_locals s /\
  io_read_space (sys_engine (fs_sys s')) P2O_MIDI = Some rs /\
  (p2o_midi_ready (sys_engine (fs_sys s)) = true ->
   p2o_midi_ready (sys_engine (fs_sys s')) = true).
Proof.
  intros Hpc Hpos Hrs Hlt Ha Hs. destruct a as [h|env|err].
  - simpl in Hs. simplify_eq. simpl.
    destruct (host_step_ready_flag h (sys_engine (fs_sys s)))
      as (Hf & Hring & Hfun).
    split; [done|]. split; [done|]. split.
    + rewrite <- Hrs. apply io_read_space_kept; [done|]. apply Hring.
      destruct h as [| | |id r]; try done.
    + by rewrite Hf.
  - simpl in Hs.
    destruct (run_audio_o2p_midi env _ _) as [[[pc e1] evs2]|] eqn:Ht;
      simpl in Hs; [|done].
    simplify_eq. simpl.
    apply thread_step_ready_flag in Ht as (Hon & _ & Hring & Hfun).
    split; [done|]. split; [done|]. split; [|done].
    rewrite <- Hrs. by apply io_read_space_kept.
  - unfold full_step, run_p2o_midi in Hs.
    destruct (fs_pc s) eqn:Hp; [done| | | |].
    + rewrite (p2o_midi_fill_idle _ _ _ _ _ Hrs Hlt) in Hs. simpl in Hs.
      rewrite Hpos in Hs. simpl in Hs. simplify_eq. done.
    + destruct (p2o_midi_ready _) eqn:Hon; simpl in Hs; simplify_eq; done.
    + destruct (status_leb _ _); simpl in Hs; simplify_eq; done.
    + simpl in Hs. simplify_eq. done.
Qed.

(** X14: an event that the MIDI thread has read and found too early is
    held in [event], outside the ring, and the inner loop that would
    send it runs only when the ring holds another whole event.  So while
    the host writes nothing to the ring, whatever else happens and
    however long it lasts, the thread's variables stay as they are, the
    held event is not copied to [p2o_midi_data], and no submission is
    made ([p2o_midi_ready] is never cleared). *)
Theorem p2o_midi_event_held_back fresh desc blocks io (dll_arg : option dll)
  pt (s0 : system) junk acts0 s evs0 rs acts :
  sys_activated fresh desc blocks io dll_arg pt = Some s0 ->
  midi (sys_engine s0) = true ->
  full_run event_time event_bytes acts0 (full_activated s0 junk) =
    Some (s, evs0) ->
  fs_pc s <> MPC_START ->
  event_read (fs_locals s) = true ->
  io_read_space (sys_engine (fs_sys s)) P2O_MIDI = Some rs ->
  rs < sizeof_ow_midi_event ->
  Forall p2o_midi_ring_idle acts ->
  exists s' evs,
    full_run event_time event_bytes acts s = Some (s', evs) /\
    fs_locals s' = fs_locals s /\
    event_read (fs_locals s') = true /\
    (p2o_midi_ready (sys_engine (fs_sys s)) = true ->
     p2o_midi_ready (sys_engine (fs_sys s')) = true).
Proof.
  intros Hact Hmidi Hrun0 Hpc Hheld Hrs Hlt Hacts.
  assert (Hinv : full_inv s).
  { destruct (full_run_inv event_time event_bytes event_bytes_size acts0
                (full_activated s0 junk))
      as (s1 & evs1 & Hrun1 & Hinv1); [by eapply full_activated_inv|].
    congruence. }
  clear Hrun0. revert s Hinv Hpc Hheld Hrs.
  induction Hacts as [|a acts Ha Hacts IH]; intros s Hinv Hpc Hheld Hrs; simpl.
  - exists s, []. done.
  - destruct (full_step_inv event_time event_bytes event_bytes_size a s Hinv)
      as (s1 & evs1 & Hs & Hinv1).
    rewrite Hs. simpl.
    assert (Hpos : pos (fs_locals s) = 0)
      by (destruct Hinv as (_ & _ & _ & Hp & _); by apply Hp).
    destruct (full_step_held _ _ _ _ _ Hpc Hpos Hrs Hlt Ha Hs)
      as (Hpc1 & Hl1 & Hrs1 & Hon1).
    destruct (IH s1 Hinv1 Hpc1) as (s2 & evs2 & -> & Hl2 & Hh2 & Hon2).
    { by rewrite Hl1. }
    { done. }
    simpl. do 2 eexists. split; [reflexivity|].
    split; [congruence|]. split; [done|]. auto.
Qed.

End HeldBack.

(** *** The MIDI thread of the mock system *)

Lemma mock_event_bytes_size (mem : list Z) :
  (Z.to_nat OB_MIDI_EVENT_SIZE <= length (mock_event_bytes mem))%nat.
Proof.
  unfold mock_event_bytes, OB_MIDI_EVENT_SIZE.
  rewrite length_take, length_app, length_replicate. lia.
Qed.

Lemma mock_system_midi : midi (sys_engine (mock_system 2)) = true.
Proof. vm_compute. reflexivity. Qed.

Lemma full_after_run (acts : list (@full_action mock)) :
  exists evs,
    @full_run mock mock_event_time mock_event_bytes acts
      (full_activated (mock_system 2) mock_junk) =
    Some (full_after acts (full_activated (mock_system 2) mock_junk), evs).
Proof.
  destruct (@full_run_inv mock mock_event_time mock_event_bytes
              mock_event_bytes_size acts
              (full_activated (mock_system 2) mock_junk))
    as (s & evs & Hrun & _).
  { eapply full_activated_inv; [|exact mock_system_midi].
    apply (mock_system_activated 2). lia. }
  exists evs. unfold full_after. rewrite Hrun. reflexivity.
Qed.

Lemma p2o_midi_batch_witness :
  exists l' engine' evs,
    @run_p2o_midi mock mock_event_time mock_event_bytes p2o_midi_fuel 0
      MPC_FILL (fs_locals midi_fill_system)
      (sys_engine (fs_sys midi_fill_system)) =
    Some (MPC_WAIT_READY, l', engine', evs,
          [SET_P2O_MIDI_READY false; PREPARE_CYCLE_OUT_MIDI;
           NANOSLEEP (SLEEP_TIME 5)]) /\
    take 12 (p2o_midi_data l') =
      [9; 144; 60; 100; 9; 144; 62; 100; 0; 0; 0; 0] /\
    event_read l' = true /\ p2o_midi_ready engine' = false.
Proof.
  destruct (@p2o_midi_batch mock mock_event_time mock_event_bytes
              mock_event_bytes_size 0 (fs_locals midi_fill_system)
              (sys_engine (fs_sys midi_fill_system)))
    as (io & f_rs & f_r & r & reads & sent & l' & engine' & evs & _ & _ & _ &
        _ & Hrun & _).
  - destruct (@full_run_inv mock mock_event_time mock_event_bytes
                mock_event_bytes_size (take 2 (midi_batch_actions 0))
                (full_activated (mock_system 2) mock_junk))
      as (s & evs' & Hrun' & Hinv & _).
    { eapply full_activated_inv; [|exact mock_system_midi].
      apply (mock_system_activated 2). lia. }
    unfold midi_fill_system, full_after. rewrite Hrun'. exact Hinv.
  - vm_compute. reflexivity.
  - vm_compute. reflexivity.
  - vm_compute. reflexivity.
  - exists l', engine', evs.
    assert (Hval :
      (fun r => (r.1.1.1.1, take 12 (p2o_midi_data r.1.1.1.2),
                 event_read r.1.1.1.2, p2o_midi_ready r.1.1.2, r.2)) <$>
      @run_p2o_midi mock mock_event_time mock_event_bytes p2o_midi_fuel 0
        MPC_FILL (fs_locals midi_fill_system)
        (sys_engine (fs_sys midi_fill_system)) =
      Some (MPC_WAIT_READY, [9; 144; 60; 100; 9; 144; 62; 100; 0; 0; 0; 0],
            true, false,
            [SET_P2O_MIDI_READY false; PREPARE_CYCLE_OUT_MIDI;
             NANOSLEEP (SLEEP_TIME 5)]))
      by (vm_compute; reflexivity).
    rewrite Hrun in Hval. simpl in Hval.
    injection Hval as Hd He Hr Hs. rewrite Hrun.
    rewrite <- Hs. done.
Defined.

Lemma p2o_midi_hand_over_witness :
  exists s evs,
    @full_run mock mock_event_time mock_event_bytes
      (midi_batch_actions 0 ++ midi_idle_actions)
      (full_activated (mock_system 2) mock_junk) = Some (s, evs) /\
    length (p2o_midi_data (fs_locals s)) = Z.to_nat USB_BULK_MIDI_SIZE /\
    (filling (fs_pc s) -> p2o_midi_ready (sys_engine (fs_sys s)) = true) /\
    (fs_pc s <> MPC_START -> pos (fs_locals s) = 0).
Proof.
  destruct (@p2o_midi_hand_over mock mock_event_time mock_event_bytes
              mock_event_bytes_size blank_engine mock_desc 2 mock_io None
              threads_ok (mock_system 2) mock_junk
              (midi_batch_actions 0 ++ midi_idle_actions))
    as (s & evs & Hrun & Hlen & Hflag & Hpos & _).
  - apply mock_system_activated. lia.
  - exact mock_system_midi.
  - exists s, evs. split; [exact Hrun|]. split; [exact Hlen|].
    split; [exact Hflag|exact Hpos].
Defined.

Lemma p2o_midi_waits_for_callback_witness :
  status (sys_engine (fs_sys (midi_batch_system 7))) = OW_STATUS_ERROR /\
  exists s' evs,
    @full_run mock mock_event_time mock_event_bytes midi_wait_actions
      (midi_batch_system 7) = Some (s', evs) /\
    fs_pc s' = MPC_WAIT_READY.
Proof.
  split; [vm_compute; reflexivity|].
  destruct (full_after_run (midi_batch_actions 7)) as [evs0 Hrun0].
  destruct (@p2o_midi_waits_for_callback mock mock_event_time mock_event_bytes
              mock_event_bytes_size blank_engine mock_desc 2 mock_io None
              threads_ok (mock_system 2) mock_junk (midi_batch_actions 7)
              (midi_batch_system 7) evs0 midi_wait_actions)
    as (s' & evs & Hrun & Hpc & _).
  - apply mock_system_activated. lia.
  - exact mock_system_midi.
  - exact Hrun0.
  - vm_compute. reflexivity.
  - vm_compute. reflexivity.
  - repeat constructor.
  - exists s', evs. split; [exact Hrun|exact Hpc].
Defined.

Lemma p2o_midi_event_held_back_witness :
  exists s' evs,
    @full_run mock mock_event_time mock_event_bytes midi_idle_actions
      (midi_batch_system 0) = Some (s', evs) /\
    fs_locals s' = fs_locals (midi_batch_system 0) /\
    event_read (fs_locals s') = true.
Proof.
  destruct (full_after_run (midi_batch_actions 0)) as [evs0 Hrun0].
  destruct (@p2o_midi_event_held_back mock mock_event_time mock_event_bytes
              mock_event_bytes_size blank_engine mock_desc 2 mock_io None
              threads_ok (mock_system 2) mock_junk (midi_batch_actions 0)
              (midi_batch_system 0) evs0 0 midi_idle_actions)
    as (s' & evs & Hrun & Hl & Hheld & _).
  - apply mock_system_activated. lia.
  - exact mock_system_midi.
  - exact Hrun0.
  - vm_compute. discriminate.
  - vm_compute. reflexivity.
  - vm_compute. reflexivity.
  - vm_compute. reflexivity.
  - repeat constructor.
  - exists s', evs. split; [exact Hrun|]. split; [exact Hl|exact Hheld].
Defined.
(** ** Activation: what a call leaves behind *)

Section ActivationOutcomes.

Context `{!externals}.

Implicit Types (engine : ow_engine) (io : ow_io_buffers).

Lemma find_first_inv {A : Type} (P : A -> bool) (l : list A) (x : A) :
  List.find P l = Some x ->
  P x = true /\
  exists pre post, l = pre ++ x :: post /\ forall y, y ∈ pre -> P y = false.
Proof.
  induction l as [|y l IH]; simpl; [done|].
  destruct (P y) eqn:Hy.
  - intros [= ->]. split; [done|]. exists [], l. split; [done|].
    intros y Hin. by apply elem_of_nil in Hin.
  - intros Hx. destruct (IH Hx) as (Hpx & pre & post & -> & Hpre).
    split; [done|]. exists (y :: pre), post. split; [done|].
    intros y' Hin. apply elem_of_cons in Hin as [->|Hin]; [done|].
    by apply Hpre.
Qed.

(** X15: the outcomes of [ow_engine_activate_with_dll].  When a required
    member is missing, the call returns the kind of the first one
    missing in the order of the checks, has started no thread and leaves
    the status and the block counter as they were.  When none is
    missing, the counter is 0 and the status [READY] whether the threads
    could be created or not, [midi] says whether the MIDI members are
    there, and the result and the threads started are those of
    [threads_outcome]: [OW_GENERIC_ERROR] with no thread when the MIDI
    thread could not be created, [OW_GENERIC_ERROR] with the MIDI thread
    already running when it is the audio thread that could not, and
    [OW_OK] with both otherwise.  The sizes, the buffers and
    [p2o_audio_enabled] are never touched, the two arguments are stored
    in every case, and [ow_engine_activate] is the call without a
    DLL. *)
Theorem activate_outcomes engine io (dll_arg : option dll)
  (pt : pthread_results) :
  let r := ow_engine_activate_with_dll engine io dll_arg pt in
  match first_missing io dll_arg with
  | Some m =>
    member_required io dll_arg m = true /\ member_missing io m = true /\
    (exists pre post,
       check_order = pre ++ m :: post /\
       forall m', m' ∈ pre -> member_required io dll_arg m' = true ->
                  member_missing io m' = false) /\
    r.1.1 = missing_kind m /\ r.2 = [] /\
    status r.1.2 = status engine /\ frames r.1.2 = frames engine
  | None =>
    (forall m, member_required io dll_arg m = true ->
               member_missing io m = false) /\
    (r.1.1, r.2) = threads_outcome (negb (midi_members_absent io)) pt /\
    midi r.1.2 = negb (midi_members_absent io) /\
    status r.1.2 = OW_STATUS_READY /\ frames r.1.2 = 0
  end /\
  r.1.1 ∈ [OW_OK; OW_GENERIC_ERROR] ++ (missing_kind <$> members) /\
  (r.1.1 ∈ missing_kind <$> members ->
   r.2 = [] /\ status r.1.2 = status engine /\ frames r.1.2 = frames engine) /\
  (r.1.1 = OW_OK \/ r.1.1 = OW_GENERIC_ERROR ->
   status r.1.2 = OW_STATUS_READY /\ frames r.1.2 = 0) /\
  (r.1.1 = OW_OK ->
   r.2 = (if midi r.1.2 then [P2O_MIDI_THREAD] else []) ++
         [AUDIO_O2P_MIDI_THREAD]) /\
  (r.1.1 = OW_GENERIC_ERROR ->
   r.2 = (if midi r.1.2 && p2o_midi_thread_created pt
          then [P2O_MIDI_THREAD] else [])) /\
  io_buffers r.1.2 = Some io /\ dll_ow r.1.2 = dll_arg /\
  static_part r.1.2 = static_part engine /\
  usb_data_out r.1.2 = usb_data_out engine /\
  p2o_part r.1.2 = p2o_part engine /\
  p2o_audio_enabled r.1.2 = p2o_audio_enabled engine /\
  ow_engine_activate engine io pt =
    ow_engine_activate_with_dll engine io None pt.
Proof.
  intros r. split.
  { pose proof (activate_first_missing engine io dll_arg pt) as Hfirst.
    cbv zeta in Hfirst. fold r in Hfirst.
    destruct (first_missing io dll_arg) as [m|] eqn:Hm.
    - destruct (first_missing_some _ _ _ Hm) as [Hreq Hmiss].
      split; [done|]. split; [done|]. split; [|done].
      apply find_first_inv in Hm as (_ & pre & post & Horder & Hpre).
      exists pre, post. split; [done|]. intros m' Hin Hreq'.
      specialize (Hpre m' Hin). by rewrite Hreq' in Hpre.
    - split; [|done]. intros m. by apply first_missing_none. }
  subst r. unfold ow_engine_activate, ow_engine_activate_with_dll.
  repeat (case_match; simpl in *; simplify_eq).
  all: split; [repeat constructor|].
  all: split;
    [intros Hin;
     repeat (apply elem_of_cons in Hin as [Hin|Hin]; [by simplify_eq|]);
     try (by apply elem_of_nil in Hin); done|].
  all: split; [intros [?|?]; by simplify_eq|].
  all: split; [intros ?; by simplify_eq|].
  all: split; [intros ?; by simplify_eq|].
  all: done.
Qed.

End ActivationOutcomes.

(** ** Whole frames *)

(** X16: [ow_bytes_to_frame_bytes] rounds towards zero to a multiple of
    the frame size.  For arguments in the range of [int] whose quotient
    is in that range too, the result is [bytes] minus the remainder of
    the C division; it is a multiple of [bytes_per_frame], no further
    from zero than [bytes], less than a frame away from it, and a fixed
    point of the function.  A negative [bytes] is rounded up. *)
Theorem ow_bytes_to_frame_bytes_rounds (bytes bytes_per_frame : Z) :
  - 2 ^ 31 <= bytes < 2 ^ 31 -> - 2 ^ 31 <= bytes_per_frame < 2 ^ 31 ->
  bytes_per_frame <> 0 ->
  ~ (bytes = - 2 ^ 31 /\ bytes_per_frame = -1) ->
  let r := ow_bytes_to_frame_bytes bytes bytes_per_frame in
  r = bytes - Z.rem bytes bytes_per_frame /\
  Z.rem r bytes_per_frame = 0 /\
  Z.abs r <= Z.abs bytes /\
  Z.abs (bytes - r) < Z.abs bytes_per_frame /\
  (0 <= bytes -> 0 <= r <= bytes) /\ (bytes <= 0 -> bytes <= r <= 0) /\
  ow_bytes_to_frame_bytes r bytes_per_frame = r.
Proof.
  intros Hb Hf Hnz Hmin r.
  pose proof (Z.quot_rem' bytes bytes_per_frame) as Hqr.
  pose proof (Z.rem_bound_abs bytes bytes_per_frame Hnz) as Habs.
  pose proof (Z.rem_sign_mul bytes bytes_per_frame Hnz) as Hsign.
  assert (Hle : Z.abs (Z.rem bytes bytes_per_frame) <= Z.abs bytes).
  { rewrite <- Z.rem_abs by done. apply Z.rem_le; lia. }
  set (q := Z.quot bytes bytes_per_frame) in *.
  set (m := Z.rem bytes bytes_per_frame) in *.
  assert (Hrange : Z.abs (bytes - m) <= Z.abs bytes) by nia.
  assert (Hr : r = q * bytes_per_frame).
  { subst r. unfold ow_bytes_to_frame_bytes. fold q.
    apply to_int_small. lia. }
  assert (Hrm : r = bytes - m) by lia.
  assert (Hrem : Z.rem r bytes_per_frame = 0)
    by (rewrite Hr; apply Z.rem_mul; done).
  split; [done|]. split; [done|]. split; [lia|]. split; [lia|].
  split; [nia|]. split; [nia|].
  unfold ow_bytes_to_frame_bytes.
  rewrite Hr at 1. rewrite Z.quot_mul by done.
  rewrite <- Hr. apply to_int_small. lia.
Qed.

Lemma ow_bytes_to_frame_bytes_rounds_witness :
  ow_bytes_to_frame_bytes 125 8 = 125 - Z.rem 125 8 /\
  ow_bytes_to_frame_bytes (-125) 8 = -125 - Z.rem (-125) 8 /\
  - 125 <= ow_bytes_to_frame_bytes (-125) 8 <= 0.
Proof.
  split; [|split].
  - apply (ow_bytes_to_frame_bytes_rounds 125 8); lia.
  - apply (ow_bytes_to_frame_bytes_rounds (-125) 8); lia.
  - apply (ow_bytes_to_frame_bytes_rounds (-125) 8); lia.
Defined.

(** ** What the host sets *)

Section Settings.

Context `{!externals}.

Implicit Types (engine : ow_engine) (io : ow_io_buffers).

Lemma handle_events_settings cs engine engine' evs :
  libusb_handle_events_completed cs engine = Some (engine', evs) ->
  settings engine' = settings engine.
Proof.
  revert engine evs. induction cs as [|c cs IH]; intros engine evs; simpl;
    intros Hr.
  - by simplify_eq.
  - destruct (run_completion c engine) as [[e1 evs1]|] eqn:Hc;
      simpl in Hr; [|done].
    destruct (libusb_handle_events_completed cs e1) as [[e2 evs2]|] eqn:Hcs;
      simpl in Hr; [|done].
    simplify_eq. apply IH in Hcs. apply run_completion_sides in Hc as [Hc _].
    congruence.
Qed.

Lemma thread_step_settings env pc engine pc' engine' evs :
  run_audio_o2p_midi env pc engine = Some (pc', engine', evs) ->
  settings engine' = settings engine.
Proof.
  destruct pc; simpl; intros Hr.
  - case_match; by simplify_eq.
  - unfold prepare_cycle_in, prepare_cycle_out, prepare_cycle_in_midi in Hr.
    destruct (submit_transfer _ (err_in env) engine) as [e1 evs1] eqn:Hp1.
    destruct (submit_transfer _ (err_out env) e1) as [e2 evs2] eqn:Hp2.
    destruct (midi e2).
    + destruct (submit_transfer _ (err_in_midi env) e2) as [e3 evs3] eqn:Hp3.
      simplify_eq.
      apply submit_transfer_sides_eq in Hp1 as (_ & _ & _ & Hg1 & _).
      apply submit_transfer_sides_eq in Hp2 as (_ & _ & _ & Hg2 & _).
      apply submit_transfer_sides_eq in Hp3 as (_ & _ & _ & Hg3 & _).
      congruence.
    + simplify_eq.
      apply submit_transfer_sides_eq in Hp1 as (_ & _ & _ & Hg1 & _).
      apply submit_transfer_sides_eq in Hp2 as (_ & _ & _ & Hg2 & _).
      congruence.
  - ring_cases; sides_done.
  - case_match; by simplify_eq.
  - destruct (libusb_handle_events_completed (completed env) engine)
      as [[e1 evs1]|] eqn:Hh; simpl in Hr; [|done].
    simplify_eq. by eapply handle_events_settings.
  - case_match; by simplify_eq.
  - unfold ow_engine_set_status in Hr. ring_cases. sides_done.
  - by simplify_eq.
Qed.

Lemma sys_step_o2p_frame_size a s s' evs :
  sys_step a s = Some (s', evs) ->
  o2p_frame_size (sys_engine s') = o2p_frame_size (sys_engine s).
Proof.
  destruct a as [h|env|err]; simpl; intros Hs.
  - simplify_eq. simpl. destruct h; simpl; try done.
    + unfold ow_engine_set_p2o_audio_enable. by case_match.
    + by case_match.
  - destruct (run_audio_o2p_midi env _ _) as [[[pc e1] evs2]|] eqn:Ht;
      simpl in Hs; [|done].
    simplify_eq. simpl. apply thread_step_settings in Ht.
    unfold settings in Ht. congruence.
  - unfold p2o_midi_send, prepare_cycle_out_midi in Hs.
    destruct (submit_transfer _ err _) as [e1 evs1] eqn:Hp. simplify_eq.
    simpl. apply submit_transfer_sides_eq in Hp as (_ & _ & _ & Hg & _).
    change (settings e1 = settings (sys_engine s)) in Hg.
    unfold settings in Hg. congruence.
Qed.

Lemma sys_step_settings a s s' evs :
  sys_step a s = Some (s', evs) ->
  static_part (sys_engine s') = static_part (sys_engine s) /\
  midi (sys_engine s') = midi (sys_engine s) /\
  p2o_audio_enabled (sys_engine s') =
    last_enable [a] (p2o_audio_enabled (sys_engine s)) /\
  (is_Some (io_buffers (sys_engine s)) ->
   io_funs (sys_engine s') = io_funs (sys_engine s)).
Proof.
  destruct a as [h|env|err]; simpl; intros Hs.
  - simplify_eq. simpl. destruct h; simpl; try done.
    + unfold ow_engine_set_p2o_audio_enable, ow_engine_is_p2o_audio_enable.
      destruct (negb _) eqn:Hne; simpl; [done|].
      apply negb_false_iff, Z.eqb_eq in Hne. done.
    + unfold io_funs. destruct (io_buffers (sys_engine s)) as [io|] eqn:Hio;
        simpl; [|by rewrite Hio].
      repeat (split; [done|]). intros _. by destruct id.
  - destruct (run_audio_o2p_midi env _ _) as [[[pc e1] evs2]|] eqn:Ht;
      simpl in Hs; [|done].
    simplify_eq. simpl. apply thread_step_settings in Ht.
    unfold settings in Ht. split; [congruence|]. split; [congruence|].
    split; [congruence|]. intros _. congruence.
  - unfold p2o_midi_send, prepare_cycle_out_midi in Hs.
    destruct (submit_transfer _ err _) as [e1 evs1] eqn:Hp. simplify_eq.
    simpl. apply submit_transfer_sides_eq in Hp as (_ & _ & _ & Hg & _).
    change (settings e1 = settings (sys_engine s)) in Hg.
    unfold settings in Hg. split; [congruence|].
    split; [congruence|]. split; [congruence|]. intros _. congruence.
Qed.

Lemma last_enable_cons a (acts : list action) d :
  last_enable (a :: acts) d = last_enable acts (last_enable [a] d).
Proof. reflexivity. Qed.

(** Along a run, the host's settings change only through
    [ow_engine_set_p2o_audio_enable]. *)
Lemma sys_run_settings acts s0 s evs :
  sys_run acts s0 = Some (s, evs) ->
  is_Some (io_buffers (sys_engine s0)) ->
  p2o_audio_enabled (sys_engine s) =
    last_enable acts (p2o_audio_enabled (sys_engine s0)) /\
  static_part (sys_engine s) = static_part (sys_engine s0) /\
  o2p_frame_size (sys_engine s) = o2p_frame_size (sys_engine s0) /\
  midi (sys_engine s) = midi (sys_engine s0) /\
  io_funs (sys_engine s) = io_funs (sys_engine s0).
Proof.
  revert s0 s evs.
  induction acts as [|a acts IH]; intros s0 s evs Hrun Hio; simpl in Hrun.
  - by simplify_eq.
  - destruct (sys_step a s0) as [[s1 evs1]|] eqn:Hs; simpl in Hrun; [|done].
    destruct (sys_run acts s1) as [[s2 evs2]|] eqn:Hr; simpl in Hrun; [|done].
    simplify_eq.
    pose proof (sys_step_o2p_frame_size _ _ _ _ Hs) as Hfs.
    apply sys_step_settings in Hs as (Hst & Hm & Hen & Hf).
    specialize (Hf Hio).
    destruct (IH s1 s evs2 Hr) as (-> & -> & -> & -> & ->).
    { unfold io_funs in Hf. destruct Hio as [io0 Hio0]. rewrite Hio0 in Hf.
      destruct (io_buffers (sys_engine s1)); done. }
    rewrite last_enable_cons, Hen. done.
Qed.

Lemma sys_activated_fields fresh desc blocks io (dll_arg : option dll) pt s0 :
  sys_activated fresh desc blocks io dll_arg pt = Some s0 ->
  io_buffers (sys_engine s0) = Some io /\
  p2o_audio_enabled (sys_engine s0) = 0.
Proof.
  unfold sys_activated. intros Hact.
  destruct (ow_engine_init fresh OW_OK desc blocks) as [[] [e0|]] eqn:Hi;
    try done.
  unfold ow_engine_init in Hi. rewrite decide_True in Hi by done.
  assert (Hen : p2o_audio_enabled
                  (ow_engine_activate_with_dll e0 io dll_arg pt).1.2 =
                p2o_audio_enabled e0 /\
                io_buffers (ow_engine_activate_with_dll e0 io dll_arg pt).1.2 =
                Some io).
  { unfold ow_engine_activate_with_dll.
    repeat (case_match; simpl in *; simplify_eq); done. }
  destruct (ow_engine_activate_with_dll e0 io dll_arg pt) as [[[] e1] ths];
    try done.
  simplify_eq. simpl in *. destruct Hen as [Hen Hio]. split; [done|].
  by rewrite Hen.
Qed.

(** A call of [ow_engine_activate_with_dll] stores its two arguments
    whatever it returns, and clears [midi] when the six members that are
    always required are there and the three others are not. *)
Lemma activate_overwrites engine io (dll_arg : option dll) pt :
  let r := ow_engine_activate_with_dll engine io dll_arg pt in
  io_buffers r.1.2 = Some io /\ dll_ow r.1.2 = dll_arg /\
  (audio_members_set io -> midi_members_absent io = true ->
   midi r.1.2 = false).
Proof.
  intros r. subst r. split; [|split].
  - unfold ow_engine_activate_with_dll.
    repeat (case_match; simpl in *; simplify_eq); done.
  - unfold ow_engine_activate_with_dll.
    repeat (case_match; simpl in *; simplify_eq); done.
  - intros Hset Habs. apply audio_members_set_spec in Hset
      as (H1 & H2 & H3 & H4 & H5 & H6).
    unfold ow_engine_activate_with_dll. unfold midi_members_absent in Habs.
    rewrite H1, H2, H3, H4, H5, H6, Habs.
    repeat (case_match; simpl in *; simplify_eq); done.
Qed.

(** X17: the settings of a running engine are the host's.  In every run
    made of the host's calls of [ow_engine_set_status], [ow_engine_stop]
    and [ow_engine_set_p2o_audio_enable], of its operations on the
    rings, of steps of the audio thread with their callbacks and of MIDI
    submissions, the sizes (the two frame sizes among them) and the
    descriptor that [ow_engine_init] computed, the MIDI flag that
    activation set and the function pointers of the buffers that
    activation was given stay as they were, and [p2o_audio_enabled],
    which [ow_engine_init] sets to 0, is the argument of the last call
    of [ow_engine_set_p2o_audio_enable]: no thread of the engine writes
    any of them.  A call reads back the value it has set, and a call
    with the current value changes nothing.  A second call of
    [ow_engine_activate_with_dll] is not one of these calls: on the
    engine the run has reached it replaces the buffers by its argument
    whatever it returns, and clears the MIDI flag when the argument has
    the six members that are always required and none of the others. *)
Theorem host_settings_stable fresh desc blocks io (dll_arg : option dll) pt s0
  acts :
  sys_activated fresh desc blocks io dll_arg pt = Some s0 ->
  Forall (midi_expected (midi (sys_engine s0))) acts ->
  exists s evs,
    sys_run acts s0 = Some (s, evs) /\
    p2o_audio_enabled (sys_engine s) = last_enable acts 0 /\
    static_part (sys_engine s) = static_part (sys_engine s0) /\
    o2p_frame_size (sys_engine s) = o2p_frame_size (sys_engine s0) /\
    midi (sys_engine s) = midi (sys_engine s0) /\
    io_funs (sys_engine s) = io_funs (sys_engine s0) /\
    io_funs (sys_engine s) =
      Some (read_space io, write_space io, read io, write io, get_time io) /\
    (forall engine enabled,
       ow_engine_is_p2o_audio_enable
         (ow_engine_set_p2o_audio_enable engine enabled) = enabled /\
       ow_engine_set_p2o_audio_enable engine
         (ow_engine_is_p2o_audio_enable engine) = engine) /\
    (forall io' (dll' : option dll) pt',
       let r := ow_engine_activate_with_dll (sys_engine s) io' dll' pt' in
       io_buffers r.1.2 = Some io' /\
       io_funs r.1.2 =
         Some (read_space io', write_space io', read io', write io',
               get_time io') /\
       (audio_members_set io' -> midi_members_absent io' = true ->
        midi r.1.2 = false)).
Proof.
  intros Hact Hacts.
  destruct (sys_activated_fields _ _ _ _ _ _ _ Hact) as [Hio0 Hzero].
  destruct (sys_run_ready acts s0) as (s & evs & Hrun & _);
    [by eapply sys_activated_ready|done|].
  exists s, evs. split; [done|].
  destruct (sys_run_settings _ _ _ _ Hrun) as (Hen & Hst & Hfs & Hm & Hf).
  { by rewrite Hio0. }
  rewrite Hzero in Hen.
  split; [done|]. split; [done|]. split; [done|]. split; [done|].
  split; [done|]. split.
  { rewrite Hf. unfold io_funs. by rewrite Hio0. }
  split.
  - intros engine enabled.
    unfold ow_engine_set_p2o_audio_enable, ow_engine_is_p2o_audio_enable.
    rewrite Z.eqb_refl. simpl. split; [|done].
    destruct (negb _) eqn:Hne; simpl; [done|].
    apply negb_false_iff, Z.eqb_eq in Hne. done.
  - intros io' dll' pt' r.
    destruct (activate_overwrites (sys_engine s) io' dll' pt')
      as (Hio' & _ & Hmidi').
    fold r in Hio', Hmidi'. split; [done|]. split; [|done].
    unfold io_funs. by rewrite Hio'.
Qed.

End Settings.

Lemma host_settings_stable_witness :
  exists s evs,
    @sys_run mock disable_actions (mock_system 2) = Some (s, evs) /\
    p2o_audio_enabled (sys_engine s) = 0 /\
    midi (sys_engine s) = true /\
    midi (@ow_engine_activate_with_dll mock (sys_engine s) mock_io_no_midi
            (Some 0) threads_ok).1.2 = false.
Proof.
  destruct (@host_settings_stable mock blank_engine mock_desc 2 mock_io None
              threads_ok (mock_system 2) disable_actions)
    as (s & evs & Hrun & Hen & _ & _ & Hm & _ & _ & _ & Hre).
  - apply mock_system_activated. lia.
  - assert (Hm : midi (sys_engine (mock_system 2)) = true)
      by (vm_compute; reflexivity).
    rewrite Hm. repeat (constructor || intro); done.
  - exists s, evs. split; [exact Hrun|]. split; [rewrite Hen; reflexivity|].
    split; [rewrite Hm; vm_compute; reflexivity|].
    apply (Hre mock_io_no_midi (Some 0) threads_ok).
    + apply audio_members_set_spec. repeat split.
    + reflexivity.
Defined.

(** ** No call through a NULL pointer *)

Section NullSafety.

Context `{!externals}.

Implicit Types (engine : ow_engine) (io : ow_io_buffers).

(** X1: once [ow_engine_init] and [ow_engine_activate_with_dll] have
    returned [OW_OK], no step of the engine calls through a NULL member
    of the host's buffers, as long as the host keeps to its calls of
    [ow_engine_set_status], [ow_engine_stop] and
    [ow_engine_set_p2o_audio_enable] and to its operations on the rings:
    every run of these calls, of steps of the audio thread with their
    callbacks and of MIDI submissions, in which libusb completes MIDI-in
    transfers only when MIDI is enabled, goes through; it leaves the
    members that the engine needs set, the MIDI flag as activation set
    it and the function pointers as activation was given them.  A second
    call of [ow_engine_activate_with_dll] is not one of these calls, and
    does not keep the engine safe: called on the engine that the run has
    reached with buffers without [read_space], it returns
    [OW_INIT_ERROR_NO_READ_SPACE] and starts no thread, but has stored
    the buffers, and the next out cycle of the running audio thread
    calls the NULL pointer. *)
Theorem no_null_call_after_activation fresh desc blocks io
  (dll_arg : option dll) pt s0 acts :
  sys_activated fresh desc blocks io dll_arg pt = Some s0 ->
  Forall (midi_expected (midi (sys_engine s0))) acts ->
  exists s evs,
    sys_run acts s0 = Some (s, evs) /\ io_ready (sys_engine s) /\
    midi (sys_engine s) = midi (sys_engine s0) /\
    io_funs (sys_engine s) =
      Some (read_space io, write_space io, read io, write io, get_time io) /\
    (forall io' (dll' : option dll) pt' xfr err,
       is_null (read_space io') = true ->
       let r := ow_engine_activate_with_dll (sys_engine s) io' dll' pt' in
       r.1.1 = OW_INIT_ERROR_NO_READ_SPACE /\ r.2 = [] /\
       ~ io_ready r.1.2 /\ cb_xfr_out xfr err r.1.2 = None).
Proof.
  intros Hact Hacts.
  destruct (sys_activated_fields _ _ _ _ _ _ _ Hact) as [Hio0 _].
  destruct (sys_run_ready acts s0) as (s & evs & Hrun & Hready & Hmidi);
    [by eapply sys_activated_ready|done|].
  exists s, evs. split; [done|]. split; [done|]. split; [done|].
  destruct (sys_run_settings _ _ _ _ Hrun) as (_ & _ & _ & _ & Hf).
  { by rewrite Hio0. }
  split.
  { rewrite Hf. unfold io_funs. by rewrite Hio0. }
  intros io' dll' pt' xfr err Hnull r.
  destruct (rejected_activation_faults (sys_engine s) io' dll' pt' xfr err
              Hnull) as (Hk & Hth & Hio' & _ & Hcb).
  fold r in Hk, Hth, Hio', Hcb.
  split; [done|]. split; [done|]. split; [|done].
  intros (io1 & Hio1 & Hset & _).
  rewrite Hio' in Hio1. simplify_eq.
  apply audio_members_set_spec in Hset as (Hrs & _). congruence.
Qed.

End NullSafety.

Lemma no_null_call_after_activation_witness :
  exists s evs,
    @sys_run mock busy_actions (mock_system 2) = Some (s, evs) /\
    io_ready (sys_engine s) /\
    midi (sys_engine s) = midi (sys_engine (mock_system 2)).
Proof.
  destruct (@no_null_call_after_activation mock blank_engine mock_desc 2
              mock_io None threads_ok (mock_system 2) busy_actions)
    as (s & evs & Hrun & Hready & Hmidi & _).
  - apply mock_system_activated. lia.
  - assert (Hm : midi (sys_engine (mock_system 2)) = true)
      by (vm_compute; reflexivity).
    rewrite Hm. repeat (constructor || intro); done.
  - exists s, evs. split; [exact Hrun|]. split; [exact Hready|exact Hmidi].
Defined.

(** ** Re-arming *)

Section Rearm.

Context `{!externals}.

Implicit Types (engine : ow_engine) (io : ow_io_buffers).





End Rearm.

(** ** The libusb set-up *)


Lemma find_device_calls env bus address devices i nm :
  Forall (fun c => exists j, call_device c = Some j /\
                             (i <= j < i + length devices)%nat)
    (find_device env bus address i devices nm).2.
Proof.
  revert i nm.
  induction devices as [|device devices IH]; intros i nm; simpl.
  { constructor. }
  assert (Hrest : forall nm',
            Forall (fun c => exists j, call_device c = Some j /\
                                       (i <= j < i + S (length devices))%nat)
              (find_device env bus address (S i) devices nm').2).
  { intros nm'. eapply Forall_impl; [apply IH|].
    intros c (j & Hc & Hj). exists j. split; [done|lia]. }
  assert (Hi : forall c, call_device c = Some i ->
            exists j, call_device c = Some j /\
                      (i <= j < i + S (length devices))%nat).
  { intros c Hc. exists i. split; [done|lia]. }
  destruct (descriptor_err device =? 0); simpl.
  - destruct (ow_is_valid_device env (idVendor device) (idProduct device) nm)
      as [valid nm'] eqn:Hvalid.
    destruct valid; simpl.
    + destruct (bus_number device =? bus); simpl.
      * destruct (device_address device =? address); simpl.
        -- repeat (constructor; [by apply Hi|]). constructor.
        -- specialize (Hrest nm').
           destruct (find_device env bus address (S i) devices nm')
             as [[? ?] ?].
           repeat (constructor; [by apply Hi|]). exact Hrest.
      * specialize (Hrest nm').
        destruct (find_device env bus address (S i) devices nm')
          as [[? ?] ?].
        repeat (constructor; [by apply Hi|]). exact Hrest.
    + specialize (Hrest nm').
      destruct (find_device env bus address (S i) devices nm')
        as [[? ?] ?].
      repeat (constructor; [by apply Hi|]). exact Hrest.
  - specialize (Hrest nm).
    destruct (find_device env bus address (S i) devices nm) as [[? ?] ?].
    repeat (constructor; [by apply Hi|]). exact Hrest.
Qed.

Lemma find_device_no_shutdown env bus address devices i nm :
  Forall (fun c => is_shutdown_call c = false)
    (find_device env bus address i devices nm).2.
Proof.
  eapply Forall_impl; [apply find_device_calls|].
  intros c (j & Hc & _). by destruct c.
Qed.

Ltac first_match_rest Hrest Hi :=
  let Hh := fresh "Hh" in
  let Hopen := fresh "Hopen" in
  let Hcalls := fresh "Hcalls" in
  destruct Hrest as (Hh & Hopen & Hcalls);
  simpl in Hh, Hopen, Hcalls |- *;
  split; [done|];
  split; [repeat (apply elem_of_cons; right); exact Hopen|];
  repeat (constructor; [by apply Hi|]); exact Hcalls.

(** The loop of lines 468 to 490 stops at the first device that passes
    the test of lines 479 to 481. *)
Lemma find_device_first_match env bus address pre device post i nm :
  Forall (fun d => forall nm', device_matches env bus address d nm' = false)
    pre ->
  (forall nm', device_matches env bus address device nm' = true) ->
  (find_device env bus address i (pre ++ device :: post) nm).1.1 =
    open_handle device /\
  LIBUSB_OPEN (i + length pre) ∈
    (find_device env bus address i (pre ++ device :: post) nm).2 /\
  Forall (fun c => exists j, call_device c = Some j /\
                             (i <= j <= i + length pre)%nat)
    (find_device env bus address i (pre ++ device :: post) nm).2.
Proof.
  intros Hpre Hdev. revert i nm.
  induction Hpre as [|d pre Hd Hpre IH]; intros i nm.
  - specialize (Hdev nm). unfold device_matches in Hdev.
    cbn [app find_device length].
    destruct (descriptor_err device =? 0); [|done].
    destruct (ow_is_valid_device env (idVendor device) (idProduct device) nm)
      as [valid nm']; simpl in Hdev. destruct valid; [|done].
    destruct (bus_number device =? bus); [|done].
    destruct (device_address device =? address); [|done].
    simpl. rewrite Nat.add_0_r. split; [done|]. split.
    { repeat constructor. }
    repeat (constructor; [exists i; split; [done|lia]|]). constructor.
  - assert (Hrest : forall nm',
      (find_device env bus address (S i) (pre ++ device :: post) nm').1.1 =
        open_handle device /\
      LIBUSB_OPEN (i + length (d :: pre)) ∈
        (find_device env bus address (S i) (pre ++ device :: post) nm').2 /\
      Forall (fun c => exists j, call_device c = Some j /\
                                 (i <= j <= i + length (d :: pre))%nat)
        (find_device env bus address (S i) (pre ++ device :: post) nm').2).
    { intros nm'. destruct (IH (S i) nm') as (Hh & Hopen & Hcalls).
      split; [done|]. split.
      { replace (i + length (d :: pre))%nat with (S i + length pre)%nat
          by (simpl; lia). done. }
      eapply Forall_impl; [exact Hcalls|].
      intros c (j & Hc & Hj). exists j. split; [done|]. simpl. lia. }
    assert (Hi : forall c, call_device c = Some i ->
              exists j, call_device c = Some j /\
                        (i <= j <= i + length (d :: pre))%nat).
    { intros c Hc. exists i. split; [done|lia]. }
    specialize (Hd nm). unfold device_matches in Hd.
    change ((d :: pre) ++ device :: post)
      with (d :: (pre ++ device :: post)).
    cbn [find_device].
    destruct (descriptor_err d =? 0); simpl.
    + destruct (ow_is_valid_device env (idVendor d) (idProduct d) nm)
        as [valid nm']; simpl in Hd.
      destruct valid; simpl.
      * destruct (bus_number d =? bus); simpl.
        -- destruct (device_address d =? address); [done|]. simpl.
           specialize (Hrest nm').
           destruct (find_device env bus address (S i)
                       (pre ++ device :: post) nm') as [[? ?] ?].
           first_match_rest Hrest Hi.
        -- specialize (Hrest nm').
           destruct (find_device env bus address (S i)
                       (pre ++ device :: post) nm') as [[? ?] ?].
           first_match_rest Hrest Hi.
      * specialize (Hrest nm').
        destruct (find_device env bus address (S i)
                    (pre ++ device :: post) nm') as [[? ?] ?].
        first_match_rest Hrest Hi.
    + specialize (Hrest nm).
      destruct (find_device env bus address (S i)
                  (pre ++ device :: post) nm) as [[? ?] ?].
      first_match_rest Hrest Hi.
Qed.

Lemma find_desc_defined descs nm cur :
  is_Some (find_desc descs (Some nm) cur).
Proof.
  induction descs as [|d descs IH]; simpl; [done|].
  case_bool_decide; [done|exact IH].
Qed.


Lemma find_desc_match pre d post nm cur :
  Forall (fun d => name d <> nm) pre -> name d = nm ->
  find_desc (pre ++ d :: post) (Some nm) cur = Some (Some d).
Proof.
  intros Hpre Hd. induction Hpre as [|d' pre Hd' _ IH]; simpl.
  - by rewrite bool_decide_eq_true_2.
  - by rewrite bool_decide_eq_false_2.
Qed.


Lemma try_call_first_failure env k0 c kind rest :
  configure_calls !! k0 = Some c -> call_kind c = kind ->
  c <> LIBUSB_ALLOC_TRANSFER ->
  first_failure env (S k0) rest ->
  first_failure env k0 (try_call env c kind rest).
Proof.
  intros Hc Hkind Halloc (Hn & Hle & Hcalls & Hok & Hret & Herr).
  assert (Hcall : call_ok env k0 = (libusb_err env c =? LIBUSB_SUCCESS)).
  { unfold call_ok. rewrite Hc. by destruct c. }
  unfold try_call.
  destruct (libusb_err env c =? LIBUSB_SUCCESS) eqn:Hc0; simpl.
  - unfold first_failure. cbn [fst snd length].
    split; [lia|]. split; [lia|]. split.
    { rewrite (drop_S _ c k0) by done. cbn [firstn]. f_equal. exact Hcalls. }
    split.
    { intros [|k] Hk; [by rewrite Nat.add_0_r|].
      replace (k0 + S k)%nat with (S k0 + k)%nat by lia. apply Hok. lia. }
    split.
    { intros Hr. destruct (Hret Hr) as [? ?]. split; [lia|done]. }
    intros Hr. destruct (Herr Hr) as (c' & Hc' & Hf & Hk).
    exists c'.
    replace (k0 + S (length rest.2) - 1)%nat
      with (S k0 + length rest.2 - 1)%nat by lia.
    done.
  - unfold first_failure. cbn [fst snd length].
    apply lookup_lt_Some in Hc as Hlt.
    assert (Hlen : length configure_calls = 15%nat) by reflexivity.
    split; [lia|]. split; [lia|]. split.
    { by rewrite (drop_S _ c k0). }
    split; [intros k ?; lia|].
    split; [intros ->; by destruct c|].
    intros _. exists c. replace (k0 + 1 - 1)%nat with k0 by lia.
    split; [done|]. split; [congruence|done].
Qed.

Lemma prepare_transfers_first_failure env :
  first_failure env 11
    (let '(err, calls) := prepare_transfers env in
     (if negb (LIBUSB_SUCCESS =? err) then OW_USB_ERROR_CANT_PREPARE_TRANSFER
      else OW_OK,
      calls)).
Proof.
  unfold prepare_transfers.
  destruct (libusb_alloc_transfer_ok env 0) eqn:H0;
    [destruct (libusb_alloc_transfer_ok env 1) eqn:H1;
     [destruct (libusb_alloc_transfer_ok env 2) eqn:H2;
      [destruct (libusb_alloc_transfer_ok env 3) eqn:H3|]|]|].
  all: cbn [negb fst snd].
  all: unfold first_failure; cbn [fst snd length].
  all: split; [lia|]; split; [lia|]; split; [reflexivity|].
  all: split;
    [intros k Hk; destruct k as [|[|[|[|k]]]]; simpl in Hk; try lia;
     unfold call_ok; simpl; assumption|].
  all: split; [intros Hr; try done|].
  all: intros Hr; try done.
  all: by eexists.
Qed.

(** The calls of lines 520 to 590 are a prefix of [configure_calls] that
    ends with the first call that fails, and the kind of that call is
    the value of [ret]. *)
Lemma configure_first_failure env : first_failure env 0 (configure env).
Proof.
  unfold configure.
  repeat (apply try_call_first_failure; [reflexivity|reflexivity|done|]).
  apply prepare_transfers_first_failure.
Qed.

Lemma first_failure_no_shutdown env r :
  first_failure env 0 r ->
  Forall (fun c => is_shutdown_call c = false) r.2 /\
  r.1 ∈ [OW_OK; OW_USB_ERROR_CANT_SET_USB_CONFIG; OW_USB_ERROR_CANT_CLAIM_IF;
         OW_USB_ERROR_CANT_SET_ALT_SETTING; OW_USB_ERROR_CANT_CLEAR_EP;
         OW_USB_ERROR_CANT_PREPARE_TRANSFER].
Proof.
  intros (Hn & Hle & Hcalls & _ & _ & Herr). split.
  - rewrite Hcalls. apply Forall_take. unfold configure_calls. simpl.
    repeat constructor.
  - destruct (decide (r.1 = OW_OK)) as [->|Hr]; [repeat constructor|].
    destruct (Herr Hr) as (c & Hc & _ & ->).
    apply list_elem_of_lookup_2 in Hc. unfold configure_calls in Hc.
    repeat (apply elem_of_cons in Hc as [->|Hc];
            [simpl; repeat (constructor || (apply elem_of_cons; right))|]).
    by apply elem_of_nil in Hc.
Qed.


Section InitWholeSpec.

Context `{!externals}.

Implicit Types (fresh : ow_engine) (fresh_usb : usb_fields).

Lemma ow_engine_init_ok fresh d blocks :
  (ow_engine_init fresh OW_OK d blocks).1 = OW_OK /\
  is_Some (ow_engine_init fresh OW_OK d blocks).2 /\
  (forall engine, (ow_engine_init fresh OW_OK d blocks).2 = Some engine ->
                  device_desc engine = d).
Proof.
  unfold ow_engine_init. rewrite decide_True by done.
  cbn [fst snd]. split; [done|]. split; [by eexists|].
  intros engine [= <-]. reflexivity.
Qed.

(** The paths through [ow_engine_init]. *)
Lemma init_whole_cases env fresh_usb fresh bus address blocks :
  let init := ow_engine_init_whole env fresh_usb fresh bus address blocks in
  let pre := search_calls env bus address in
  (libusb_init_err env <> LIBUSB_SUCCESS /\
   init = Some (OW_USB_ERROR_LIBUSB_INIT_FAILED, None,
                [LIBUSB_INIT; LIBUSB_CLOSE (device_handle fresh_usb);
                 LIBUSB_EXIT; FREE_ENGINE])) \/
  (libusb_init_err env = LIBUSB_SUCCESS /\
   found_handle env bus address = None /\
   init = Some (OW_USB_ERROR_CANT_FIND_DEV, None,
                pre ++ [LIBUSB_CLOSE None; LIBUSB_EXIT; FREE_ENGINE])) \/
  (exists h,
     libusb_init_err env = LIBUSB_SUCCESS /\
     found_handle env bus address = Some h /\
     ((find_desc (OB_DEVICE_DESCS env) (found_name env bus address)
         (device_desc_ptr fresh_usb) = None /\ init = None) \/
      (find_desc (OB_DEVICE_DESCS env) (found_name env bus address)
         (device_desc_ptr fresh_usb) = Some None /\
       init = Some (OW_USB_ERROR_CANT_FIND_DEV, None,
                    pre ++ [LIBUSB_CLOSE (Some h); LIBUSB_EXIT;
                            FREE_ENGINE])) \/
      (exists d,
         find_desc (OB_DEVICE_DESCS env) (found_name env bus address)
           (device_desc_ptr fresh_usb) = Some (Some d) /\
         ((configure env).1 = OW_OK /\
          init = Some (OW_OK, (ow_engine_init fresh OW_OK d blocks).2,
                       pre ++ (configure env).2) \/
          (configure env).1 <> OW_OK /\
          init = Some ((configure env).1, None,
                       pre ++ (configure env).2 ++
                       [LIBUSB_CLOSE (Some h); LIBUSB_EXIT;
                        FREE_ENGINE]))))).
Proof.
  intros init pre. subst init pre.
  unfold ow_engine_init_whole, usb_setup, search_calls, found_handle,
    found_name.
  destruct (libusb_init_err env =? LIBUSB_SUCCESS) eqn:Hinit;
    cbn [negb].
  2: { left. split; [by apply Z.eqb_neq|]. reflexivity. }
  apply Z.eqb_eq in Hinit. right.
  destruct (find_device env bus address 0 (libusb_device_list env) None)
    as [[h nm] calls].
  cbn [fst snd]. destruct h as [h|]; cbn [is_null].
  2: { left. split; [done|]. split; [done|].
       cbn [mbind option_bind]. rewrite decide_False by done.
       unfold usb_shutdown. cbn [device_handle].
       by rewrite <- !app_assoc. }
  right. exists h. split; [done|]. split; [done|].
  destruct (find_desc (OB_DEVICE_DESCS env) nm (device_desc_ptr fresh_usb))
    as [[d|]|]; cbn [mbind option_bind is_null].
  - right. right. exists d. split; [done|].
    destruct (configure env) as [ret calls'] eqn:Hconf. cbn [fst snd].
    cbn [mbind option_bind].
    destruct (decide (ret = OW_OK)) as [->|Hret].
    + left. split; [done|]. cbn [device_desc_ptr mbind option_bind].
      destruct (ow_engine_init_ok fresh d blocks) as (Hok & _ & _).
      destruct (ow_engine_init fresh OW_OK d blocks) as [r e].
      simpl in Hok. subst r. cbn [snd]. by rewrite <- !app_assoc.
    + right. split; [done|]. unfold usb_shutdown. cbn [device_handle].
      by rewrite <- !app_assoc.
  - right. left. split; [done|]. rewrite decide_False by done.
    unfold usb_shutdown. cbn [device_handle]. by rewrite <- !app_assoc.
  - left. done.
Qed.

End InitWholeSpec.


Section InitWholeTheorems.

Context `{!externals}.

Implicit Types (fresh : ow_engine) (fresh_usb : usb_fields).

Lemma search_calls_no_shutdown env bus address :
  Forall (fun c => is_shutdown_call c = false) (search_calls env bus address).
Proof.
  unfold search_calls. repeat (apply Forall_app; split).
  - by repeat constructor.
  - apply find_device_no_shutdown.
  - by repeat constructor.
Qed.


(** X20: the order of the configuration calls (lines 520 to 590).  When
    [ow_engine_init] returns neither [LIBUSB_INIT_FAILED] nor
    [CANT_FIND_DEV], a device has been opened, and what follows the
    search is a prefix of [configure_calls]: every call but the last has
    succeeded, and no call is made after a failure but those of
    [usb_shutdown], on the opened handle, and [free].  The result is
    [OW_OK] when all fifteen calls were made and the last succeeded, and
    otherwise the kind of the call that failed. *)
Theorem init_configuration_order env fresh_usb fresh bus address blocks ret e
  calls :
  ow_engine_init_whole env fresh_usb fresh bus address blocks =
    Some (ret, e, calls) ->
  ret <> OW_USB_ERROR_LIBUSB_INIT_FAILED ->
  ret <> OW_USB_ERROR_CANT_FIND_DEV ->
  exists n h,
    found_handle env bus address = Some h /\
    calls =
      search_calls env bus address ++ take n configure_calls ++
      (if decide (ret = OW_OK) then []
       else [LIBUSB_CLOSE (Some h); LIBUSB_EXIT; FREE_ENGINE]) /\
    (0 < n <= 15)%nat /\
    (forall k, (S k < n)%nat -> call_ok env k = true) /\
    (ret = OW_OK -> n = 15%nat /\ call_ok env 14 = true) /\
    (ret <> OW_OK ->
     exists c, configure_calls !! (n - 1)%nat = Some c /\
               call_ok env (n - 1) = false /\ ret = call_kind c).
Proof.
  intros Hrun Hinit_failed Hfind.
  destruct (configure_first_failure env)
    as (Hn & Hle & Hcalls & Hok & Hret & Herr).
  rewrite drop_0 in Hcalls.
  destruct (init_whole_cases env fresh_usb fresh bus address blocks)
    as [[_ Hr]|[(_ & _ & Hr)|(h & _ & Hh & Hcase)]];
    [congruence|congruence|].
  destruct Hcase as [[_ Hr]|[[_ Hr]|(d & _ & Hcase)]];
    [congruence|congruence|].
  exists (length (configure env).2), h. split; [done|].
  destruct Hcase as [[Hc Hr]|[Hc Hr]]; rewrite Hr in Hrun; simplify_eq.
  - rewrite decide_True by done. rewrite app_nil_r, <- Hcalls.
    split; [done|]. split; [lia|]. split; [exact Hok|]. split; [|done].
    intros _. destruct (Hret Hc). split; [lia|done].
  - rewrite decide_False by done. rewrite <- Hcalls.
    split; [done|]. split; [lia|]. split; [exact Hok|]. split; [done|].
    intros _. destruct (Herr Hc) as (c & Hlook & Hf & Hk). by exists c.
Qed.

(** X21: the first device that passes the test of lines 479 to 481
    decides.  The devices before it are examined, [libusb_open] is
    called once, on that device, and no later device is looked at,
    whatever [libusb_open] has answered.  When it has left the handle
    NULL, [ow_engine_init] returns [OW_USB_ERROR_CANT_FIND_DEV], not
    [OW_USB_ERROR_CANT_OPEN_DEV], and [usb_shutdown] calls
    [libusb_close] on NULL. *)
Theorem init_first_match_decides env fresh_usb fresh bus address blocks pre
  device post :
  libusb_init_err env = LIBUSB_SUCCESS ->
  libusb_device_list env = pre ++ device :: post ->
  Forall (fun d => forall nm, device_matches env bus address d nm = false)
    pre ->
  (forall nm, device_matches env bus address device nm = true) ->
  found_handle env bus address = open_handle device /\
  LIBUSB_OPEN (length pre) ∈ search_calls env bus address /\
  (forall c j, c ∈ search_calls env bus address ->
               call_device c = Some j -> (j <= length pre)%nat) /\
  (open_handle device = None ->
   ow_engine_init_whole env fresh_usb fresh bus address blocks =
     Some (OW_USB_ERROR_CANT_FIND_DEV, None,
           search_calls env bus address ++
           [LIBUSB_CLOSE None; LIBUSB_EXIT; FREE_ENGINE])) /\
  (forall ret e calls,
     ow_engine_init_whole env fresh_usb fresh bus address blocks =
       Some (ret, e, calls) ->
     exists rest,
       calls = search_calls env bus address ++ rest /\
       Forall (fun c => call_device c = None) rest).
Proof.
  intros Hinit Hlist Hpre Hdev.
  destruct (find_device_first_match env bus address pre device post 0 None
              Hpre Hdev) as (Hh & Hopen & Hcalls).
  rewrite <- Hlist in Hh, Hopen, Hcalls. simpl in Hopen.
  split; [exact Hh|]. split.
  { unfold search_calls. apply elem_of_app. right. apply elem_of_app.
    by left. }
  split.
  { intros c j Hc Hj. unfold search_calls in Hc.
    apply elem_of_app in Hc as [Hc|Hc].
    { repeat (apply elem_of_cons in Hc as [->|Hc]; [done|]).
      by apply elem_of_nil in Hc. }
    apply elem_of_app in Hc as [Hc|Hc].
    - rewrite Forall_forall in Hcalls.
      destruct (Hcalls c Hc) as (j' & Hj' & Hle). simplify_eq. lia.
    - apply elem_of_cons in Hc as [->|Hc]; [done|].
      by apply elem_of_nil in Hc. }
  destruct (first_failure_no_shutdown env _ (configure_first_failure env))
    as [_ Hkind].
  assert (Hconf : Forall (fun c => call_device c = None) (configure env).2).
  { destruct (configure_first_failure env) as (_ & _ & Hc & _).
    rewrite Hc. apply Forall_take. rewrite drop_0. by repeat constructor. }
  destruct (init_whole_cases env fresh_usb fresh bus address blocks)
    as [[Hne _]|[(_ & Hnone & Hr)|(h & _ & Hsome & Hcase)]]; [done| |].
  - split; [intros _; exact Hr|].
    intros ret e calls Hrun. rewrite Hr in Hrun. simplify_eq.
    eexists. split; [done|]. by repeat constructor.
  - split; [intros Hnull; unfold found_handle in *; congruence|].
    intros ret e calls Hrun.
    destruct Hcase as [[_ Hr]|[[_ Hr]|(d & _ & [[_ Hr]|[_ Hr]])]];
      rewrite Hr in Hrun; simplify_eq.
    + eexists. split; [done|]. by repeat constructor.
    + eexists. split; [done|]. done.
    + eexists. split; [done|]. apply Forall_app. split; [done|].
      by repeat constructor.
Qed.


(** X23: what [usb_shutdown] closes.  Whenever [ow_engine_init] fails, its
    last calls are [libusb_close], [libusb_exit] and [free].  The handle
    given to [libusb_close] is the one the search has left, which is
    NULL when no device was opened; when it is [libusb_init] that has
    failed, nothing else has been called and the handle is what [malloc]
    left in the field, which line 466 has not yet cleared. *)
Theorem init_shutdown_handle env fresh_usb fresh bus address blocks ret e
  calls :
  ow_engine_init_whole env fresh_usb fresh bus address blocks =
    Some (ret, e, calls) ->
  ret <> OW_OK ->
  exists pre,
    calls =
      pre ++ [LIBUSB_CLOSE (shutdown_handle env fresh_usb bus address);
              LIBUSB_EXIT; FREE_ENGINE] /\
    Forall (fun c => is_shutdown_call c = false) pre /\
    (libusb_init_err env <> LIBUSB_SUCCESS ->
     ret = OW_USB_ERROR_LIBUSB_INIT_FAILED /\ pre = [LIBUSB_INIT] /\
     shutdown_handle env fresh_usb bus address = device_handle fresh_usb) /\
    (libusb_init_err env = LIBUSB_SUCCESS ->
     ret <> OW_USB_ERROR_LIBUSB_INIT_FAILED /\
     shutdown_handle env fresh_usb bus address =
       found_handle env bus address).
Proof.
  intros Hrun Hret.
  pose proof (search_calls_no_shutdown env bus address) as Hpre.
  destruct (first_failure_no_shutdown env _ (configure_first_failure env))
    as [Hconf Hkind].
  assert (Hsh1 : libusb_init_err env <> LIBUSB_SUCCESS ->
                 shutdown_handle env fresh_usb bus address =
                 device_handle fresh_usb).
  { intros Hne. unfold shutdown_handle.
    by rewrite (proj2 (Z.eqb_neq _ _) Hne). }
  assert (Hsh2 : libusb_init_err env = LIBUSB_SUCCESS ->
                 shutdown_handle env fresh_usb bus address =
                 found_handle env bus address).
  { intros He. unfold shutdown_handle. by rewrite He. }
  destruct (init_whole_cases env fresh_usb fresh bus address blocks)
    as [[Hinit Hr]|[(Hinit & Hh & Hr)|(h & Hinit & Hh & Hcase)]].
  - rewrite Hr in Hrun. simplify_eq. rewrite (Hsh1 Hinit).
    exists [LIBUSB_INIT]. split; [done|]. split; [by repeat constructor|].
    split; done.
  - rewrite Hr in Hrun. simplify_eq. rewrite (Hsh2 Hinit), Hh.
    exists (search_calls env bus address).
    split; [done|]. split; [done|]. split; done.
  - rewrite (Hsh2 Hinit), Hh.
    destruct Hcase as [[_ Hr]|[[_ Hr]|(d & _ & [[_ Hr]|[Hc Hr]])]];
      rewrite Hr in Hrun; simplify_eq.
    + exists (search_calls env bus address).
      split; [done|]. split; [done|]. split; done.
    + exists (search_calls env bus address ++ (configure env).2).
      split; [by rewrite <- app_assoc|]. split; [by apply Forall_app|].
      split; [done|]. intros _. split; [|done].
      intros Hk. rewrite Hk in Hkind.
      repeat (apply elem_of_cons in Hkind as [Hkind|Hkind]; [done|]).
      by apply elem_of_nil in Hkind.
Qed.

End InitWholeTheorems.


Lemma init_configuration_order_witness :
  exists n h,
    found_handle
      (mock_usb_env (two_devices (Some 1)) [mock_desc]
         (only_fails (LIBUSB_CLAIM_INTERFACE 2))) 1 5 = Some h /\
    (0 < n <= 15)%nat /\
    exists c, configure_calls !! (n - 1)%nat = Some c /\
              OW_USB_ERROR_CANT_CLAIM_IF = call_kind c.
Proof.
  destruct (@init_configuration_order mock
              (mock_usb_env (two_devices (Some 1)) [mock_desc]
                 (only_fails (LIBUSB_CLAIM_INTERFACE 2)))
              mock_fresh_usb blank_engine 1 5 2 OW_USB_ERROR_CANT_CLAIM_IF None
              ([LIBUSB_INIT; LIBUSB_GET_DEVICE_LIST;
                LIBUSB_GET_DEVICE_DESCRIPTOR 0; OW_IS_VALID_DEVICE 0;
                LIBUSB_GET_DEVICE_DESCRIPTOR 1; OW_IS_VALID_DEVICE 1;
                LIBUSB_GET_BUS_NUMBER 1; LIBUSB_GET_DEVICE_ADDRESS 1;
                LIBUSB_OPEN 1; LIBUSB_FREE_DEVICE_LIST;
                LIBUSB_SET_CONFIGURATION 1; LIBUSB_CLAIM_INTERFACE 1;
                LIBUSB_SET_INTERFACE_ALT_SETTING 1 3;
                LIBUSB_CLAIM_INTERFACE 2; LIBUSB_CLOSE (Some 1); LIBUSB_EXIT;
                FREE_ENGINE]))
    as (n & h & Hh & _ & Hn & _ & _ & Herr).
  - unfold ow_engine_init_whole.
    replace (usb_setup _ _ _ _)
      with (Some (OW_USB_ERROR_CANT_CLAIM_IF,
                  {| device_handle := Some 1;
                     device_desc_ptr := Some mock_desc |},
                  [LIBUSB_INIT; LIBUSB_GET_DEVICE_LIST;
                   LIBUSB_GET_DEVICE_DESCRIPTOR 0; OW_IS_VALID_DEVICE 0;
                   LIBUSB_GET_DEVICE_DESCRIPTOR 1; OW_IS_VALID_DEVICE 1;
                   LIBUSB_GET_BUS_NUMBER 1; LIBUSB_GET_DEVICE_ADDRESS 1;
                   LIBUSB_OPEN 1; LIBUSB_FREE_DEVICE_LIST;
                   LIBUSB_SET_CONFIGURATION 1; LIBUSB_CLAIM_INTERFACE 1;
                   LIBUSB_SET_INTERFACE_ALT_SETTING 1 3;
                   LIBUSB_CLAIM_INTERFACE 2]))
      by (vm_compute; reflexivity).
    reflexivity.
  - done.
  - done.
  - exists n, h. split; [exact Hh|]. split; [exact Hn|].
    destruct Herr as (c & Hc & _ & Hk); [done|]. by exists c.
Defined.

Lemma init_first_match_decides_witness :
  @ow_engine_init_whole mock
    (mock_usb_env (two_devices None) [mock_desc] no_failure)
    mock_fresh_usb blank_engine 1 5 2 =
  Some (OW_USB_ERROR_CANT_FIND_DEV, None,
        search_calls (mock_usb_env (two_devices None) [mock_desc] no_failure)
          1 5 ++
        [LIBUSB_CLOSE None; LIBUSB_EXIT; FREE_ENGINE]).
Proof.
  refine (proj1 (proj2 (proj2 (proj2
    (@init_first_match_decides mock
       (mock_usb_env (two_devices None) [mock_desc] no_failure)
       mock_fresh_usb blank_engine 1 5 2 [other_usb_device]
       (mock_usb_device None) [mock_usb_device (Some 3)] _ _ _ _)))) _).
  - reflexivity.
  - reflexivity.
  - constructor; [|constructor]. intros nm. reflexivity.
  - intros nm. reflexivity.
  - reflexivity.
Defined.


Lemma init_shutdown_handle_witness :
  exists pre,
    [LIBUSB_INIT; LIBUSB_CLOSE (Some 99); LIBUSB_EXIT; FREE_ENGINE] =
    pre ++
    [LIBUSB_CLOSE
       (shutdown_handle
          (mock_usb_env (two_devices (Some 1)) [mock_desc]
             (only_fails LIBUSB_INIT))
          mock_fresh_usb 1 5);
     LIBUSB_EXIT; FREE_ENGINE].
Proof.
  destruct (@init_shutdown_handle mock
              (mock_usb_env (two_devices (Some 1)) [mock_desc]
                 (only_fails LIBUSB_INIT))
              mock_fresh_usb blank_engine 1 5 2
              OW_USB_ERROR_LIBUSB_INIT_FAILED None
              [LIBUSB_INIT; LIBUSB_CLOSE (Some 99); LIBUSB_EXIT; FREE_ENGINE])
    as (pre & Hcalls & _).
  - reflexivity.
  - done.
  - by exists pre.
Defined.
